(* ===== verification/_CoqProject ===== *)
-Q . S2P
Prelude.v
Args.v
Record.v
Posted.v
Ring.v
RingConc.v
Area.v
Timestamp.v
Tso.v
Post.v
Registry.v
Engine.v
EngineFacts.v
Sample.v
RegistryFacts.v
Dump.v
EngineApart.v
EngineTso.v
EnginePass.v
EngineTrace.v
TsoSpec.v
EngineDrain.v
EngineNotso.v
Ntos.v
Ostrbuf.v
Format.v
Platform.v
FormatFacts.v
FormatArgs.v
FormatDump.v
Raw.v
RawFacts.v
RawSpec.v
RawText.v
FormatSpec.v
Output.v
Cook.v
OutName.v
OutFile.v
OutThread.v
OutFileLog.v
Coredump.v
Recovery.v
RecoveryScan.v
RecoveryFacts.v
Sched.v
Command.v
EngineLoop.v
LifeLog.v
Tls.v
CApi.v
Options.v
