(* ===== verification/Prelude.v ===== *)
(** * HOGL: a verification development for the HOGL logging library

    HOGL records log messages at very low cost.  A thread posts to a ring buffer:
    it fills a record in place (numbers by value, strings and blobs copied into
    the record's tail room) and moves the tail.  One engine thread visits all
    registered rings, puts the records in the order of their timestamps in a
    bounded buffer, detects losses by the sequence numbers, and hands records to
    a format that appends text to an output buffer.  Areas and their sections
    say which records are posted at all; masks switch them.

    The library models these parts from the C++ sources and proves what they
    promise.  A comment [(* src: file first-last symbol *)] in front of a
    definition names the lines it translates, paths being those of the
    repository.

    ** Parts

    - [Prelude]: machine integers with their wrap-around, bytes in memory
      ([memcpy] is [None] outside the buffer), sorted association lists.
    - [Args], [Record], [Posted]: detail/args.hpp, detail/argpack.hpp, detail/record.hpp.
      Arguments with their type tags, the pack that carries them out of line, the
      record as header and argument buffer, the copies of strings, blobs and
      dumps, special records; what a posted record holds, as a list.
    - [Ring], [RingConc]: detail/ringbuf.hpp, ringbuf.cc, detail/refcount.hpp.
      All operations of a ring as functions on its state; then the same
      operations cut into the atomic accesses of posting threads and the engine
      as a step relation, with blocking, waking and spurious wake-ups.
    - [Area]: bitmap.hpp, area.hpp, mask.hpp, internal.hpp and their sources.
      Regular expressions of the C++ library are a type class.
    - [Timestamp], [Tso]: timestamp.hpp in both storage formats; tsobuf.hpp, the
      ordering buffer as an array with head and tail.
    - [Post]: post.hpp, post.cc, flush.cc, timesource.cc: posting, and the two
      special records with their timeouts.
    - [Registry], [Engine]: engine.hpp, engine.cc.  The engine's state is a heap
      of rings by address, the maps of rings and areas, the index of rings with
      their iterators and expected sequence numbers, the ordering buffer, the
      statistics and the sequence of events it produced.  Lock attempts and
      clocks are inputs.
    - [EngineFacts], [RegistryFacts], [EngineApart], [EngineTso], [EnginePass],
      [TsoSpec], [EngineDrain], [EngineNotso], [EngineTrace]: the theorems about
      the engine and what it can say; [Sample] has concrete engines for the examples.
    - [EngineLoop]: engine.cc, entry and loop: the passes with the operations of
      other threads between them, the timed wait, the end.
    - [LifeLog]: the same life with an output behind it.
    - [Ntos], [Ostrbuf]: detail/ntos.hpp; detail/ostrbuf*.hpp and their sources.
      A stream below an output buffer is the class [Stream], with descriptor,
      stdio, tee and null streams.
    - [Format], [FormatFacts], [FormatArgs], [FormatDump], [FormatSpec]:
      format-basic.hpp, format-basic.cc; the header as a list of parts, and the
      classes [Formatter] and [Renders] through which an output sees a format.
    - [Output]: detail/output.hpp and output-*.cc, outputs over any format and any
      stream; the engine's own reports; the events of an engine run into an output.
    - [Raw], [RawFacts], [RawSpec], [RawText], [Cook]: format-raw.cc,
      tools/raw-parser, tools/rdbuf, tools/cook.  The parser is written against the class [Reader]; the
      buffered file is an instance.
    - [OutName], [OutFile], [OutThread], [OutFileLog]: output-file.hpp, output-file.cc.  The numbered names
      of a rotating log and the symbolic link; the writer and the helper thread
      as steps over a model of the file system (names to inodes to contents), a
      rotation being one step with the writes that happen during it; the helper
      thread, its requests and its end as a step relation; an output over such
      a file, from its constructor to its destructor.

    - [Coredump], [Recovery], [RecoveryScan], [RecoveryFacts]: tools/coredump,
      tools/recovery-engine.  The sections of a core file and an executable as a
      memory map; the search for signatures in it; the checks and repairs of
      rings, records, areas, time sources and output buffers; what is printed.
    - [Sched], [Platform]: schedparam.cc, the parsers of cpu sets and what a thread
      applies; platform.cc, timesource.cc, messages before there is an engine and
      the objects for clocks.
    - [Dump]: the text dumps of engine.cc, ringbuf.cc and schedparam.cc.
    - [Command]: tools/cook.cc and tools/recover.cc from their options to their
      status.
    - [Tls]: tls.cc, default-engine.cc, the objects that give a thread its ring.
    - [CApi], [Options]: c-api/post.h, c-api.cc, the macro that sorts arguments by
      type; what is made of the options of C programs.

    ** Theorems

    - The whole life: from its creation to its end an engine sends every record
      that went into a ring, each name's in order, and nothing else, while rings
      come and go and locks are contended; how long it sleeps.
    - The whole path: what threads post during the life of an engine, or what is
      in its rings when it is drained, is in the stream of its output as one line
      for every record and every report of the engine, in order, framed by header
      and footer; a tee gives two outputs the same text.
    - Records: posting through a pack keeps every argument and stays in the
      buffer; strings are terminated; both ways of posting agree.
    - Rings: every sequence of operations is that of a bounded queue; in every
      interleaving of threads and engine the records read are those accepted,
      in order, untorn; which waits end, and the one that may not.
    - Engine: a pass with ordering sends each ring's records once, in order,
      reports exactly the gaps, and keeps at most an eighth of its buffer back;
      two passes drain everything; without ordering a pass sends all; draining at
      the end sends every record that was posted and then stops.
    - Registries: lookup, insertion, reuse and refusal, reference counts, the
      rebuilt index; the race between looking up and killing an orphan.
    - Areas: bitmaps, the verdict of a mask, equality, reading a mask.
    - Threads: objects that change the ring of a thread nest, and leave every
      reference count as it was.  C: a posting is the C++ posting of the same
      values, and which types are lost.  Cpu sets: the grammar of lists, and the
      bits of a mask that mean what they say.
    - Output: what is appended reaches the stream; short writes; numbers; the
      cached time; equivalent headers; the line of a posted record; dumps and
      the inputs on which they do not end or trap.
    - Raw files: a posted record that is packed and parsed again has the same
      names, times and arguments, and is printed as the same text; the viewer,
      from its command line on, prints a whole file as the log would have been.
    - Rotating files: the events of an engine arrive on disk whole and in order;
      once the helper thread waits no request is lost, and before that some are;
      a restarted log goes on with the next number; rotation
      keeps everything that was written, in the newest files, in order; repeated
      failures to open a file lead to the truncation of the one in use.
    - Core dumps: addresses of the dead process are mapped to the right bytes,
      across sections too; the search finds every ring and every output buffer
      that passes the checks, and repairs areas once; the recovered records are
      in order, one for each timestamp.

    ** Bounds and fuel

    Loops take fuel and yield [None] when it runs out; the theorems give the
    amount that suffices.  A pass reads at most as many records from a ring as it
    has slots, [nargs] inspects sixteen tags, decimal numerals have at most
    twenty digits, a dump of [n] values needs [n] turns, and polling ends after
    the timeout divided by its step; a list of cpus needs one turn more than it
    has characters; the width of a file number is found in at most nine turns for
    up to a thousand million files.  Machine integers are [Z] with explicit
    reduction; sizes are bounded by hypotheses where the code relies on it, and
    so are timestamps where the engine orders by them (below 2^64 - 2^31).

    ** Not modelled

    The bundled fmt library (format strings of users are a parameter), libc
    (time conversion, floating point output, memory allocation, descriptors
    are parameters or given outcomes), signals, the system calls that create
    threads and set their priorities, getopt and the formats of plugins, and how
    the compiler lays out the objects that are looked for in a core dump. The
    memory model is sequentially consistent. *)

From Stdlib Require Export ZArith Lia Sorting.Sorted Sorting.Permutation.
From stdpp Require Export base numbers list gmap strings sorting.

#[global] Open Scope Z_scope.

(** ** Machine integers

    A [w]-bit unsigned integer is a [Z] in the range [0 .. 2^w - 1]; each
    operation of the C++ code that may leave the range is followed by the
    reduction of its type. *)

Definition u8 (z : Z) : Z := z mod 256.
Definition u16 (z : Z) : Z := z mod 65536.
Definition u32 (z : Z) : Z := z mod 4294967296.
Definition u64 (z : Z) : Z := z mod 18446744073709551616.

(** Conversion of an [unsigned int] to a two's complement [int]. *)
Definition s32 (z : Z) : Z := (z + 2147483648) mod 4294967296 - 2147483648.

Declare Scope hogl_scope.
Delimit Scope hogl_scope with hogl.
Notation "x +u32 y" := (u32 (x + y)) (at level 50, left associativity) : hogl_scope.
Notation "x -u32 y" := (u32 (x - y)) (at level 50, left associativity) : hogl_scope.
Notation "x *u32 y" := (u32 (x * y)) (at level 40, left associativity) : hogl_scope.
Notation "x +u64 y" := (u64 (x + y)) (at level 50, left associativity) : hogl_scope.
Notation "x -u64 y" := (u64 (x - y)) (at level 50, left associativity) : hogl_scope.
Notation "x *u64 y" := (u64 (x * y)) (at level 40, left associativity) : hogl_scope.
#[global] Open Scope hogl_scope.

Definition is_u8 (z : Z) : Prop := 0 <= z < 256.
Definition is_u32 (z : Z) : Prop := 0 <= z < 4294967296.
Definition is_u64 (z : Z) : Prop := 0 <= z < 18446744073709551616.

(** Arithmetic with the reductions unfolded. *)
Ltac words := unfold u8, u16, u32, u64, s32, is_u8, is_u32, is_u64 in *.
Ltac word_lia := words; Z.div_mod_to_equations; lia.

Create HintDb hogl.
Create Rewrite HintDb hogl.

Lemma u8_range z : 0 <= u8 z < 256. Proof. word_lia. Qed.
Lemma u16_range z : 0 <= u16 z < 65536. Proof. word_lia. Qed.
Lemma u32_range z : is_u32 (u32 z). Proof. word_lia. Qed.
Lemma u64_range z : is_u64 (u64 z). Proof. word_lia. Qed.
Lemma u32_small z : is_u32 z -> u32 z = z.
Proof. intros; words; apply Z.mod_small; lia. Qed.
Lemma u64_small z : is_u64 z -> u64 z = z.
Proof. intros; words; apply Z.mod_small; lia. Qed.
Lemma u16_small z : 0 <= z < 65536 -> u16 z = z.
Proof. intros; words; apply Z.mod_small; lia. Qed.
Lemma u8_small z : 0 <= z < 256 -> u8 z = z.
Proof. intros; words; apply Z.mod_small; lia. Qed.

#[export] Hint Resolve u8_range u16_range u32_range u64_range : hogl.
#[export] Hint Rewrite u32_small u64_small u16_small u8_small using (words; lia) : hogl.

(** ** Powers of two used as index masks *)

Definition pow2 (n : Z) : Z := Z.shiftl 1 n.

Lemma pow2_eq n : 0 <= n -> pow2 n = 2 ^ n.
Proof. intros; unfold pow2; now rewrite Z.shiftl_1_l. Qed.

Lemma pow2_pos n : 0 <= n -> 0 < pow2 n.
Proof. intros; rewrite pow2_eq by lia; apply Z.pow_pos_nonneg; lia. Qed.

(** [x & (2^n - 1)] is the remainder modulo [2^n]. *)
Lemma land_mask x n : 0 <= n -> Z.land x (2 ^ n - 1) = x mod 2 ^ n.
Proof. intros; rewrite <- Z.land_ones by lia; f_equal; rewrite Z.ones_equiv; lia. Qed.

Lemma pow2_divide_u32 n : 0 <= n <= 32 -> (2 ^ n | 4294967296).
Proof.
  intros; exists (2 ^ (32 - n)).
  rewrite <- Z.pow_add_r by lia; replace (32 - n + n) with 32 by lia; reflexivity.
Qed.

(** Reducing to 32 bits first does not matter below a mask. *)
Lemma u32_mod_pow2 x n : 0 <= n <= 32 -> u32 x mod 2 ^ n = x mod 2 ^ n.
Proof.
  intros H; unfold u32.
  now apply Z.mod_mod_divide, pow2_divide_u32.
Qed.

(** ** Positions on a circle of [n] slots *)

Lemma mod_range a n : 0 < n -> 0 <= a mod n < n.
Proof. apply Z.mod_pos_bound. Qed.

Lemma mod_add_inj c i j n : 0 <= i < n -> 0 <= j < n -> (c + i) mod n = (c + j) mod n -> i = j.
Proof.
  intros Hi Hj H.
  assert (E : (c + i - (c + j)) mod n = 0) by (rewrite Zminus_mod, H, Z.sub_diag; reflexivity).
  replace (c + i - (c + j)) with (i - j) in E by lia.
  apply Z.mod_divide in E as [q Hq]; [|lia].
  destruct (Z.eq_dec q 0); [subst; lia | nia].
Qed.

Lemma mod_succ a n : 0 < n -> (a + 1) mod n = if decide (a mod n = n - 1) then 0 else a mod n + 1.
Proof.
  intros Hn; rewrite <- (Zplus_mod_idemp_l a 1).
  pose proof (Z.mod_pos_bound a n Hn); case_decide as E.
  - rewrite E; replace (n - 1 + 1) with n by lia; apply Z_mod_same_full.
  - apply Z.mod_small; lia.
Qed.

Lemma mod_add_mod a b n : (a + b mod n) mod n = (a + b) mod n.
Proof. apply Zplus_mod_idemp_r. Qed.
Lemma mod_mod_add a b n : (a mod n + b) mod n = (a + b) mod n.
Proof. apply Zplus_mod_idemp_l. Qed.

Lemma u64_succ a : u64 (u64 a + 1) = u64 (a + 1).
Proof. unfold u64; apply mod_mod_add. Qed.

Lemma u64_idem a : u64 (u64 a) = u64 a.
Proof. unfold u64; apply Z.mod_mod; lia. Qed.

(** Equality modulo 2^64, as an equation that [lia] can use. *)
Lemma u64_cong a b : u64 a = u64 b <-> exists k, a = b + k * 18446744073709551616.
Proof.
  unfold u64; split.
  - intros E; exists (a / 18446744073709551616 - b / 18446744073709551616).
    pose proof (Z.div_mod a 18446744073709551616 ltac:(lia)).
    pose proof (Z.div_mod b 18446744073709551616 ltac:(lia)); lia.
  - intros [k ->]; now rewrite Z.mod_add by lia.
Qed.

Lemma u64_add_l a b : u64 (u64 a + b) = u64 (a + b).
Proof. unfold u64; apply mod_mod_add. Qed.

Lemma map_seqZ_shift {A} (f : Z -> A) a m : map f (seqZ a m) = map (fun i => f (a + i)) (seqZ 0 m).
Proof.
  rewrite <- (Z.add_0_r a) at 1; rewrite <- fmap_add_seqZ.
  unfold fmap; rewrite <- (map_map (Z.add a) f); reflexivity.
Qed.

(** ** Bytes in memory *)

Abbreviation bytes := (list Z).

Definition bytes_ok (l : bytes) : Prop := Forall is_u8 l.

(** The [n] bytes of an unsigned value, least significant first, and back. *)
Fixpoint le_bytes (n : nat) (v : Z) : bytes :=
  match n with
  | O => []
  | S n => v mod 256 :: le_bytes n (v / 256)
  end.

Fixpoint le_val (l : bytes) : Z :=
  match l with
  | [] => 0
  | b :: l => b + 256 * le_val l
  end.

Lemma length_le_bytes n v : length (le_bytes n v) = n.
Proof. revert v; induction n; intros; simpl; auto. Qed.
#[export] Hint Rewrite length_le_bytes : hogl.

Lemma le_bytes_ok n v : bytes_ok (le_bytes n v).
Proof.
  revert v; induction n; intros; simpl; constructor; [words; apply Z.mod_pos_bound; lia | apply IHn].
Qed.
#[export] Hint Resolve le_bytes_ok : hogl.

Lemma le_val_bytes n v : le_val (le_bytes n v) = v mod 256 ^ Z.of_nat n.
Proof.
  revert v; induction n as [|n IH]; intros; [now rewrite Z.mod_1_r|].
  cbn [le_bytes le_val]; rewrite IH.
  rewrite Nat2Z.inj_succ, Z.pow_succ_r by lia.
  rewrite Z.rem_mul_r; [lia | lia | apply Z.pow_pos_nonneg; lia].
Qed.

Lemma le_val_bytes4 v : is_u32 v -> le_val (le_bytes 4 v) = v.
Proof. intros; rewrite le_val_bytes; apply Z.mod_small; words; simpl; lia. Qed.
Lemma le_val_bytes8 v : is_u64 v -> le_val (le_bytes 8 v) = v.
Proof. intros; rewrite le_val_bytes; apply Z.mod_small; words; simpl; lia. Qed.

Lemma le_val_range l : bytes_ok l -> 0 <= le_val l < 256 ^ Z.of_nat (length l).
Proof.
  induction 1 as [|b l Hb _ IH]; cbn [le_val length]; [simpl; lia|].
  rewrite Nat2Z.inj_succ, Z.pow_succ_r by lia; words; lia.
Qed.

Lemma le_bytes_val l : bytes_ok l -> le_bytes (length l) (le_val l) = l.
Proof.
  induction 1 as [|b l Hb Hl IH]; cbn [le_val length le_bytes]; [done|].
  f_equal.
  - rewrite Z.mul_comm, Z_mod_plus_full; apply Z.mod_small, Hb.
  - rewrite Z.mul_comm, Z.div_add by lia.
    rewrite (Z.div_small b) by apply Hb; apply IH.
Qed.

(** Reading [n] bytes at an offset, and copying bytes to an offset.  [None] is
    a copy that leaves the buffer: undefined behaviour of the C++ code. *)
Definition peek (buf : bytes) (off n : Z) : bytes := take (Z.to_nat n) (drop (Z.to_nat off) buf).

Definition memcpy (buf : bytes) (off : Z) (data : bytes) : option bytes :=
  if decide (0 <= off /\ off + Z.of_nat (length data) <= Z.of_nat (length buf))
  then Some (take (Z.to_nat off) buf ++ data ++ drop (Z.to_nat off + length data)%nat buf)
  else None.

Lemma memcpy_some buf off data :
  0 <= off -> off + Z.of_nat (length data) <= Z.of_nat (length buf) ->
  exists buf', memcpy buf off data = Some buf'.
Proof. intros; unfold memcpy; rewrite decide_True by lia; eauto. Qed.

Lemma memcpy_length buf off data buf' :
  memcpy buf off data = Some buf' -> length buf' = length buf.
Proof.
  unfold memcpy; case_decide as H; [intros [= <-] | done].
  rewrite !length_app, length_take, length_drop; lia.
Qed.

Lemma memcpy_bytes_ok buf off data buf' :
  bytes_ok buf -> bytes_ok data -> memcpy buf off data = Some buf' -> bytes_ok buf'.
Proof.
  unfold memcpy, bytes_ok; intros Hb Hd; case_decide; [intros [= <-] | done].
  rewrite !Forall_app; repeat split; auto using Forall_take, Forall_drop.
Qed.

Lemma memcpy_peek buf off data buf' :
  memcpy buf off data = Some buf' -> peek buf' off (Z.of_nat (length data)) = data.
Proof.
  unfold memcpy, peek; case_decide as H; [intros [= <-] | done].
  rewrite Nat2Z.id, drop_app_length', take_app_length'; [done | done |].
  rewrite length_take; lia.
Qed.

Lemma memcpy_peek_disjoint buf off data buf' o n :
  memcpy buf off data = Some buf' -> 0 <= o -> 0 <= n ->
  o + n <= off \/ off + Z.of_nat (length data) <= o ->
  peek buf' o n = peek buf o n.
Proof.
  unfold memcpy, peek; case_decide as H; [intros [= <-] | done]; intros Ho Hn [Hlt|Hge].
  - rewrite drop_app_le by (rewrite length_take; lia).
    rewrite take_app_le by (rewrite length_drop, length_take; lia).
    rewrite skipn_firstn_comm, take_take; f_equal; lia.
  - rewrite app_assoc, drop_app_ge by (rewrite length_app, length_take; lia).
    rewrite drop_drop, length_app, length_take; do 2 f_equal; lia.
Qed.

Lemma peek_length buf off n :
  0 <= off -> 0 <= n -> off + n <= Z.of_nat (length buf) -> Z.of_nat (length (peek buf off n)) = n.
Proof. intros; unfold peek; rewrite length_take, length_drop; lia. Qed.

(** A part of a region that was read. *)
Lemma peek_peek buf o n o' n' :
  0 <= o -> 0 <= o' -> 0 <= n' -> o' + n' <= n -> peek (peek buf o n) o' n' = peek buf (o + o') n'.
Proof.
  intros; unfold peek.
  rewrite skipn_firstn_comm, take_take, drop_drop; do 2 f_equal; lia.
Qed.

(** The bytes of a string literal of the source. *)
Definition str (s : string) : bytes :=
  map (fun a => Z.of_N (Ascii.N_of_ascii a)) (String.list_ascii_of_string s).

(** ** [std::map] keyed by strings

    The source iterates these maps in key order; an association list sorted by
    [String.compare] (lexicographic on bytes, as [std::less<std::string>]). *)
Definition str_lt (a b : string) : Prop := String.compare a b = Lt.

Lemma ascii_compare_lt_trans a b c : Ascii.compare a b = Lt -> Ascii.compare b c = Lt -> Ascii.compare a c = Lt.
Proof. unfold Ascii.compare; rewrite !N.compare_lt_iff; lia. Qed.

Lemma ascii_compare_refl a : Ascii.compare a a = Eq.
Proof. apply N.compare_refl. Qed.

Lemma str_compare_eq a b : String.compare a b = Eq <-> a = b.
Proof.
  split; [apply String.compare_eq_iff|intros <-].
  induction a as [|x a IH]; cbn; [done|]; now rewrite ascii_compare_refl.
Qed.

Lemma str_lt_irrefl a : ~ str_lt a a.
Proof. unfold str_lt; rewrite (proj2 (str_compare_eq a a) eq_refl); discriminate. Qed.

Lemma str_gt_lt a b : String.compare a b = Gt -> str_lt b a.
Proof. unfold str_lt; rewrite (String.compare_antisym b a); intros ->; done. Qed.

Lemma str_lt_trans a b c : str_lt a b -> str_lt b c -> str_lt a c.
Proof.
  unfold str_lt; revert b c; induction a as [|x a IH]; intros [|y b] [|z c]; cbn; try done.
  destruct (Ascii.compare x y) eqn:Exy; try discriminate; destruct (Ascii.compare y z) eqn:Eyz; try discriminate;
    try (apply Ascii.compare_eq_iff in Exy as <-); try (apply Ascii.compare_eq_iff in Eyz as <-).
  - rewrite ascii_compare_refl; apply IH.
  - now rewrite Eyz.
  - now rewrite Exy.
  - now rewrite (ascii_compare_lt_trans _ _ _ Exy Eyz).
Qed.

Section StdMap.
  Context {V : Type}.

Fixpoint smap_find (k : string) (m : list (string * V)) : option V :=
  match m with
  | [] => None
  | (k', v) :: m => if decide (k = k') then Some v else smap_find k m
  end.

(** [std::map::insert]: an existing binding is kept; the boolean tells
    whether the new one was inserted. *)
Fixpoint smap_insert (k : string) (v : V) (m : list (string * V)) : list (string * V) * bool :=
  match m with
  | [] => ([(k, v)], true)
  | (k', v') :: m' =>
      match String.compare k k' with
      | Lt => ((k, v) :: m, true)
      | Eq => (m, false)
      | Gt => let '(m'', b) := smap_insert k v m' in ((k', v') :: m'', b)
      end
  end.

Fixpoint smap_erase (k : string) (m : list (string * V)) : list (string * V) :=
  match m with
  | [] => []
  | (k', v) :: m => if decide (k = k') then m else (k', v) :: smap_erase k m
  end.

Lemma smap_find_elem k v m : NoDup (map fst m) -> (k, v) ∈ m <-> smap_find k m = Some v.
Proof.
  induction m as [|[k' v'] m IH]; cbn; intros Nd; [split; [intros H; inversion H|done]|].
  apply NoDup_cons in Nd as [Ni Nd]; specialize (IH Nd); rewrite elem_of_cons; case_decide as D.
  - subst k'; split; [|intros [= ->]; now left]; intros [[= ->]|H]; [done|exfalso; apply Ni].
    apply list_elem_of_fmap; exists (k, v); done.
  - rewrite <- IH; split; [intros [[= -> ->]|H]; done | auto].
Qed.

Lemma smap_erase_sub k m kv : kv ∈ smap_erase k m -> kv ∈ m.
Proof.
  induction m as [|[k' v'] m IH]; cbn; [done|]; case_decide; rewrite ?elem_of_cons; [auto|].
  intros [->|H']; auto.
Qed.

Lemma smap_erase_elem k m n v : NoDup (map fst m) -> (n, v) ∈ smap_erase k m <-> (n, v) ∈ m /\ n <> k.
Proof.
  induction m as [|[k' v'] m IH]; cbn; intros Nd; [split; [intros H; inversion H|intros [H _]; inversion H]|].
  apply NoDup_cons in Nd as [Ni Nd]; specialize (IH Nd); case_decide as D.
  - subst k'; rewrite elem_of_cons; split.
    + intros H; split; [now right|]; intros ->; apply Ni, list_elem_of_fmap; exists (k, v); done.
    + intros [[[= -> ->]|H] N]; done.
  - rewrite !elem_of_cons, IH; split; [intros [[= -> ->]|[H N]]; auto | intros [[H|H] N]; auto].
Qed.

Lemma smap_erase_NoDup k m : NoDup (map fst m) -> NoDup (map fst (smap_erase k m)).
Proof.
  induction m as [|[k' v'] m IH]; cbn; intros Nd; [done|].
  apply NoDup_cons in Nd as [Ni Nd]; case_decide; [done|]; cbn; apply NoDup_cons; split; [|auto].
  intros H'; apply Ni; apply list_elem_of_fmap in H' as (x & -> & Hx); apply list_elem_of_fmap.
  exists x; split; [done|now apply smap_erase_sub in Hx].
Qed.

(** The invariant of a map: its keys grow. *)
Definition smap_ok (m : list (string * V)) : Prop :=
  StronglySorted (fun a b => str_lt (fst a) (fst b)) m.

Lemma smap_ok_NoDup m : smap_ok m -> NoDup (map fst m).
Proof.
  induction 1 as [|[k v] m S IH F]; cbn; constructor; [|done].
  intros H; apply list_elem_of_fmap in H as ([k' v'] & E & H); cbn in E; subst k'.
  rewrite Forall_forall in F; destruct (str_lt_irrefl k (F _ H)).
Qed.

Lemma smap_erase_ok k m : smap_ok m -> smap_ok (smap_erase k m).
Proof.
  induction 1 as [|[k' v] m S IH F]; cbn; [constructor|]; case_decide; [done|]; constructor; [exact IH|].
  rewrite Forall_forall in F |- *; intros x Hx; apply F, (smap_erase_sub k), Hx.
Qed.

Lemma smap_insert_spec k v m : smap_ok m ->
  match smap_find k m with
  | Some v' => smap_insert k v m = (m, false)
  | None => exists m', smap_insert k v m = (m', true) /\ smap_ok m' /\
      smap_find k m' = Some v /\ forall kv, kv ∈ m' <-> kv = (k, v) \/ kv ∈ m
  end.
Proof.
  intros S; induction S as [|[k' v'] m S IH F]; cbn.
  - eexists; split; [reflexivity|]; split; [apply SSorted_cons; constructor|].
    cbn; rewrite decide_True by done; split; [done|].
    intros kv; rewrite list_elem_of_singleton; split; [auto|intros [?|H]; [done|inversion H]].
  - case_decide as D.
    + subst k'; now rewrite (proj2 (str_compare_eq k k) eq_refl).
    + destruct (String.compare k k') eqn:C.
      * apply str_compare_eq in C; done.
      * assert (Fresh : smap_find k m = None).
        { destruct (smap_find k m) as [w|] eqn:Fd; [|done]; exfalso.
          apply (smap_find_elem _ _ _ (smap_ok_NoDup _ S)) in Fd.
          rewrite Forall_forall in F; apply (str_lt_irrefl k), (str_lt_trans _ k'); [exact C|exact (F _ Fd)]. }
        rewrite Fresh; eexists; split; [reflexivity|]; split.
        { constructor; [constructor; [exact S|exact F]|].
          constructor; [exact C|]; eapply Forall_impl; [exact F|]; intros x Hx; cbn in *.
          now apply (str_lt_trans _ k'). }
        cbn; rewrite decide_True by done; split; [done|]; intros kv; now rewrite !elem_of_cons.
      * destruct (smap_find k m) as [w|].
        -- now rewrite IH.
        -- destruct IH as (m' & -> & Sm' & Fm' & Em'); eexists; split; [reflexivity|]; split.
           { constructor; [exact Sm'|]; apply Forall_forall; intros x Hx; apply Em' in Hx as [->|Hx].
             - cbn; now apply str_gt_lt.
             - rewrite Forall_forall in F; now apply F. }
           cbn; rewrite decide_False by done; split; [done|]; intros kv; rewrite !elem_of_cons, Em'; tauto.
Qed.
End StdMap.

(** ** [std::sort]

    Known by its contract: the result is a permutation that is in order.  It is
    not stable.  The comparisons of the source compare an integer key. *)
Class StdSort (T : Type) (key : T -> Z) := {
  std_sort : list T -> list T;
  std_sort_perm l : Permutation (std_sort l) l;
  std_sort_sorted l : StronglySorted (fun i j => key i <= key j) (std_sort l) }.
Arguments std_sort {T} key {_} l.

(** Insertion sort is one. *)
Section InsertionSort.
Context {T : Type} (key : T -> Z).

Fixpoint insert_by (e : T) (l : list T) : list T :=
  match l with
  | [] => [e]
  | e' :: l' => if key e' <? key e then e' :: insert_by e l' else e :: l
  end.

Definition insertion_sort (l : list T) : list T := foldr insert_by [] l.

Lemma insert_by_perm e l : Permutation (insert_by e l) (e :: l).
Proof.
  induction l as [|e' l IH]; cbn; [done|]; destruct (key e' <? key e); [|done].
  rewrite IH; apply Permutation_swap.
Qed.

Lemma insert_by_sorted e l : StronglySorted (fun i j => key i <= key j) l ->
  StronglySorted (fun i j => key i <= key j) (insert_by e l).
Proof.
  induction 1 as [|e' l S IH F]; cbn; [repeat constructor|].
  destruct (Z.ltb_spec (key e') (key e)).
  - constructor; [done|]; rewrite insert_by_perm; constructor; [lia|done].
  - constructor; [now constructor|]; constructor; [done|].
    apply (Forall_impl _ _ _ F); cbn; lia.
Qed.

#[export] Program Instance insertion_std_sort : StdSort T key := { std_sort := insertion_sort }.
Next Obligation. induction l as [|e l IH]; cbn; [done|]; now rewrite insert_by_perm, IH. Qed.
Next Obligation.
  induction l as [|e l IH]; cbn; [constructor|now apply insert_by_sorted].
Qed.
End InsertionSort.

Lemma sorted_impl {T} (P Q : T -> T -> Prop) l : (forall a b, P a b -> Q a b) ->
  StronglySorted P l -> StronglySorted Q l.
Proof.
  intros H S; induction S as [|a l S IH F]; constructor; [exact IH|]; eapply Forall_impl; [exact F|apply H].
Qed.

(** A list sorted by a key is determined by its elements when one order of them
    is strict. *)
Lemma sorted_perm_eq {T} (key : T -> Z) l1 l2 : Permutation l1 l2 ->
  StronglySorted (fun i j => key i <= key j) l1 -> StronglySorted (fun i j => key i < key j) l2 -> l1 = l2.
Proof.
  revert l2; induction l1 as [|a l1 IH]; intros l2 P S1 S2; [now apply Permutation_nil in P|].
  inversion S1 as [|? ? S1' F1]; subst.
  destruct l2 as [|b l2]; [symmetry in P; now apply Permutation_nil in P|].
  inversion S2 as [|? ? S2' F2]; subst.
  assert (a = b) as ->.
  { assert (Ia : a ∈ b :: l2) by (rewrite <- P; constructor).
    assert (Ib : b ∈ a :: l1) by (rewrite P; constructor).
    apply elem_of_cons in Ia as [|Ia]; [done|]; apply elem_of_cons in Ib as [|Ib]; [done|].
    rewrite Forall_forall in F1, F2; specialize (F1 _ Ib); specialize (F2 _ Ia); cbn in *; lia. }
  f_equal; apply IH; [now apply Permutation_cons_inv in P | done | done].
Qed.

Lemma sorted_filter {T} (R : T -> T -> Prop) (P : T -> Prop) `{!forall x, Decision (P x)} l :
  StronglySorted R l -> StronglySorted R (filter P l).
Proof.
  induction 1 as [|a l S IH F]; [constructor|]; rewrite filter_cons; case_decide; [|done].
  constructor; [done|]; apply Forall_forall; intros x Hx; apply list_elem_of_filter in Hx as [_ Hx].
  rewrite Forall_forall in F; auto.
Qed.
