(* ===== verification/Args.v ===== *)
(** * Arguments of a log record (detail/args.hpp, detail/argpack.hpp)

    The tagged values [hogl::arg] a caller passes to [post], built from C++
    values by the constructors of the class, and the pack [hogl::argpack] that
    carries them out of line.  Pointers are addresses of a byte memory of the
    client; the target is the 64-bit little endian one. *)

From S2P Require Import Prelude.

(** ** Memory of the caller *)

(** The byte at every address.  The library only reads it. *)
Definition memory := Z -> Z.

Definition mem_ok (m : memory) : Prop := forall a, is_u8 (m a).

Definition mread (m : memory) (p n : Z) : bytes :=
  map (fun k => m (p + Z.of_nat k)) (seq 0 (Z.to_nat n)).

Lemma length_mread m p n : length (mread m p n) = Z.to_nat n.
Proof. unfold mread; now rewrite length_map, length_seq. Qed.
#[export] Hint Rewrite length_mread : hogl.

Lemma mread_ok m p n : mem_ok m -> bytes_ok (mread m p n).
Proof. intros H; unfold mread, bytes_ok; apply Forall_forall; intros x Hx.
  apply list_elem_of_In, in_map_iff in Hx as (k & <- & _); apply H. Qed.
#[export] Hint Resolve mread_ok : hogl.

(** A shorter read of the same address is a prefix. *)
Lemma take_mread m p n k : 0 <= k <= n -> take (Z.to_nat k) (mread m p n) = mread m p k.
Proof.
  intros; unfold mread.
  rewrite firstn_map; f_equal.
  replace (Z.to_nat n) with (Z.to_nat k + (Z.to_nat n - Z.to_nat k))%nat by lia.
  rewrite seq_app, take_app_length'; [done | now rewrite length_seq].
Qed.

(** [strlen]: [None] when no terminator is found within the fuel. *)
Fixpoint strlen (fuel : nat) (m : memory) (p : Z) : option Z :=
  match fuel with
  | O => None
  | S fuel => if m p =? 0 then Some 0 else n ← strlen fuel m (p + 1); Some (n + 1)
  end.

(** ** Argument types *)

(* src: include/hogl/detail/args.hpp 92-107 arg *)
Inductive arg_kind :=
  NONE | UINT32 | INT32 | UINT64 | INT64 | POINTER | DOUBLE | CSTR | GSTR | XDUMP | RAW.

#[export] Instance arg_kind_eq_dec : EqDecision arg_kind.
Proof. solve_decision. Defined.

Definition arg_code (k : arg_kind) : Z :=
  match k with
  | NONE => 0 | UINT32 => 1 | INT32 => 2 | UINT64 => 3 | INT64 => 4 | POINTER => 5
  | DOUBLE => 6 | CSTR => 7 | GSTR => 8 | XDUMP => 9 | RAW => 10
  end.
Coercion arg_code : arg_kind >-> Z.
Arguments arg_code : simpl never.

(* src: include/hogl/detail/args.hpp 122-130 arg::is_32bit *)
Definition is_32bit (type : Z) : bool := (type =? UINT32) || (type =? INT32).

(* src: include/hogl/detail/args.hpp 132-135 arg::is_simple *)
Definition is_simple (type : Z) : bool :=
  negb (type =? CSTR) && negb (type =? XDUMP) && negb (type =? RAW).

(* src: include/hogl/detail/args.hpp 88-114 arg *)
Record arg := mkArg { a_type : Z; a_val : Z; a_len : Z }.

(** The C++ values the constructors accept; a pointer is an address and a
    [double] its 64-bit image. *)
(* src: include/hogl/detail/args.hpp 44-64 arg_gstr, arg_raw *)
Inductive cxx_value :=
  | Vnothing
  | Vbool (b : bool) | Vuint8 (i : Z) | Vuint16 (i : Z)
  | Vptr (p : Z) | Vvptr (p : Z)
  | Vuint (i : Z) | Vint (i : Z)
  | Vulonglong (u : Z) | Vlonglong (i : Z) | Vulong (u : Z) | Vlong (i : Z)
  | Vdouble (image : Z)
  | Vchars (p : Z) | Vstring (data length : Z) | Vgstr (p : Z)
  | Vxdump (p : Z) | Vraw (ptr len : Z).

(** The constructors; [junk] is the value of the members a constructor leaves
    uninitialised. *)
(* src: include/hogl/detail/args.hpp 137-181 arg::arg *)
Definition arg_of (fuel : nat) (m : memory) (junk : arg) (v : cxx_value) : option arg :=
  let simple k x := Some (mkArg (arg_code k) (u64 x) (a_len junk)) in
  match v with
  | Vnothing => Some (mkArg NONE (a_val junk) (a_len junk))
  | Vbool b => simple UINT32 (if b then 1 else 0)
  | Vuint8 i | Vuint16 i => simple UINT32 i
  | Vptr p | Vvptr p => simple POINTER p
  | Vuint i => simple UINT32 i
  | Vint i => simple INT32 i
  | Vulonglong u => simple UINT64 u
  | Vlonglong i => simple INT64 i
  | Vulong u => simple UINT64 u
  | Vlong i => simple INT64 i
  | Vdouble d => simple DOUBLE d
  | Vchars p =>
      if p =? 0 then Some (mkArg CSTR (u64 p) 0)
      else n ← strlen fuel m p; Some (mkArg CSTR (u64 p) (u32 n))
  | Vstring data length => Some (mkArg CSTR (u64 data) (u32 length))
  | Vgstr p => simple GSTR p
  | Vxdump p => simple XDUMP p
  | Vraw ptr len => Some (mkArg RAW (u64 ptr) (u32 len))
  end.

(** A formatted dump: [struct arg_xdump] read from its address (the packed
    four byte format, the data pointer and the length). *)
(* src: include/hogl/detail/args.hpp 71-80 arg_xdump::format *)
Record xdump_format := mkXfmt {
  x_type : Z; x_byte_width : Z; x_precision : Z; x_line_width : Z; x_delim : Z }.

Definition sizeof_xdump_format : Z := 4.

(* src: include/hogl/detail/args.hpp 81-86 arg_xdump *)
Definition xd_fmt (m : memory) (p : Z) : bytes := mread m p sizeof_xdump_format.
Definition xd_ptr (m : memory) (p : Z) : Z := le_val (mread m (p + 8) 8).
Definition xd_len (m : memory) (p : Z) : Z := le_val (mread m (p + 16) 4).

(** The packed format: type, two nibbles, line width, delimiter. *)
Definition xfmt_bytes (f : xdump_format) : bytes :=
  [u8 (x_type f);
   Z.lor (Z.land (x_byte_width f) 15) (Z.shiftl (Z.land (x_precision f) 15) 4);
   u8 (x_line_width f); u8 (x_delim f)].

Definition xfmt_of_bytes (b : bytes) : option xdump_format :=
  match b with
  | [t; w; l; d] => Some (mkXfmt t (Z.land w 15) (Z.shiftr w 4) l d)
  | _ => None
  end.

(** ** The four bit type vector shared by records and packs *)

(* src: include/hogl/detail/argpack.hpp 66-74 argpack::set_arg_type *)
Definition set_type (argtype i type : Z) : Z :=
  Z.lor argtype (u64 (Z.shiftl (Z.land type 15) (i * 4))).

(* src: include/hogl/detail/argpack.hpp 76-84 argpack::get_arg_type *)
Definition get_type (argtype i : Z) : Z := Z.land (Z.shiftr argtype (i * 4)) 15.

Definition clear_type (argtype i : Z) : Z :=
  Z.land argtype (Z.lnot (u64 (Z.shiftl 15 (i * 4)))).

(** ** Argument packs *)

(* src: include/hogl/detail/argpack.hpp 44-53 argpack *)
Record argpack := mkPack { p_argtype : Z; p_argval : list Z; p_arglen : list Z }.

Fixpoint nargs_loop (fuel : nat) (t n : Z) : Z :=
  match fuel with
  | O => n
  | S fuel => if t =? 0 then n else nargs_loop fuel (Z.shiftr t 4) (n + 1)
  end.
(* src: include/hogl/detail/argpack.hpp 55-64 argpack::nargs *)
Definition nargs (ap : argpack) : Z := nargs_loop 16 (p_argtype ap) 0.

(* src: include/hogl/detail/argpack.hpp 95-102 argpack::get_arg_val64 *)
Definition pack_val64 (ap : argpack) (i : Z) : Z := p_argval ap !!! Z.to_nat i.

(* src: include/hogl/detail/argpack.hpp 86-93 argpack::get_arg_val32 *)
Definition pack_val32 (ap : argpack) (i : Z) : Z := u32 (pack_val64 ap i).

(* src: include/hogl/detail/argpack.hpp 104-121 argpack::get_arg_data *)
Definition pack_data (ap : argpack) (i : Z) : Z * Z :=
  (pack_val64 ap i, p_arglen ap !!! Z.to_nat i).

(** Storing [u32] of the union keeps the upper half of the slot. *)
Definition store_low32 (old v : Z) : Z := Z.shiftl (Z.shiftr old 32) 32 + u32 v.

(* src: include/hogl/detail/argpack.hpp 123-148 argpack::set_arg *)
Definition pack_set_arg (ap : argpack) (i : Z) (a : arg) : argpack * Z :=
  if a_type a =? NONE then (ap, 0)
  else
    let ap := mkPack (set_type (p_argtype ap) i (a_type a)) (p_argval ap) (p_arglen ap) in
    let v := if is_32bit (a_type a) then store_low32 (pack_val64 ap i) (a_val a) else a_val a in
    let ap := mkPack (p_argtype ap) (<[Z.to_nat i := v]> (p_argval ap)) (p_arglen ap) in
    if is_simple (a_type a) then (ap, 0)
    else (mkPack (p_argtype ap) (p_argval ap) (<[Z.to_nat i := a_len a]> (p_arglen ap)), 1).

Fixpoint pack_set_args (ap : argpack) (i : Z) (args : list arg) (n : Z) : argpack * Z :=
  match args with
  | [] => (ap, n)
  | a :: args => let '(ap, k) := pack_set_arg ap i a in pack_set_args ap (i + 1) args (n + k)
  end.

(** The pack built on the stack slots [ap0]; also the number of arguments that
    are not simple. *)
(* src: include/hogl/detail/argpack.hpp 150-162 argpack::populate *)
Definition populate (ap0 : argpack) (args : list arg) : argpack * Z :=
  pack_set_args (mkPack 0 (p_argval ap0) (p_arglen ap0)) 0 args 0.

(* src: include/hogl/detail/argpack.hpp 164-170 argpack::clear *)
Definition pack_clear (ap : argpack) : argpack := mkPack 0 (p_argval ap) (p_arglen ap).

(** ** Laws of the type vector *)

Lemma nibble_shifted_small type i : 0 <= i < 16 -> u64 (Z.shiftl (Z.land type 15) (i * 4)) = Z.shiftl (Z.land type 15) (i * 4).
Proof.
  intros Hi; apply u64_small; split; [apply Z.shiftl_nonneg, Z.land_nonneg; lia|].
  rewrite Z.shiftl_mul_pow2 by lia; change 15 with (Z.ones 4); rewrite Z.land_ones by lia.
  assert (2 ^ (i * 4) <= 2 ^ 60) by (apply Z.pow_le_mono_r; lia).
  pose proof (Z.mod_pos_bound type (2 ^ 4) eq_refl); nia.
Qed.

Lemma testbit_15 n : 0 <= n -> Z.testbit 15 n = (n <? 4).
Proof. intros; change 15 with (Z.ones 4); rewrite Z.testbit_ones by lia; lia. Qed.

Lemma testbit_nibble type i n :
  0 <= i < 16 -> 0 <= n ->
  Z.testbit (u64 (Z.shiftl (Z.land type 15) (i * 4))) n =
  (i * 4 <=? n) && (n <? i * 4 + 4) && Z.testbit type (n - i * 4).
Proof.
  intros Hi Hn; rewrite nibble_shifted_small by done; rewrite Z.shiftl_spec by lia.
  destruct (Z.leb_spec (i * 4) n); simpl.
  - rewrite Z.land_spec, testbit_15 by lia.
    destruct (Z.ltb_spec (n - i * 4) 4), (Z.ltb_spec n (i * 4 + 4)); try lia;
      now rewrite ?andb_true_r, ?andb_false_r.
  - apply Z.testbit_neg_r; lia.
Qed.

Lemma testbit_get_type t j n :
  0 <= j -> 0 <= n -> Z.testbit (get_type t j) n = (n <? 4) && Z.testbit t (n + j * 4).
Proof.
  intros; unfold get_type; rewrite Z.land_spec, Z.shiftr_spec, testbit_15 by lia.
  apply andb_comm.
Qed.

Lemma get_set_type t i type j :
  0 <= i < 16 -> 0 <= j ->
  get_type (set_type t i type) j =
  if decide (i = j) then Z.lor (get_type t j) (Z.land type 15) else get_type t j.
Proof.
  intros Hi Hj; apply Z.bits_inj'; intros n Hn.
  rewrite testbit_get_type by lia; unfold set_type.
  rewrite Z.lor_spec, testbit_nibble by lia.
  case_decide as Hij.
  - subst j; rewrite Z.lor_spec, Z.land_spec, testbit_get_type, testbit_15 by lia.
    replace (n + i * 4 - i * 4) with n by lia.
    destruct (Z.ltb_spec n 4), (Z.leb_spec (i * 4) (n + i * 4)),
      (Z.ltb_spec (n + i * 4) (i * 4 + 4)); try lia;
      simpl; now rewrite ?andb_true_r, ?andb_false_r.
  - rewrite testbit_get_type by lia.
    destruct (Z.ltb_spec n 4), (Z.leb_spec (i * 4) (n + j * 4)),
      (Z.ltb_spec (n + j * 4) (i * 4 + 4)); try lia; simpl; now rewrite ?orb_false_r.
Qed.

Lemma get_clear_type t i j :
  0 <= i < 16 -> 0 <= j -> get_type (clear_type t i) j = if decide (i = j) then 0 else get_type t j.
Proof.
  intros Hi Hj; apply Z.bits_inj'; intros n Hn.
  rewrite testbit_get_type by lia; unfold clear_type.
  replace 15 with (Z.land 15 15) by reflexivity.
  rewrite Z.land_spec, Z.lnot_spec, testbit_nibble by lia.
  case_decide as Hij.
  - subst j; replace (n + i * 4 - i * 4) with n by lia; rewrite testbit_15, Z.testbit_0_l by lia.
    destruct (Z.ltb_spec n 4), (Z.leb_spec (i * 4) (n + i * 4)),
      (Z.ltb_spec (n + i * 4) (i * 4 + 4)); try lia; simpl; now rewrite ?andb_false_r.
  - rewrite testbit_get_type by lia.
    destruct (Z.ltb_spec n 4), (Z.leb_spec (i * 4) (n + j * 4)),
      (Z.ltb_spec (n + j * 4) (i * 4 + 4)); try lia; simpl; now rewrite ?andb_true_r.
Qed.

(** All nibbles from the [n]-th on are zero. *)
Definition types_below (t n : Z) : Prop := 0 <= t < 2 ^ (n * 4).

Lemma types_below_get t n j : 0 <= n <= j -> types_below t n -> get_type t j = 0.
Proof.
  intros Hj [H0 Ht]; unfold get_type.
  assert (2 ^ (n * 4) <= 2 ^ (j * 4)) by (apply Z.pow_le_mono_r; lia).
  rewrite Z.shiftr_div_pow2, Z.div_small by lia.
  apply Z.land_0_l.
Qed.

Lemma lor_below a b n : 0 <= n -> 0 <= a < 2 ^ n -> 0 <= b < 2 ^ n -> 0 <= Z.lor a b < 2 ^ n.
Proof.
  intros Hn [Ha Ha'] [Hb Hb']; split; [apply Z.lor_nonneg; lia|].
  assert (H : Z.lor a b = Z.lor a b mod 2 ^ n).
  { rewrite <- Z.land_ones by lia; rewrite Z.land_lor_distr_l, !Z.land_ones by lia.
    now rewrite !Z.mod_small. }
  rewrite H; apply Z.mod_pos_bound, Z.pow_pos_nonneg; lia.
Qed.

Lemma types_below_set t i type n :
  0 <= i < n -> n <= 16 -> types_below t n -> types_below (set_type t i type) n.
Proof.
  intros Hi Hn Ht; unfold types_below, set_type; apply lor_below; [lia|done|].
  rewrite nibble_shifted_small, Z.shiftl_mul_pow2 by lia.
  change 15 with (Z.ones 4); rewrite Z.land_ones by lia.
  pose proof (Z.mod_pos_bound type (2 ^ 4) eq_refl).
  assert (2 ^ 4 * 2 ^ (i * 4) <= 2 ^ (n * 4))
    by (rewrite <- Z.pow_add_r by lia; apply Z.pow_le_mono_r; lia).
  assert (0 < 2 ^ (i * 4)) by (apply Z.pow_pos_nonneg; lia). nia.
Qed.

Lemma types_below_mono t n n' : 0 <= n <= n' -> types_below t n -> types_below t n'.
Proof.
  intros ? [? ?]; split; [done|]; eapply Z.lt_le_trans; [done|apply Z.pow_le_mono_r; lia].
Qed.

(** [nargs] is the position after the last non-zero type. *)
Lemma nargs_loop_spec fuel t n k :
  types_below t (Z.of_nat fuel) -> types_below t k -> 0 <= k ->
  (0 < k -> get_type t (k - 1) <> 0) -> nargs_loop fuel t n = n + k.
Proof.
  revert t n k; induction fuel as [|fuel IH]; intros t n k Hf Hk Hk0 Htop; cbn [nargs_loop].
  - assert (t = 0) as -> by (destruct Hf; simpl in *; lia).
    destruct (Z.eq_dec k 0); [lia|]; exfalso; apply Htop; [lia|].
    unfold get_type; now rewrite Z.shiftr_0_l.
  - destruct (Z.eqb_spec t 0) as [->|Hne].
    + destruct (Z.eq_dec k 0); [lia|]; exfalso; apply Htop; [lia|].
      unfold get_type; now rewrite Z.shiftr_0_l.
    + assert (0 < k) by (destruct (Z.eq_dec k 0); [subst; destruct Hk; simpl in *; lia|lia]).
      rewrite (IH _ _ (k - 1)); [lia | | | lia |].
      * destruct Hf as [H0 Hf]; rewrite Nat2Z.inj_succ in Hf; split; [apply Z.shiftr_nonneg; lia|].
        rewrite Z.shiftr_div_pow2 by lia; apply Z.div_lt_upper_bound; [lia|].
        rewrite <- Z.pow_add_r by lia; now replace (4 + Z.of_nat fuel * 4) with (Z.succ (Z.of_nat fuel) * 4) by lia.
      * destruct Hk as [H0 Hk']; split; [apply Z.shiftr_nonneg; lia|].
        rewrite Z.shiftr_div_pow2 by lia; apply Z.div_lt_upper_bound; [lia|].
        rewrite <- Z.pow_add_r by lia; now replace (4 + (k - 1) * 4) with (k * 4) by lia.
      * intros Hk1; unfold get_type; rewrite Z.shiftr_shiftr by lia.
        replace (4 + (k - 1 - 1) * 4) with ((k - 1) * 4) by lia; apply Htop; lia.
Qed.

(** ** What a pack holds *)

Record arg_wf (a : arg) : Prop := {
  awf_type : 0 <= a_type a < 16; awf_val : is_u64 (a_val a); awf_len : is_u32 (a_len a) }.

Record pack_wf (ap : argpack) : Prop := {
  pwf_val : length (p_argval ap) = 16%nat; pwf_len : length (p_arglen ap) = 16%nat;
  pwf_u32 : Forall is_u32 (p_arglen ap) }.

(** Slot [i] of the pack carries [a]; only the lower half of a 32-bit value is
    defined. *)
Definition packed (ap : argpack) (i : Z) (a : arg) : Prop :=
  get_type (p_argtype ap) i = a_type a /\
  (a_type a <> NONE ->
   u32 (pack_val64 ap i) = u32 (a_val a) /\
   (is_32bit (a_type a) = false -> pack_val64 ap i = a_val a) /\
   (is_simple (a_type a) = false -> snd (pack_data ap i) = a_len a)).

Lemma u32_store_low32 old v : u32 (store_low32 old v) = u32 v.
Proof.
  unfold store_low32, u32; rewrite Z.shiftl_mul_pow2 by lia; change (2 ^ 32) with 4294967296.
  rewrite Z.add_comm, Z_mod_plus_full; apply Z.mod_mod; lia.
Qed.

Lemma land_type_15 t : 0 <= t < 16 -> Z.land t 15 = t.
Proof. intros; change 15 with (Z.ones 4); rewrite Z.land_ones by lia; now apply Z.mod_small. Qed.

Lemma total_insert_eq (l : list Z) i x : 0 <= i < Z.of_nat (length l) -> <[Z.to_nat i := x]> l !!! Z.to_nat i = x.
Proof. intros; apply list_lookup_total_insert_eq; lia. Qed.

Lemma total_insert_ne (l : list Z) i j x : 0 <= i -> 0 <= j -> i <> j -> <[Z.to_nat i := x]> l !!! Z.to_nat j = l !!! Z.to_nat j.
Proof. intros; apply list_lookup_total_insert_ne; lia. Qed.

(** Setting one argument: its slot is filled, the others are kept. *)
Lemma pack_set_arg_spec ap i a :
  0 <= i < 16 -> pack_wf ap -> arg_wf a -> types_below (p_argtype ap) i ->
  let ap' := fst (pack_set_arg ap i a) in
  pack_wf ap' /\ types_below (p_argtype ap') (i + 1) /\ packed ap' i a /\
  forall j b, 0 <= j < i -> packed ap j b -> packed ap' j b.
Proof.
  intros Hi [Hv Hl Hu] [At Av Al] Ht; unfold pack_set_arg.
  pose proof (types_below_get _ i i ltac:(lia) Ht) as H0.
  destruct (Z.eqb_spec (a_type a) NONE) as [En|En]; cbn [fst].
  { split; [done|]; split; [eapply types_below_mono; [|done]; lia|].
    split; [split; [now rewrite En|done]|]; auto. }
  assert (Hti : get_type (set_type (p_argtype ap) i (a_type a)) i = a_type a).
  { rewrite get_set_type, decide_True, H0, Z.lor_0_l by (done || lia); now apply land_type_15. }
  assert (Htj : forall j, 0 <= j < i -> get_type (set_type (p_argtype ap) i (a_type a)) j = get_type (p_argtype ap) j).
  { intros; rewrite get_set_type, decide_False by lia; done. }
  assert (Htb : types_below (set_type (p_argtype ap) i (a_type a)) (i + 1)).
  { apply types_below_set; [lia|lia|]; eapply types_below_mono; [|done]; lia. }
  set (v := if is_32bit (a_type a) then _ else _).
  assert (Hvv : u32 v = u32 (a_val a)) by (unfold v; case_match; [apply u32_store_low32|done]).
  assert (Hv64 : is_32bit (a_type a) = false -> v = a_val a) by (unfold v; intros ->; done).
  destruct (is_simple (a_type a)) eqn:Es; cbn [fst].
  - split; [split; simpl; rewrite ?length_insert; auto|]; split; [done|]; unfold packed, pack_data, pack_val64; simpl.
    split; [rewrite total_insert_eq by lia; split; auto; intros _; rewrite Es; done|].
    intros j b Hj; rewrite Htj, total_insert_ne by lia; done.
  - split; [split; simpl; rewrite ?length_insert; auto using Forall_insert|].
    split; [done|]; unfold packed, pack_data, pack_val64; simpl.
    split; [rewrite !total_insert_eq by lia; auto|].
    intros j b Hj; rewrite Htj, !total_insert_ne by lia; done.
Qed.

Lemma pack_set_args_spec args : forall ap i n,
  0 <= i -> i + Z.of_nat (length args) <= 16 -> pack_wf ap -> Forall arg_wf args ->
  types_below (p_argtype ap) i ->
  let ap' := fst (pack_set_args ap i args n) in
  pack_wf ap' /\ types_below (p_argtype ap') (i + Z.of_nat (length args)) /\
  (forall j a, args !! j = Some a -> packed ap' (i + Z.of_nat j) a) /\
  forall j b, 0 <= j < i -> packed ap j b -> packed ap' j b.
Proof.
  induction args as [|a args IH]; intros ap i n Hi Hn Hwf Hargs Ht; simpl.
  { rewrite Z.add_0_r; repeat (split; [done|]); auto. }
  inversion Hargs; subst; simpl in Hn.
  destruct (pack_set_arg_spec ap i a) as (W & T & P & F); [lia|done..|].
  destruct (pack_set_arg ap i a) as [ap1 k]; simpl in *.
  destruct (IH ap1 (i + 1) (n + k)) as (W' & T' & P' & F'); [lia|lia|done..|].
  split; [done|]; split; [replace (i + Z.of_nat (S (length args))) with (i + 1 + Z.of_nat (length args)) by lia; done|].
  split; [|intros; apply F'; [lia|]; apply F; [lia|done]].
  intros [|j] b Hb; simpl in Hb.
  - injection Hb as <-; rewrite Z.add_0_r; apply F'; [lia|done].
  - replace (i + Z.of_nat (S j)) with (i + 1 + Z.of_nat j) by lia; auto.
Qed.

(** The arguments up to the last one that is not [NONE]. *)
Fixpoint arg_span (args : list arg) : Z :=
  match args with
  | [] => 0
  | a :: args =>
      if arg_span args =? 0 then if a_type a =? NONE then 0 else 1 else 1 + arg_span args
  end.

Lemma arg_span_bounds args : 0 <= arg_span args <= Z.of_nat (length args).
Proof. induction args; simpl; [lia|]; repeat case_match; lia. Qed.

Lemma arg_span_last args :
  0 < arg_span args -> exists a, args !! Z.to_nat (arg_span args - 1) = Some a /\ a_type a <> NONE.
Proof.
  induction args as [|a args IH]; simpl; [lia|]; pose proof (arg_span_bounds args).
  destruct (Z.eqb_spec (arg_span args) 0).
  - destruct (Z.eqb_spec (a_type a) NONE); [lia|]; intros _; exists a; done.
  - intros _; destruct IH as (b & Hb & ?); [lia|]; exists b; split; [|done].
    replace (Z.to_nat (1 + arg_span args - 1)) with (S (Z.to_nat (arg_span args - 1))) by lia; done.
Qed.

Lemma arg_span_beyond args i a :
  args !! i = Some a -> arg_span args <= Z.of_nat i -> a_type a = NONE.
Proof.
  revert i; induction args as [|b args IH]; intros [|i]; simpl; try done.
  - intros [= <-]; pose proof (arg_span_bounds args).
    repeat case_match; rewrite ?Z.eqb_eq in *; lia.
  - intros Hi; pose proof (arg_span_bounds args); repeat case_match; rewrite ?Z.eqb_eq in *;
      intros; apply (IH i); auto; lia.
Qed.

(** The count of complex arguments is zero only when there is none. *)
Lemma pack_set_args_count args : forall ap i n, 0 <= n ->
  snd (pack_set_args ap i args n) = n ->
  Forall (fun a => is_simple (a_type a) = true) args.
Proof.
  assert (M : forall args ap i n, n <= snd (pack_set_args ap i args n)).
  { clear; induction args as [|a args IH]; intros ap i n; cbn [pack_set_args]; [cbn; lia|].
    destruct (pack_set_arg ap i a) as [ap' k] eqn:E; specialize (IH ap' (i + 1) (n + k)).
    unfold pack_set_arg in E; repeat case_match; injection E as _ <-; lia. }
  induction args as [|a args IH]; intros ap i n Hn E; [constructor|]; cbn [pack_set_args] in E.
  destruct (pack_set_arg ap i a) as [ap' k] eqn:Ea; pose proof (M args ap' (i + 1) (n + k)) as Hm.
  unfold pack_set_arg in Ea; destruct (Z.eqb_spec (a_type a) NONE) as [T|T].
  - injection Ea as <- <-; constructor; [rewrite T; reflexivity|].
    apply (IH ap (i + 1) n Hn); rewrite Z.add_0_r in E; exact E.
  - destruct (is_simple (a_type a)) eqn:S; injection Ea as <- <-; [|lia].
    constructor; [done|]; eapply (IH _ _ n Hn); rewrite Z.add_0_r in E; exact E.
Qed.

Lemma populate_zero ap0 args :
  snd (populate ap0 args) = 0 -> Forall (fun a => is_simple (a_type a) = true) args.
Proof. apply pack_set_args_count; lia. Qed.

Lemma populate_beyond ap0 args :
  (length args <= 16)%nat -> pack_wf ap0 -> Forall arg_wf args ->
  types_below (p_argtype (fst (populate ap0 args))) (Z.of_nat (length args)).
Proof.
  intros Hn [? ? ?] Hargs; unfold populate.
  now destruct (pack_set_args_spec args (mkPack 0 (p_argval ap0) (p_arglen ap0)) 0 0)
    as (_ & T & _); [lia|lia|done|done|split; simpl; lia|].
Qed.

Lemma populate_spec ap0 args :
  (length args <= 16)%nat -> pack_wf ap0 -> Forall arg_wf args ->
  let ap := fst (populate ap0 args) in
  pack_wf ap /\ nargs ap = arg_span args /\
  forall i a, args !! i = Some a -> packed ap (Z.of_nat i) a.
Proof.
  intros Hn [? ? ?] Hargs; unfold populate.
  destruct (pack_set_args_spec args (mkPack 0 (p_argval ap0) (p_arglen ap0)) 0 0)
    as (W & T & P & _); [lia|lia|done|done|split; simpl; lia|].
  set (ap := fst _) in *; split; [done|]; split; [|done].
  pose proof (arg_span_bounds args).
  assert (Hty : forall i a, args !! i = Some a -> get_type (p_argtype ap) (Z.of_nat i) = a_type a)
    by (intros i a Hi; apply (P i a Hi)).
  unfold nargs; rewrite (nargs_loop_spec 16 _ 0 (arg_span args)); [lia| | |lia|].
  - eapply types_below_mono; [|exact T]; lia.
  - (* no type set from the span on *)
    assert (Hz : forall j, arg_span args <= j -> get_type (p_argtype ap) j = 0).
    { intros j Hj; destruct (Z.le_gt_cases (Z.of_nat (length args)) j).
      - eapply types_below_get; [|exact T]; lia.
      - destruct (lookup_lt_is_Some_2 args (Z.to_nat j)) as [a Ha]; [lia|].
        rewrite <- (Z2Nat.id j), (Hty _ _ Ha) by lia.
        rewrite (arg_span_beyond _ _ _ Ha) by lia; reflexivity. }
    destruct T as [T0 T1]; split; [done|].
    assert (E : p_argtype ap = p_argtype ap mod 2 ^ (arg_span args * 4)).
    { apply Z.bits_inj'; intros b Hb; destruct (Z.lt_ge_cases b (arg_span args * 4)).
      - now rewrite Z.mod_pow2_bits_low by lia.
      - rewrite Z.mod_pow2_bits_high by lia.
        pose proof (testbit_get_type (p_argtype ap) (b / 4) (b mod 4)) as Hbit.
        rewrite Hz, Z.testbit_0_l in Hbit by (Z.div_mod_to_equations; lia).
        replace (b mod 4 + b / 4 * 4) with b in Hbit by (Z.div_mod_to_equations; lia).
        destruct (Z.ltb_spec (b mod 4) 4); [|Z.div_mod_to_equations; lia].
        symmetry; apply Hbit; Z.div_mod_to_equations; lia. }
    rewrite E; apply Z.mod_pos_bound, Z.pow_pos_nonneg; lia.
  - intros Hpos; destruct (arg_span_last args Hpos) as (a & Ha & Hne).
    rewrite <- (Z2Nat.id (arg_span args - 1)), (Hty _ _ Ha) by lia; done.
Qed.
