(* ===== verification/Record.v ===== *)
(** * Log records (detail/record.hpp)

    A record is its header and a byte buffer that starts with the sixteen
    argument slots and continues with the tail room of the ring, exactly the
    bytes from [argval] to the end of the ring slot.  Strings, raw blobs and
    dumps are copied into that buffer, so every store below is a [memcpy] that
    yields [None] when it would leave it. *)

From S2P Require Import Prelude Args.

(** ** Layout *)

(* src: include/hogl/detail/record.hpp 49-81 record *)
Record record := mkRecord {
  r_area : option Z;      (* pointer to the area, [None] when null *)
  r_timestamp : Z;
  r_seqnum : Z;           (* 52 bits *)
  r_section : Z;          (* 12 bits *)
  r_argtype : Z;
  r_argval : bytes        (* argument slots and tail room *)
}.

Definition NARGS : Z := 16.

(* src: include/hogl/detail/record.hpp 72-75 record::argval_size *)
Definition argval_size : Z := NARGS * 8.
Definition sizeof_record : Z := 8 + 8 + 8 + 8 + argval_size.
(* src: include/hogl/detail/record.hpp 77-81 record::header_size *)
Definition header_size : Z := sizeof_record - argval_size.

Definition with_argval (r : record) (b : bytes) : record :=
  mkRecord (r_area r) (r_timestamp r) (r_seqnum r) (r_section r) (r_argtype r) b.
Definition with_argtype (r : record) (t : Z) : record :=
  mkRecord (r_area r) (r_timestamp r) (r_seqnum r) (r_section r) t (r_argval r).

(** The two bit fields truncate what is stored in them. *)
Definition with_seqnum (r : record) (s : Z) : record :=
  mkRecord (r_area r) (r_timestamp r) (s mod 2 ^ 52) (r_section r) (r_argtype r) (r_argval r).
Definition with_section (r : record) (s : Z) : record :=
  mkRecord (r_area r) (r_timestamp r) (r_seqnum r) (s mod 2 ^ 12) (r_argtype r) (r_argval r).

(* src: include/hogl/detail/record.hpp 83-91 record::set_arg_type *)
Definition set_arg_type (r : record) (i type : Z) : record :=
  with_argtype r (set_type (r_argtype r) i type).
(* src: include/hogl/detail/record.hpp 93-101 record::get_arg_type *)
Definition get_arg_type (r : record) (i : Z) : Z := get_type (r_argtype r) i.
(* src: include/hogl/detail/record.hpp 103-110 record::clear_arg_type *)
Definition clear_arg_type (r : record) (i : Z) : record :=
  with_argtype r (clear_type (r_argtype r) i).

(** ** The argument slots *)

(* src: include/hogl/detail/record.hpp 112-120 record::set_arg_val32 *)
Definition set_arg_val32 (r : record) (i v : Z) : option record :=
  b ← memcpy (r_argval r) (i * 8) (le_bytes 4 (u32 v)); Some (with_argval r b).
(* src: include/hogl/detail/record.hpp 122-130 record::set_arg_val64 *)
Definition set_arg_val64 (r : record) (i v : Z) : option record :=
  b ← memcpy (r_argval r) (i * 8) (le_bytes 8 (u64 v)); Some (with_argval r b).
(* src: include/hogl/detail/record.hpp 132-142 record::set_arg_data *)
Definition set_arg_data (r : record) (i offset len : Z) : option record :=
  b ← memcpy (r_argval r) (i * 8) (le_bytes 4 (u32 offset) ++ le_bytes 4 (u32 len));
  Some (with_argval r b).

(* src: include/hogl/detail/record.hpp 144-151 record::get_arg_val32 *)
Definition get_arg_val32 (r : record) (i : Z) : Z := le_val (peek (r_argval r) (i * 8) 4).
(* src: include/hogl/detail/record.hpp 153-160 record::get_arg_val64 *)
Definition get_arg_val64 (r : record) (i : Z) : Z := le_val (peek (r_argval r) (i * 8) 8).

(** The data of an argument: its place in the buffer, and its bytes. *)
(* src: include/hogl/detail/record.hpp 162-174 record::get_arg_data *)
Definition get_arg_data (r : record) (i : Z) : Z * Z :=
  (le_val (peek (r_argval r) (i * 8) 4), le_val (peek (r_argval r) (i * 8 + 4) 4)).
Definition arg_data (r : record) (i : Z) : bytes :=
  let '(offset, len) := get_arg_data r i in peek (r_argval r) offset len.

(** ** Copying strings, blobs and dumps

    [m] is the caller's memory and [str], [data], [xd] are addresses in it;
    the result is the record and the number of buffer bytes used. *)

(* src: include/hogl/detail/record.hpp 176-212 record::copy_cstr *)
Definition copy_cstr (m : memory) (r : record) (i p len tailroom offset : Z)
  : option (record * Z) :=
  let room := tailroom -u32 offset in
  if (len =? 0) || (room =? 0) then r ← set_arg_data r i 0 0; Some (r, 0)
  else
    let room := room -u32 1 in
    '(b, n, len) ←
      (if room <? len then
         if 3 <? room then
           b ← memcpy (r_argval r) (offset + (room - 3)) (str ">>>"); Some (b, room - 3, room)
         else Some (r_argval r, room, room)
       else Some (r_argval r, len, len));
    b ← memcpy b offset (mread m p n);
    b ← memcpy b (offset + len) [0];
    r ← set_arg_data (with_argval r b) i offset len;
    Some (r, len +u32 1).

(* src: include/hogl/detail/record.hpp 214-232 record::copy_data *)
Definition copy_data (m : memory) (r : record) (i p len tailroom offset : Z)
  : option (record * Z) :=
  let room := tailroom -u32 offset in
  let len := if room <? len then room else len in
  b ← memcpy (r_argval r) offset (mread m p len);
  r ← set_arg_data (with_argval r b) i offset len;
  Some (r, len).

(* src: include/hogl/detail/record.hpp 234-261 record::copy_xdump *)
Definition copy_xdump (m : memory) (r : record) (i xd tailroom offset : Z)
  : option (record * Z) :=
  let hlen := sizeof_xdump_format in
  let room := tailroom -u32 offset in
  let len := hlen +u32 xd_len m xd in
  let len := if room <? len then room else len in
  if len <? hlen then r ← set_arg_data r i 0 0; Some (r, 0)
  else
    let dlen := len - hlen in
    b ← memcpy (r_argval r) offset (xd_fmt m xd);
    b ← memcpy b (offset + hlen) (mread m (xd_ptr m xd) dlen);
    r ← set_arg_data (with_argval r b) i offset len;
    Some (r, len).

(** ** Populating the arguments *)

(* src: include/hogl/detail/record.hpp 263-300 record::set_arg *)
Definition set_arg (m : memory) (r : record) (i : Z) (a : arg) (tailroom offset : Z)
  : option (record * Z) :=
  if a_type a =? NONE then Some (r, offset)
  else
    let r := set_arg_type r i (a_type a) in
    if a_type a =? RAW then
      '(r, n) ← copy_data m r i (a_val a) (a_len a) tailroom offset; Some (r, offset +u32 n)
    else if a_type a =? XDUMP then
      '(r, n) ← copy_xdump m r i (a_val a) tailroom offset; Some (r, offset +u32 n)
    else if a_type a =? CSTR then
      '(r, n) ← copy_cstr m r i (a_val a) (a_len a) tailroom offset; Some (r, offset +u32 n)
    else
      r ← (if is_32bit (a_type a) then set_arg_val32 r i (a_val a)
           else set_arg_val64 r i (a_val a));
      Some (r, offset).

Fixpoint set_arg_list (m : memory) (r : record) (i : Z) (args : list arg) (tailroom offset : Z)
  : option record :=
  match args with
  | [] => Some r
  | a :: args =>
      '(r, offset) ← set_arg m r i a tailroom offset;
      set_arg_list m r (i + 1) args tailroom offset
  end.

(** The inlined version; [args] are the sixteen parameters up to the last one
    given, the others being [arg()]. *)
(* src: include/hogl/detail/record.hpp 302-321 record::set_args *)
Definition set_args (m : memory) (r : record) (tailroom : Z) (args : list arg) : option record :=
  let n := Z.of_nat (length (filter (fun a => a_type a <> NONE) args)) in
  set_arg_list m (with_argtype r 0) 0 args tailroom (n *u32 8).

(** One turn of the loop of the out of line version. *)
(* src: include/hogl/detail/record.hpp 334-349 record::set_args *)
Definition set_packed_arg (m : memory) (ap : argpack) (r : record) (i tailroom offset : Z)
  : option (record * Z) :=
  let type := get_type (p_argtype ap) i in
  let '(data, len) := pack_data ap i in
  if type =? RAW then
    '(r, n) ← copy_data m r i data len tailroom offset; Some (r, offset +u32 n)
  else if type =? XDUMP then
    '(r, n) ← copy_xdump m r i data tailroom offset; Some (r, offset +u32 n)
  else if type =? CSTR then
    '(r, n) ← copy_cstr m r i data len tailroom offset; Some (r, offset +u32 n)
  else r ← set_arg_val64 r i (pack_val64 ap i); Some (r, offset).

Fixpoint set_packed_args (k : nat) (m : memory) (ap : argpack) (r : record) (i tailroom offset : Z)
  : option record :=
  match k with
  | O => Some r
  | S k =>
      '(r, offset) ← set_packed_arg m ap r i tailroom offset;
      set_packed_args k m ap r (i + 1) tailroom offset
  end.

(* src: include/hogl/detail/record.hpp 323-350 record::set_args *)
Definition set_args_pack (m : memory) (r : record) (tailroom : Z) (ap : argpack) : option record :=
  let n := nargs ap in
  set_packed_args (Z.to_nat n) m ap (with_argtype r (p_argtype ap)) 0 tailroom (n *u32 8).

(** ** Special records *)

(* src: include/hogl/detail/record.hpp 352-362 record::clear *)
Definition clear (r : record) : record := mkRecord None 0 0 0 0 (r_argval r).

(* src: include/hogl/detail/record.hpp 364-375 record::special *)
Definition make_special (r : record) (type arg1 arg2 : Z) : option record :=
  let r := with_section (mkRecord None (r_timestamp r) (r_seqnum r) 0 (u64 type) (r_argval r)) 4095 in
  r ← set_arg_val64 r 0 0; r ← set_arg_val64 r 1 arg1; set_arg_val64 r 2 arg2.

(* src: include/hogl/detail/record.hpp 377-386 record::special *)
Definition is_special (r : record) : bool :=
  if bool_decide (r_area r <> None) || negb (r_section r =? 4095) then false else true.

(* src: include/hogl/detail/record.hpp 388-395 record::ack *)
Definition ack (r : record) : option record := set_arg_val64 r 0 32383.  (* 0x7e7f *)

(* src: include/hogl/detail/record.hpp 397-405 record::acked *)
Definition acked (r : record) : bool := get_arg_val64 r 0 =? 32383.

(** ** What a reader sees *)

(** The value of an argument, as the format handlers read it by its type. *)
Inductive arg_view :=
  | View32 (v : Z) | View64 (v : Z) | ViewStr (b : bytes) | ViewData (b : bytes).

Definition is_complex (type : Z) : bool := negb (is_simple type).

Definition view_complex (type : Z) (b : bytes) : arg_view :=
  if type =? CSTR then ViewStr b else ViewData b.

Definition view (r : record) (i : Z) : option arg_view :=
  let t := get_arg_type r i in
  if t =? NONE then None
  else if is_complex t then Some (view_complex t (arg_data r i))
  else if is_32bit t then Some (View32 (get_arg_val32 r i))
  else Some (View64 (get_arg_val64 r i)).

(** *** Specification of the data kept for a complex argument

    [room] is what is left of the tail room; the result is the stored data and
    the number of buffer bytes used. *)
Definition cstr_stored (data : bytes) (room : Z) : bytes * Z :=
  let len := Z.of_nat (length data) in
  if (len =? 0) || (room =? 0) then ([], 0)
  else if len <=? room - 1 then (data, len + 1)
  else if 3 <? room - 1 then (take (Z.to_nat (room - 4)) data ++ str ">>>", room)
  else (take (Z.to_nat (room - 1)) data, room).

Definition data_stored (data : bytes) (room : Z) : bytes * Z :=
  (take (Z.to_nat room) data, Z.min room (Z.of_nat (length data))).

Definition xdump_stored (m : memory) (xd room : Z) : bytes * Z :=
  let len := Z.min room (4 +u32 xd_len m xd) in
  if len <? 4 then ([], 0)
  else (xd_fmt m xd ++ mread m (xd_ptr m xd) (len - 4), len).

Definition stored (m : memory) (type p len room : Z) : bytes * Z :=
  if type =? RAW then data_stored (mread m p len) room
  else if type =? XDUMP then xdump_stored m p room
  else cstr_stored (mread m p len) room.

Definition arg_spec (m : memory) (type val len room : Z) : option arg_view * Z :=
  if type =? NONE then (None, 0)
  else if is_complex type then
    let '(b, used) := stored m type val len room in (Some (view_complex type b), used)
  else if is_32bit type then (Some (View32 (u32 val)), 0)
  else (Some (View64 (u64 val)), 0).

(** The views of a list of arguments stored one after the other from
    [offset] on. *)
Fixpoint args_spec (m : memory) (tailroom offset : Z) (args : list arg) : list (option arg_view) :=
  match args with
  | [] => []
  | a :: args =>
      let '(v, used) := arg_spec m (a_type a) (a_val a) (a_len a) (tailroom - offset) in
      v :: args_spec m tailroom (offset + used) args
  end.

(** *** Writing one argument leaves the others alone

    [touches b b' i lo hi]: only slot [i] and the region from [lo] to [hi]
    differ. *)
Definition touches (b b' : bytes) (i lo hi : Z) : Prop :=
  length b' = length b /\
  forall o n, 0 <= o -> 0 <= n ->
    o + n <= i * 8 \/ i * 8 + 8 <= o -> o + n <= lo \/ hi <= o ->
    peek b' o n = peek b o n.

Lemma touches_refl b i lo hi : touches b b i lo hi.
Proof. split; auto. Qed.

Lemma touches_trans b b' b'' i lo hi :
  touches b b' i lo hi -> touches b' b'' i lo hi -> touches b b'' i lo hi.
Proof. intros [L1 H1] [L2 H2]; split; [congruence|]; intros; rewrite H2, H1; auto. Qed.

Lemma memcpy_touches_region b o data b' i lo hi :
  memcpy b o data = Some b' -> lo <= o -> o + Z.of_nat (length data) <= hi ->
  touches b b' i lo hi.
Proof.
  intros H ? ?; split; [eapply memcpy_length; eauto|]; intros.
  eapply memcpy_peek_disjoint; eauto; lia.
Qed.

Lemma memcpy_touches_slot b data b' i lo hi :
  memcpy b (i * 8) data = Some b' -> Z.of_nat (length data) <= 8 -> touches b b' i lo hi.
Proof.
  intros H ?; split; [eapply memcpy_length; eauto|]; intros.
  eapply memcpy_peek_disjoint; eauto; lia.
Qed.

Lemma peek_all b : peek b 0 (Z.of_nat (length b)) = b.
Proof. unfold peek; rewrite Nat2Z.id; simpl; rewrite drop_0; now apply take_ge. Qed.

Lemma peek_app b o n n' : 0 <= o -> 0 <= n -> 0 <= n' -> peek b o (n + n') = peek b o n ++ peek b (o + n) n'.
Proof.
  intros; unfold peek; rewrite !Z2Nat.inj_add by lia.
  rewrite <- drop_drop; symmetry; apply take_take_drop.
Qed.

Lemma set_arg_data_spec r i o l :
  0 <= i < 16 -> 128 <= Z.of_nat (length (r_argval r)) -> is_u32 o -> is_u32 l ->
  exists b, set_arg_data r i o l = Some (with_argval r b) /\
    (forall lo hi, touches (r_argval r) b i lo hi) /\
    le_val (peek b (i * 8) 4) = o /\ le_val (peek b (i * 8 + 4) 4) = l.
Proof.
  intros Hi Hlen Ho Hl; unfold set_arg_data.
  rewrite !u32_small by done.
  set (d := le_bytes 4 o ++ le_bytes 4 l).
  assert (Hd : length d = 8%nat) by reflexivity.
  destruct (memcpy_some (r_argval r) (i * 8) d) as [b Hb]; [lia|lia|].
  rewrite Hb; exists b; split; [done|]; split; [|].
  { intros; eapply memcpy_touches_slot; eauto; lia. }
  pose proof (memcpy_peek _ _ _ _ Hb) as Hp; rewrite Hd in Hp.
  change (Z.of_nat 8) with (4 + 4) in Hp; rewrite peek_app in Hp by lia.
  apply app_inj_1 in Hp as [H1 H2].
  - rewrite H1, H2, !le_val_bytes4; auto.
  - apply Nat2Z.inj; rewrite peek_length by (rewrite ?(memcpy_length _ _ _ _ Hb); lia); reflexivity.
Qed.

(** *** The copies meet their specification *)

(** [r'] is [r] with argument [i] stored: [data] sits in the region of [used]
    bytes at [offset], followed by a terminator when [nul]. *)
Record placed (r r' : record) (i offset used : Z) (data : bytes) (nul : bool) : Prop := {
  pl_frame : r' = with_argval r (r_argval r');
  pl_touches : touches (r_argval r) (r_argval r') i offset (offset + used);
  pl_used : 0 <= used /\ Z.of_nat (length data) + (if nul then 1 else 0) <= used \/ data = [] /\ used = 0;
  pl_len : snd (get_arg_data r' i) = Z.of_nat (length data);
  pl_data : data <> [] -> fst (get_arg_data r' i) = offset /\
    peek (r_argval r') offset (Z.of_nat (length data) + (if nul then 1 else 0)) =
      data ++ (if nul then [0] else [])
}.

(** A place in the record where argument [i] can be stored. *)
Definition has_room (r : record) (i tailroom offset : Z) : Prop :=
  0 <= i < 16 /\ 128 <= tailroom < 4294967296 /\
  Z.of_nat (length (r_argval r)) = tailroom /\ i * 8 + 8 <= offset <= tailroom.

Ltac room H := let Hi := fresh "Hi" in let Ht := fresh "Htail" in let Hb := fresh "Hbuf" in let Ho := fresh "Hoff" in
  destruct H as (Hi & Ht & Hb & Ho).

(** A copy that only clears the descriptor of the argument. *)
Lemma placed_nothing r i tailroom offset nul :
  has_room r i tailroom offset ->
  exists r', set_arg_data r i 0 0 = Some r' /\ placed r r' i offset 0 [] nul.
Proof.
  intros H; room H.
  destruct (set_arg_data_spec r i 0 0) as (b & E & Ht & H1 & H2); [lia|lia|words; lia..|].
  exists (with_argval r b); split; [done|]; constructor; simpl; auto; done.
Qed.

(** The final step of the copies: the data is in the buffer [b], the
    descriptor is stored last. *)
Lemma placed_descriptor r b i tailroom offset used (data : bytes) (nul : bool) :
  has_room r i tailroom offset ->
  touches (r_argval r) b i offset (offset + used) ->
  0 <= used <= tailroom - offset ->
  Z.of_nat (length data) + (if nul then 1 else 0) <= used ->
  peek b offset (Z.of_nat (length data) + (if nul then 1 else 0)) = data ++ (if nul then [0] else []) ->
  exists r', set_arg_data (with_argval r b) i offset (Z.of_nat (length data)) = Some r' /\
    placed r r' i offset used data nul.
Proof.
  intros H Ht Hu Hl Hp; room H; pose proof (proj1 Ht) as Hlen.
  destruct (set_arg_data_spec (with_argval r b) i offset (Z.of_nat (length data)))
    as (b' & E & Ht' & H1 & H2); [lia | simpl; lia | words; lia | words; destruct nul; lia |].
  exists (with_argval r b'); split; [exact E|]; constructor; simpl; [done | | left; lia | done |].
  - eapply touches_trans; [exact Ht|]; apply Ht'.
  - intros _; split; [done|]; rewrite <- Hp.
    destruct (Ht' 0 0) as [_ Hsame]; simpl in Hsame.
    apply Hsame; destruct nul; lia.
Qed.

Lemma copy_data_placed m r i p len tailroom offset :
  has_room r i tailroom offset -> is_u32 len ->
  exists r', let '(d, used) := data_stored (mread m p len) (tailroom - offset) in
    copy_data m r i p len tailroom offset = Some (r', used) /\ placed r r' i offset used d false.
Proof.
  intros H Hlen; pose proof H as H'; room H'.
  unfold copy_data, data_stored; rewrite u32_small by (words; lia).
  rewrite length_mread, Z2Nat.id by (words; lia).
  set (room := tailroom - offset).
  assert (Hn : (if room <? len then room else len) = Z.min room len)
    by (destruct (Z.ltb_spec room len); lia).
  rewrite Hn; set (n := Z.min room len).
  assert (Hd : take (Z.to_nat room) (mread m p len) = mread m p n).
  { destruct (Z.le_gt_cases room len).
    - rewrite take_mread by lia; f_equal; lia.
    - rewrite take_ge by (rewrite length_mread; lia); f_equal; lia. }
  rewrite Hd.
  assert (Hl : Z.of_nat (length (mread m p n)) = n) by (rewrite length_mread; words; lia).
  destruct (memcpy_some (r_argval r) offset (mread m p n)) as [b Hb]; [lia|words; lia|].
  rewrite Hb; simpl.
  destruct (placed_descriptor r b i tailroom offset n (mread m p n) false) as (r' & E & P);
    [done | eapply memcpy_touches_region; eauto; lia | words; lia | lia | |].
  - rewrite app_nil_r, Z.add_0_r; eapply memcpy_peek; eauto.
  - rewrite Hl in E; rewrite E; simpl; eauto.
Qed.

Lemma xd_len_range m p : mem_ok m -> is_u32 (xd_len m p).
Proof.
  intros; unfold xd_len; pose proof (le_val_range (mread m (p + 16) 4)) as L.
  rewrite length_mread in L; apply L; auto with hogl.
Qed.

Lemma copy_xdump_placed m r i p tailroom offset :
  has_room r i tailroom offset -> mem_ok m ->
  exists r', let '(d, used) := xdump_stored m p (tailroom - offset) in
    copy_xdump m r i p tailroom offset = Some (r', used) /\ placed r r' i offset used d false.
Proof.
  intros H Hm; pose proof H as H'; room H'.
  unfold copy_xdump, xdump_stored, sizeof_xdump_format; rewrite (u32_small (tailroom - offset)) by (words; lia).
  set (room := tailroom - offset); set (want := 4 +u32 xd_len m p).
  assert (Hn : (if room <? want then room else want) = Z.min room want)
    by (destruct (Z.ltb_spec room want); lia).
  rewrite Hn; set (n := Z.min room want).
  destruct (Z.ltb_spec n 4).
  { destruct (placed_nothing r i tailroom offset false H) as (r' & E & P); rewrite E; simpl; eauto. }
  set (hd := xd_fmt m p); set (dt := mread m (xd_ptr m p) (n - 4)).
  assert (Hh : length hd = 4%nat) by (unfold hd, xd_fmt; now rewrite length_mread).
  assert (Hdt : Z.of_nat (length dt) = n - 4) by (unfold dt; rewrite length_mread; lia).
  destruct (memcpy_some (r_argval r) offset hd) as [b1 Hb1]; [lia|lia|].
  rewrite Hb1; simpl; pose proof (memcpy_length _ _ _ _ Hb1).
  destruct (memcpy_some b1 (offset + 4) dt) as [b2 Hb2]; [lia|lia|].
  rewrite Hb2; simpl.
  destruct (placed_descriptor r b2 i tailroom offset n (hd ++ dt) false) as (r' & E & P);
    rewrite ?length_app; try done; try lia.
  - eapply touches_trans; eapply memcpy_touches_region; eauto; lia.
  - rewrite app_nil_r, Z.add_0_r, Nat2Z.inj_add, peek_app by lia; f_equal.
    + erewrite memcpy_peek_disjoint; eauto; [|lia..]; eapply memcpy_peek; eauto.
    + rewrite Hh; eapply memcpy_peek; eauto.
  - rewrite length_app, Hh in E.
    replace (Z.of_nat (4 + length dt)) with n in E by lia.
    rewrite E; simpl; eauto.
Qed.

(** The body of [copy_cstr] once the number [n] of source bytes is known: the
    bytes, the part [mark] written before them, the terminator. *)
Lemma copy_cstr_tail m r b i p n (mark : bytes) tailroom offset :
  has_room r i tailroom offset -> 0 <= n ->
  n + Z.of_nat (length mark) + 1 <= tailroom - offset ->
  (if decide (mark = []) then b = r_argval r
   else memcpy (r_argval r) (offset + n) mark = Some b) ->
  let len := n + Z.of_nat (length mark) in
  exists b1 b2 r', memcpy b offset (mread m p n) = Some b1 /\
    memcpy b1 (offset + len) [0] = Some b2 /\
    set_arg_data (with_argval r b2) i offset len = Some r' /\
    placed r r' i offset (len + 1) (mread m p n ++ mark) true.
Proof.
  intros H Hn Hfit Hb len; pose proof H as H'; room H'.
  assert (Hd : Z.of_nat (length (mread m p n)) = n) by (rewrite length_mread; lia).
  assert (Hmark : touches (r_argval r) b i offset (offset + (len + 1)) /\
                  peek b (offset + n) (Z.of_nat (length mark)) = mark).
  { case_decide as Hm.
    - subst; split; [apply touches_refl|]. unfold peek; reflexivity.
    - split; [eapply memcpy_touches_region; eauto; lia | eapply memcpy_peek; eauto]. }
  destruct Hmark as [Ht Hmk]; pose proof (proj1 Ht) as Hlb.
  destruct (memcpy_some b offset (mread m p n)) as [b1 Hb1]; [lia|lia|].
  pose proof (memcpy_length _ _ _ _ Hb1) as Hl1.
  destruct (memcpy_some b1 (offset + len) [0]) as [b2 Hb2]; [lia|simpl; lia|].
  destruct (placed_descriptor r b2 i tailroom offset (len + 1) (mread m p n ++ mark) true)
    as (r' & E & P); rewrite ?length_app, ?Nat2Z.inj_add, ?Hd; try done; try lia.
  - eapply touches_trans; [exact Ht|]; eapply touches_trans; eapply memcpy_touches_region; eauto;
      simpl; lia.
  - fold len; rewrite peek_app by lia; f_equal.
    + rewrite (memcpy_peek_disjoint _ _ _ _ _ _ Hb2) by (simpl; lia).
      unfold len; rewrite peek_app by lia; f_equal.
      * rewrite <- Hd at 1; eapply memcpy_peek; eauto.
      * rewrite (memcpy_peek_disjoint _ _ _ _ _ _ Hb1) by (simpl; lia); apply Hmk.
    + apply (memcpy_peek _ _ _ _ Hb2).
  - rewrite length_app, Nat2Z.inj_add, Hd in E; fold len in E; eauto 10.
Qed.

Lemma copy_cstr_placed m r i p len tailroom offset :
  has_room r i tailroom offset -> is_u32 len ->
  exists r', let '(d, used) := cstr_stored (mread m p len) (tailroom - offset) in
    copy_cstr m r i p len tailroom offset = Some (r', used) /\ placed r r' i offset used d true.
Proof.
  intros H Hlen; pose proof H as H'; room H'.
  unfold copy_cstr, cstr_stored; rewrite (u32_small (tailroom - offset)) by (words; lia).
  rewrite length_mread, Z2Nat.id by (words; lia).
  set (room := tailroom - offset).
  destruct ((len =? 0) || (room =? 0)) eqn:E0.
  { destruct (placed_nothing r i tailroom offset true H) as (r' & E & P); rewrite E; simpl; eauto. }
  apply orb_false_elim in E0 as [?%Z.eqb_neq ?%Z.eqb_neq].
  rewrite (u32_small (room - 1)) by (words; lia).
  destruct (Z.ltb_spec (room - 1) len) as [Hbig|Hfits].
  - destruct (Z.leb_spec len (room - 1)); [lia|].
    destruct (Z.ltb_spec 3 (room - 1)).
    + assert (Hm : Z.of_nat (length (str ">>>")) = 3) by reflexivity.
      destruct (memcpy_some (r_argval r) (offset + (room - 1 - 3)) (str ">>>")) as [b Hb]; [lia|lia|].
      destruct (copy_cstr_tail m r b i p (room - 4) (str ">>>") tailroom offset)
        as (b1 & b2 & r' & E1 & E2 & E3 & P); [done|lia|lia| |].
      { rewrite decide_False by done. rewrite <- Hb; f_equal; lia. }
      rewrite Hm in *; replace (room - 4 + 3) with (room - 1) in * by lia.
      rewrite Hb; simpl; replace (room - 1 - 3) with (room - 4) by lia.
      rewrite E1; simpl; rewrite E2; simpl; rewrite E3; simpl.
      rewrite u32_small by (words; lia).
      exists r'; rewrite take_mread by lia; replace (room - 1 + 1) with room in * by lia; eauto.
    + destruct (copy_cstr_tail m r (r_argval r) i p (room - 1) [] tailroom offset)
        as (b1 & b2 & r' & E1 & E2 & E3 & P); [done|lia|simpl; lia|done|].
      simpl length in *; rewrite Z.add_0_r in *.
      simpl; rewrite E1; simpl; rewrite E2; simpl; rewrite E3; simpl.
      rewrite u32_small by (words; lia).
      exists r'; rewrite take_mread, app_nil_r in * by lia; replace (room - 1 + 1) with room in * by lia; eauto.
  - destruct (Z.leb_spec len (room - 1)); [|lia].
    destruct (copy_cstr_tail m r (r_argval r) i p len [] tailroom offset)
      as (b1 & b2 & r' & E1 & E2 & E3 & P); [done|words; lia|simpl; lia|done|].
    simpl length in *; rewrite Z.add_0_r in *.
    simpl; rewrite E1; simpl; rewrite E2; simpl; rewrite E3; simpl.
    rewrite u32_small by (words; lia).
    exists r'; rewrite app_nil_r in *; eauto.
Qed.

(** *** All the arguments of a record *)

Lemma stored_used m type p len room :
  0 <= room -> mem_ok m -> is_u32 len -> 0 <= snd (stored m type p len room) <= room.
Proof.
  intros Hr Hm Hl; unfold stored, data_stored, xdump_stored, cstr_stored.
  pose proof (xd_len_range m p Hm); pose proof (u32_range (4 + xd_len m p)).
  rewrite !length_mread, Z2Nat.id by (words; lia); words.
  repeat case_match; simpl; lia.
Qed.

(** The data [d] of argument [j], followed by [tl], is in the buffer between
    the slots of the [n] arguments and [offset]. *)
Definition data_ok (r : record) (n offset j : Z) (d tl : bytes) : Prop :=
  snd (get_arg_data r j) = Z.of_nat (length d) /\
  (d <> [] ->
   let o := fst (get_arg_data r j) in
   n * 8 <= o /\ o + Z.of_nat (length (d ++ tl)) <= offset /\
   peek (r_argval r) o (Z.of_nat (length (d ++ tl))) = d ++ tl).

(** Argument [j] of [r] is stored as [v], its data between the slots of the
    [n] arguments and [offset]. *)
Definition slot_ok (r : record) (n offset j : Z) (v : option arg_view) : Prop :=
  match v with
  | None => True
  | Some (View32 x) => get_arg_val32 r j = x
  | Some (View64 x) => get_arg_val64 r j = x
  | Some (ViewData d) => data_ok r n offset j d []
  | Some (ViewStr d) => data_ok r n offset j d [0]
  end.

Lemma slot_ok_frame r r' n i offset used j v :
  0 <= i < n -> 0 <= j < n -> i <> j -> n * 8 <= offset -> 0 <= used ->
  touches (r_argval r) (r_argval r') i offset (offset + used) ->
  slot_ok r n offset j v -> slot_ok r' n (offset + used) j v.
Proof.
  intros Hi Hj Hij Hn Hu [_ Ht].
  assert (E4 : peek (r_argval r') (j * 8) 4 = peek (r_argval r) (j * 8) 4) by (apply Ht; lia).
  assert (E44 : peek (r_argval r') (j * 8 + 4) 4 = peek (r_argval r) (j * 8 + 4) 4) by (apply Ht; lia).
  assert (E8 : peek (r_argval r') (j * 8) 8 = peek (r_argval r) (j * 8) 8) by (apply Ht; lia).
  assert (Hdata : forall d tl, data_ok r n offset j d tl -> data_ok r' n (offset + used) j d tl).
  { intros d tl; unfold data_ok, get_arg_data; rewrite E4, E44.
    intros [Hl Hd]; split; [done|]; intros (Ho & Hb & Hp)%Hd; simpl in *.
    split; [done|]; split; [lia|]; rewrite <- Hp at 2; apply Ht; lia. }
  destruct v as [[x|x|d|d]|]; simpl; unfold get_arg_val32, get_arg_val64; rewrite ?E4, ?E44, ?E8; auto.
Qed.

Lemma slot_ok_mono r n offset offset' j v :
  offset <= offset' -> slot_ok r n offset j v -> slot_ok r n offset' j v.
Proof.
  intros Ho; assert (forall d tl, data_ok r n offset j d tl -> data_ok r n offset' j d tl).
  { intros d tl [? H]; split; [done|]; intros (? & ? & ?)%H; repeat split; auto; lia. }
  destruct v as [[]|]; simpl; auto.
Qed.

Lemma peek_prefix b o d tl :
  peek b o (Z.of_nat (length (d ++ tl))) = d ++ tl -> peek b o (Z.of_nat (length d)) = d.
Proof.
  unfold peek; rewrite !Nat2Z.id; intros H; apply (f_equal (take (length d))) in H.
  rewrite take_take, take_app_length in H; rewrite <- H at 2; f_equal; rewrite length_app; lia.
Qed.

Lemma data_ok_arg_data r n offset j d tl : data_ok r n offset j d tl -> arg_data r j = d.
Proof.
  intros [Hl Hd]; unfold arg_data; destruct (get_arg_data r j) as [o l]; simpl in *; subst l.
  destruct d as [|b d]; [done|]; eapply peek_prefix, Hd; done.
Qed.

Lemma slot_ok_view r n offset j type val len m room :
  get_arg_type r j = type -> slot_ok r n offset j (fst (arg_spec m type val len room)) ->
  view r j = fst (arg_spec m type val len room).
Proof.
  intros Ht; unfold view, arg_spec; rewrite Ht.
  destruct (type =? NONE); [done|]; destruct (is_complex type).
  - destruct (stored m type val len room) as [d used]; unfold view_complex; simpl fst; intros H.
    destruct (type =? CSTR); now rewrite (data_ok_arg_data _ _ _ _ _ _ H).
  - destruct (is_32bit type); simpl; now intros ->.
Qed.

(** A simple argument fills its slot. *)
Lemma set_arg_val64_slot r i v tailroom offset :
  has_room r i tailroom offset ->
  exists b, set_arg_val64 r i v = Some (with_argval r b) /\
    touches (r_argval r) b i offset offset /\
    get_arg_val64 (with_argval r b) i = u64 v /\ get_arg_val32 (with_argval r b) i = u32 v.
Proof.
  intros H; room H; unfold set_arg_val64.
  set (d := le_bytes 8 (u64 v)); assert (Hd : length d = 8%nat) by reflexivity.
  destruct (memcpy_some (r_argval r) (i * 8) d) as [b E]; [lia|lia|]; rewrite E; simpl.
  exists b; split; [done|]; split; [eapply memcpy_touches_slot; eauto; lia|].
  pose proof (memcpy_peek _ _ _ _ E) as Hp; rewrite Hd in Hp; change (Z.of_nat 8) with 8 in Hp.
  unfold get_arg_val64, get_arg_val32; simpl; rewrite Hp; split.
  - apply le_val_bytes8, u64_range.
  - replace (peek b (i * 8) 4) with (peek (peek b (i * 8) 8) 0 4)
      by (rewrite peek_peek by lia; f_equal; lia).
    rewrite Hp; change (peek d 0 4) with (le_bytes 4 (u64 v)).
    rewrite le_val_bytes; change (256 ^ Z.of_nat 4) with 4294967296; word_lia.
Qed.

Lemma set_arg_val32_slot r i v tailroom offset :
  has_room r i tailroom offset ->
  exists b, set_arg_val32 r i v = Some (with_argval r b) /\
    touches (r_argval r) b i offset offset /\ get_arg_val32 (with_argval r b) i = u32 v.
Proof.
  intros H; room H; unfold set_arg_val32.
  set (d := le_bytes 4 (u32 v)); assert (Hd : length d = 4%nat) by reflexivity.
  destruct (memcpy_some (r_argval r) (i * 8) d) as [b E]; [lia|lia|]; rewrite E; simpl.
  exists b; split; [done|]; split; [eapply memcpy_touches_slot; eauto; lia|].
  pose proof (memcpy_peek _ _ _ _ E) as Hp; rewrite Hd in Hp; change (Z.of_nat 4) with 4 in Hp.
  unfold get_arg_val32; simpl; rewrite Hp; apply le_val_bytes4, u32_range.
Qed.

Lemma placed_slot_ok r r' i n offset used d nul :
  placed r r' i offset used d nul -> 0 <= n -> n * 8 <= offset ->
  slot_ok r' n (offset + used) i (Some (if nul then ViewStr d else ViewData d)).
Proof.
  enough (placed r r' i offset used d nul -> 0 <= n -> n * 8 <= offset ->
          data_ok r' n (offset + used) i d (if nul then [0] else [])) by (destruct nul; done).
  intros P Hn0 Hn; split; [apply P|]; intros Hd.
  destruct (pl_data _ _ _ _ _ _ _ P Hd) as [-> Hp].
  destruct (pl_used _ _ _ _ _ _ _ P) as [[? ?]|[? ?]]; [|done].
  destruct nul; rewrite length_app, Nat2Z.inj_add; simpl length; (split; [done|]); (split; [lia|done]).
Qed.

(** The dispatch on the complex types, the same in both versions. *)
Lemma complex_placed m r i type p len tailroom offset n :
  has_room r i tailroom offset -> mem_ok m -> is_u32 len -> 0 <= n -> n * 8 <= offset ->
  is_complex type = true ->
  exists r', let '(d, used) := stored m type p len (tailroom - offset) in
    (if type =? RAW then copy_data m r i p len tailroom offset
     else if type =? XDUMP then copy_xdump m r i p tailroom offset
     else copy_cstr m r i p len tailroom offset) = Some (r', used) /\
    r' = with_argval r (r_argval r') /\
    touches (r_argval r) (r_argval r') i offset (offset + used) /\
    slot_ok r' n (offset + used) i (Some (view_complex type d)).
Proof.
  intros H Hm Hl Hn0 Hn Hc; unfold stored, view_complex, is_complex, is_simple in *.
  destruct (Z.eqb_spec type RAW) as [->|]; [|destruct (Z.eqb_spec type XDUMP) as [->|]];
    [| |destruct (Z.eqb_spec type CSTR) as [->|]; [|done]].
  - destruct (copy_data_placed m r i p len tailroom offset H Hl) as [r' Hr'].
    destruct (data_stored _ _) as [d used]; destruct Hr' as [E P].
    exists r'; split; [done|]; split; [apply P|]; split; [apply P|].
    now apply (placed_slot_ok _ _ _ n _ _ _ _ P).
  - destruct (copy_xdump_placed m r i p tailroom offset H Hm) as [r' Hr'].
    destruct (xdump_stored _ _ _) as [d used]; destruct Hr' as [E P].
    exists r'; split; [done|]; split; [apply P|]; split; [apply P|].
    now apply (placed_slot_ok _ _ _ n _ _ _ _ P).
  - destruct (copy_cstr_placed m r i p len tailroom offset H Hl) as [r' Hr'].
    destruct (cstr_stored _ _) as [d used]; destruct Hr' as [E P].
    exists r'; split; [done|]; split; [apply P|]; split; [apply P|].
    now apply (placed_slot_ok _ _ _ n _ _ _ _ P).
Qed.

(** One argument of a pack. *)
Lemma set_packed_arg_ok m ap r i n tailroom offset :
  has_room r i tailroom offset -> mem_ok m -> Forall is_u32 (p_arglen ap) ->
  length (p_arglen ap) = 16%nat -> 0 <= n -> n * 8 <= offset ->
  exists r', let '(v, used) :=
      arg_spec m (get_type (p_argtype ap) i) (pack_val64 ap i) (snd (pack_data ap i)) (tailroom - offset) in
    set_packed_arg m ap r i tailroom offset = Some (r', offset + used) /\
    r' = with_argval r (r_argval r') /\
    touches (r_argval r) (r_argval r') i offset (offset + used) /\
    0 <= used <= tailroom - offset /\ slot_ok r' n (offset + used) i v.
Proof.
  intros H Hm Hlens Hl16 Hn0 Hn; pose proof H as H'; room H'.
  assert (Hlen : is_u32 (snd (pack_data ap i))).
  { unfold pack_data; simpl. rewrite Forall_lookup in Hlens; eapply Hlens.
    apply list_lookup_lookup_total_lt; lia. }
  unfold set_packed_arg, arg_spec, pack_data in *; cbn [snd] in *.
  set (len := p_arglen ap !!! Z.to_nat i) in *; set (type := get_type (p_argtype ap) i).
  destruct (is_complex type) eqn:Ec.
  - destruct (complex_placed m r i type (pack_val64 ap i) len tailroom offset n)
      as [r' Hr']; auto.
    pose proof (stored_used m type (pack_val64 ap i) len (tailroom - offset)
      ltac:(lia) Hm Hlen) as Hu.
    destruct (stored m type (pack_val64 ap i) len (tailroom - offset)) as [d used].
    destruct Hr' as (E & Hf & Ht & Hs); simpl in Hu, E; exists r'.
    assert (type <> NONE) as ->%Z.eqb_neq by (intros Ez; rewrite Ez in Ec; discriminate).
    unfold is_complex, is_simple in Ec; clearbody type.
    destruct (type =? RAW) eqn:E1; [|destruct (type =? XDUMP) eqn:E2; [|destruct (type =? CSTR) eqn:E3]];
      try discriminate; rewrite E; simpl; rewrite u32_small by (words; lia);
      (split; [done|]); (split; [done|]); (split; [done|]); (split; [lia|done]).
  - destruct (set_arg_val64_slot r i (pack_val64 ap i) tailroom offset H) as (b & E & Ht & E64 & E32).
    unfold is_complex, is_simple in Ec; clearbody type.
    destruct (type =? RAW), (type =? XDUMP), (type =? CSTR); try discriminate.
    rewrite E; simpl; exists (with_argval r b).
    destruct (type =? NONE); [|destruct (is_32bit type)]; rewrite Z.add_0_r; simpl;
      (split; [done|]); (split; [done|]); (split; [done|]); (split; [lia|done]).
Qed.

(** *** The loop over a pack *)

Definition pack_arg (ap : argpack) (i : Z) : arg :=
  mkArg (get_type (p_argtype ap) i) (pack_val64 ap i) (snd (pack_data ap i)).

Fixpoint pack_list (ap : argpack) (i : Z) (k : nat) : list arg :=
  match k with O => [] | S k => pack_arg ap i :: pack_list ap (i + 1) k end.

(** Buffer and offset between two arguments. *)
Definition buf_ok (r : record) (n tailroom offset : Z) : Prop :=
  0 <= n <= 16 /\ 128 <= tailroom < 4294967296 /\
  Z.of_nat (length (r_argval r)) = tailroom /\ n * 8 <= offset <= tailroom.

Lemma buf_ok_room r n tailroom offset i :
  buf_ok r n tailroom offset -> 0 <= i < n -> has_room r i tailroom offset.
Proof. unfold buf_ok, has_room; lia. Qed.

Lemma buf_ok_step r r' n tailroom offset used i :
  buf_ok r n tailroom offset -> 0 <= used <= tailroom - offset ->
  touches (r_argval r) (r_argval r') i offset (offset + used) ->
  buf_ok r' n tailroom (offset + used).
Proof. unfold buf_ok; intros ? ? [? _]; lia. Qed.

Lemma set_packed_args_ok m ap n tailroom k : forall i r offset,
  0 <= i -> i + Z.of_nat k <= n -> buf_ok r n tailroom offset -> mem_ok m -> pack_wf ap ->
  exists r' offset', set_packed_args k m ap r i tailroom offset = Some r' /\
    buf_ok r' n tailroom offset' /\ r' = with_argval r (r_argval r') /\
    (forall j v, 0 <= j < i -> slot_ok r n offset j v -> slot_ok r' n offset' j v) /\
    (forall j v, args_spec m tailroom offset (pack_list ap i k) !! j = Some v ->
       slot_ok r' n offset' (i + Z.of_nat j) v).
Proof.
  induction k as [|k IH]; intros i r offset Hi Hk Hb Hm Hwf; cbn [set_packed_args pack_list args_spec].
  { exists r, offset; repeat (split; [done || now destruct r|]); auto; done. }
  destruct (set_packed_arg_ok m ap r i n tailroom offset) as [r1 H1];
    [eapply buf_ok_room; eauto; lia | done | apply Hwf.. | | | ]; [unfold buf_ok in Hb; lia.. |].
  unfold pack_arg; cbn [a_type a_val a_len].
  destruct (arg_spec _ _ _ _ _) as [v used]; destruct H1 as (E & F & T & U & S0).
  rewrite E; cbn [mbind option_bind].
  destruct (IH (i + 1) r1 (offset + used)) as (r' & offset' & E' & B' & F' & P' & S');
    [lia | lia | eapply buf_ok_step; eauto | done | done |].
  exists r', offset'; split; [done|]; split; [done|]; split; [rewrite F', F; done|]; split.
  - intros j w Hj Hw; apply P'; [lia|].
    eapply slot_ok_frame; try exact T; try exact Hw; unfold buf_ok in Hb; lia.
  - intros [|j] w; cbn [lookup list_lookup].
    + intros [= <-]; rewrite Z.add_0_r; apply P'; [lia|done].
    + intros Hw; replace (i + Z.of_nat (S j)) with (i + 1 + Z.of_nat j) by lia; auto.
Qed.

Lemma complex_not_32bit t : is_simple t = false -> is_32bit t = false.
Proof.
  unfold is_32bit; intros Hs.
  destruct (Z.eqb_spec t UINT32) as [->|]; [discriminate|].
  destruct (Z.eqb_spec t INT32) as [->|]; [discriminate|done].
Qed.

(** A packed argument has the specification of the argument it carries. *)
Lemma packed_arg_spec m ap i a room :
  packed ap i a ->
  arg_spec m (get_type (p_argtype ap) i) (pack_val64 ap i) (snd (pack_data ap i)) room =
  arg_spec m (a_type a) (a_val a) (a_len a) room.
Proof.
  intros [-> Hv]; unfold arg_spec; destruct (Z.eqb_spec (a_type a) NONE) as [|Hne]; [done|].
  destruct (Hv Hne) as (H32 & H64 & Hl); unfold is_complex.
  destruct (is_simple (a_type a)) eqn:Es; cbn [negb].
  - destruct (is_32bit (a_type a)) eqn:E32; [now rewrite H32 | now rewrite H64].
  - rewrite Hl, H64 by auto using complex_not_32bit.
    done.
Qed.

Lemma pack_list_spec m ap tailroom args : forall i offset k,
  (k <= length args)%nat ->
  (forall j a, args !! j = Some a -> packed ap (i + Z.of_nat j) a) ->
  args_spec m tailroom offset (pack_list ap i k) = take k (args_spec m tailroom offset args).
Proof.
  induction args as [|a args IH]; intros i offset [|k] Hk Hp; cbn [pack_list args_spec take length] in *;
    try done; try lia.
  unfold pack_arg; cbn [a_type a_val a_len].
  rewrite (packed_arg_spec _ _ _ a) by (specialize (Hp O a eq_refl); now rewrite Z.add_0_r in Hp).
  destruct (arg_spec _ _ _ _ _) as [v used]; cbn [take]; f_equal; apply IH; [lia|].
  intros j b Hb; replace (i + 1 + Z.of_nat j) with (i + Z.of_nat (S j)) by lia; now apply Hp.
Qed.

(** The entry of an argument in the specification of a list. *)
Lemma args_spec_lookup m tailroom args : forall offset j a,
  args !! j = Some a ->
  exists room, args_spec m tailroom offset args !! j =
    Some (fst (arg_spec m (a_type a) (a_val a) (a_len a) room)).
Proof.
  induction args as [|b args IH]; intros offset [|j] a; cbn [args_spec lookup list_lookup]; try done.
  - intros [= ->]; exists (tailroom - offset).
    now destruct (arg_spec _ _ _ _ _).
  - intros Ha; destruct (arg_spec m (a_type b) _ _ _); now apply IH.
Qed.

Lemma set_args_pack_full m r tailroom ap0 args :
  mem_ok m -> (length args <= 16)%nat -> Forall arg_wf args -> pack_wf ap0 ->
  128 <= tailroom < 4294967296 -> Z.of_nat (length (r_argval r)) = tailroom ->
  exists r', set_args_pack m r tailroom (fst (populate ap0 args)) = Some r' /\
    length (r_argval r') = length (r_argval r) /\
    r' = with_argval (with_argtype r (r_argtype r')) (r_argval r') /\
    r_argtype r' = p_argtype (fst (populate ap0 args)) /\
    forall j a, args !! j = Some a ->
      get_arg_type r' (Z.of_nat j) = a_type a /\
      args_spec m tailroom (arg_span args * 8) args !! j = Some (view r' (Z.of_nat j)) /\
      slot_ok r' (arg_span args) tailroom (Z.of_nat j) (view r' (Z.of_nat j)).
Proof.
  intros Hm Hn Hargs Hap Ht Hlen.
  destruct (populate_spec ap0 args Hn Hap Hargs) as (W & N & P).
  pose proof (arg_span_bounds args) as Hs.
  unfold set_args_pack; rewrite N; set (ap := fst (populate ap0 args)) in *.
  rewrite u32_small by (words; lia).
  destruct (set_packed_args_ok m ap (arg_span args) tailroom (Z.to_nat (arg_span args)) 0
    (with_argtype r (p_argtype ap)) (arg_span args * 8)) as (r' & o' & E & B & F & _ & S0);
    [lia | lia | unfold buf_ok; simpl; lia | done | done |].
  exists r'; split; [done|]; split; [unfold buf_ok in B; lia|]; split; [rewrite F; done|]; split; [now rewrite F|].
  assert (Hty : forall j a, args !! j = Some a -> get_arg_type r' (Z.of_nat j) = a_type a).
  { intros j a Ha; rewrite F; apply (P j a Ha). }
  rewrite (pack_list_spec m ap tailroom args) in S0 by (lia || done).
  intros j a Ha; destruct (args_spec_lookup m tailroom args (arg_span args * 8) j a Ha) as [room Hj].
  split; [now apply Hty|]; rewrite Hj.
  destruct (Z.lt_ge_cases (Z.of_nat j) (arg_span args)).
  - assert (Hok := S0 j); rewrite lookup_take_lt in Hok by lia; specialize (Hok _ Hj).
    assert (Hv := slot_ok_view _ _ _ _ _ _ _ _ _ (Hty _ _ Ha) Hok); rewrite Hv; split; [done|].
    eapply slot_ok_mono; [|exact Hok]; unfold buf_ok in B; lia.
  - unfold view, arg_spec; rewrite (Hty _ _ Ha), (arg_span_beyond _ _ _ Ha) by lia; done.
Qed.

Lemma set_args_pack_ok m r tailroom ap0 args :
  mem_ok m -> (length args <= 16)%nat -> Forall arg_wf args -> pack_wf ap0 ->
  128 <= tailroom < 4294967296 -> Z.of_nat (length (r_argval r)) = tailroom ->
  exists r', set_args_pack m r tailroom (fst (populate ap0 args)) = Some r' /\
    length (r_argval r') = length (r_argval r) /\
    r' = with_argval (with_argtype r (r_argtype r')) (r_argval r') /\
    forall j a, args !! j = Some a ->
      get_arg_type r' (Z.of_nat j) = a_type a /\
      args_spec m tailroom (arg_span args * 8) args !! j = Some (view r' (Z.of_nat j)) /\
      slot_ok r' (arg_span args) tailroom (Z.of_nat j) (view r' (Z.of_nat j)).
Proof.
  intros; destruct (set_args_pack_full m r tailroom ap0 args) as (r' & E & L & F & _ & V); auto.
  now exists r'.
Qed.

(** *** The inlined version, used when all the arguments are simple *)

Lemma set_arg_simple m r i a tailroom offset :
  0 <= i < 16 -> 128 <= Z.of_nat (length (r_argval r)) < 4294967296 -> arg_wf a ->
  is_simple (a_type a) = true -> types_below (r_argtype r) i ->
  exists r', set_arg m r i a tailroom offset = Some (r', offset) /\
    length (r_argval r') = length (r_argval r) /\
    r' = with_argval (with_argtype r (r_argtype r')) (r_argval r') /\
    types_below (r_argtype r') (i + 1) /\
    view r' i = fst (arg_spec m (a_type a) (a_val a) (a_len a) 0) /\
    forall j, 0 <= j < i -> is_simple (get_arg_type r j) = true ->
      get_arg_type r' j = get_arg_type r j /\ view r' j = view r j.
Proof.
  intros Hi Hlen [At Av Al] Hs Ht; unfold set_arg.
  pose proof (types_below_get _ i i ltac:(lia) Ht) as H0.
  destruct (Z.eqb_spec (a_type a) NONE) as [En|En].
  { exists r; split; [done|]; split; [done|]; split; [now destruct r|].
    split; [eapply types_below_mono; [|done]; lia|]; split; [|done].
    unfold view, arg_spec, get_arg_type; now rewrite H0, En. }
  set (r1 := set_arg_type r i (a_type a)).
  assert (Hti : get_type (set_type (r_argtype r) i (a_type a)) i = a_type a).
  { rewrite get_set_type, decide_True, H0, Z.lor_0_l by (done || lia); now apply land_type_15. }
  assert (Htj : forall j, 0 <= j < i -> get_type (set_type (r_argtype r) i (a_type a)) j = get_type (r_argtype r) j).
  { intros; rewrite get_set_type, decide_False by lia; done. }
  assert (Htb : types_below (set_type (r_argtype r) i (a_type a)) (i + 1)).
  { apply types_below_set; [lia|lia|]; eapply types_below_mono; [|done]; lia. }
  assert (Hroom : has_room r1 i (Z.of_nat (length (r_argval r))) 128)
    by (unfold has_room; simpl; lia).
  assert (Hkeep : forall b, touches (r_argval r) b i 128 128 -> forall j, 0 <= j < i ->
    is_simple (get_arg_type r j) = true -> view (with_argval r1 b) j = view r j).
  { intros b [_ T] j Hj Hsj; unfold view, get_arg_type, is_complex, get_arg_val32, get_arg_val64 in *; simpl.
    rewrite Htj, Hsj by done; simpl; rewrite !T by lia; done. }
  assert (Hr1 : r_argval r1 = r_argval r) by done.
  unfold is_simple in Hs; destruct (a_type a =? RAW) eqn:ER; [now rewrite andb_false_r in Hs|].
  destruct (a_type a =? XDUMP) eqn:EX; [now rewrite andb_false_r in Hs|].
  destruct (a_type a =? CSTR) eqn:EC; [done|].
  destruct (is_32bit (a_type a)) eqn:E32.
  - destruct (set_arg_val32_slot r1 i (a_val a) _ _ Hroom) as (b & E & T & V); rewrite E; simpl.
    exists (with_argval r1 b); split; [done|]; split; [apply T|]; split; [done|]; split; [done|].
    split; [|intros; split; [now apply Htj | eapply Hkeep; eauto]].
    unfold view, arg_spec, get_arg_type, is_complex, is_simple; simpl; rewrite Hti, ER, EX, EC, E32; simpl.
    case_match; [done|]; now rewrite V.
  - destruct (set_arg_val64_slot r1 i (a_val a) _ _ Hroom) as (b & E & T & V & _); rewrite E; simpl.
    exists (with_argval r1 b); split; [done|]; split; [apply T|]; split; [done|]; split; [done|].
    split; [|intros; split; [now apply Htj | eapply Hkeep; eauto]].
    unfold view, arg_spec, get_arg_type, is_complex, is_simple; simpl; rewrite Hti, ER, EX, EC, E32; simpl.
    case_match; [done|]; now rewrite V.
Qed.

(** The room left does not matter to a simple argument. *)
Lemma arg_spec_simple m type val len room room' :
  is_simple type = true -> arg_spec m type val len room = arg_spec m type val len room'.
Proof. intros Hs; unfold arg_spec, is_complex; now rewrite Hs. Qed.

Lemma view_type r j type val len m room :
  view r j = fst (arg_spec m type val len room) -> is_simple type = true ->
  is_simple (get_arg_type r j) = true.
Proof.
  unfold view, arg_spec, is_complex, view_complex; intros Hv Hs; rewrite Hs in Hv; simpl in Hv; revert Hv.
  destruct (Z.eqb_spec (get_arg_type r j) NONE) as [->|]; [done|].
  destruct (is_simple (get_arg_type r j)); [done|]; simpl.
  repeat case_match; done.
Qed.

Lemma set_arg_list_simple m tailroom offset args : forall r i,
  0 <= i -> i + Z.of_nat (length args) <= 16 ->
  128 <= Z.of_nat (length (r_argval r)) < 4294967296 -> Forall arg_wf args ->
  Forall (fun a => is_simple (a_type a) = true) args -> types_below (r_argtype r) i ->
  exists r', set_arg_list m r i args tailroom offset = Some r' /\
    length (r_argval r') = length (r_argval r) /\
    r' = with_argval (with_argtype r (r_argtype r')) (r_argval r') /\
    (forall j a, args !! j = Some a ->
       view r' (i + Z.of_nat j) = fst (arg_spec m (a_type a) (a_val a) (a_len a) 0)) /\
    forall j, 0 <= j < i -> is_simple (get_arg_type r j) = true -> view r' j = view r j.
Proof.
  induction args as [|a args IH]; intros r i Hi Hn Hlen Hw Hs Ht; cbn [set_arg_list].
  { exists r; split; [done|]; split; [done|]; split; [now destruct r|]; split; done. }
  inversion Hw; inversion Hs; subst; cbn [length] in Hn.
  destruct (set_arg_simple m r i a tailroom offset) as (r1 & E & L & F & T & V & K);
    [lia | done | done | done | done |].
  rewrite E; cbn [mbind option_bind].
  destruct (IH r1 (i + 1)) as (r' & E' & L' & F' & V' & K'); [lia|lia|lia|done|done|done|].
  exists r'; split; [done|]; split; [lia|]; split; [rewrite F', F; done|]; split.
  - intros [|j] b; cbn [lookup list_lookup].
    + intros [= <-]; rewrite Z.add_0_r, K'; [done|lia|]; eapply view_type; eauto.
    + intros Hb; replace (i + Z.of_nat (S j)) with (i + 1 + Z.of_nat j) by lia; auto.
  - intros j Hj Hsj; destruct (K j Hj Hsj) as [Hg Hv]; rewrite K'; [done|lia|now rewrite Hg].
Qed.

Lemma set_args_simple_ok m r tailroom args :
  (length args <= 16)%nat -> 128 <= Z.of_nat (length (r_argval r)) < 4294967296 ->
  Forall arg_wf args -> Forall (fun a => is_simple (a_type a) = true) args ->
  exists r', set_args m r tailroom args = Some r' /\
    length (r_argval r') = length (r_argval r) /\
    r' = with_argval (with_argtype r (r_argtype r')) (r_argval r') /\
    forall j a, args !! j = Some a ->
      view r' (Z.of_nat j) = fst (arg_spec m (a_type a) (a_val a) (a_len a) 0).
Proof.
  intros Hn Hlen Hw Hs; unfold set_args.
  destruct (set_arg_list_simple m tailroom
    (Z.of_nat (length (filter (fun a => a_type a <> NONE) args)) *u32 8) args (with_argtype r 0) 0)
    as (r' & E & L & F & V & _); [lia|lia|done|done|done|split; simpl; lia|].
  exists r'; rewrite E; split; [done|]; split; [done|]; split; [rewrite F; done|]; apply V.
Qed.

(** *** Readers compare records by their arguments *)

Definition same_args (r r' : record) : Prop := forall i, 0 <= i < 16 -> view r i = view r' i.

#[export] Instance same_args_equiv : Equivalence same_args.
Proof.
  split; [intros r i _; done | intros r s H i Hi; now rewrite H |].
  intros r s t H1 H2 i Hi; now rewrite H1, H2.
Qed.

(** What is truncated ends with the marker. *)
Lemma cstr_stored_shape data room :
  0 <= room ->
  let d := fst (cstr_stored data room) in
  Z.of_nat (length data) + 1 <= room /\ d = data \/
  room <= Z.of_nat (length data) /\ Z.of_nat (length d) = Z.max 0 (room - 1) /\
  (4 < room -> exists pre, d = pre ++ str ">>>" /\ pre `prefix_of` data).
Proof.
  intros Hr d; subst d; unfold cstr_stored.
  destruct (Z.eqb_spec (Z.of_nat (length data)) 0) as [E0|]; simpl.
  { destruct data; [|done]; destruct (decide (room = 0)); [right|left]; simpl; repeat split; lia || done. }
  destruct (Z.eqb_spec room 0) as [->|]; simpl; [right; repeat split; lia|].
  destruct (Z.leb_spec (Z.of_nat (length data)) (room - 1)); [left; simpl; split; [lia|done]|].
  right; split; [lia|]; destruct (Z.ltb_spec 3 (room - 1)); simpl.
  - split; [rewrite length_app, length_take; simpl; lia|].
    intros _; exists (take (Z.to_nat (room - 4)) data); split; [done|apply prefix_take].
  - split; [rewrite length_take; lia|lia].
Qed.

(** The lengths of the views of a packed record, by the type of the argument. *)
Lemma args_spec_complex m tailroom args : forall offset j a v,
  0 <= offset <= tailroom -> mem_ok m -> Forall arg_wf args ->
  args !! j = Some a -> a_type a = CSTR -> args_spec m tailroom offset args !! j = Some v ->
  exists room, 0 <= room <= tailroom /\
    v = Some (ViewStr (fst (cstr_stored (mread m (a_val a) (a_len a)) room))).
Proof.
  induction args as [|b args IH]; intros offset [|j] a v Ho Hm Hw; cbn [args_spec lookup list_lookup]; try done.
  - intros [= ->] Ht; unfold arg_spec, stored; rewrite Ht; simpl.
    destruct (cstr_stored (mread m (a_val a) (a_len a)) (tailroom - offset)) as [d u] eqn:Ec.
    simpl; intros [= <-]; exists (tailroom - offset); split; [lia|]; now rewrite Ec.
  - inversion Hw as [|? ? Hb]; subst.
    intros Ha Ht; unfold arg_spec at 1.
    pose proof (stored_used m (a_type b) (a_val b) (a_len b) (tailroom - offset) ltac:(lia) Hm (awf_len _ Hb)).
    destruct (a_type b =? NONE); [|destruct (is_complex (a_type b));
      [destruct (stored _ _ _ _ _); simpl in *|destruct (is_32bit (a_type b))]];
      cbn [list_lookup lookup]; apply IH; auto; lia.
Qed.

(** ** Properties *)

(** Values for the witnesses: a memory with no zero byte, a clear buffer. *)
Definition demo_mem : memory := fun a => 1 + a mod 255.
Lemma demo_mem_ok : mem_ok demo_mem.
Proof. intros a; unfold demo_mem; word_lia. Qed.
Definition demo_record (n : nat) : record := mkRecord (Some 1) 7 3 2 0 (replicate n 0).
Definition demo_pack : argpack := mkPack 99 (replicate 16 77) (replicate 16 5).
Definition demo_args : list arg := [mkArg GSTR 4096 0; mkArg UINT32 5 0; mkArg CSTR 1000 6].

Lemma demo_args_wf : Forall arg_wf demo_args.
Proof. repeat (apply Forall_cons; split; [split; vm_compute; intuition congruence|]); constructor. Qed.
Lemma demo_pack_wf : pack_wf demo_pack.
Proof. split; [reflexivity|reflexivity|]; apply Forall_replicate; words; lia. Qed.

(** C8: Posting through an argument pack is memory safe and faithful: for any
    arguments, any stale pack contents and any record with at least the
    sixteen slots of buffer, the copy stays inside the record, keeps the
    header, and every argument reads back as its specification (value at its
    width, or as much of the data as the tail room left holds). *)
Theorem set_args_pack_correct m r tailroom ap0 args :
  mem_ok m -> (length args <= 16)%nat -> Forall arg_wf args -> pack_wf ap0 ->
  128 <= tailroom < 4294967296 -> Z.of_nat (length (r_argval r)) = tailroom ->
  exists r', set_args_pack m r tailroom (fst (populate ap0 args)) = Some r' /\
    length (r_argval r') = length (r_argval r) /\
    r' = with_argval (with_argtype r (r_argtype r')) (r_argval r') /\
    forall j a, args !! j = Some a ->
      args_spec m tailroom (arg_span args * 8) args !! j = Some (view r' (Z.of_nat j)).
Proof.
  intros; edestruct (set_args_pack_ok m r tailroom ap0 args) as (r' & E & L & F & V); eauto.
  exists r'; repeat split; auto; intros j a Ha; now apply (V j a).
Qed.

Lemma set_args_pack_correct_witness :
  exists r', set_args_pack demo_mem (demo_record 224) 224 (fst (populate demo_pack demo_args)) = Some r' /\
    length (r_argval r') = 224%nat /\
    r' = with_argval (with_argtype (demo_record 224) (r_argtype r')) (r_argval r') /\
    forall j a, demo_args !! j = Some a ->
      args_spec demo_mem 224 (arg_span demo_args * 8) demo_args !! j = Some (view r' (Z.of_nat j)).
Proof.
  apply (set_args_pack_correct demo_mem (demo_record 224) 224 demo_pack demo_args).
  - apply demo_mem_ok.
  - simpl; lia.
  - apply demo_args_wf.
  - apply demo_pack_wf.
  - lia.
  - reflexivity.
Defined.

(** A string argument is never left without its terminator, whatever its
    length and whatever precedes it: in the posted record its bytes lie after
    the argument slots, are followed by a zero byte inside the tail room, and
    are the whole string, or, when it does not fit, a prefix closed by the
    truncation marker. *)
Theorem cstr_arg_terminated m r tailroom ap0 args j a :
  mem_ok m -> (length args <= 16)%nat -> Forall arg_wf args -> pack_wf ap0 ->
  128 <= tailroom < 4294967296 -> Z.of_nat (length (r_argval r)) = tailroom ->
  args !! j = Some a -> a_type a = CSTR ->
  exists r', set_args_pack m r tailroom (fst (populate ap0 args)) = Some r' /\
    let '(o, l) := get_arg_data r' (Z.of_nat j) in
    let src := mread m (a_val a) (a_len a) in
    let d := arg_data r' (Z.of_nat j) in
    (0 < l -> arg_span args * 8 <= o /\ o + l + 1 <= tailroom /\ peek (r_argval r') (o + l) 1 = [0]) /\
    (d = src \/ l < a_len a /\
       (3 < l -> exists pre, d = pre ++ str ">>>" /\ pre `prefix_of` src)).
Proof.
  intros Hm Hn Hw Hap Ht Hlen Ha Hty.
  destruct (set_args_pack_ok m r tailroom ap0 args) as (r' & E & L & F & V); auto.
  exists r'; split; [done|]; destruct (V j a Ha) as (_ & Hs & Hok).
  pose proof (arg_span_bounds args).
  destruct (args_spec_complex m tailroom args (arg_span args * 8) j a (view r' (Z.of_nat j)))
    as (room & Hroom & Hview); [lia|done..|].
  rewrite Hview in Hok; simpl in Hok.
  pose proof (data_ok_arg_data _ _ _ _ _ _ Hok) as Hd.
  destruct (get_arg_data r' (Z.of_nat j)) as [o l] eqn:Eg.
  destruct Hok as [Hl Hdata]; rewrite Eg in *; simpl in Hl, Hdata.
  pose proof (cstr_stored_shape (mread m (a_val a) (a_len a)) room ltac:(lia)) as Hshape.
  set (d := fst (cstr_stored _ _)) in *; clearbody d; rewrite Hd.
  rewrite length_mread, Z2Nat.id in Hshape
    by (rewrite Forall_lookup in Hw; apply (Hw j a Ha)).
  split.
  - intros Hpos; destruct Hdata as (Ho & Hfit & Hp); [intros ->; simpl in Hl; lia|].
    rewrite length_app in *; simpl in *; split; [done|]; split; [lia|].
    rewrite Nat2Z.inj_add, peek_app in Hp by lia.
    apply app_inj_1 in Hp as [_ Hp]; [rewrite Hl; exact Hp|].
    apply (f_equal length) in Hp; revert Hp; rewrite !length_app.
    unfold peek; rewrite !length_take, !length_drop; simpl; lia.
  - destruct Hshape as [[_ ->]|(Hbig & Hlen' & Hpre)]; [now left|].
    destruct (decide (d = mread m (a_val a) (a_len a))) as [->|Hne]; [now left|right].
    assert (Hnil : d = [] -> 0 < a_len a).
    { intros ->; destruct (Z.eq_dec (a_len a) 0) as [E0|]; [|lia].
      exfalso; apply Hne; now rewrite E0. }
    split; [destruct d; [specialize (Hnil eq_refl)|]; simpl in *; lia|]; intros; apply Hpre; lia.
Qed.

Definition demo_long : list arg := [mkArg UINT64 9 0; mkArg CSTR 1000 200].
Lemma demo_long_wf : Forall arg_wf demo_long.
Proof. repeat (apply Forall_cons; split; [split; vm_compute; intuition congruence|]); constructor. Qed.

Lemma cstr_arg_terminated_witness :
  exists r', set_args_pack demo_mem (demo_record 128) 128 (fst (populate demo_pack demo_long)) = Some r' /\
    let '(o, l) := get_arg_data r' 1 in
    let src := mread demo_mem 1000 200 in
    let d := arg_data r' 1 in
    (0 < l -> arg_span demo_long * 8 <= o /\ o + l + 1 <= 128 /\ peek (r_argval r') (o + l) 1 = [0]) /\
    (d = src \/ l < 200 /\ (3 < l -> exists pre, d = pre ++ str ">>>" /\ pre `prefix_of` src)).
Proof.
  apply (cstr_arg_terminated demo_mem (demo_record 128) 128 demo_pack demo_long 1 (mkArg CSTR 1000 200)).
  - apply demo_mem_ok.
  - simpl; lia.
  - apply demo_long_wf.
  - apply demo_pack_wf.
  - lia.
  - reflexivity.
  - reflexivity.
  - reflexivity.
Defined.

(** The two ways of filling a record agree: when all sixteen parameters
    are simple, the inlined version and the version that goes through a pack
    both succeed, with the same header and arguments that read the same. *)
Theorem post_versions_agree m r tailroom ap0 args :
  mem_ok m -> length args = 16%nat -> Forall arg_wf args ->
  Forall (fun a => is_simple (a_type a) = true) args -> pack_wf ap0 ->
  128 <= tailroom < 4294967296 -> Z.of_nat (length (r_argval r)) = tailroom ->
  exists r1 r2, set_args m r tailroom args = Some r1 /\
    set_args_pack m r tailroom (fst (populate ap0 args)) = Some r2 /\
    r_timestamp r1 = r_timestamp r2 /\ r_seqnum r1 = r_seqnum r2 /\
    r_area r1 = r_area r2 /\ r_section r1 = r_section r2 /\ same_args r1 r2.
Proof.
  intros Hm Hn Hw Hs Hap Ht Hlen.
  destruct (set_args_simple_ok m r tailroom args) as (r1 & E1 & _ & F1 & V1); [lia|lia|done|done|].
  destruct (set_args_pack_ok m r tailroom ap0 args) as (r2 & E2 & _ & F2 & V2); [done|lia|done..|].
  exists r1, r2; repeat (split; [done || (rewrite F1, F2; done)|]).
  intros i Hi; destruct (lookup_lt_is_Some_2 args (Z.to_nat i)) as [a Ha]; [lia|].
  specialize (V1 _ _ Ha); destruct (V2 _ _ Ha) as (_ & V & _).
  destruct (args_spec_lookup m tailroom args (arg_span args * 8) _ a Ha) as [room Hr].
  rewrite Hr in V; injection V as V; rewrite Z2Nat.id in * by lia.
  rewrite V1, <- V; f_equal; apply arg_spec_simple.
  rewrite Forall_lookup in Hs; eauto.
Qed.

Definition demo_simple : list arg :=
  [mkArg GSTR 4096 0; mkArg INT32 5 0; mkArg DOUBLE 77 0] ++ replicate 13 (mkArg NONE 0 0).
Lemma demo_simple_wf : Forall arg_wf demo_simple.
Proof. repeat (apply Forall_cons; split; [split; vm_compute; intuition congruence|]); constructor. Qed.
Lemma demo_simple_simple : Forall (fun a => is_simple (a_type a) = true) demo_simple.
Proof. repeat (apply Forall_cons; split; [reflexivity|]); constructor. Qed.

Lemma post_versions_agree_witness :
  exists r1 r2, set_args demo_mem (demo_record 224) 224 demo_simple = Some r1 /\
    set_args_pack demo_mem (demo_record 224) 224 (fst (populate demo_pack demo_simple)) = Some r2 /\
    r_timestamp r1 = r_timestamp r2 /\ r_seqnum r1 = r_seqnum r2 /\
    r_area r1 = r_area r2 /\ r_section r1 = r_section r2 /\ same_args r1 r2.
Proof.
  apply (post_versions_agree demo_mem (demo_record 224) 224 demo_pack demo_simple).
  - apply demo_mem_ok.
  - reflexivity.
  - apply demo_simple_wf.
  - apply demo_simple_simple.
  - apply demo_pack_wf.
  - lia.
  - reflexivity.
Defined.

(** The special records and their acknowledgement. *)
Lemma set_arg_val64_get r i v :
  0 <= i < 16 -> 128 <= Z.of_nat (length (r_argval r)) < 4294967296 ->
  exists r', set_arg_val64 r i v = Some r' /\ r' = with_argval r (r_argval r') /\
    length (r_argval r') = length (r_argval r) /\ get_arg_val64 r' i = u64 v /\
    forall j, 0 <= j < 16 -> j <> i -> get_arg_val64 r' j = get_arg_val64 r j.
Proof.
  intros Hi Hlen.
  destruct (set_arg_val64_slot r i v (Z.of_nat (length (r_argval r))) 128) as (b & E & T & V & _);
    [unfold has_room; lia|].
  exists (with_argval r b); split; [done|]; split; [done|]; split; [apply T|]; split; [done|].
  intros j Hj Hne; unfold get_arg_val64; simpl; f_equal; apply T; lia.
Qed.

(** The handshake on special records: [special] yields a record that is
    recognised as special, carries its type and two arguments and is not yet
    acknowledged; [ack] makes exactly the waiter's test true; and no record
    posted for an area is ever taken for a special one. *)
Theorem special_handshake r type arg1 arg2 :
  128 <= Z.of_nat (length (r_argval r)) < 4294967296 ->
  (exists s a, make_special r type arg1 arg2 = Some s /\ ack s = Some a /\
     is_special s = true /\ acked s = false /\ r_argtype s = u64 type /\
     get_arg_val64 s 1 = u64 arg1 /\ get_arg_val64 s 2 = u64 arg2 /\
     is_special a = true /\ acked a = true) /\
  forall p, r_area r = Some p -> is_special r = false.
Proof.
  intros Hlen; split; [|unfold is_special; now intros p ->].
  unfold make_special; set (r0 := with_section _ _).
  destruct (set_arg_val64_get r0 0 0) as (r1 & E1 & F1 & L1 & V1 & _); [lia|done|].
  rewrite E1; simpl; assert (length (r_argval r0) = length (r_argval r)) by done.
  destruct (set_arg_val64_get r1 1 arg1) as (r2 & E2 & F2 & L2 & V2 & K2); [lia|lia|].
  rewrite E2; simpl.
  destruct (set_arg_val64_get r2 2 arg2) as (r3 & E3 & F3 & L3 & V3 & K3); [lia|lia|].
  destruct (set_arg_val64_get r3 0 32383) as (r4 & E4 & F4 & L4 & V4 & K4); [lia|lia|].
  assert (S3 : is_special r3 = true) by (rewrite F3, F2, F1; reflexivity).
  exists r3, r4; unfold acked; repeat (split; [done || (rewrite ?K3, ?K2, ?V1, ?V2, ?V4 by lia; done)|]).
  split; [rewrite F3, F2, F1; done|]; split; [rewrite K3, V2 by lia; done|]; split; [done|].
  rewrite F4; split; [rewrite <- S3; destruct r3; done | rewrite <- F4, V4; done].
Qed.

Lemma special_handshake_witness :
  (exists s a, make_special (demo_record 224) 1 4242 0 = Some s /\ ack s = Some a /\
     is_special s = true /\ acked s = false /\ r_argtype s = u64 1 /\
     get_arg_val64 s 1 = u64 4242 /\ get_arg_val64 s 2 = u64 0 /\
     is_special a = true /\ acked a = true) /\
  forall p, r_area (demo_record 224) = Some p -> is_special (demo_record 224) = false.
Proof. apply (special_handshake (demo_record 224) 1 4242 0); simpl; lia. Defined.
