(* ===== verification/Posted.v ===== *)
(** * What a posted record holds

    The arguments of a record as a list of types and values: the form in which
    the formats rely on what posting stored. *)

From S2P Require Import Prelude Args Record.

Definition nul_free (b : bytes) : Prop := 0 ∉ b.

Lemma cstr_stored_nul_free data room : nul_free data -> nul_free (fst (cstr_stored data room)).
Proof.
  intros N; unfold cstr_stored, nul_free in *; assert (T : forall k, 0 ∉ take k data).
  { intros k H; apply N, (elem_of_prefix _ _ _ H), prefix_take. }
  repeat case_match; cbn [fst]; [apply not_elem_of_nil|done| |apply T].
  rewrite not_elem_of_app; split; [apply T|]; cbn; repeat (rewrite not_elem_of_cons; split; [done|]); apply not_elem_of_nil.
Qed.

(** Argument [j] of a record: its type and its value, the data between the
    slots of the [n] arguments and [off]. *)
Record held (r : record) (n off j type : Z) (v : arg_view) : Prop := {
  hd_type : get_arg_type r j = type; hd_some : type <> NONE;
  hd_view : view r j = Some v; hd_slot : slot_ok r n off j (Some v);
  hd_word : match v with View32 x => is_u32 x | View64 x => is_u64 x | _ => True end }.

(** The arguments of a record from index [i] on: those of the list, and no
    more. *)
Definition held_args (r : record) (n off : Z) (i : nat) (l : list (Z * arg_view)) : Prop :=
  (forall j t v, l !! j = Some (t, v) -> held r n off (Z.of_nat (i + j)) t v) /\
  (i + length l <= 16)%nat /\
  ((i + length l < 16)%nat -> get_arg_type r (Z.of_nat (i + length l)) = NONE).

Lemma held_tail r n off i a l : held_args r n off i (a :: l) -> held_args r n off (S i) l.
Proof.
  intros (P & L & E); cbn [length] in *; split; [|split].
  - intros j t v H; replace (S i + j)%nat with (i + S j)%nat by lia; now apply P.
  - lia.
  - replace (S i + length l)%nat with (i + S (length l))%nat by lia; intros; apply E; lia.
Qed.

(** The kind of value goes with the type. *)
Lemma view_kind r j t v : get_arg_type r j = t -> view r j = Some v ->
  match v with
  | View32 _ => t = UINT32 \/ t = INT32
  | View64 _ => t <> UINT32 /\ t <> INT32 /\ t <> CSTR /\ t <> XDUMP /\ t <> RAW
  | ViewStr _ => t = CSTR
  | ViewData _ => t = XDUMP \/ t = RAW
  end.
Proof.
  intros <-; unfold view; generalize (get_arg_type r j) as t; intros t; destruct (t =? NONE); [done|].
  unfold is_complex, is_simple, view_complex, is_32bit.
  destruct (Z.eqb_spec t CSTR) as [->|Nc]; [now intros [= <-]|].
  destruct (Z.eqb_spec t XDUMP) as [->|Nx]; [intros [= <-]; now left|].
  destruct (Z.eqb_spec t RAW) as [->|Nr]; [intros [= <-]; now right|]; cbn [negb andb].
  destruct (Z.eqb_spec t UINT32) as [->|Nu]; [intros [= <-]; now left|].
  destruct (Z.eqb_spec t INT32) as [->|Ni]; [intros [= <-]; now right|]; cbn [orb]; now intros [= <-].
Qed.

Lemma length_args_spec m tailroom args : forall offset, length (args_spec m tailroom offset args) = length args.
Proof.
  induction args as [|a args IH]; intros offset; [done|]; cbn [args_spec].
  destruct (arg_spec _ _ _ _ _); cbn [length]; now rewrite IH.
Qed.

Lemma span_all args : Forall (fun a => a_type a <> NONE) args -> arg_span args = Z.of_nat (length args).
Proof.
  induction 1 as [|a args N _ IH]; [done|]; cbn [arg_span length]; rewrite IH.
  destruct (Z.eqb_spec (Z.of_nat (length args)) 0); [|lia]; rewrite (proj2 (Z.eqb_neq (a_type a) NONE) N); lia.
Qed.

(** Every argument that is there has a value of its specification. *)
Lemma args_spec_some m tailroom args offset : Forall (fun a => a_type a <> NONE) args ->
  Forall2 (fun a v => exists w, v = Some w /\ match w with View32 x => is_u32 x | View64 x => is_u64 x | _ => True end)
    args (args_spec m tailroom offset args).
Proof.
  intros N; apply Forall2_same_length_lookup_2; [symmetry; apply length_args_spec|]; intros j a v Ha Hv.
  destruct (args_spec_lookup m tailroom args offset j a Ha) as [room Hr]; rewrite Hv in Hr; injection Hr as ->.
  rewrite Forall_lookup in N; specialize (N j a Ha); unfold arg_spec; rewrite (proj2 (Z.eqb_neq (a_type a) NONE) N).
  destruct (is_complex (a_type a)); [destruct (stored _ _ _ _ _)|destruct (is_32bit (a_type a))]; cbn [fst]; eexists; (split; [done|]).
  - unfold view_complex; now destruct (_ =? _).
  - apply u32_range.
  - apply u64_range.
Qed.

(** A posted record holds the values of the specification. *)
Lemma posted_held m r tailroom ap0 args :
  mem_ok m -> (length args <= 16)%nat -> Forall arg_wf args -> pack_wf ap0 ->
  128 <= tailroom < 4294967296 -> Z.of_nat (length (r_argval r)) = tailroom -> Forall (fun a => a_type a <> NONE) args ->
  exists r' l, set_args_pack m r tailroom (fst (populate ap0 args)) = Some r' /\
    r' = with_argval (with_argtype r (r_argtype r')) (r_argval r') /\ length (r_argval r') = length (r_argval r) /\
    map fst l = map a_type args /\ map (fun tv => Some tv.2) l = args_spec m tailroom (arg_span args * 8) args /\
    held_args r' (arg_span args) tailroom 0 l /\ is_u64 (r_argtype r').
Proof.
  intros Hm Hn Hw Hp Ht Hl N; destruct (set_args_pack_full m r tailroom ap0 args) as (r' & E & L & F & T & V); auto.
  pose proof (args_spec_some m tailroom args (arg_span args * 8) N) as Sp.
  set (l := zip_with (fun a v => (a_type a, default (View64 0) v)) args (args_spec m tailroom (arg_span args * 8) args)).
  exists r', l; split; [done|]; split; [done|]; split; [done|]; split; [|split; [|split]].
  - unfold l; clear -Sp; induction Sp as [|a v args vs _ Sp IH]; [done|]; cbn [zip_with map]; f_equal; exact IH.
  - unfold l; clear -Sp; induction Sp as [|a v args vs (w & -> & _) Sp IH]; [done|]; cbn [zip_with map]; f_equal; exact IH.
  - assert (Ll : length l = length args) by (unfold l; rewrite length_zip_with, length_args_spec; apply Nat.min_id).
    split; [|split]; [|rewrite Ll; lia|].
    + intros j t v H; unfold l in H; apply lookup_zip_with_Some in H as (a & w & H & Ha & Hv).
      destruct (Forall2_lookup_lr _ _ _ _ _ _ Sp Ha Hv) as (u & -> & Wd); cbn [default] in H; injection H as -> ->; cbn [Nat.add].
      destruct (V j a Ha) as (Ty & Hs & Sl); rewrite Hv in Hs; injection Hs as Hs; rewrite <- Hs in Sl.
      rewrite Forall_lookup in N; split; [done|now apply (N j)|done|done|done].
    + intros _; rewrite Ll; cbn [Nat.add]; unfold get_arg_type; rewrite T.
      eapply types_below_get, populate_beyond; auto; lia.
  - rewrite T; pose proof (populate_beyond ap0 args Hn Hp Hw) as [B1 B2]; split; [exact B1|].
    eapply Z.lt_le_trans; [exact B2|]; change 18446744073709551616 with (2 ^ 64); apply Z.pow_le_mono_r; lia.
Qed.
