(* ===== verification/Ring.v ===== *)
(** * Ring buffers (detail/ringbuf.hpp, src/ringbuf.cc, detail/refcount.hpp)

    The circular fifo every writer thread owns, one operation at a time.  The
    interleaving of a writer with the engine is in RingConc.  Slots hold values
    of a type [R] (log records for the engine); a record pointer is the number
    of its slot. *)

From S2P Require Import Prelude Record.

(** ** Reference counts *)

(** Atomic 32-bit counters; both operations return the new value. *)
(* src: include/hogl/detail/refcount.hpp 49-57 refcount::inc *)
Definition refcount_inc (c v : Z) : Z := s32 (c + v).
(* src: include/hogl/detail/refcount.hpp 59-67 refcount::dec *)
Definition refcount_dec (c v : Z) : Z := s32 (c - v).

(** ** Options and flags *)

(* src: include/hogl/detail/ringbuf.hpp 163-190 ringbuf::flags *)
Definition SHARED : Z := 1.
Definition IMMORTAL : Z := 2.
Definition REUSABLE : Z := 4.
Definition BLOCKING : Z := 8.

(* src: include/hogl/detail/ringbuf.hpp 197-202 ringbuf *)
Definition PRIORITY_CEILING : Z := 9999.

(* src: include/hogl/detail/ringbuf.hpp 204-212 ringbuf::options *)
Record ring_options := mkRingOptions {
  o_capacity : Z; o_prio : Z; o_flags : Z; o_record_tailroom : Z }.

Record ring_options_wf (o : ring_options) : Prop := {
  owf_capacity : is_u32 (o_capacity o); owf_prio : is_u32 (o_prio o);
  owf_flags : is_u32 (o_flags o); owf_tailroom : is_u32 (o_record_tailroom o) }.

(* src: src/ringbuf.cc 195-200 ringbuf::default_options *)
Definition default_options : ring_options := mkRingOptions 1024 0 0 128.

(* src: src/default-ringopts.cc 35-43 default_ring_options *)
Definition default_ring_options : ring_options :=
  mkRingOptions 2048 0 (Z.lor SHARED IMMORTAL) 80.

(** ** Sizes *)

(** The loop stops at the first exponent that is large enough; shifting by 32
    is undefined, which is [None] here. *)
Fixpoint roundup_loop (fuel : nat) (i v : Z) : option Z :=
  match fuel with
  | O => None
  | S fuel => if u32 (pow2 i) <? v then roundup_loop fuel (i + 1) v else Some i
  end.

(* src: src/ringbuf.cc 63-69 __roundup_log2 *)
Definition __roundup_log2 (v : Z) : option Z := roundup_loop 32 0 v.

(* src: src/ringbuf.cc 71-75 __roundup_power2 *)
Definition __roundup_power2 (size : Z) : option Z :=
  i ← __roundup_log2 size; Some (u32 (pow2 i)).

(** ** The ring *)

(* src: include/hogl/detail/ringbuf.hpp 73-110 ringbuf *)
Record ringbuf (R : Type) := mkRing {
  _name : string; _flags : Z; _prio : Z;
  _rec_shift : Z; _rec_tailroom : Z;
  _capacity : Z;                 (* number of records - 1 *)
  _refcnt : Z;
  _block_active : bool;
  _timesource : Z;               (* address of the time source *)
  _tail : Z; _seqnum : Z; _dropcnt : Z; _head : Z;
  _recs : list R                 (* the slots that fit in the allocation *)
}.
Arguments mkRing {R}.
Arguments _name {R}. Arguments _flags {R}. Arguments _prio {R}.
Arguments _rec_shift {R}. Arguments _rec_tailroom {R}. Arguments _capacity {R}.
Arguments _refcnt {R}. Arguments _block_active {R}. Arguments _timesource {R}.
Arguments _tail {R}. Arguments _seqnum {R}. Arguments _dropcnt {R}.
Arguments _head {R}. Arguments _recs {R}.

Section Ring.
Context {R : Type}.
Implicit Type r : ringbuf R.

Definition set_counters r (tail seqnum dropcnt head : Z) : ringbuf R :=
  mkRing (_name r) (_flags r) (_prio r) (_rec_shift r) (_rec_tailroom r) (_capacity r)
    (_refcnt r) (_block_active r) (_timesource r) tail seqnum dropcnt head (_recs r).
Definition set_head r (h : Z) := set_counters r (_tail r) (_seqnum r) (_dropcnt r) h.
Definition set_tail r (t : Z) := set_counters r t (_seqnum r) (_dropcnt r) (_head r).
Definition set_seqnum r (s : Z) := set_counters r (_tail r) s (_dropcnt r) (_head r).
Definition set_dropcnt r (d : Z) := set_counters r (_tail r) (_seqnum r) d (_head r).
Definition set_recs r (l : list R) : ringbuf R :=
  mkRing (_name r) (_flags r) (_prio r) (_rec_shift r) (_rec_tailroom r) (_capacity r)
    (_refcnt r) (_block_active r) (_timesource r) (_tail r) (_seqnum r) (_dropcnt r) (_head r) l.
Definition set_refcnt r (c : Z) : ringbuf R :=
  mkRing (_name r) (_flags r) (_prio r) (_rec_shift r) (_rec_tailroom r) (_capacity r)
    c (_block_active r) (_timesource r) (_tail r) (_seqnum r) (_dropcnt r) (_head r) (_recs r).
Definition set_block_active r (b : bool) : ringbuf R :=
  mkRing (_name r) (_flags r) (_prio r) (_rec_shift r) (_rec_tailroom r) (_capacity r)
    (_refcnt r) b (_timesource r) (_tail r) (_seqnum r) (_dropcnt r) (_head r) (_recs r).

(* src: src/ringbuf.cc 186-193 ringbuf::timesource *)
Definition set_timesource r (ts : Z) : ringbuf R :=
  mkRing (_name r) (_flags r) (_prio r) (_rec_shift r) (_rec_tailroom r) (_capacity r)
    (_refcnt r) (_block_active r) ts (_tail r) (_seqnum r) (_dropcnt r) (_head r) (_recs r).

(** *** Accessors *)

(* src: include/hogl/detail/ringbuf.hpp 241-245 ringbuf::record_size *)
Definition record_size r : Z := u32 (pow2 (_rec_shift r)).
(* src: include/hogl/detail/ringbuf.hpp 247-253 ringbuf::record_tailroom *)
Definition record_tailroom r : Z := _rec_tailroom r.
(* src: include/hogl/detail/ringbuf.hpp 255-259 ringbuf::capacity *)
Definition capacity r : Z := _capacity r +u32 1.
(* src: include/hogl/detail/ringbuf.hpp 261-265 ringbuf::size *)
Definition size r : Z := Z.land (_tail r -u32 (_head r +u32 1)) (_capacity r).
(* src: include/hogl/detail/ringbuf.hpp 267-271 ringbuf::room *)
Definition room r : Z := Z.land (_head r -u32 _tail r) (_capacity r).
(* src: include/hogl/detail/ringbuf.hpp 273-277 ringbuf::empty *)
Definition empty r : bool := Z.land (_head r +u32 1) (_capacity r) =? _tail r.
(* src: include/hogl/detail/ringbuf.hpp 294-297 ringbuf::orphan *)
Definition orphan r : bool := _refcnt r =? 1.
(* src: include/hogl/detail/ringbuf.hpp 299-302 ringbuf::shared *)
Definition shared r : bool := negb (Z.land (_flags r) SHARED =? 0).
(* src: include/hogl/detail/ringbuf.hpp 304-307 ringbuf::immortal *)
Definition immortal r : bool := negb (Z.land (_flags r) IMMORTAL =? 0).
(* src: include/hogl/detail/ringbuf.hpp 309-312 ringbuf::reusable *)
Definition reusable r : bool := negb (Z.land (_flags r) REUSABLE =? 0).
(* src: include/hogl/detail/ringbuf.hpp 314-317 ringbuf::blocking *)
Definition blocking r : bool := negb (Z.land (_flags r) BLOCKING =? 0).

(** A record address is an offset from [_rec_top], computed on 32 bits; the
    slot it names is that offset divided by the record size. *)
(* src: include/hogl/detail/ringbuf.hpp 112-120 ringbuf::get_record *)
Definition get_record r (i : Z) : Z := Z.shiftr (u32 (Z.shiftl i (_rec_shift r))) (_rec_shift r).
(* src: include/hogl/detail/ringbuf.hpp 122-130 ringbuf::get_index *)
Definition get_index r (p : Z) : Z := u32 p.

(* src: include/hogl/detail/ringbuf.hpp 132-145 ringbuf::commit_head *)
Definition commit_head r (head : Z) : ringbuf R := set_head r head.
(* src: include/hogl/detail/ringbuf.hpp 147-160 ringbuf::commit_tail *)
Definition commit_tail r (tail : Z) : ringbuf R := set_tail r tail.

(* src: include/hogl/detail/ringbuf.hpp 324-327 ringbuf::inc_seqnum *)
Definition inc_seqnum r : Z * ringbuf R := (_seqnum r, set_seqnum r (_seqnum r +u64 1)).
(* src: include/hogl/detail/ringbuf.hpp 329-332 ringbuf::inc_dropcnt *)
Definition inc_dropcnt r : ringbuf R := set_dropcnt r (_dropcnt r +u64 1).

(** *** Construction and destruction *)

(** [alloc n] tells whether [posix_memalign] gives [n] bytes, [zero] is the
    cleared slot and [ts] the default time source; [None] is the undefined
    shift of a request that is too large. *)
(* src: src/ringbuf.cc 77-151 ringbuf::ringbuf *)
Definition ringbuf_new (alloc : Z -> bool) (zero : R) (ts : Z) (name : string) (opts : ring_options)
  : option (ringbuf R) :=
  let prio := s32 (o_prio opts) in
  let prio := if PRIORITY_CEILING <? prio then PRIORITY_CEILING else prio in
  cap ← __roundup_power2 (o_capacity opts);
  let cap := cap -u32 1 in
  let extra := if argval_size <? o_record_tailroom opts
               then o_record_tailroom opts - argval_size else 0 in
  shift ← __roundup_log2 (sizeof_record +u32 extra);
  let rsize := u32 (pow2 shift) in
  let tailroom := rsize -u32 header_size in
  let nbytes := (cap +u32 1) *u32 rsize in
  if alloc nbytes then
    Some (mkRing name (o_flags opts) prio shift tailroom cap 0 false ts 0 0 0 cap
            (replicate (Z.to_nat (nbytes / rsize)) zero))
  else
    Some (mkRing name (o_flags opts) prio shift tailroom 0 0 false ts 0 0 0 cap []).

(* src: src/ringbuf.cc 153-161 ringbuf::reset *)
Definition ring_reset r : ringbuf R := set_counters r 0 0 0 (_capacity r).

(* src: include/hogl/detail/ringbuf.hpp 356-363 ringbuf::hold *)
Definition hold r : ringbuf R := set_refcnt r (refcount_inc (_refcnt r) 1).

(** What the destructor does: it aborts on a ring that is in use. *)
(* src: src/ringbuf.cc 163-184 ringbuf::~ringbuf *)
Definition destroy_ok r : bool := _refcnt r =? 0.

Inductive release_result :=
  | Kept (r : ringbuf R)     (* references remain, or the ring is immortal *)
  | Deleted
  | Aborted.

(* src: include/hogl/detail/ringbuf.hpp 365-376 ringbuf::release *)
Definition release r : release_result :=
  let c := refcount_dec (_refcnt r) 1 in
  let r := set_refcnt r c in
  if c <? 0 then Aborted
  else if 0 <? c then Kept r
  else if immortal r then Kept r
  else if destroy_ok r then Deleted else Aborted.

(** *** Writer interface *)

(* src: include/hogl/detail/ringbuf.hpp 423-431 ringbuf::push_begin *)
Definition push_begin r : Z := get_record r (_tail r).

(** The writer fills the slot it was given. *)
Definition write_slot r (p : Z) (x : R) : ringbuf R := set_recs r (<[Z.to_nat p := x]> (_recs r)).

Inductive push_result :=
  | Pushed (r : ringbuf R)
  | Dropped (r : ringbuf R)
  | MustBlock.               (* the loop calls block() and tests again *)

(** One evaluation of the loop of [push_commit]. *)
(* src: include/hogl/detail/ringbuf.hpp 433-449 ringbuf::push_commit *)
Definition push_commit r : push_result :=
  let t := _tail r in
  if _head r =? t then
    if negb (blocking r) then Dropped (inc_dropcnt r) else MustBlock
  else Pushed (commit_tail r (Z.land (t +u32 1) (_capacity r))).

(** *** Reader interface *)

(* src: include/hogl/detail/ringbuf.hpp 454-466 ringbuf::pop_begin *)
Definition pop_begin r : option Z :=
  let h := Z.land (_head r +u32 1) (_capacity r) in
  if h =? _tail r then None else Some (get_record r h).

(* src: include/hogl/detail/ringbuf.hpp 468-474 ringbuf::pop_commit *)
Definition pop_commit r : ringbuf R := commit_head r (Z.land (_head r +u32 1) (_capacity r)).

(** An iterator works on a snapshot of the indices. *)
(* src: include/hogl/detail/ringbuf.hpp 478-488 ringbuf::pop_iterator *)
Record pop_iterator := mkIter { it_head : Z; it_tail : Z }.

(* src: include/hogl/detail/ringbuf.hpp 521-528 ringbuf::pop_iterator::reset *)
Definition it_reset r : pop_iterator := mkIter (_head r) (_tail r).

(* src: include/hogl/detail/ringbuf.hpp 490-502 ringbuf::pop_iterator::next *)
Definition it_next r (it : pop_iterator) : option (Z * pop_iterator) :=
  let h := Z.land (it_head it +u32 1) (_capacity r) in
  if h =? it_tail it then None else Some (get_record r h, mkIter h (it_tail it)).

(* src: include/hogl/detail/ringbuf.hpp 504-511 ringbuf::pop_iterator::rewind *)
Definition it_rewind r (it : pop_iterator) (p : Z) : pop_iterator := mkIter (get_index r p) (it_tail it).

(* src: include/hogl/detail/ringbuf.hpp 513-519 ringbuf::pop_iterator::commit *)
Definition it_commit r (it : pop_iterator) : ringbuf R := commit_head r (it_head it).
End Ring.
Arguments release_result : clear implicits.
Arguments push_result : clear implicits.

Section RingLemmas.
Context {R : Type} `{!Inhabited R}.
Implicit Type r : ringbuf R.

(** ** The ring as a bounded queue

    [ring_wf]: the mask is one less than a power of two, the slots are all
    there and the indices point at slots.  The slot under the head is the
    reserved one; the contents are the slots after it, up to the tail. *)
Record ring_wf r : Prop := {
  rwf_mask : exists k, 0 <= k /\ 0 <= _rec_shift r /\ k + _rec_shift r <= 31 /\
             _capacity r = 2 ^ k - 1 /\ Z.of_nat (length (_recs r)) = 2 ^ k;
  rwf_head : 0 <= _head r <= _capacity r;
  rwf_tail : 0 <= _tail r <= _capacity r }.

(** The records in [c] slots that follow slot [h] of a ring of [n]. *)
Definition slots (l : list R) (n h c : Z) : list R :=
  map (fun i => l !!! Z.to_nat ((h + 1 + i) mod n)) (seqZ 0 c).

Definition contents r : list R := slots (_recs r) (capacity r) (_head r) (size r).

Lemma length_slots l n h c : length (slots l n h c) = Z.to_nat c.
Proof. unfold slots; now rewrite length_map, length_seqZ. Qed.

Lemma slots_snoc l n h c : 0 <= c ->
  slots l n h (c + 1) = slots l n h c ++ [l !!! Z.to_nat ((h + 1 + c) mod n)].
Proof.
  intros; unfold slots.
  rewrite seqZ_app by lia; rewrite map_app; now rewrite (seqZ_cons _ 1) by lia.
Qed.

Lemma slots_cons l n h c : 0 < n -> 0 < c ->
  slots l n h c = l !!! Z.to_nat ((h + 1) mod n) :: slots l n ((h + 1) mod n) (c - 1).
Proof.
  intros Hn Hc; unfold slots.
  rewrite seqZ_cons by lia; cbn [map]; rewrite Z.add_0_r; f_equal.
  rewrite (map_seqZ_shift _ (Z.succ 0)); replace (Z.pred c) with (c - 1) by lia.
  apply map_ext; intros i; do 2 f_equal.
  rewrite <- (Z.add_assoc _ 1 i), mod_mod_add; f_equal; lia.
Qed.

Lemma slots_write l n h c p x : 0 < n -> 0 <= c -> 0 <= p < n ->
  (forall i, 0 <= i < c -> (h + 1 + i) mod n <> p) ->
  slots (<[Z.to_nat p := x]> l) n h c = slots l n h c.
Proof.
  intros Hn Hc Hp Hi; unfold slots; apply map_ext_in; intros i Hin.
  apply list_elem_of_In, elem_of_seqZ in Hin.
  apply list_lookup_total_insert_ne.
  specialize (Hi i); pose proof (mod_range (h + 1 + i) n Hn); lia.
Qed.

Lemma slots_drop l n h c j : 0 < n -> 0 <= j <= c ->
  drop (Z.to_nat j) (slots l n h c) = slots l n ((h + j) mod n) (c - j).
Proof.
  intros Hn Hj; unfold slots.
  replace c with (j + (c - j)) at 1 by lia.
  rewrite seqZ_app by lia; rewrite map_app, drop_app_length'
    by (rewrite length_map, length_seqZ; lia).
  rewrite Z.add_0_l, map_seqZ_shift; apply map_ext; intros i; do 2 f_equal.
  rewrite <- (Z.add_assoc (_ mod _)), mod_mod_add; f_equal; lia.
Qed.

Lemma slots_take l n h c j : 0 <= j <= c -> take (Z.to_nat j) (slots l n h c) = slots l n h j.
Proof.
  intros Hj; unfold slots.
  replace c with (j + (c - j)) at 1 by lia.
  rewrite seqZ_app by lia; rewrite map_app, take_app_length'; [done|].
  rewrite length_map, length_seqZ; lia.
Qed.

(** ** Index arithmetic *)

(** The facts every proof about a well-formed ring starts from. *)
Record ring_facts r (n : Z) : Prop := {
  rf_n : 0 < n <= 2147483648;
  rf_cap : capacity r = n;
  rf_mask : forall x, Z.land (u32 x) (_capacity r) = x mod n;
  rf_rec : forall i, 0 <= i < n -> get_record r i = i;
  rf_head : 0 <= _head r < n;
  rf_tail : 0 <= _tail r < n;
  rf_len : Z.of_nat (length (_recs r)) = n }.

Lemma ring_wf_facts r : ring_wf r -> exists n, _capacity r = n - 1 /\ ring_facts r n.
Proof.
  intros [(k & Hk & Hs & Hks & Hc & Hl) Hh Ht]; exists (2 ^ k); split; [done|].
  assert (P : 0 < 2 ^ k) by (apply Z.pow_pos_nonneg; lia).
  assert (B : 2 ^ k <= 2 ^ 31) by (apply Z.pow_le_mono_r; lia).
  change (2 ^ 31) with 2147483648 in B.
  split; try lia.
  - unfold capacity; rewrite Hc, u32_small by (words; lia); lia.
  - intros x; rewrite Hc, land_mask, u32_mod_pow2; [done | lia | lia].
  - intros i Hi; unfold get_record.
    rewrite u32_small.
    + now rewrite Z.shiftr_shiftl_l, Z.sub_diag, Z.shiftl_0_r by lia.
    + rewrite Z.shiftl_mul_pow2 by lia.
      assert (2 ^ k * 2 ^ _rec_shift r <= 2 ^ 31)
        by (rewrite <- Z.pow_add_r by lia; apply Z.pow_le_mono_r; lia).
      change (2 ^ 31) with 2147483648 in *.
      assert (0 < 2 ^ _rec_shift r) by (apply Z.pow_pos_nonneg; lia).
      words; nia.
Qed.

Lemma size_eq r n : ring_facts r n -> size r = (_tail r - _head r - 1) mod n.
Proof.
  intros F; unfold size; rewrite (rf_mask _ _ F), u32_small.
  - f_equal; lia.
  - pose proof (rf_head _ _ F); pose proof (rf_n _ _ F); words; lia.
Qed.

Lemma room_eq r n : ring_facts r n -> room r = (_head r - _tail r) mod n.
Proof. intros F; unfold room; apply (rf_mask _ _ F). Qed.

(** Where the tail is, given the head and the size. *)
Lemma tail_eq r n : ring_facts r n -> _tail r = (_head r + 1 + size r) mod n.
Proof.
  intros F; rewrite (size_eq _ _ F), mod_add_mod.
  replace (_head r + 1 + (_tail r - _head r - 1)) with (_tail r) by lia.
  symmetry; apply Z.mod_small, (rf_tail _ _ F).
Qed.

Lemma size_range r n : ring_facts r n -> 0 <= size r < n.
Proof. intros F; rewrite (size_eq _ _ F); apply mod_range, (rf_n _ _ F). Qed.

(** A size is determined by the tail it leads to. *)
Lemma size_unique r n s : ring_facts r n -> 0 <= s < n ->
  _tail r = (_head r + 1 + s) mod n -> size r = s.
Proof.
  intros F Hs Ht; rewrite (tail_eq _ _ F) in Ht.
  eapply mod_add_inj; [apply (size_range _ _ F) | apply Hs | apply Ht].
Qed.

Lemma full_iff r n : ring_facts r n -> _head r = _tail r <-> size r = n - 1.
Proof.
  intros F; pose proof (rf_n _ _ F); pose proof (rf_head _ _ F); split; intros H1.
  - apply (size_unique _ _ _ F); [lia|]. rewrite <- H1.
    replace (_head r + 1 + (n - 1)) with (_head r + 1 * n) by lia.
    rewrite Z_mod_plus_full, Z.mod_small by lia; reflexivity.
  - rewrite (tail_eq _ _ F), H1; replace (_head r + 1 + (n - 1)) with (_head r + 1 * n) by lia.
    rewrite Z_mod_plus_full, Z.mod_small by lia; reflexivity.
Qed.

Lemma next_head_eq r n : ring_facts r n ->
  Z.land (_head r +u32 1) (_capacity r) = (_head r + 1) mod n.
Proof. intros F; apply (rf_mask _ _ F). Qed.

Lemma empty_iff r n : ring_facts r n -> (_head r + 1) mod n = _tail r <-> size r = 0.
Proof.
  intros F; pose proof (rf_n _ _ F); split; intros H1.
  - apply (size_unique _ _ _ F); [lia|]. now rewrite Z.add_0_r.
  - now rewrite (tail_eq _ _ F), H1, Z.add_0_r.
Qed.

Lemma length_contents r : length (contents r) = Z.to_nat (size r).
Proof. apply length_slots. Qed.
End RingLemmas.

(** ** Operations on a well-formed ring *)
Section RingOps.
Context {R : Type} `{!Inhabited R}.
Implicit Type r : ringbuf R.

(** A record is pushed: the slot of the tail is filled, then committed. *)
Definition push r (x : R) : push_result R := push_commit (write_slot r (push_begin r) x).

(** A record is popped: read at its slot, then committed. *)
Definition pop r : option (R * ringbuf R) :=
  match pop_begin r with
  | None => None
  | Some p => Some (_recs r !!! Z.to_nat p, pop_commit r)
  end.

(** The configuration of a ring, which no operation on records changes. *)
Definition same_config r r' : Prop :=
  _name r' = _name r /\ _flags r' = _flags r /\ _prio r' = _prio r /\
  _rec_shift r' = _rec_shift r /\ _rec_tailroom r' = _rec_tailroom r /\
  _capacity r' = _capacity r /\ length (_recs r') = length (_recs r).

#[export] Instance same_config_equiv : Equivalence same_config.
Proof.
  split; unfold same_config; [done| |].
  - intros a b H; decompose [and] H; repeat split; congruence.
  - intros a b c H1 H2; decompose [and] H1; decompose [and] H2; repeat split; congruence.
Qed.

Lemma ring_wf_config r r' : ring_wf r -> same_config r r' ->
  0 <= _head r' <= _capacity r -> 0 <= _tail r' <= _capacity r -> ring_wf r'.
Proof.
  intros [M _ _] (_ & _ & _ & Es & _ & Ec & El) Hh Ht.
  split; rewrite ?Es, ?Ec, ?El; assumption.
Qed.

Lemma push_begin_tail r : ring_wf r -> push_begin r = _tail r.
Proof.
  intros W; destruct (ring_wf_facts _ W) as (n & _ & F).
  apply (rf_rec _ _ F), (rf_tail _ _ F).
Qed.

(** Filling the slot of the tail changes none of the records of the ring. *)
Lemma write_slot_contents r x : ring_wf r ->
  contents (write_slot r (push_begin r) x) = contents r.
Proof.
  intros W; rewrite push_begin_tail by done; destruct (ring_wf_facts _ W) as (n & _ & F).
  pose proof (rf_n _ _ F); pose proof (size_range _ _ F).
  unfold contents, write_slot.
  change (size (set_recs _ _)) with (size r); change (capacity (set_recs _ _)) with (capacity r).
  cbn [_recs _head set_recs]; rewrite (rf_cap _ _ F).
  apply slots_write; [lia | lia | apply (rf_tail _ _ F) |].
  intros i Hi; rewrite (tail_eq _ _ F); intros E.
  apply mod_add_inj in E; lia.
Qed.

Lemma write_slot_wf r x : ring_wf r -> ring_wf (write_slot r (push_begin r) x).
Proof.
  intros W; apply (ring_wf_config r); [done | | apply W | apply W].
  unfold same_config, write_slot, set_recs; cbn; rewrite length_insert; repeat split.
Qed.

Lemma pushed_contents r n x : ring_wf r -> ring_facts r n -> size r < n - 1 ->
  let r' := commit_tail (write_slot r (push_begin r) x) ((_tail r + 1) mod n) in
  ring_wf r' /\ contents r' = contents r ++ [x] /\ size r' = size r + 1.
Proof.
  intros W F Hs r'; pose proof (rf_n _ _ F) as Hn; pose proof (size_range _ _ F) as Hr.
  destruct (ring_wf_facts _ W) as (n' & Hc & F').
  assert (n' = n) as -> by (rewrite <- (rf_cap _ _ F'), <- (rf_cap _ _ F); reflexivity).
  assert (W' : ring_wf r').
  { apply (ring_wf_config r); [done | | apply W |].
    - unfold same_config, r', write_slot; cbn; rewrite length_insert; repeat split.
    - cbn; pose proof (mod_range (_tail r + 1) n); lia. }
  assert (F2 : ring_facts r' n).
  { destruct (ring_wf_facts _ W') as (m & Hm & Fm); cbn in Hm.
    now assert (m = n) as -> by lia. }
  assert (S : size r' = size r + 1).
  { apply (size_unique _ n _ F2); [lia|]. cbn.
    rewrite (tail_eq _ _ F), mod_mod_add; f_equal; lia. }
  split; [done|]; split; [|done].
  unfold contents at 1; rewrite S, (rf_cap _ _ F2), slots_snoc by lia; f_equal.
  - rewrite <- (write_slot_contents r x W); unfold contents.
    now rewrite <- (rf_cap _ _ F).
  - cbn [_recs _head r' commit_tail set_tail set_counters write_slot set_recs].
    rewrite <- (tail_eq _ _ F), (push_begin_tail _ W).
    rewrite list_lookup_total_insert_eq; [done|].
    pose proof (rf_tail _ _ F); pose proof (rf_len _ _ F); lia.
Qed.

(** The three outcomes of a push. *)
Lemma push_cases r x : ring_wf r ->
  (size r < _capacity r /\ exists r', push r x = Pushed r' /\ ring_wf r' /\ same_config r r' /\
     contents r' = contents r ++ [x] /\ _dropcnt r' = _dropcnt r /\ _seqnum r' = _seqnum r /\
     _head r' = _head r) \/
  (size r = _capacity r /\ blocking r = false /\ exists r', push r x = Dropped r' /\ ring_wf r' /\
     same_config r r' /\ contents r' = contents r /\ _dropcnt r' = u64 (_dropcnt r + 1) /\
     _seqnum r' = _seqnum r /\ _head r' = _head r) \/
  (size r = _capacity r /\ blocking r = true /\ push r x = MustBlock).
Proof.
  intros W; destruct (ring_wf_facts _ W) as (n & Hc & F).
  pose proof (full_iff _ _ F) as Full; pose proof (size_range _ _ F) as Hr.
  unfold push, push_commit.
  change (_head (write_slot _ _ _)) with (_head r); change (_tail (write_slot _ _ _)) with (_tail r).
  change (blocking (write_slot _ _ _)) with (blocking r).
  change (_capacity (write_slot _ _ _)) with (_capacity r).
  destruct (Z.eqb_spec (_head r) (_tail r)) as [E|E].
  - right; assert (Sz : size r = _capacity r) by (rewrite Hc; now apply Full).
    destruct (blocking r); [now right | left].
    split; [done|]; split; [done|]; cbn [negb].
    eexists; split; [reflexivity|].
    pose proof (write_slot_contents r x W) as Cw; pose proof (write_slot_wf r x W) as [M A B].
    repeat split; try done; try apply A; try apply B.
    unfold write_slot, set_recs; cbn; apply length_insert.
  - left; assert (Hs : size r < n - 1) by (assert (size r <> n - 1) by tauto; lia).
    split; [lia|]; rewrite (rf_mask _ _ F).
    destruct (pushed_contents r n x W F Hs) as (Wp & Cp & _).
    eexists; split; [reflexivity|]; repeat split; try apply Wp; try done.
    unfold write_slot, set_recs; cbn; apply length_insert.
Qed.

(** Moving the head over [j] records. *)
Lemma commit_head_contents r n j : ring_wf r -> ring_facts r n -> 0 <= j <= size r ->
  let r' := commit_head r ((_head r + j) mod n) in
  ring_wf r' /\ contents r' = drop (Z.to_nat j) (contents r) /\ size r' = size r - j.
Proof.
  intros W F Hj r'; pose proof (rf_n _ _ F) as Hn; pose proof (size_range _ _ F) as Hr.
  assert (W' : ring_wf r').
  { apply (ring_wf_config r); [done | repeat split | | apply W].
    destruct (ring_wf_facts _ W) as (m & Hm & Fm); cbn.
    assert (m = n) as -> by (rewrite <- (rf_cap _ _ Fm), <- (rf_cap _ _ F); reflexivity).
    pose proof (mod_range (_head r + j) n); lia. }
  assert (F2 : ring_facts r' n).
  { destruct (ring_wf_facts _ W') as (m & Hm & Fm).
    assert (m = n) as -> by (rewrite <- (rf_cap _ _ Fm), <- (rf_cap _ _ F); reflexivity). done. }
  assert (S : size r' = size r - j).
  { apply (size_unique _ n _ F2); [lia|]. cbn.
    rewrite (tail_eq _ _ F), <- (Z.add_assoc ((_head r + j) mod n)), mod_mod_add; f_equal; lia. }
  split; [done|]; split; [|done].
  unfold contents; rewrite (rf_cap _ _ F), slots_drop, S by lia; cbn.
  now rewrite (rf_cap _ _ F2).
Qed.

Lemma pop_cases r : ring_wf r ->
  (contents r = [] /\ pop r = None) \/
  (exists x q, contents r = x :: q /\ exists r', pop r = Some (x, r') /\ ring_wf r' /\
     same_config r r' /\ contents r' = q /\ _dropcnt r' = _dropcnt r /\ _seqnum r' = _seqnum r).
Proof.
  intros W; destruct (ring_wf_facts _ W) as (n & Hc & F).
  pose proof (size_range _ _ F) as Hr; pose proof (rf_n _ _ F).
  unfold pop, pop_begin, pop_commit; rewrite !(next_head_eq _ _ F).
  destruct (Z.eqb_spec ((_head r + 1) mod n) (_tail r)) as [E|E].
  - left; apply (empty_iff _ _ F) in E; split; [|done].
    apply nil_length_inv; rewrite length_contents; lia.
  - right; assert (size r <> 0) by (rewrite <- (empty_iff _ _ F); done).
    destruct (commit_head_contents r n 1 W F) as (Wp & Cp & _); [lia|].
    unfold contents at 1; rewrite (rf_cap _ _ F), slots_cons by lia.
    do 2 eexists; split; [reflexivity|].
    rewrite (rf_rec _ _ F) by (apply mod_range; lia).
    eexists; split; [reflexivity|]; repeat split; try apply Wp; try done.
    rewrite Cp; unfold contents; rewrite (rf_cap _ _ F), slots_cons by lia; reflexivity.
Qed.
End RingOps.

(** ** Iteration and batch commits *)
Section RingIter.
Context {R : Type} `{!Inhabited R}.
Implicit Type r : ringbuf R.

(** The engine reads records through an iterator and commits later.  The
    slots of the first [k] records it gets, and the iterator it is left with. *)
Fixpoint it_take (k : nat) r (it : pop_iterator) : list Z * pop_iterator :=
  match k with
  | O => ([], it)
  | S k =>
      match it_next r it with
      | None => ([], it)
      | Some (p, it) => let '(l, it) := it_take k r it in (p :: l, it)
      end
  end.

(** The slots of the records of a ring, oldest first. *)
Definition slot_list r : list Z := map (fun i => (_head r + 1 + i) mod capacity r) (seqZ 0 (size r)).

Lemma contents_slot_list r : contents r = map (fun p => _recs r !!! Z.to_nat p) (slot_list r).
Proof. unfold contents, slots, slot_list; now rewrite map_map. Qed.

Lemma length_slot_list r : length (slot_list r) = Z.to_nat (size r).
Proof. unfold slot_list; now rewrite length_map, length_seqZ. Qed.

Lemma slot_list_lookup r n i : ring_facts r n -> 0 <= i < size r ->
  slot_list r !! Z.to_nat i = Some ((_head r + 1 + i) mod n).
Proof.
  intros F Hi; unfold slot_list; rewrite (rf_cap _ _ F), list_lookup_fmap, lookup_seqZ_lt by lia.
  cbn; do 3 f_equal; lia.
Qed.

Lemma it_take_from r n i (k : nat) : ring_facts r n -> 0 <= i -> i + Z.of_nat k <= size r ->
  it_take k r (mkIter ((_head r + i) mod n) (_tail r)) =
    (map (fun j => (_head r + 1 + j) mod n) (seqZ i (Z.of_nat k)),
     mkIter ((_head r + i + Z.of_nat k) mod n) (_tail r)).
Proof.
  intros F; pose proof (rf_n _ _ F) as Hn; pose proof (size_range _ _ F) as Hr.
  revert i; induction k as [|k IH]; intros i Hi Hk.
  - cbn; rewrite Z.add_0_r; reflexivity.
  - cbn [it_take]; unfold it_next; cbn [it_head it_tail]; rewrite (rf_mask _ _ F), mod_mod_add.
    assert (E : (_head r + i + 1) mod n = (_head r + 1 + i) mod n) by (f_equal; lia).
    destruct (Z.eqb_spec ((_head r + i + 1) mod n) (_tail r)) as [C|_].
    + rewrite E, (tail_eq _ _ F) in C; apply mod_add_inj in C; lia.
    + replace ((_head r + i + 1) mod n) with ((_head r + (i + 1)) mod n) by (f_equal; lia).
      rewrite IH, (seqZ_cons i) by lia.
      rewrite (rf_rec _ _ F) by (apply mod_range; lia).
      replace (Z.succ i) with (i + 1) by lia; replace (Z.pred (Z.of_nat (S k))) with (Z.of_nat k) by lia.
      cbn [map]; f_equal; [do 2 f_equal; lia|]; do 2 f_equal; lia.
Qed.

(** From a reset, the iterator walks the slots of the ring in order. *)
Lemma it_take_reset r n (k : nat) : ring_facts r n -> Z.of_nat k <= size r ->
  it_take k r (it_reset r) = (take k (slot_list r), mkIter ((_head r + Z.of_nat k) mod n) (_tail r)).
Proof.
  intros F Hk; pose proof (rf_head _ _ F).
  unfold it_reset; rewrite <- (Z.mod_small (_head r) n) at 1 by lia.
  rewrite <- (Z.add_0_r (_head r)) at 1; rewrite (it_take_from _ _ _ _ F) by lia.
  rewrite Z.add_0_r; f_equal.
  unfold slot_list; rewrite (rf_cap _ _ F).
  replace (size r) with (Z.of_nat k + (size r - Z.of_nat k)) by lia.
  rewrite seqZ_app by lia; rewrite map_app, take_app_length'; [done|].
  rewrite length_map, length_seqZ; lia.
Qed.

Lemma it_next_end r n : ring_facts r n ->
  it_next r (mkIter ((_head r + size r) mod n) (_tail r)) = None.
Proof.
  intros F; unfold it_next; cbn; rewrite (rf_mask _ _ F), mod_mod_add, (tail_eq _ _ F).
  replace (_head r + size r + 1) with (_head r + 1 + size r) by lia.
  now rewrite Z.eqb_refl.
Qed.

(** Asking for more records than there are stops at the last one. *)
Lemma it_take_more r n (k : nat) : ring_facts r n -> size r <= Z.of_nat k ->
  it_take k r (it_reset r) = it_take (Z.to_nat (size r)) r (it_reset r).
Proof.
  intros F Hk; pose proof (size_range _ _ F).
  replace k with (Z.to_nat (size r) + (k - Z.to_nat (size r)))%nat at 1 by lia.
  assert (App : forall a b it, it_take (a + b) r it =
    let '(l, it) := it_take a r it in let '(l', it) := it_take b r it in (l ++ l', it)).
  { intros a b; induction a as [|a IH]; intros it; cbn; [now destruct (it_take b r it)|].
    destruct (it_next r it) as [[p it']|] eqn:E.
    - rewrite IH; destruct (it_take a r it') as [l it2]; now destruct (it_take b r it2).
    - destruct b; cbn; [done | now rewrite E]. }
  rewrite App, (it_take_reset _ _ _ F) by lia; rewrite Z2Nat.id by lia.
  destruct (k - Z.to_nat (size r))%nat; cbn [it_take]; [now rewrite app_nil_r|].
  rewrite (it_next_end _ _ F); now rewrite app_nil_r.
Qed.
End RingIter.

(** ** Specification: a bounded queue with a drop counter *)
Section RingSpec.
Context {R : Type} `{!Inhabited R}.
Implicit Type r : ringbuf R.

Inductive ring_op :=
  | OpPush (x : R)            (* writer: push_begin, fill, push_commit *)
  | OpPop                     (* reader: pop_begin, pop_commit *)
  | OpBatch (k : nat)         (* reader: iterator reset, at most k next, commit *)
  | OpReset.

Inductive ring_out :=
  | Accepted | Lost | Blocks | NoRecord
  | Got (l : list R)
  | Cleared.

Definition ring_step r (op : ring_op) : ringbuf R * ring_out :=
  match op with
  | OpPush x =>
      match push r x with
      | Pushed r' => (r', Accepted)
      | Dropped r' => (r', Lost)
      | MustBlock => (write_slot r (push_begin r) x, Blocks)
      end
  | OpPop =>
      match pop r with
      | None => (r, NoRecord)
      | Some (x, r') => (r', Got [x])
      end
  | OpBatch k =>
      let '(ps, it) := it_take k r (it_reset r) in
      (it_commit r it, Got (map (fun p => _recs r !!! Z.to_nat p) ps))
  | OpReset => (ring_reset r, Cleared)
  end.

Fixpoint ring_run r (ops : list ring_op) : ringbuf R * list ring_out :=
  match ops with
  | [] => (r, [])
  | op :: ops =>
      let '(r, o) := ring_step r op in
      let '(r, os) := ring_run r ops in (r, o :: os)
  end.

(** The abstract queue: its room, whether writers wait for room, its items
    and the number of items it lost. *)
Record fifo := mkFifo { f_max : Z; f_blocking : bool; f_items : list R; f_drops : Z }.

Definition fifo_step (f : fifo) (op : ring_op) : fifo * ring_out :=
  let len := Z.of_nat (length (f_items f)) in
  match op with
  | OpPush x =>
      if len <? f_max f then (mkFifo (f_max f) (f_blocking f) (f_items f ++ [x]) (f_drops f), Accepted)
      else if f_blocking f then (f, Blocks)
      else (mkFifo (f_max f) (f_blocking f) (f_items f) (u64 (f_drops f + 1)), Lost)
  | OpPop =>
      match f_items f with
      | [] => (f, NoRecord)
      | x :: q => (mkFifo (f_max f) (f_blocking f) q (f_drops f), Got [x])
      end
  | OpBatch k =>
      (mkFifo (f_max f) (f_blocking f) (drop k (f_items f)) (f_drops f), Got (take k (f_items f)))
  | OpReset => (mkFifo (f_max f) (f_blocking f) [] 0, Cleared)
  end.

Fixpoint fifo_run (f : fifo) (ops : list ring_op) : fifo * list ring_out :=
  match ops with
  | [] => (f, [])
  | op :: ops =>
      let '(f, o) := fifo_step f op in
      let '(f, os) := fifo_run f ops in (f, o :: os)
  end.

(** The queue a ring implements: it holds one record less than it has slots. *)
Definition abs r : fifo := mkFifo (_capacity r) (blocking r) (contents r) (_dropcnt r).

Lemma abs_config r r' : same_config r r' -> contents r' = contents r -> _dropcnt r' = _dropcnt r ->
  abs r' = abs r.
Proof.
  intros (_ & Ef & _ & _ & _ & Ec & _) E1 E2; unfold abs, blocking; now rewrite Ef, Ec, E1, E2.
Qed.

Lemma reset_wf r : ring_wf r -> ring_wf (ring_reset r) /\ contents (ring_reset r) = [].
Proof.
  intros W; assert (W' : ring_wf (ring_reset r)).
  { apply (ring_wf_config r); [done | repeat split | |]; cbn; destruct W as [_ ? ?]; lia. }
  split; [done|]; destruct (ring_wf_facts _ W') as (n & Hc & F); pose proof (rf_n _ _ F).
  apply nil_length_inv; rewrite length_contents.
  replace (size (ring_reset r)) with 0; [done|]; symmetry; apply (empty_iff _ _ F).
  change (_head (ring_reset r)) with (_capacity (ring_reset r)); rewrite Hc.
  replace (n - 1 + 1) with n by lia; apply Z_mod_same_full.
Qed.

(** What reading [k] records through an iterator and committing does. *)
Lemma batch_spec r (k : nat) : ring_wf r ->
  let '(ps, it) := it_take k r (it_reset r) in
  map (fun p => _recs r !!! Z.to_nat p) ps = take k (contents r) /\
  ring_wf (it_commit r it) /\ contents (it_commit r it) = drop k (contents r).
Proof.
  intros W; destruct (ring_wf_facts _ W) as (n & Hc & F).
  pose proof (size_range _ _ F) as Hr; pose proof (rf_n _ _ F).
  assert (Small : forall j : nat, Z.of_nat j <= size r ->
    let it := mkIter ((_head r + Z.of_nat j) mod n) (_tail r) in
    it_take j r (it_reset r) = (take j (slot_list r), it) /\
    ring_wf (it_commit r it) /\ contents (it_commit r it) = drop j (contents r)).
  { intros j Hj it; rewrite (it_take_reset _ _ _ F Hj); split; [done|].
    destruct (commit_head_contents r n (Z.of_nat j) W F) as (W' & C' & _); [lia|].
    rewrite Nat2Z.id in C'; exact (conj W' C'). }
  destruct (decide (Z.of_nat k <= size r)) as [Hk|Hk].
  - destruct (Small k Hk) as (-> & Wk & Ck); split; [|now split].
    now rewrite contents_slot_list, firstn_map.
  - assert (E : it_take k r (it_reset r) = it_take (Z.to_nat (size r)) r (it_reset r)).
    { apply (it_take_more _ n); [done|lia]. }
    rewrite E; destruct (Small (Z.to_nat (size r))) as (-> & Wk & Ck); [lia|].
    rewrite (take_ge (slot_list r)) by (rewrite length_slot_list; lia).
    rewrite take_ge, Ck, !drop_ge by (rewrite length_contents; lia).
    now rewrite <- contents_slot_list.
Qed.

Lemma ring_step_refines r op : ring_wf r ->
  let '(r', o) := ring_step r op in
  ring_wf r' /\ same_config r r' /\ fifo_step (abs r) op = (abs r', o).
Proof.
  intros W; destruct (ring_wf_facts _ W) as (n & Hc & F); pose proof (size_range _ _ F) as Hr.
  destruct op as [x| |k|]; cbn [ring_step fifo_step abs f_items f_max f_blocking f_drops];
    rewrite ?length_contents, ?Z2Nat.id by lia.
  - destruct (push_cases r x W) as [(S & r' & -> & Wr & Cf & Ct & D & _)
      |[(S & B & r' & -> & Wr & Cf & Ct & D & _) | (S & B & ->)]].
    + rewrite (proj2 (Z.ltb_lt _ _)) by lia; do 2 (split; [done|]).
      unfold abs, blocking; rewrite Ct, D; destruct Cf as (_ & -> & _ & _ & _ & -> & _); done.
    + rewrite (proj2 (Z.ltb_ge _ _)), B by lia; do 2 (split; [done|]).
      unfold abs, blocking; rewrite Ct, D; destruct Cf as (_ & -> & _ & _ & _ & -> & _).
      fold (blocking r); now rewrite B.
    + rewrite (proj2 (Z.ltb_ge _ _)), B by lia; split; [now apply write_slot_wf|].
      assert (C : same_config r (write_slot r (push_begin r) x))
        by (repeat split; unfold write_slot, set_recs; cbn; apply length_insert).
      split; [done|]; f_equal.
      rewrite (abs_config r (write_slot r (push_begin r) x)) by (done || now apply write_slot_contents).
      unfold abs; now rewrite B.
  - destruct (pop_cases r W) as [(-> & ->)|(x & q & -> & r' & -> & Wr & Cf & Ct & D & _)].
    + repeat split; apply W.
    + do 2 (split; [done|]); unfold abs, blocking; rewrite Ct, D.
      destruct Cf as (_ & -> & _ & _ & _ & -> & _); done.
  - pose proof (batch_spec r k W) as B; destruct (it_take k r (it_reset r)) as [ps it].
    destruct B as (-> & Wr & Ct); split; [done|]; split; [repeat split|].
    unfold abs; rewrite Ct; reflexivity.
  - destruct (reset_wf r W) as [Wr Ct]; split; [done|]; split; [repeat split|].
    unfold abs; rewrite Ct; reflexivity.
Qed.

(** C3: Under any sequence of pushes, pops, batched reads through an iterator
    and resets, a ring buffer behaves as a bounded FIFO queue that holds one
    record less than it has slots: records come out complete and in the order
    they went in, and a push on a full ring loses the record being pushed and
    counts it (or, for a blocking ring, waits) without touching the records
    already in the ring. *)
Theorem ring_refines_fifo r ops : ring_wf r ->
  let '(r', os) := ring_run r ops in
  ring_wf r' /\ same_config r r' /\ fifo_run (abs r) ops = (abs r', os).
Proof.
  revert r; induction ops as [|op ops IH]; intros r W; cbn [ring_run fifo_run]; [done|].
  pose proof (ring_step_refines r op W) as S; destruct (ring_step r op) as [r1 o].
  destruct S as (W1 & C1 & ->); specialize (IH r1 W1).
  destruct (ring_run r1 ops) as [r2 os]; destruct IH as (W2 & C2 & ->).
  split; [done|]; split; [|done]; now transitivity r1.
Qed.
End RingSpec.

(** ** Construction *)

(** The least power of two that is at least [v]. *)
Definition pow2_ceil (v p : Z) : Prop :=
  exists k, 0 <= k /\ p = 2 ^ k /\ v <= p /\ (k = 0 \/ p < 2 * v).

Lemma u32_pow2 k : 0 <= k <= 31 -> u32 (pow2 k) = 2 ^ k.
Proof.
  intros; rewrite pow2_eq by lia; apply u32_small; split; [apply Z.pow_nonneg; lia|].
  change 4294967296 with (2 ^ 32); apply Z.pow_lt_mono_r; lia.
Qed.

Lemma pow2_ceil_unique v p q : pow2_ceil v p -> pow2_ceil v q -> p = q.
Proof.
  assert (L : forall v p q, pow2_ceil v p -> pow2_ceil v q -> p <= q).
  { clear; intros v p q (a & Ha & -> & Va & Ma) (b & Hb & -> & Vb & Mb).
    destruct (Z_le_gt_dec a b); [now apply Z.pow_le_mono_r|].
    destruct Ma as [->|Ma]; [lia|].
    assert (2 ^ Z.succ b <= 2 ^ a) by (apply Z.pow_le_mono_r; lia).
    rewrite Z.pow_succ_r in *; lia. }
  intros; apply Z.le_antisymm; eauto.
Qed.

Lemma roundup_loop_spec (fuel : nat) i v : 0 <= i -> i + Z.of_nat fuel = 32 ->
  v <= 2147483648 -> (forall j, 0 <= j < i -> 2 ^ j < v) ->
  exists k, roundup_loop fuel i v = Some k /\ 0 <= k <= 31 /\ v <= 2 ^ k /\ (k = 0 \/ 2 ^ k < 2 * v).
Proof.
  revert i; induction fuel as [|fuel IH]; intros i Hi Hf Hv Hj; cbn [roundup_loop].
  - specialize (Hj 31); change (2 ^ 31) with 2147483648 in Hj; lia.
  - rewrite u32_pow2 by lia; destruct (Z.ltb_spec (2 ^ i) v) as [L|L].
    + apply IH; try lia; intros j Hji; destruct (Z.eq_dec j i); [now subst | apply Hj; lia].
    + exists i; do 3 (split; [done || lia|]).
      destruct (Z.eq_dec i 0); [now left | right].
      specialize (Hj (i - 1)); replace i with (Z.succ (i - 1)) by lia.
      rewrite Z.pow_succ_r; lia.
Qed.

Lemma roundup_log2_spec v : v <= 2147483648 ->
  exists k, __roundup_log2 v = Some k /\ 0 <= k <= 31 /\ v <= 2 ^ k /\ (k = 0 \/ 2 ^ k < 2 * v).
Proof. intros; apply roundup_loop_spec; lia. Qed.

Section RingNew.
Context {R : Type} `{!Inhabited R}.
Implicit Type r : ringbuf R.

(** What the constructor computes, before the allocation. *)
Lemma ring_new_eq alloc (zero : R) ts name opts :
  ring_options_wf opts -> o_capacity opts <= 2147483648 -> o_record_tailroom opts <= 2147483616 ->
  exists k s, 0 <= k <= 31 /\ 0 <= s <= 31 /\
    pow2_ceil (o_capacity opts) (2 ^ k) /\
    pow2_ceil (header_size + Z.max argval_size (o_record_tailroom opts)) (2 ^ s) /\
    let nbytes := u32 (2 ^ k * 2 ^ s) in
    ringbuf_new alloc zero ts name opts =
    Some (mkRing name (o_flags opts) (Z.min PRIORITY_CEILING (s32 (o_prio opts))) s (2 ^ s - header_size)
            (if alloc nbytes then 2 ^ k - 1 else 0) 0 false ts 0 0 0 (2 ^ k - 1)
            (if alloc nbytes then replicate (Z.to_nat (nbytes / 2 ^ s)) zero else [])).
Proof.
  intros [Wc _ _ Wt] Hc Ht; unfold is_u32 in Wc, Wt.
  destruct (roundup_log2_spec (o_capacity opts) Hc) as (k & Ek & Hk & Ck & Mk).
  set (extra := if argval_size <? o_record_tailroom opts then o_record_tailroom opts - argval_size else 0).
  assert (X : sizeof_record +u32 extra = header_size + Z.max argval_size (o_record_tailroom opts)
              /\ 0 <= extra).
  { unfold extra; change argval_size with 128; change sizeof_record with 160; change header_size with 32.
    destruct (Z.ltb_spec 128 (o_record_tailroom opts)); rewrite u32_small by (words; lia); lia. }
  destruct X as [X _].
  destruct (roundup_log2_spec (sizeof_record +u32 extra)) as (s & Es & Hs & Cs & Ms).
  { rewrite X; change argval_size with 128; change header_size with 32; lia. }
  exists k, s; do 2 (split; [lia|]); split; [exists k; tauto|]; split.
  { rewrite <- X; exists s; tauto. }
  assert (Pk : 1 <= 2 ^ k <= 2 ^ 31)
    by (split; [apply (Z.pow_le_mono_r 2 0); lia | apply Z.pow_le_mono_r; lia]).
  assert (Ps : 2 ^ s <= 2 ^ 31) by (apply Z.pow_le_mono_r; lia).
  change (2 ^ 31) with 2147483648 in *.
  unfold ringbuf_new; fold extra; unfold __roundup_power2; rewrite Ek; cbn [mbind option_bind].
  rewrite Es; cbn [mbind option_bind]; rewrite !u32_pow2 by lia.
  rewrite !(u32_small (2 ^ k - 1)) by (words; lia).
  rewrite (u32_small (2 ^ k - 1 + 1)) by (words; lia); replace (2 ^ k - 1 + 1) with (2 ^ k) by lia.
  rewrite (u32_small (2 ^ s - header_size)).
  - replace (if PRIORITY_CEILING <? s32 (o_prio opts) then PRIORITY_CEILING else s32 (o_prio opts))
      with (Z.min PRIORITY_CEILING (s32 (o_prio opts))).
    + destruct (alloc (u32 (2 ^ k * 2 ^ s))); reflexivity.
    + destruct (Z.ltb_spec PRIORITY_CEILING (s32 (o_prio opts))); lia.
  - rewrite X in Cs; change argval_size with 128 in *; change header_size with 32 in *; words; lia.
Qed.

(** What the constructor builds when the sizes fit. *)
Lemma ring_new_facts alloc (zero : R) ts name opts c rs :
  ring_options_wf opts -> o_capacity opts <= 2147483648 -> o_record_tailroom opts <= 2147483616 ->
  pow2_ceil (o_capacity opts) c ->
  pow2_ceil (header_size + Z.max argval_size (o_record_tailroom opts)) rs ->
  c * rs < 4294967296 -> (forall n, alloc n = true) ->
  exists r, ringbuf_new alloc zero ts name opts = Some r /\
    ring_wf r /\ contents r = [] /\ capacity r = c /\ record_size r = rs /\
    record_tailroom r = rs - header_size /\ o_record_tailroom opts <= record_tailroom r /\
    _prio r = Z.min PRIORITY_CEILING (s32 (o_prio opts)) /\ _flags r = o_flags opts /\
    _refcnt r = 0 /\ _seqnum r = 0 /\ _dropcnt r = 0 /\ _name r = name /\ _recs r = replicate (Z.to_nat c) zero.
Proof.
  intros W Hc Ht Pc Pr Hp Ha.
  destruct (ring_new_eq alloc zero ts name opts W Hc Ht) as (k & s & Hk & Hs & Pk & Ps & E); cbv zeta in E.
  rewrite <- (pow2_ceil_unique _ _ _ Pc Pk), <- (pow2_ceil_unique _ _ _ Pr Ps) in E.
  assert (Ec : c = 2 ^ k) by exact (pow2_ceil_unique _ _ _ Pc Pk).
  assert (Er : rs = 2 ^ s) by exact (pow2_ceil_unique _ _ _ Pr Ps).
  assert (0 < c) by (rewrite Ec; apply Z.pow_pos_nonneg; lia).
  assert (0 < rs) by (rewrite Er; apply Z.pow_pos_nonneg; lia).
  rewrite Ha, u32_small, Z.div_mul in E by (words; nia).
  eexists; split; [apply E|].
  match goal with |- ring_wf ?r /\ _ => set (r0 := r) end.
  assert (W0 : ring_wf r0).
  { split; cbn; [|lia|lia]; exists k; rewrite length_replicate.
    assert (k + s <= 31).
    { enough (k + s < 32) by lia; apply (Z.pow_lt_mono_r_iff 2); [lia|lia|].
      rewrite Z.pow_add_r by lia; rewrite <- Ec, <- Er; exact Hp. }
    rewrite <- Ec; lia. }
  assert (E0 : ring_reset r0 = r0) by reflexivity.
  split; [done|]; split; [rewrite <- E0; now apply reset_wf|].
  destruct (ring_wf_facts r0 W0) as (n & Hn & F); cbn in Hn; assert (n = c) as -> by lia.
  split; [apply (rf_cap _ _ F)|].
  split; [unfold record_size; cbn; now rewrite u32_pow2, Er by lia|].
  split; [done|]; split; [|done].
  destruct Pr as (? & _ & _ & L & _); unfold record_tailroom; cbn; lia.
Qed.

(** C40: A ring built from options whose rounded sizes fit in 32 bits is well
    formed and empty; its number of slots is the least power of two that is at
    least the requested capacity, its records have the least power-of-two size
    that holds the header and the larger of the argument storage and the
    requested tail room, its priority is clamped to the ceiling and it has no
    owner yet. *)
Theorem ring_new_correct alloc (zero : R) ts name opts c rs :
  ring_options_wf opts -> o_capacity opts <= 2147483648 -> o_record_tailroom opts <= 2147483616 ->
  pow2_ceil (o_capacity opts) c ->
  pow2_ceil (header_size + Z.max argval_size (o_record_tailroom opts)) rs ->
  c * rs < 4294967296 -> (forall n, alloc n = true) ->
  exists r, ringbuf_new alloc zero ts name opts = Some r /\
    ring_wf r /\ contents r = [] /\ capacity r = c /\ record_size r = rs /\
    record_tailroom r = rs - header_size /\ o_record_tailroom opts <= record_tailroom r /\
    _prio r = Z.min PRIORITY_CEILING (s32 (o_prio opts)) /\ _flags r = o_flags opts /\
    _refcnt r = 0 /\ _seqnum r = 0 /\ _dropcnt r = 0.
Proof.
  intros W Hc Ht Pc Pr Hp Ha.
  destruct (ring_new_facts alloc zero ts name opts c rs W Hc Ht Pc Pr Hp Ha) as (r & E & F).
  exists r; split; [exact E|]; tauto.
Qed.

(** The size of the record buffers is computed in 32 bits: when slots times
    record size reaches 4 GiB the product is zero, and the constructor returns
    a ring that announces all its slots but owns no memory for any of them. *)
Theorem ring_new_overflow alloc (zero : R) ts name opts c rs :
  ring_options_wf opts -> o_capacity opts <= 2147483648 -> o_record_tailroom opts <= 2147483616 ->
  pow2_ceil (o_capacity opts) c ->
  pow2_ceil (header_size + Z.max argval_size (o_record_tailroom opts)) rs ->
  4294967296 <= c * rs -> alloc 0 = true ->
  exists r, ringbuf_new alloc zero ts name opts = Some r /\
    capacity r = c /\ record_size r = rs /\ length (_recs r) = 0%nat.
Proof.
  intros W Hc Ht Pc Pr Hp Ha.
  destruct (ring_new_eq alloc zero ts name opts W Hc Ht) as (k & s & Hk & Hs & Pk & Ps & E); cbv zeta in E.
  rewrite (pow2_ceil_unique _ _ _ Pc Pk), (pow2_ceil_unique _ _ _ Pr Ps) in *.
  assert (Z0 : u32 (2 ^ k * 2 ^ s) = 0).
  { rewrite <- Z.pow_add_r in * by lia.
    assert (32 <= k + s) by (apply (Z.pow_le_mono_r_iff 2); [lia | lia | exact Hp]).
    unfold u32; replace (k + s) with (32 + (k + s - 32)) by lia; rewrite Z.pow_add_r by lia.
    rewrite Z.mul_comm; apply Z_mod_mult. }
  rewrite Z0, Ha in E; eexists; split; [apply E|].
  assert (1 <= 2 ^ k <= 2 ^ 31)
    by (split; [apply (Z.pow_le_mono_r 2 0); lia | apply Z.pow_le_mono_r; lia]).
  unfold capacity, record_size; cbn [_capacity _rec_shift _recs].
  rewrite u32_pow2, u32_small by (words; lia).
  rewrite Z.div_0_l by (apply Z.pow_nonzero; lia); repeat split; lia.
Qed.

(** The default options, and a request whose buffers overflow. *)
Lemma default_options_wf : ring_options_wf default_options.
Proof. split; words; cbn; lia. Qed.

Lemma pow2_ceil_witness v k : 0 <= k -> v <= 2 ^ k -> (k = 0 \/ 2 ^ k < 2 * v) -> pow2_ceil v (2 ^ k).
Proof. intros; exists k; auto. Qed.
End RingNew.

(** A fresh ring of four slots, for the witnesses. *)
Definition ring4 (flags : Z) : ringbuf Z :=
  mkRing "R" flags 0 8 224 3 0 false 0 0 0 0 3 [0; 0; 0; 0].

Lemma ring4_wf flags : ring_wf (ring4 flags).
Proof. split; cbn; [exists 2; cbn; lia | lia | lia]. Qed.

Lemma ring_refines_fifo_witness :
  let ops := [OpPush 1; OpPush 2; OpPush 3; OpPush 4; OpPop; OpPush 5; OpBatch 9; OpPop] in
  snd (ring_run (ring4 0) ops) =
    [Accepted; Accepted; Accepted; Lost; Got [1]; Accepted; Got [2; 3; 5]; NoRecord] /\
  let '(r', os) := ring_run (ring4 0) ops in
  ring_wf r' /\ same_config (ring4 0) r' /\ fifo_run (abs (ring4 0)) ops = (abs r', os).
Proof.
  split; [reflexivity|]; apply (ring_refines_fifo (ring4 0)); apply ring4_wf.
Defined.

Lemma ring_new_correct_witness :
  exists r, ringbuf_new (fun _ => true) 0 0 "R" default_options = Some r /\
    ring_wf r /\ contents r = [] /\ capacity r = 1024 /\ record_size r = 256.
Proof.
  destruct (ring_new_correct (fun _ => true) 0 0 "R" default_options 1024 256)
    as (r & E & W & C & A & B & _); [apply default_options_wf | cbn; lia | cbn; lia | | | lia | done |].
  - apply (pow2_ceil_witness _ 10); cbn; lia.
  - apply (pow2_ceil_witness _ 8); change (header_size + Z.max argval_size _) with 160; lia.
  - exists r; repeat split; try done; apply W.
Defined.

Lemma ring_new_overflow_witness :
  let opts := mkRingOptions 16777216 0 0 128 in
  exists r, ringbuf_new (fun _ => true) 0 0 "R" opts = Some r /\
    capacity r = 16777216 /\ record_size r = 256 /\ length (_recs r) = 0%nat.
Proof.
  cbv zeta; apply (ring_new_overflow (fun _ => true) 0 0 "R");
    [split; words; cbn; lia | cbn; lia | cbn; lia | | | lia | done].
  - apply (pow2_ceil_witness _ 24); cbn; lia.
  - apply (pow2_ceil_witness _ 8); change (header_size + Z.max argval_size _) with 160; lia.
Defined.
