(* ===== verification/RingConc.v ===== *)
(** * Writers and the engine on one ring, step by step

    A ring is shared between its writers and the engine thread without a
    common lock: the writers own [_tail], the engine owns [_head], and a
    shared ring serialises its writers with its mutex.  Here every access to a
    shared field is a step of its own and the steps of both sides interleave
    freely.  Filling a slot takes two steps, between which the slot holds no
    value at all; so does reading one.  The steps use the operations of Ring.

    The mutex of a shared ring is held from before [push_begin] to after
    [push_commit], also while the writer sleeps, so at most one thread is
    between [WStart] and [WIdle]; a ring that is not shared has one writer. *)

From S2P Require Import Prelude Record Ring.

(** Records as the writers see them: the thread, the sequence number the ring
    gave and what the thread posts. *)
Record crec (A : Type) := mkCrec { cr_thread : nat; cr_seq : Z; cr_data : A }.
Arguments mkCrec {A}. Arguments cr_thread {A}. Arguments cr_seq {A}. Arguments cr_data {A}.

Section RingConc.
Context {A : Type}.

Abbreviation tagged := (crec A).
Abbreviation cring := (ringbuf (option tagged)).

(** Where the current writer is. *)
(* src: src/post.cc 42-110 post_impl::begin_unlocked, begin_locked, unlocked, locked *)
Inductive wpc :=
  | WIdle
  | WFill (x : tagged)            (* push_begin done, the slot is being filled *)
  | WTest (x : tagged) (t : Z)    (* push_commit: about to read _head *)
  | WCommit (x : tagged) (t : Z)  (* there is room *)
  | WFull (x : tagged) (t : Z)    (* about to call block() *)
  | WWait (x : tagged) (t : Z).   (* sleeps on _block_cond *)

(** Where the engine is: between two passes, in the iteration over a pass with
    the slots and values seen so far, or in [unblock]. *)
Inductive rpc :=
  | RIdle
  | RIter (it : pop_iterator) (seen : list (Z * option tagged))
  | RRead (p : Z) (it : pop_iterator) (seen : list (Z * option tagged))
  | RUnblock
  | RSignal.

(** [c_log] and [c_out] are histories: what the writers finished, with the
    outcome, and what the engine consumed. *)
Record conc := mkConc {
  c_ring : cring; c_w : wpc; c_r : rpc;
  c_todo : list (list A);           (* what each thread has still to post *)
  c_log : list (tagged * bool);
  c_out : list (option tagged) }.

Definition outcome (b : bool) (log : list (tagged * bool)) : list tagged :=
  map fst (filter (fun p => p.2 = b) log).
Definition accepted (s : conc) : list tagged := outcome true (c_log s).
Definition dropped (s : conc) : list tagged := outcome false (c_log s).

(** *** Writer steps *)

(* src: include/hogl/detail/ringbuf.hpp 398-449 ringbuf::block, push_begin, push_commit *)
Inductive wstep : conc -> conc -> Prop :=
  | w_start r rp todo log out i x rest :
      todo !! i = Some (x :: rest) ->
      wstep (mkConc r WIdle rp todo log out)
            (mkConc (write_slot (snd (inc_seqnum r)) (push_begin r) None)
               (WFill (mkCrec i (fst (inc_seqnum r)) x)) rp (<[i := rest]> todo) log out)
  | w_fill r rp todo log out x :
      wstep (mkConc r (WFill x) rp todo log out)
            (mkConc (write_slot r (push_begin r) (Some x)) (WTest x (_tail r)) rp todo log out)
  | w_room r rp todo log out x t :
      _head r <> t ->
      wstep (mkConc r (WTest x t) rp todo log out) (mkConc r (WCommit x t) rp todo log out)
  | w_drop r rp todo log out x t :
      _head r = t -> blocking r = false ->
      wstep (mkConc r (WTest x t) rp todo log out)
            (mkConc (inc_dropcnt r) WIdle rp todo (log ++ [(x, false)]) out)
  | w_full r rp todo log out x t :
      _head r = t -> blocking r = true ->
      wstep (mkConc r (WTest x t) rp todo log out) (mkConc r (WFull x t) rp todo log out)
  | w_block r rp todo log out x t :
      wstep (mkConc r (WFull x t) rp todo log out)
            (mkConc (set_block_active r true) (WWait x t) rp todo log out)
  | w_commit r rp todo log out x t :
      wstep (mkConc r (WCommit x t) rp todo log out)
            (mkConc (commit_tail r (Z.land (t +u32 1) (_capacity r))) WIdle rp todo
               (log ++ [(x, true)]) out).

(** A condition variable may wake up for no reason. *)
Inductive wspurious : conc -> conc -> Prop :=
  | w_spurious r rp todo log out x t :
      wspurious (mkConc r (WWait x t) rp todo log out) (mkConc r (WTest x t) rp todo log out).

(** *** Engine steps

    With timestamp ordering ([tso]) the engine flushes some of the records it
    has seen, oldest first, moves the head to the last one of them and skips a
    ring of which it flushed none; without, it consumes all it has seen. *)

Definition wake (w : wpc) : wpc := match w with WWait x t => WTest x t | _ => w end.

(* src: src/engine.cc 423-512 engine::process_rings_tso, process_rings_notso *)
Inductive rstep (tso : bool) : conc -> conc -> Prop :=
  | r_reset r w todo log out :
      rstep tso (mkConc r w RIdle todo log out) (mkConc r w (RIter (it_reset r) []) todo log out)
  | r_next r w todo log out it seen p it' :
      it_next r it = Some (p, it') ->
      rstep tso (mkConc r w (RIter it seen) todo log out)
                (mkConc r w (RRead p it' seen) todo log out)
  | r_read r w todo log out p it seen :
      rstep tso (mkConc r w (RRead p it seen) todo log out)
                (mkConc r w (RIter it (seen ++ [(p, _recs r !!! Z.to_nat p)])) todo log out)
  | r_commit r w todo log out it seen :
      tso = false -> it_next r it = None ->
      rstep tso (mkConc r w (RIter it seen) todo log out)
                (mkConc (it_commit r it) w RUnblock todo log (out ++ map snd seen))
  | r_none r w todo log out it seen :
      tso = true -> it_next r it = None ->
      rstep tso (mkConc r w (RIter it seen) todo log out) (mkConc r w RIdle todo log out)
  | r_flush r w todo log out it seen (j : nat) p v :
      tso = true -> it_next r it = None -> seen !! j = Some (p, v) ->
      rstep tso (mkConc r w (RIter it seen) todo log out)
                (mkConc (it_commit r (it_rewind r it p)) w RUnblock todo log
                   (out ++ map snd (take (S j) seen)))
  | r_quiet r w todo log out :
      _block_active r = false ->
      rstep tso (mkConc r w RUnblock todo log out) (mkConc r w RIdle todo log out)
  | r_active r w todo log out :
      _block_active r = true ->
      rstep tso (mkConc r w RUnblock todo log out) (mkConc r w RSignal todo log out)
  | r_signal r w todo log out :
      rstep tso (mkConc r w RSignal todo log out)
                (mkConc (set_block_active r false) (wake w) RIdle todo log out).

Definition cstep (tso : bool) (s s' : conc) : Prop :=
  wstep s s' \/ wspurious s s' \/ rstep tso s s'.

(** A ring at rest, and what its threads are going to post. *)
Definition start (r : cring) (todo : list (list A)) : conc :=
  mkConc r WIdle RIdle todo [] [].

Inductive reach (tso : bool) (s0 : conc) : conc -> Prop :=
  | reach_refl : reach tso s0 s0
  | reach_step s s' : reach tso s0 s -> cstep tso s s' -> reach tso s0 s'.

(** ** Geometry

    [h] records were consumed and [acc] accepted, since the ring was reset:
    slot [k mod n] holds the [k]-th accepted record until it is consumed. *)
Record geo (n : Z) (r : cring) (acc : list tagged) (h : Z) : Prop := {
  g_wf : ring_wf r;
  g_cap : _capacity r = n - 1;
  g_len : 0 <= h <= Z.of_nat (length acc) /\ Z.of_nat (length acc) <= h + n - 1;
  g_head : _head r = (h - 1) mod n;
  g_tail : _tail r = Z.of_nat (length acc) mod n;
  g_slots : forall k, h <= k < Z.of_nat (length acc) ->
              _recs r !!! Z.to_nat (k mod n) = acc !! Z.to_nat k }.

Lemma facts_of (r : cring) n : ring_wf r -> _capacity r = n - 1 -> ring_facts r n.
Proof.
  intros W E; destruct (ring_wf_facts r W) as (m & Em & F).
  assert (m = n) by lia; now subst.
Qed.

Lemma mod_ne a b n : 0 < n -> 0 < a - b < n -> a mod n <> b mod n.
Proof.
  intros Hn Hab E; replace a with (b + (a - b)) in E by lia.
  replace (b mod n) with ((b + 0) mod n) in E by (f_equal; lia).
  apply mod_add_inj in E; lia.
Qed.

(** The parts of a ring its geometry depends on. *)
Lemma geo_ext n r r' acc h : geo n r acc h -> same_config r r' ->
  _head r' = _head r -> _tail r' = _tail r -> _recs r' = _recs r -> geo n r' acc h.
Proof.
  intros [W C L Gh Gt Gs] Cf Eh Et Er; split; rewrite ?Eh, ?Et, ?Er; auto.
  - apply (ring_wf_config r); auto; rewrite ?Eh, ?Et; apply W.
  - destruct Cf as (_ & _ & _ & _ & _ & -> & _); done.
Qed.

Lemma geo_write n r acc h v : geo n r acc h ->
  let r' := write_slot r (push_begin r) v in
  geo n r' acc h /\ _recs r' !!! Z.to_nat (Z.of_nat (length acc) mod n) = v.
Proof.
  intros [W C L Gh Gt Gs] r'; pose proof (facts_of _ _ W C) as F; pose proof (rf_n _ _ F).
  pose proof (rf_tail _ _ F) as Ht; pose proof (rf_len _ _ F).
  unfold r'; rewrite (push_begin_tail r W), Gt in *; split.
  - split; cbn; auto.
    + rewrite <- Gt, <- (push_begin_tail r W); now apply write_slot_wf.
    + intros k Hk; rewrite list_lookup_total_insert_ne; [now apply Gs|].
      pose proof (mod_range k n); pose proof (mod_ne (Z.of_nat (length acc)) k n); lia.
  - apply list_lookup_total_insert_eq; lia.
Qed.

Lemma geo_full n r acc h : geo n r acc h ->
  _head r = _tail r <-> Z.of_nat (length acc) = h + n - 1.
Proof.
  intros [W C L Gh Gt Gs]; pose proof (rf_n _ _ (facts_of _ _ W C)); rewrite Gh, Gt; split.
  - intros E; destruct (Z.eq_dec (Z.of_nat (length acc)) (h + n - 1)); [done|].
    symmetry in E; apply mod_ne in E; lia.
  - intros ->; replace (h + n - 1) with (h - 1 + 1 * n) by lia; now rewrite Z_mod_plus_full.
Qed.

Lemma geo_push n r acc h x : geo n r acc h -> Z.of_nat (length acc) < h + n - 1 ->
  _recs r !!! Z.to_nat (Z.of_nat (length acc) mod n) = Some x ->
  geo n (commit_tail r (Z.land (_tail r +u32 1) (_capacity r))) (acc ++ [x]) h.
Proof.
  intros [W C L Gh Gt Gs] Hr Hx; pose proof (facts_of _ _ W C) as F; pose proof (rf_n _ _ F).
  rewrite (rf_mask _ _ F); split; cbn [_capacity _head _tail _recs commit_tail set_tail set_counters]; auto.
  - apply (ring_wf_config r); cbn; [done | repeat split | apply W |].
    pose proof (mod_range (_tail r + 1) n); lia.
  - rewrite length_app; cbn; lia.
  - rewrite Gt, length_app, mod_mod_add; f_equal; cbn; lia.
  - rewrite length_app; cbn; intros k Hk.
    destruct (Z.eq_dec k (Z.of_nat (length acc))) as [->|].
    + now rewrite Hx, Nat2Z.id, lookup_app_r, Nat.sub_diag by lia.
    + rewrite lookup_app_l by lia; apply Gs; lia.
Qed.

Lemma geo_commit n r acc h h' : geo n r acc h -> h <= h' <= Z.of_nat (length acc) ->
  geo n (commit_head r ((h' - 1) mod n)) acc h'.
Proof.
  intros [W C L Gh Gt Gs] Hh; pose proof (facts_of _ _ W C) as F; pose proof (rf_n _ _ F).
  split; cbn; auto; try lia.
  - apply (ring_wf_config r); cbn; [done | repeat split | | apply W].
    pose proof (mod_range (h' - 1) n); lia.
  - intros; apply Gs; lia.
Qed.

(** ** The two sides *)

Definition w_ok (n : Z) (r : cring) (acc : list tagged) (h : Z) (w : wpc) : Prop :=
  match w with
  | WIdle | WFill _ => True
  | WTest x t | WFull x t | WWait x t =>
      t = _tail r /\ _recs r !!! Z.to_nat (Z.of_nat (length acc) mod n) = Some x
  | WCommit x t =>
      t = _tail r /\ _recs r !!! Z.to_nat (Z.of_nat (length acc) mod n) = Some x /\
      Z.of_nat (length acc) < h + n - 1
  end.

(** An iterator that has walked [c] records past the head. *)
Definition it_ok (n : Z) (acc : list tagged) (h : Z) (c : nat) (it : pop_iterator)
    (seen : list (Z * option tagged)) : Prop :=
  it_head it = (h + Z.of_nat c - 1) mod n /\
  (exists t, it_tail it = t mod n /\ h + Z.of_nat c <= t <= Z.of_nat (length acc)) /\
  seen = map (fun k => (k mod n, acc !! Z.to_nat k)) (seqZ h (Z.of_nat (length seen))).

Definition r_ok (n : Z) (acc : list tagged) (h : Z) (rp : rpc) : Prop :=
  match rp with
  | RIdle | RUnblock | RSignal => True
  | RIter it seen => it_ok n acc h (length seen) it seen
  | RRead p it seen =>
      p = (h + Z.of_nat (length seen)) mod n /\ it_ok n acc h (S (length seen)) it seen
  end.

Lemma it_ok_app n acc h c it seen x : 0 <= h -> (length seen <= c)%nat ->
  it_ok n acc h c it seen -> it_ok n (acc ++ [x]) h c it seen.
Proof.
  intros Hh Hc (E & (t & Et & Ht) & S); split; [done|]; split.
  - exists t; rewrite length_app; cbn; split; [done | lia].
  - rewrite S at 1; apply map_ext_in; intros k Hk.
    apply list_elem_of_In, elem_of_seqZ in Hk; rewrite lookup_app_l by lia; done.
Qed.

Lemma r_ok_app n acc h rp x : 0 <= h -> r_ok n acc h rp -> r_ok n (acc ++ [x]) h rp.
Proof.
  intros Hh; destruct rp as [|it seen|p it seen| |]; cbn; try done.
  - apply it_ok_app; lia.
  - intros [-> I]; split; [done|]; apply it_ok_app; auto; lia.
Qed.

(** The engine's next step, in terms of positions. *)
Lemma it_ok_next n r acc h c it seen : geo n r acc h -> it_ok n acc h c it seen ->
  match it_next r it with
  | None => True
  | Some (p, it') => p = (h + Z.of_nat c) mod n /\ h + Z.of_nat c < Z.of_nat (length acc) /\
                     it_ok n acc h (S c) it' seen
  end.
Proof.
  intros [W C L _ _ _] (E & (t & Et & Ht) & S0); pose proof (facts_of _ _ W C) as F.
  pose proof (rf_n _ _ F).
  unfold it_next; rewrite (rf_mask _ _ F), E, mod_mod_add, Et.
  replace (h + Z.of_nat c - 1 + 1) with (h + Z.of_nat c) by lia.
  destruct (Z.eqb_spec ((h + Z.of_nat c) mod n) (t mod n)) as [|N]; [done|].
  assert (t <> h + Z.of_nat c) by congruence.
  rewrite (rf_rec _ _ F) by (apply mod_range; lia).
  split; [done|]; split; [lia|]; split; cbn; [f_equal; lia|]; split; [|done].
  exists t; split; [done|lia].
Qed.

(** The record the engine is reading is an accepted one, complete. *)
Lemma it_ok_read n r acc h p it seen : geo n r acc h -> r_ok n acc h (RRead p it seen) ->
  it_ok n acc h (S (length seen)) it (seen ++ [(p, _recs r !!! Z.to_nat p)]).
Proof.
  intros [W C L _ _ Gs] (-> & E & (t & Et & Ht) & S0).
  split; [done|]; split; [now exists t|].
  rewrite Gs by lia; rewrite length_app; cbn [length]; rewrite Nat2Z.inj_add, seqZ_app by lia.
  rewrite map_app, <- S0; done.
Qed.

Lemma it_ok_values n acc h c it seen : (length seen <= c)%nat -> 0 <= h -> it_ok n acc h c it seen ->
  map snd seen = map Some (take (length seen) (drop (Z.to_nat h) acc)).
Proof.
  intros Hc Hh (_ & (t & _ & Ht) & S0); rewrite S0 at 1; rewrite map_map; cbn.
  apply list_eq_Forall2, Forall2_same_length_lookup; split.
  - rewrite !length_map, length_seqZ, length_take, length_drop; lia.
  - intros i x y Hx Hy; rewrite list_lookup_fmap in Hx; rewrite list_lookup_fmap in Hy.
    apply fmap_Some in Hx as (k & Hk & ->); apply fmap_Some in Hy as (z & Hz & ->).
    apply lookup_seqZ in Hk as [-> Hi].
    rewrite lookup_take_lt in Hz by lia; rewrite lookup_drop in Hz; rewrite <- Hz; f_equal; lia.
Qed.

(** ** The invariant *)

(** The record a writer is working on. *)
Definition busy (w : wpc) : list tagged :=
  match w with
  | WIdle => []
  | WFill x | WTest x _ | WCommit x _ | WFull x _ | WWait x _ => [x]
  end.

(** Everything that got a sequence number, in order. *)
Definition numbered (s : conc) : list tagged := map fst (c_log s) ++ busy (c_w s).

Definition consumed (s : conc) : Z := Z.of_nat (length (c_out s)).

Record inv (n : Z) (s : conc) : Prop := {
  i_geo : geo n (c_ring s) (accepted s) (consumed s);
  i_w : w_ok n (c_ring s) (accepted s) (consumed s) (c_w s);
  i_r : r_ok n (accepted s) (consumed s) (c_r s);
  i_out : c_out s = map Some (take (length (c_out s)) (accepted s));
  i_drop : _dropcnt (c_ring s) = u64 (Z.of_nat (length (dropped s)));
  i_seq : _seqnum (c_ring s) = u64 (Z.of_nat (length (numbered s)));
  i_seqs : map cr_seq (numbered s) = map u64 (seqZ 0 (Z.of_nat (length (numbered s)))) }.

Arguments outcome : simpl never.

Lemma outcome_app b log x b' :
  outcome b (log ++ [(x, b')]) = outcome b log ++ (if Bool.eqb b' b then [x] else []).
Proof.
  unfold outcome; rewrite filter_app, map_app; f_equal.
  rewrite filter_cons; cbn; destruct b, b'; reflexivity.
Qed.

Lemma w_ok_write n r acc h x : geo n r acc h ->
  let r' := write_slot r (push_begin r) (Some x) in w_ok n r' acc h (WTest x (_tail r)).
Proof. intros G r'; split; [done|]; apply (geo_write _ _ _ _ (Some x) G). Qed.

Lemma inv_init r todo : ring_wf r -> inv (_capacity r + 1) (start (ring_reset r) todo).
Proof.
  intros W; destruct (reset_wf r W) as [W' _].
  pose proof (facts_of r (_capacity r + 1) W) as F; rewrite Z.add_simpl_r in F; specialize (F eq_refl).
  pose proof (rf_n _ _ F).
  split; try done; split; change (accepted _) with (@nil tagged); unfold consumed; cbn; try done; try lia.
  rewrite <- (Z_mod_plus_full (-1) 1), Z.mod_small; lia.
Qed.

Lemma inv_wstep n s s' : wstep s s' -> inv n s -> inv n s'.
Proof.
  intros Step [G W Rk O D Sq Sqs].
  destruct Step as [r rp todo log out i x rest E|r rp todo log out x|r rp todo log out x t Ht
    |r rp todo log out x t Ht B|r rp todo log out x t Ht B|r rp todo log out x t|r rp todo log out x t];
  unfold accepted, dropped, consumed, numbered in *; cbn in *; 
  try match type of W with _ /\ _ => destruct W as [W0 W]; subst t end.
  - assert (G' : geo n (snd (inc_seqnum r)) (outcome true log) (Z.of_nat (length out)))
      by (apply (geo_ext n r); done).
    split; unfold consumed, accepted, dropped, numbered; cbn in *; rewrite ?app_nil_r in *; try done.
    + apply (geo_write _ _ _ _ None G').
    + rewrite Sq, length_app, u64_succ; f_equal; cbn; lia.
    + rewrite length_app; cbn; rewrite Nat2Z.inj_add, seqZ_app, !map_app, Sqs, Sq by lia; done.
  - split; auto; cbn; [apply (geo_write _ _ _ _ (Some x) G) | eapply w_ok_write; eauto].
  - split; auto; unfold accepted, consumed; cbn; do 2 (split; [done|]).
    destruct (geo_full _ _ _ _ G) as [_ Full]; destruct (g_len _ _ _ _ G).
    destruct (Z.eq_dec (Z.of_nat (length (outcome true log))) (Z.of_nat (length out) + n - 1));
      [tauto | lia].
  - split; cbn; unfold accepted, dropped, consumed, numbered; cbn;
      rewrite ?outcome_app; cbn; rewrite ?app_nil_r; auto.
    + apply (geo_ext n r); done.
    + rewrite D, length_app, u64_succ; f_equal; cbn; lia.
    + now rewrite map_app.
    + now rewrite map_app.
  - split; auto; cbn; done.
  - split; auto; cbn; try done; apply (geo_ext n r); done.
  - destruct W as [W Room]; split; cbn; unfold accepted, dropped, consumed, numbered; cbn;
      rewrite ?outcome_app; cbn; rewrite ?app_nil_r; auto.
    + now apply geo_push.
    + destruct (g_len _ _ _ _ G); apply r_ok_app; [lia|done].
    + destruct (g_len _ _ _ _ G); rewrite take_app_le by lia; done.
    + now rewrite map_app.
    + now rewrite map_app.
Qed.

Lemma inv_spurious n s s' : wspurious s s' -> inv n s -> inv n s'.
Proof. intros [] []; split; auto. Qed.

(** The engine consumes the first [c] records it has seen. *)
Lemma inv_consume n r w todo log out it seen (c : nat) :
  inv n (mkConc r w (RIter it seen) todo log out) -> (c <= length seen)%nat ->
  inv n (mkConc (commit_head r ((Z.of_nat (length out) + Z.of_nat c - 1) mod n)) w RUnblock todo log
           (out ++ map snd (take c seen))).
Proof.
  intros [G W I O D Sq Sqs] Hc.
  unfold accepted, dropped, consumed, numbered in *; cbn in *.
  pose proof I as (_ & (t & _ & Ht) & _); destruct (g_len _ _ _ _ G) as [L _].
  pose proof (it_ok_values _ _ _ _ _ _ (le_n _) (proj1 L) I) as V; rewrite Nat2Z.id in V.
  assert (Lc : length (map snd (take c seen)) = c) by (rewrite length_map, length_take; lia).
  split; auto; cbn; unfold accepted, consumed, numbered; cbn; rewrite ?length_app, ?Lc, ?Nat2Z.inj_add; auto.
  - apply (geo_commit _ _ _ (Z.of_nat (length out))); [done|lia].
  - destruct w; cbn in *; try done.
    destruct W as (? & ? & ?); repeat split; auto; lia.
  - rewrite <- firstn_map, V, firstn_map, take_take, Nat.min_l by lia.
    rewrite O at 1; rewrite <- map_app; f_equal; apply take_take_drop.
Qed.

Lemma inv_rstep tso n s s' : rstep tso s s' -> inv n s -> inv n s'.
Proof.
  intros Step I.
  destruct Step as [r w todo log out|r w todo log out it seen p it' E|r w todo log out p it seen
    |r w todo log out it seen Ht E|r w todo log out it seen Ht E|r w todo log out it seen j p v Ht E Hj
    |r w todo log out Hb|r w todo log out Hb|r w todo log out].
  - destruct I as [G W Rk O D Sq Sqs]; split; auto; cbn.
    pose proof G as [_ _ L Gh Gt _]; unfold consumed in *; cbn in Gh, Gt; split; cbn; [rewrite Gh; f_equal; lia|].
    split; [|done]; eexists; split; [apply Gt|]; unfold consumed, accepted in *; cbn in *; lia.
  - destruct I as [G W Rk O D Sq Sqs]; split; auto; cbn in *.
    pose proof (it_ok_next _ _ _ _ _ _ _ G Rk) as N; rewrite E in N; destruct N as (-> & _ & N).
    split; done.
  - destruct I as [G W Rk O D Sq Sqs]; split; auto; cbn in *.
    rewrite length_app, Nat.add_comm; apply (it_ok_read _ _ _ _ _ _ _ G Rk).
  - pose proof I as [_ _ (Eh & _) _ _ _ _]; cbn in Eh.
    pose proof (inv_consume n r w todo log out it seen (length seen) I (le_n _)) as C.
    rewrite firstn_all in C; unfold it_commit; rewrite Eh; exact C.
  - destruct I as [G W Rk O D Sq Sqs]; split; auto; done.
  - pose proof I as [G _ (_ & (t & _ & Ht') & S0) _ _ _ _]; cbn in *.
    pose proof (lookup_lt_Some _ _ _ Hj) as Hl.
    pose proof (inv_consume n r w todo log out it seen (S j) I ltac:(lia)) as C.
    assert (P : p = (Z.of_nat (length out) + Z.of_nat (S j) - 1) mod n).
    { rewrite S0 in Hj; rewrite list_lookup_fmap in Hj; apply fmap_Some in Hj as (k & Hk & E').
      apply lookup_seqZ in Hk as [-> _]; injection E' as -> _; unfold consumed; cbn; f_equal; lia. }
    unfold it_commit, it_rewind, get_index; cbn [it_head].
    rewrite u32_small; [rewrite P at 1; exact C|].
    pose proof (rf_n _ _ (facts_of _ _ (g_wf _ _ _ _ G) (g_cap _ _ _ _ G))).
    pose proof (mod_range (Z.of_nat (length out) + Z.of_nat (S j) - 1) n); words; lia.
  - destruct I as [G W Rk O D Sq Sqs]; split; auto; done.
  - destruct I as [G W Rk O D Sq Sqs]; split; auto; done.
  - destruct I as [G W Rk O D Sq Sqs]; split; auto; cbn.
    + apply (geo_ext n r); done.
    + destruct w; done.
    + cbn in Sq; rewrite Sq; unfold numbered; destruct w; done.
    + unfold numbered in *; destruct w; done.
Qed.

Lemma inv_reach tso n s0 s : reach tso s0 s -> inv n s0 -> inv n s.
Proof.
  induction 1 as [|s s' R IH [S|[S|S]]]; intros I; [done| | |].
  - eapply inv_wstep; eauto.
  - eapply inv_spurious; eauto.
  - eapply inv_rstep; eauto.
Qed.

Lemma geo_contents n r acc h : geo n r acc h -> contents r = map Some (drop (Z.to_nat h) acc).
Proof.
  intros [W C L Gh Gt Gs]; pose proof (facts_of _ _ W C) as F; pose proof (rf_n _ _ F).
  assert (Sz : size r = Z.of_nat (length acc) - h).
  { apply (size_unique _ _ _ F); [lia|]; rewrite Gh, Gt.
    rewrite <- (Z.add_assoc _ 1), mod_mod_add; f_equal; lia. }
  unfold contents, slots; rewrite Sz, (rf_cap _ _ F).
  apply list_eq_Forall2, Forall2_same_length_lookup; split.
  - rewrite !length_map, length_seqZ, length_drop; lia.
  - intros i x y Hx Hy; rewrite list_lookup_fmap in Hx; rewrite list_lookup_fmap in Hy.
    apply fmap_Some in Hx as (k & Hk & ->); apply fmap_Some in Hy as (z & Hz & ->).
    apply lookup_seqZ in Hk as [-> Hi]; rewrite lookup_drop in Hz.
    rewrite <- (Z.add_assoc _ 1), Gh, mod_mod_add.
    replace (h - 1 + (1 + (0 + Z.of_nat i))) with (h + Z.of_nat i) by lia.
    rewrite Gs, <- Hz by lia; f_equal; lia.
Qed.

(** ** Each thread's records *)

Definition of_thread (i : nat) (l : list tagged) : list A :=
  map cr_data (filter (fun x => cr_thread x = i) l).

Lemma of_thread_app i l x :
  of_thread i (l ++ [x]) = of_thread i l ++ (if decide (cr_thread x = i) then [cr_data x] else []).
Proof.
  unfold of_thread; rewrite filter_app, map_app; f_equal.
  rewrite filter_cons; case_decide; reflexivity.
Qed.

(** A step numbers at most one record, the next one of its thread. *)
Lemma numbered_step tso s s' : cstep tso s s' ->
  (numbered s' = numbered s /\ c_todo s' = c_todo s) \/
  exists i x rest, c_todo s !! i = Some (cr_data x :: rest) /\ cr_thread x = i /\
    numbered s' = numbered s ++ [x] /\ c_todo s' = <[i := rest]> (c_todo s).
Proof.
  intros [St|[St|St]].
  - destruct St; unfold numbered; cbn; rewrite ?app_nil_r, ?map_app; try (left; split; reflexivity).
    right; exists i, (mkCrec i (_seqnum r) x), rest; auto.
  - destruct St; now left.
  - destruct St; try now left.
    left; split; [|done]; unfold numbered; cbn; destruct w; done.
Qed.

Lemma threads_reach tso s0 s i l : reach tso s0 s -> numbered s0 = [] -> c_todo s0 !! i = Some l ->
  exists rest, c_todo s !! i = Some rest /\ l = of_thread i (numbered s) ++ rest.
Proof.
  intros R N0 L; induction R as [|s s' R IH St]; [exists l; now rewrite N0|].
  destruct IH as (rest & T & E).
  destruct (numbered_step _ _ _ St) as [[-> ->]|(j & x & rest' & T' & <- & -> & ->)]; [eauto|].
  rewrite of_thread_app; case_decide as D.
  - subst i; rewrite T in T'; injection T' as ->; exists rest'; split.
    + apply list_lookup_insert_eq, (lookup_lt_Some _ _ _ T).
    + now rewrite <- app_assoc.
  - exists rest; rewrite app_nil_r, list_lookup_insert_ne; auto.
Qed.

(** ** Running a schedule *)

(** The next step of the current writer, or the first one of thread [i]. *)
Definition wexec (i : nat) (s : conc) : option conc :=
  let '(mkConc r w rp todo log out) := s in
  match w with
  | WIdle =>
      match todo !! i with
      | Some (x :: rest) =>
          Some (mkConc (write_slot (snd (inc_seqnum r)) (push_begin r) None)
                  (WFill (mkCrec i (fst (inc_seqnum r)) x)) rp (<[i := rest]> todo) log out)
      | _ => None
      end
  | WFill x =>
      Some (mkConc (write_slot r (push_begin r) (Some x)) (WTest x (_tail r)) rp todo log out)
  | WTest x t =>
      if decide (_head r = t)
      then if blocking r then Some (mkConc r (WFull x t) rp todo log out)
           else Some (mkConc (inc_dropcnt r) WIdle rp todo (log ++ [(x, false)]) out)
      else Some (mkConc r (WCommit x t) rp todo log out)
  | WFull x t => Some (mkConc (set_block_active r true) (WWait x t) rp todo log out)
  | WCommit x t =>
      Some (mkConc (commit_tail r (Z.land (t +u32 1) (_capacity r))) WIdle rp todo
              (log ++ [(x, true)]) out)
  | WWait _ _ => None
  end.

Lemma wexec_sound i s s' : wexec i s = Some s' -> wstep s s'.
Proof.
  destruct s as [r w rp todo log out]; destruct w; cbn;
    repeat (case_match; try done); intros [= <-]; econstructor; eauto.
Qed.

(** The next step of the engine, flushing [j] records of those it saw. *)
Definition rexec (tso : bool) (j : nat) (s : conc) : option conc :=
  let '(mkConc r w rp todo log out) := s in
  match rp with
  | RIdle => Some (mkConc r w (RIter (it_reset r) []) todo log out)
  | RIter it seen =>
      match it_next r it with
      | Some (p, it') => Some (mkConc r w (RRead p it' seen) todo log out)
      | None =>
          if tso then
            match j with
            | O => Some (mkConc r w RIdle todo log out)
            | S j' =>
                match seen !! j' with
                | Some (p, v) => Some (mkConc (it_commit r (it_rewind r it p)) w RUnblock todo log
                                        (out ++ map snd (take j seen)))
                | None => None
                end
            end
          else Some (mkConc (it_commit r it) w RUnblock todo log (out ++ map snd seen))
      end
  | RRead p it seen =>
      Some (mkConc r w (RIter it (seen ++ [(p, _recs r !!! Z.to_nat p)])) todo log out)
  | RUnblock =>
      Some (mkConc r w (if _block_active r then RSignal else RIdle) todo log out)
  | RSignal => Some (mkConc (set_block_active r false) (wake w) RIdle todo log out)
  end.

Lemma rexec_sound tso j s s' : rexec tso j s = Some s' -> rstep tso s s'.
Proof.
  destruct s as [r w rp todo log out]; destruct rp; cbn;
    repeat (case_match; subst; try done); intros [= <-]; econstructor; eauto.
Qed.

(** A schedule: steps of writers and of the engine. *)
Inductive choice := Wr (i : nat) | Rd (j : nat).

Fixpoint cexec (tso : bool) (cs : list choice) (s : conc) : option conc :=
  match cs with
  | [] => Some s
  | c :: cs =>
      match (match c with Wr i => wexec i s | Rd j => rexec tso j s end) with
      | Some s => cexec tso cs s
      | None => None
      end
  end.

Lemma reach_trans tso s0 s1 s2 : reach tso s0 s1 -> reach tso s1 s2 -> reach tso s0 s2.
Proof. intros R; induction 1; eauto using reach_step. Qed.

Lemma cexec_sound tso cs s s' : cexec tso cs s = Some s' -> reach tso s s'.
Proof.
  revert s; induction cs as [|c cs IH]; cbn; intros s; [intros [= <-]; apply reach_refl|].
  destruct c as [i|j].
  - destruct (wexec i s) as [s1|] eqn:E; [|done]; intros H.
    apply (reach_trans _ _ s1); [|auto].
    eapply reach_step; [apply reach_refl|]; left; eapply wexec_sound, E.
  - destruct (rexec tso j s) as [s1|] eqn:E; [|done]; intros H.
    apply (reach_trans _ _ s1); [|auto].
    eapply reach_step; [apply reach_refl|]; right; right; eapply rexec_sound, E.
Qed.
End RingConc.

Section RingConcProps.
Context {A : Type}.
Implicit Types (r : ringbuf (option (crec A))) (s : conc (A := A)).

(** C4: Whatever the interleaving of the writers of a ring with the engine,
    in both modes of the engine and with spurious wake-ups: the engine consumes
    exactly a prefix of the records that were accepted, complete and in
    order, the ring holds the others, never more than one less than its
    slots, the drop counter counts the records that were refused, and sequence
    numbers are handed out without a gap. *)
Theorem conc_fifo tso r todo s : ring_wf r -> reach tso (start (ring_reset r) todo) s ->
  exists n : nat,
    c_out s = map Some (take n (accepted s)) /\
    contents (c_ring s) = map Some (drop n (accepted s)) /\
    Z.of_nat (length (drop n (accepted s))) <= _capacity r /\
    _dropcnt (c_ring s) = u64 (Z.of_nat (length (dropped s))) /\
    map cr_seq (numbered s) = map u64 (seqZ 0 (Z.of_nat (length (numbered s)))).
Proof.
  intros W R; destruct (inv_reach _ _ _ _ R (inv_init r todo W)) as [G _ _ O D _ Sq].
  exists (length (c_out s)); split; [done|].
  rewrite (geo_contents _ _ _ _ G); unfold consumed in *; rewrite Nat2Z.id; split; [done|].
  split; [|done]; rewrite length_drop; destruct (g_len _ _ _ _ G); lia.
Qed.

(** C6: While the engine reads a slot no writer is filling it: the slot holds
    a complete accepted record, the oldest one not yet seen, and it is not the
    slot handed out by [push_begin]. *)
Theorem conc_no_torn_read tso r todo s p it seen :
  ring_wf r -> reach tso (start (ring_reset r) todo) s -> c_r s = RRead p it seen ->
  p <> push_begin (c_ring s) /\
  exists x, accepted s !! (length (c_out s) + length seen)%nat = Some x /\
            _recs (c_ring s) !!! Z.to_nat p = Some x.
Proof.
  intros W R E; destruct (inv_reach _ _ _ _ R (inv_init r todo W)) as [G _ Rk _ _ _ _].
  rewrite E in Rk; destruct Rk as (-> & _ & (t & _ & Ht) & _); unfold consumed in *.
  pose proof G as [Wr C L Gh Gt Gs]; pose proof (facts_of _ _ Wr C) as F; pose proof (rf_n _ _ F).
  split.
  - rewrite (push_begin_tail _ Wr), Gt; apply not_eq_sym, mod_ne; lia.
  - rewrite Gs by lia.
    replace (Z.to_nat (Z.of_nat (length (c_out s)) + Z.of_nat (length seen)))
      with (length (c_out s) + length seen)%nat by lia.
    destruct (accepted s !! (length (c_out s) + length seen)%nat) as [x|] eqn:X; [eauto|].
    apply lookup_ge_None in X; lia.
Qed.

(** Every record a thread posts gets exactly one sequence number, in the
    order the thread posts them, and is accepted or refused, whatever the other
    threads and the engine do; nothing else is ever in the ring. *)
Theorem conc_threads tso r todo s i l :
  ring_wf r -> reach tso (start (ring_reset r) todo) s -> todo !! i = Some l ->
  (exists rest, c_todo s !! i = Some rest /\ l = of_thread i (numbered s) ++ rest) /\
  (c_w s = WIdle -> numbered s = map fst (c_log s)).
Proof.
  intros W R L; split; [apply (threads_reach _ _ _ _ _ R); done|].
  intros E; unfold numbered; rewrite E; apply app_nil_r.
Qed.

(** A writer that sleeps on an empty ring while the engine is not in [unblock]. *)
Definition stranded s : Prop :=
  (exists x t, c_w s = WWait x t) /\
  it_next (c_ring s) (it_reset (c_ring s)) = None /\
  (c_r s = RIdle \/ c_r s = RIter (it_reset (c_ring s)) []).

Inductive calm_reach tso s0 : conc -> Prop :=
  | calm_refl : calm_reach tso s0 s0
  | calm_step s s' : calm_reach tso s0 s -> wstep s s' \/ rstep tso s s' -> calm_reach tso s0 s'.

Lemma stranded_forever s0 s : calm_reach true s0 s -> stranded s0 ->
  stranded s /\ c_w s = c_w s0 /\ c_ring s = c_ring s0 /\ c_out s = c_out s0.
Proof.
  induction 1 as [|s s' R IH St]; [done|]; intros S0.
  destruct (IH S0) as (((x & t & Ew) & En & Er) & <- & <- & <-); clear IH R.
  destruct St as [St|St]; [destruct St; discriminate|].
  destruct St; cbn in *; destruct Er as [Er|Er]; try discriminate;
    try (injection Er; intros; subst; congruence).
  - split; [split; [eauto|split; [done|now right]]|done].
  - split; [split; [eauto|split; [done|now left]]|done].
  - injection Er as -> ->; rewrite lookup_nil in *; discriminate.
Qed.
End RingConcProps.

(** A blocking ring of four slots and one thread with five records. *)
Definition cring4 (flags : Z) : ringbuf (option (crec Z)) :=
  mkRing "R" flags 0 8 224 3 0 false 0 0 0 0 3 [None; None; None; None].

Lemma cring4_wf flags : ring_wf (cring4 flags).
Proof. split; cbn; [exists 2; cbn; lia | lia | lia]. Qed.

Definition post_one : list choice := [Wr 0; Wr 0; Wr 0; Wr 0].
Definition read_all (n : nat) : list choice := Rd 0 :: replicate (2 * n) (Rd 0) ++ [Rd n].

(** Three records fill the ring, the fourth finds it full; the engine drains
    the ring before the writer announces that it sleeps. *)
Definition lost_wakeup_schedule : list choice :=
  post_one ++ post_one ++ post_one ++ [Wr 0; Wr 0; Wr 0] ++ read_all 3 ++ [Rd 0; Wr 0].

(** C38: With timestamp ordering a writer of a blocking ring can be stranded: a
    reachable state has it asleep on an empty ring, and from there no step of
    any thread ever wakes it, because it tested [_head] before taking the
    mutex and the engine signals only rings it has taken records from (only a
    spurious wake-up of the condition variable can help). *)
Theorem lost_wakeup :
  exists s, reach true (start (ring_reset (cring4 BLOCKING)) [[1; 2; 3; 4; 5]]) s /\
    contents (c_ring s) = [] /\
    (exists x t, c_w s = WWait x t /\ cr_data x = 4) /\
    forall s', calm_reach true s s' -> c_w s' = c_w s /\ c_out s' = c_out s.
Proof.
  pose proof (cexec_sound true lost_wakeup_schedule
    (start (ring_reset (cring4 BLOCKING)) [[1; 2; 3; 4; 5]])) as Sound.
  destruct (cexec true lost_wakeup_schedule _) as [s|] eqn:E; [|vm_compute in E; discriminate].
  specialize (Sound s eq_refl); vm_compute in E; injection E as E; exists s.
  split; [exact Sound|]; subst s; split; [reflexivity|].
  split; [do 2 eexists; split; reflexivity|].
  intros s' C; apply stranded_forever in C; [tauto|].
  split; [do 2 eexists; reflexivity | split; [reflexivity | now left]].
Qed.

Lemma conc_fifo_witness :
  exists s, reach false (start (ring_reset (cring4 0)) [[1; 2; 3; 4; 5]; [11]]) s /\
    c_out s = map Some [mkCrec 0 0 1; mkCrec 1 1 11; mkCrec 0 2 2] /\ _dropcnt (c_ring s) = 1 /\
    exists n : nat, c_out s = map Some (take n (accepted s)) /\
      contents (c_ring s) = map Some (drop n (accepted s)).
Proof.
  pose proof (cexec_sound false
    (post_one ++ replicate 4 (Wr 1) ++ post_one ++ post_one ++ read_all 3 ++ post_one)
    (start (ring_reset (cring4 0)) [[1; 2; 3; 4; 5]; [11]])) as Sound.
  destruct (cexec false _ _) as [s|] eqn:E; [|vm_compute in E; discriminate].
  specialize (Sound s eq_refl).
  destruct (conc_fifo _ _ _ _ (cring4_wf 0) Sound) as (n & H1 & H2 & _).
  vm_compute in E; injection E as E; exists s; split; [exact Sound|].
  split; [subst s; reflexivity|]; split; [subst s; reflexivity | eauto].
Defined.

Lemma conc_no_torn_read_witness :
  exists s p it seen, reach true (start (ring_reset (cring4 0)) [[1; 2; 3]]) s /\
    c_r s = RRead p it seen /\ (exists x, c_w s = WFill x) /\ p <> push_begin (c_ring s).
Proof.
  pose proof (cexec_sound true (post_one ++ [Rd 0; Rd 0; Wr 0])
    (start (ring_reset (cring4 0)) [[1; 2; 3]])) as Sound.
  destruct (cexec true _ _) as [s|] eqn:E; [|vm_compute in E; discriminate].
  specialize (Sound s eq_refl).
  pose proof (fun p it seen => conc_no_torn_read _ _ _ _ p it seen (cring4_wf 0) Sound) as T.
  vm_compute in E; injection E as E; subst s.
  do 4 eexists; split; [exact Sound|]; split; [reflexivity|]; split; [eexists; reflexivity|].
  eapply T; reflexivity.
Defined.

Lemma conc_threads_witness :
  exists s, reach true (start (ring_reset (cring4 0)) [[1; 2; 3]; [7]]) s /\
    exists rest, c_todo s !! 0%nat = Some rest /\ [1; 2; 3] = of_thread 0 (numbered s) ++ rest.
Proof.
  pose proof (cexec_sound true (post_one ++ [Wr 1; Wr 1; Rd 0])
    (start (ring_reset (cring4 0)) [[1; 2; 3]; [7]])) as Sound.
  destruct (cexec true _ _) as [s|] eqn:E; [|vm_compute in E; discriminate].
  specialize (Sound s eq_refl); exists s; split; [exact Sound|].
  exact (proj1 (conc_threads _ _ _ _ 0%nat [1; 2; 3] (cring4_wf 0) Sound eq_refl)).
Defined.

(** ** Without timestamp ordering a sleeping writer is woken *)
Section Wakeup.
Context {A : Type}.
Implicit Types (r : ringbuf (option (crec A))) (s : conc (A := A)).

Definition sleep_ok s : Prop :=
  match c_w s with WWait _ _ => _block_active (c_ring s) = true | _ => True end.

Lemma sleep_ok_reach tso s0 s : reach tso s0 s -> sleep_ok s0 -> sleep_ok s.
Proof.
  induction 1 as [|s s' R IH St]; [done|]; intros S0; specialize (IH S0); clear R.
  destruct St as [St|[St|St]]; destruct St; unfold sleep_ok in *; cbn in *; try done.
  destruct w; done.
Qed.

(** The engine drains the ring when no writer moves. *)
Lemma drain n (m : nat) s it seen : inv n s -> c_r s = RIter it seen ->
  it_tail it = _tail (c_ring s) ->
  Z.of_nat (length (accepted s)) = consumed s + Z.of_nat (length seen) + Z.of_nat m ->
  exists k s', cexec false (replicate k (Rd 0)) s = Some s' /\ c_r s' = RUnblock /\
    c_w s' = c_w s /\ _block_active (c_ring s') = _block_active (c_ring s) /\
    _tail (c_ring s') = _tail (c_ring s) /\
    consumed s' = Z.of_nat (length (accepted s')).
Proof.
  revert s it seen; induction m as [|m IH]; intros [r w rp todo log out] it seen I Er Et Em; cbn in Er; subst rp.
  - pose proof I as [G _ Rk _ _ _ _]; pose proof (it_ok_next _ _ _ _ _ _ _ G Rk) as N.
    exists 1%nat; cbn in *; destruct (it_next r it) as [[p it']|]; [lia|].
    eexists; split; [reflexivity|]; do 4 (split; [done|]); unfold consumed, accepted in *; cbn in *.
    rewrite length_app, length_map; lia.
  - pose proof I as [G _ Rk _ _ _ _]; cbn [c_ring c_r] in G, Rk.
    pose proof (it_ok_next _ _ _ _ _ _ _ G Rk) as N.
    pose proof G as [W C L Gh Gt Gs]; pose proof (facts_of _ _ W C) as F; pose proof (rf_n _ _ F).
    unfold consumed in *; cbn [c_ring c_out] in *; destruct (it_next r it) as [[p it']|] eqn:E.
    + set (s1 := mkConc r w (RIter it' (seen ++ [(p, _recs r !!! Z.to_nat p)])) todo log out).
      assert (R1 : cexec false [Rd 0; Rd 0] (mkConc r w (RIter it seen) todo log out) = Some s1)
        by (cbn; rewrite E; reflexivity).
      assert (I1 : inv n s1) by (eapply inv_reach; [eapply cexec_sound, R1 | exact I]).
      destruct (IH s1 it' (seen ++ [(p, _recs r !!! Z.to_nat p)]) I1 eq_refl) as (k & s' & X & Y).
      * unfold it_next in E; case_match; [done|]; injection E as _ <-; exact Et.
      * change (accepted s1) with (accepted (mkConc r w (RIter it seen) todo log out)).
        change (c_out s1) with out; rewrite length_app; cbn [length]; lia.
      * exists (2 + k)%nat, s'; split; [|exact Y]; cbn; rewrite E; exact X.
    + exfalso; destruct Rk as (Eh & _ & _); unfold it_next in E; cbn in E.
      destruct (Z.eqb_spec (Z.land (it_head it +u32 1) (_capacity r)) (it_tail it)) as [Q|]; [|done].
      rewrite (rf_mask _ _ F), Eh, mod_mod_add, Et, Gt in Q.
      symmetry in Q; apply mod_ne in Q; lia.
Qed.

(** C32: Without timestamp ordering every pass of the engine wakes a writer that
    sleeps on the ring: from any reachable state with a sleeping writer and the
    engine between two passes, finitely many engine steps leave the writer
    awake, about to test a ring that has room. *)
Theorem notso_wakes_writer r todo s x t :
  ring_wf r -> 0 < _capacity r -> reach false (start (ring_reset r) todo) s ->
  c_w s = WWait x t -> c_r s = RIdle ->
  exists k s', cexec false (replicate k (Rd 0)) s = Some s' /\
    c_w s' = WTest x t /\ contents (c_ring s') = [] /\ _head (c_ring s') <> t.
Proof.
  intros Wr Hc R Ew Er; pose proof (inv_reach _ _ _ _ R (inv_init r todo Wr)) as I.
  pose proof (sleep_ok_reach _ _ _ R Logic.I) as Sl; unfold sleep_ok in Sl; rewrite Ew in Sl.
  set (n := _capacity r + 1) in *.
  pose proof I as [G W _ _ _ _ _]; rewrite Ew in W; destruct W as [Et _].
  set (s1 := mkConc (c_ring s) (c_w s) (RIter (it_reset (c_ring s)) []) (c_todo s) (c_log s) (c_out s)).
  assert (R1 : rexec false 0 s = Some s1) by (destruct s; cbn in *; subst; reflexivity).
  assert (I1 : inv n s1) by (eapply inv_rstep; [eapply rexec_sound, R1|done]).
  pose proof (g_len _ _ _ _ G) as [L _].
  destruct (drain n (Z.to_nat (Z.of_nat (length (accepted s)) - consumed s)) s1 (it_reset (c_ring s)) []
    I1 eq_refl eq_refl) as (k & s2 & X & Er2 & Ew2 & Ea & Et2 & Em).
  { change (accepted s1) with (accepted s); change (consumed s1) with (consumed s); cbn; lia. }
  assert (Rt : reach false (start (ring_reset r) todo) s2).
  { eapply reach_trans; [|eapply cexec_sound, X].
    eapply reach_step; [exact R|]; right; right; eapply rexec_sound, R1. }
  pose proof (inv_reach _ _ _ _ Rt (inv_init r todo Wr)) as [G2 _ _ _ _ _ _].
  exists (S k + 2)%nat.
  exists (mkConc (set_block_active (c_ring s2) false) (wake (c_w s2)) RIdle (c_todo s2) (c_log s2) (c_out s2)).
  rewrite replicate_add; split.
  - assert (App : forall a b (z : conc (A := A)), cexec false (a ++ b) z =
      match cexec false a z with Some z' => cexec false b z' | None => None end).
    { clear; intros a b; induction a as [|[i|j] a IH]; intros z; cbn; [done| |];
        [destruct (wexec i z) | destruct (rexec false j z)]; auto. }
    rewrite App; cbn [replicate cexec]; rewrite R1, X.
    destruct s2 as [r2 w2 rp2 todo2 log2 out2]; cbn in *; subst rp2; cbn.
    rewrite Ea, Sl; reflexivity.
  - cbn [c_w c_ring]; rewrite Ew2; cbn; rewrite Ew; split; [done|].
    change (contents (set_block_active (c_ring s2) false)) with (contents (c_ring s2)); split.
    + rewrite (geo_contents _ _ _ _ G2), Em, Nat2Z.id, drop_all; done.
    + change (_tail (c_ring s1)) with (_tail (c_ring s)) in Et2; cbn; rewrite Et, <- Et2; intros Full; apply (geo_full _ _ _ _ G2) in Full; unfold n in *; lia.
Qed.

End Wakeup.

(** The schedule that strands a writer under timestamp ordering. *)
Lemma notso_wakes_writer_witness :
  exists s, reach false (start (ring_reset (cring4 BLOCKING)) [[1; 2; 3; 4; 5]]) s /\
    exists k s', cexec false (replicate k (Rd 0)) s = Some s' /\
      exists x t, c_w s = WWait x t /\ c_w s' = WTest x t /\ contents (c_ring s') = [].
Proof.
  pose proof (cexec_sound false (post_one ++ post_one ++ post_one ++ replicate 4 (Wr 0))
    (start (ring_reset (cring4 BLOCKING)) [[1; 2; 3; 4; 5]])) as Sound.
  destruct (cexec false _ _) as [s|] eqn:E; [|vm_compute in E; discriminate].
  specialize (Sound s eq_refl).
  pose proof (fun x t => notso_wakes_writer _ _ _ x t (cring4_wf BLOCKING) ltac:(cbn; lia) Sound) as T.
  exists s; split; [exact Sound|]; vm_compute in E; injection E as E; subst s.
  destruct (T _ _ eq_refl eq_refl) as (k & s' & X & Y & Z & _).
  exists k, s'; split; [exact X|]; do 2 eexists; split; [reflexivity|]; split; [exact Y | exact Z].
Defined.
