(* ===== verification/Area.v ===== *)
(** * Areas, their section bitmaps, and masks (detail/bitmap.hpp, area.hpp,
    mask.hpp, internal.hpp, src/area.cc, mask.cc, internal.cc)

    A bitmap is the array of 64-bit words of the source; [None] is an access
    outside the array.  The regular expressions of a mask are those of the C++
    library: a class gives their compilation and matching. *)

From Stdlib Require Import Ascii.
From S2P Require Import Prelude.

(** ** Bitmaps *)

Definition word_size : Z := 64.
Definition byte_size : Z := 8.

(* src: include/hogl/detail/bitmap.hpp 45-62 bitmap *)
Record bitmap := mkBitmap { bm_data : list Z; bm_size : Z }.

(* src: include/hogl/detail/bitmap.hpp 63-66 bitmap::nwords *)
Definition nwords (s : Z) : Z := (s +u32 word_size -u32 1) / word_size.
(* src: include/hogl/detail/bitmap.hpp 67-70 bitmap::nbytes *)
Definition nbytes (s : Z) : Z := (s +u32 byte_size -u32 1) / byte_size.
(* src: include/hogl/detail/bitmap.hpp 71-74 bitmap::which_word *)
Definition which_word (b : Z) : Z := b / word_size.
(* src: include/hogl/detail/bitmap.hpp 75-78 bitmap::which_bit *)
Definition which_bit (b : Z) : Z := Z.land b (word_size - 1).

(** [new word[n]] leaves the words as they were: [junk]. *)
(* src: include/hogl/detail/bitmap.hpp 81-86 bitmap::resize *)
Definition bm_resize (junk : Z -> Z) (size : Z) : bitmap :=
  mkBitmap (map (fun i => u64 (junk i)) (seqZ 0 (nwords size))) size.

(** The low [n] bytes of a word, all set or all cleared. *)
Definition fill_word (w n : Z) (v : bool) : Z :=
  if v then Z.lor w (Z.ones (8 * n)) else Z.ldiff w (Z.ones (8 * n)).

(** [memset] over the first [n] bytes of an array of words. *)
Fixpoint memset_words (l : list Z) (n : Z) (v : bool) : list Z :=
  match l with
  | [] => []
  | w :: l => fill_word w (Z.max 0 (Z.min 8 n)) v :: memset_words l (n - 8) v
  end.

(* src: include/hogl/detail/bitmap.hpp 88-91 bitmap::set *)
Definition bm_set_all (b : bitmap) : bitmap :=
  mkBitmap (memset_words (bm_data b) (nbytes (bm_size b)) true) (bm_size b).
(* src: include/hogl/detail/bitmap.hpp 106-109 bitmap::reset *)
Definition bm_reset_all (b : bitmap) : bitmap :=
  mkBitmap (memset_words (bm_data b) (nbytes (bm_size b)) false) (bm_size b).

(* src: include/hogl/detail/bitmap.hpp 93-99 bitmap::set(bit, val) *)
Definition bm_set (b : bitmap) (bit : Z) (val : bool) : option bitmap :=
  w ← bm_data b !! Z.to_nat (which_word bit);
  let m := Z.shiftl 1 (which_bit bit) in
  let w := if val then Z.lor w m else Z.land w (u64 (Z.lnot m)) in
  Some (mkBitmap (<[Z.to_nat (which_word bit) := w]> (bm_data b)) (bm_size b)).

(* src: include/hogl/detail/bitmap.hpp 101-104 bitmap::test *)
Definition bm_test (b : bitmap) (bit : Z) : option bool :=
  w ← bm_data b !! Z.to_nat (which_word bit);
  Some (negb (Z.land w (Z.shiftl 1 (which_bit bit)) =? 0)).

(* src: include/hogl/detail/bitmap.hpp 111-114 bitmap::reset(bit) *)
Definition bm_reset (b : bitmap) (bit : Z) : option bitmap := bm_set b bit false.

(* src: include/hogl/detail/bitmap.hpp 118-122 bitmap::bitmap *)
Definition bitmap_new (junk : Z -> Z) (size : Z) : bitmap := bm_reset_all (bm_resize junk size).

(** ** Areas *)

(* src: include/hogl/detail/area.hpp 53-71 area *)
Record area := mkArea { a_name : string; a_section : list string; a_bitmap : bitmap }.

(* src: src/area.cc 49-51 default_section_names *)
Definition default_section_names : list string :=
  ["INFO"; "WARN"; "ERROR"; "FATAL"; "DEBUG"; "TRACE"]%string.

(* src: include/hogl/detail/area.hpp 73-83 area::default_section_ids *)
Inductive default_section_ids := INFO | WARN | ERROR | FATAL | DEBUG | TRACE.

(** The sections of a user area are a null terminated array, given as a list. *)
(* src: src/area.cc 53-74 area::area *)
Definition area_new (junk : Z -> Z) (name : string) (section : option (list string)) : area :=
  let names := match section with Some l => l | None => default_section_names end in
  mkArea name names (bm_reset_all (bm_resize junk (Z.of_nat (length names)))).

(* src: include/hogl/detail/area.hpp 87-97 area::section_name *)
Definition section_name (a : area) (i : Z) : string :=
  if bm_size (a_bitmap a) <=? i then "INVALID"%string
  else match a_section a !! Z.to_nat i with Some s => s | None => "INVALID"%string end.

(* src: include/hogl/detail/area.hpp 99-109 area::count, size *)
Definition area_count (a : area) : Z := bm_size (a_bitmap a).

(* src: include/hogl/detail/area.hpp 111-119 area::test *)
Definition area_test (a : area) (s : Z) : option bool := bm_test (a_bitmap a) s.

Definition with_bitmap (a : area) (b : bitmap) : area := mkArea (a_name a) (a_section a) b.

(* src: include/hogl/detail/area.hpp 131-138 area::set(s, v) *)
Definition area_set (a : area) (s : Z) (v : bool) : option area :=
  b ← bm_set (a_bitmap a) s v; Some (with_bitmap a b).
(* src: include/hogl/detail/area.hpp 154-161 area::enable(s, v) *)
Definition area_enable (a : area) (s : Z) (v : bool) : option area := area_set a s v.
(* src: include/hogl/detail/area.hpp 168-175 area::disable(s) *)
Definition area_disable (a : area) (s : Z) : option area := area_set a s false.
(* src: include/hogl/detail/area.hpp 121-129 area::set, reset *)
Definition area_set_all (a : area) (v : bool) : area :=
  with_bitmap a ((if v then bm_set_all else bm_reset_all) (a_bitmap a)).

(** The loop over the sections. *)
Fixpoint same_sections (n : nat) (l1 l2 : list string) : bool :=
  match n with
  | O => true
  | S n =>
      match l1, l2 with
      | s1 :: l1, s2 :: l2 => if String.eqb s1 s2 then same_sections n l1 l2 else false
      | _, _ => false
      end
  end.

(* src: src/area.cc 90-103 area::operator== *)
Definition area_eq (a b : area) : bool :=
  if negb (String.eqb (a_name a) (a_name b)) then false
  else if negb (area_count a =? area_count b) then false
  else same_sections (Z.to_nat (area_count a)) (a_section a) (a_section b).

(* src: src/internal.cc 33-46 internal::section_names *)
Definition internal_section_names : list string :=
  ["INFO"; "WARN"; "ERROR"; "DROPMARK"; "TSOFULLMARK";
   "ENGINE:DEBUG"; "AREA:DEBUG"; "RING:DEBUG"; "TLS:DEBUG"]%string.

(* src: include/hogl/detail/internal.hpp 44-57 internal::section_ids *)
Inductive internal_section :=
  | I_INFO | I_WARN | I_ERROR | I_DROPMARK | I_TSOFULLMARK
  | I_ENGINE_DEBUG | I_AREA_DEBUG | I_RING_DEBUG | I_TLS_DEBUG.

Definition internal_id (s : internal_section) : Z :=
  match s with
  | I_INFO => 0 | I_WARN => 1 | I_ERROR => 2 | I_DROPMARK => 3 | I_TSOFULLMARK => 4
  | I_ENGINE_DEBUG => 5 | I_AREA_DEBUG => 6 | I_RING_DEBUG => 7 | I_TLS_DEBUG => 8
  end.

(** ** Masks *)

(** POSIX extended regular expressions of the C++ library: [regex_compile]
    fails where the library throws.  [".*"] matches everything. *)
Class Regex := {
  regex : Type;
  regex_compile : string -> option regex;
  regex_match : string -> regex -> bool;
  regex_any : exists re, regex_compile ".*" = Some re /\ forall s, regex_match s re = true }.

Section Mask.
Context `{Regex}.

(* src: src/mask.cc 49-57 mask::data *)
Record mask_data := mkMaskData { md_str : string; md_area : regex; md_sect : regex; md_on : bool }.

Abbreviation mask := (list mask_data).

(** [str[0]] of an empty [std::string] is the null character. *)
Definition string_head (s : string) : Ascii.ascii :=
  match s with EmptyString => Ascii.zero | String c _ => c end.

Definition string_tail_from (s : string) (n : nat) : string :=
  String.substring n (String.length s - n) s.

(** The two expressions and the sign of a mask string. *)
Definition mask_parse (str : string) : string * string * bool :=
  let on := negb (Ascii.eqb (string_head str) "!"%char) in
  let abeg := if on then 0%nat else 1%nat in
  let '(areg, sreg) :=
    match String.index abeg ":" str with
    | None => (".*"%string, string_tail_from str abeg)
    | Some aend => (String.substring abeg (aend - abeg) str, string_tail_from str (aend + 1))
    end in
  let any s := if String.eqb s "" then ".*"%string else s in
  (any areg, any sreg, on).

(* src: src/mask.cc 64-86 mask::add *)
Definition mask_add (m : mask) (str : string) : option mask :=
  let '(areg, sreg, on) := mask_parse str in
  ra ← regex_compile areg;
  rs ← regex_compile sreg;
  Some (m ++ [mkMaskData str ra rs on]).

(* src: src/mask.cc 59-62 mask::clear *)
Definition mask_clear (m : mask) : mask := [].

(* src: src/mask.cc 88-96 __apply *)
Fixpoint apply_loop (fuel : nat) (i : Z) (re : regex) (on : bool) (a : area) : option area :=
  match fuel with
  | O => Some a
  | S fuel =>
      if i <? area_count a then
        a ← (if regex_match (section_name a i) re then area_set a i on else Some a);
        apply_loop fuel (i + 1) re on a
      else Some a
  end.

Definition __apply (a : area) (re : regex) (on : bool) : option area :=
  apply_loop (Z.to_nat (area_count a)) 0 re on a.

(* src: src/mask.cc 98-108 mask::apply *)
Fixpoint mask_apply (m : mask) (a : area) : option area :=
  match m with
  | [] => Some a
  | it :: m =>
      a ← (if regex_match (a_name a) (md_area it) then __apply a (md_sect it) (md_on it) else Some a);
      mask_apply m a
  end.

(* src: src/mask.cc 155-170 mask::mask *)
Fixpoint mask_new (m : mask) (strs : list string) : option mask :=
  match strs with
  | [] => Some m
  | s :: strs => if String.eqb s "" then Some m else m ← mask_add m s; mask_new m strs
  end.

(** Reading a mask from a stream: [get(sb)] moves the characters before the
    next newline into [sb] and leaves the newline in the stream; it fails when
    it moves none, and sets the end-of-file state when it reaches the end. *)
Fixpoint get_until_newline (s : string) : string * string :=
  match s with
  | EmptyString => (EmptyString, EmptyString)
  | String c s' =>
      if Ascii.eqb c "010"%char then (EmptyString, s)
      else let '(l, r) := get_until_newline s' in (String c l, r)
  end.

(* src: src/mask.cc 116-128 operator>> *)
Fixpoint mask_read (fuel : nat) (m : mask) (stream : string) : option mask :=
  match fuel with
  | O => None
  | S fuel =>
      let '(line, rest) := get_until_newline stream in
      m ← mask_add m line;
      let good := negb (String.eqb line "") && negb (String.eqb rest "") in
      if good then mask_read fuel m rest else Some m
  end.
End Mask.
Arguments mask_data {_}.

(** Text dumps: the first string of a line is padded to the stream width. *)
Definition pad (w : nat) (s : string) : string :=
  String.append (String.concat "" (replicate (w - String.length s) " "%string)) s.

(* src: src/area.cc 105-114 operator<< *)
Definition area_dump (w : nat) (a : area) : list string :=
  map (fun i => String.append (pad w (if bool_decide (area_test a i = Some true) then "" else "!"))
                  (String.append (a_name a) (String.append ":" (section_name a i))))
      (seqZ 0 (area_count a)).

(* src: src/mask.cc 130-146 mask::operator>> *)
Definition mask_dump `{Regex} (w : nat) (m : list mask_data) : list string :=
  map (fun it => String.append (pad w "") (md_str it)) m.

(** ** Bits *)

Record bm_ok (b : bitmap) : Prop := {
  bmk_size : 0 <= bm_size b < 4294967232;
  bmk_len : Z.of_nat (length (bm_data b)) = (bm_size b + 63) / 64;
  bmk_words : Forall is_u64 (bm_data b) }.

(** The value of bit [i]. *)
Definition bm_bit (b : bitmap) (i : Z) : bool := Z.testbit (bm_data b !!! Z.to_nat (i / 64)) (i mod 64).

Lemma nwords_eq s : 0 <= s < 4294967232 -> nwords s = (s + 63) / 64.
Proof. intros; unfold nwords, word_size; f_equal; word_lia. Qed.

Lemma nbytes_eq s : 0 <= s < 4294967232 -> nbytes s = (s + 7) / 8.
Proof. intros; unfold nbytes, byte_size; f_equal; word_lia. Qed.

Lemma which_bit_eq i : which_bit i = i mod 64.
Proof. unfold which_bit, word_size; change (64 - 1) with (Z.ones 6); now rewrite Z.land_ones. Qed.

Lemma land_bit_test w k : 0 <= k -> negb (Z.land w (Z.shiftl 1 k) =? 0) = Z.testbit w k.
Proof.
  intros Hk; rewrite Z.shiftl_1_l; destruct (Z.testbit w k) eqn:T.
  - destruct (Z.eqb_spec (Z.land w (2 ^ k)) 0) as [E|]; [|done].
    apply (f_equal (fun z => Z.testbit z k)) in E.
    rewrite Z.land_spec, T, Z.pow2_bits_true, Z.bits_0 in E by lia; done.
  - destruct (Z.eqb_spec (Z.land w (2 ^ k)) 0) as [|N]; [done|]; exfalso; apply N.
    apply Z.bits_inj'; intros j Hj; rewrite Z.land_spec, Z.pow2_bits_eqb, Z.bits_0 by lia.
    destruct (Z.eqb_spec k j) as [->|]; [rewrite T|]; auto using andb_false_r.
Qed.

Lemma word_lookup b i : bm_ok b -> 0 <= i < bm_size b ->
  bm_data b !! Z.to_nat (which_word i) = Some (bm_data b !!! Z.to_nat (i / 64)).
Proof.
  intros [S L W] Hi; unfold which_word, word_size; apply list_lookup_lookup_total_lt.
  assert (i / 64 < (bm_size b + 63) / 64) by (Z.div_mod_to_equations; lia).
  assert (0 <= i / 64) by (apply Z.div_pos; lia); lia.
Qed.

Lemma bm_test_bit b i : bm_ok b -> 0 <= i < bm_size b -> bm_test b i = Some (bm_bit b i).
Proof.
  intros O Hi; unfold bm_test; rewrite word_lookup by done; cbn.
  rewrite land_bit_test, which_bit_eq; [done|].
  rewrite which_bit_eq; apply Z.mod_pos_bound; lia.
Qed.

Lemma set_bit_spec (w k j : Z) (v : bool) : is_u64 w -> 0 <= k < 64 -> 0 <= j < 64 ->
  Z.testbit (if v then Z.lor w (Z.shiftl 1 k) else Z.land w (u64 (Z.lnot (Z.shiftl 1 k)))) j =
    if decide (j = k) then v else Z.testbit w j.
Proof.
  intros Hw Hk Hj; rewrite Z.shiftl_1_l; destruct v.
  - rewrite Z.lor_spec, Z.pow2_bits_eqb by lia; case_decide as E.
    + subst; now rewrite Z.eqb_refl, orb_true_r.
    + destruct (Z.eqb_spec k j); [congruence|apply orb_false_r].
  - rewrite Z.land_spec; unfold u64; change 18446744073709551616 with (2 ^ 64).
    rewrite Z.mod_pow2_bits_low, Z.lnot_spec, Z.pow2_bits_eqb by lia; case_decide as E.
    + subst; now rewrite Z.eqb_refl, andb_false_r.
    + destruct (Z.eqb_spec k j); [congruence|apply andb_true_r].
Qed.

(** A value all of whose bits are below [64]. *)
Lemma u64_of_bits w : 0 <= w -> (forall j, 64 <= j -> Z.testbit w j = false) -> is_u64 w.
Proof.
  intros Hw B; split; [done|]; change 18446744073709551616 with (2 ^ 64).
  destruct (Z.eq_dec w 0) as [->|]; [lia|].
  destruct (Z_lt_ge_dec w (2 ^ 64)) as [|G]; [done|exfalso].
  assert (64 <= Z.log2 w) by (apply Z.log2_le_pow2; lia).
  specialize (B (Z.log2 w) ltac:(lia)); rewrite Z.bit_log2 in B by lia; done.
Qed.

Lemma u64_high w j : is_u64 w -> 64 <= j -> Z.testbit w j = false.
Proof.
  intros [Hw Hw'] Hj; destruct (Z.eq_dec w 0) as [->|]; [apply Z.bits_0|].
  apply Z.bits_above_log2; [done|].
  apply (Z.lt_le_trans _ 64); [|done]; apply Z.log2_lt_pow2; lia.
Qed.

Lemma set_bit_u64 w k (v : bool) : is_u64 w -> 0 <= k < 64 ->
  is_u64 (if v then Z.lor w (Z.shiftl 1 k) else Z.land w (u64 (Z.lnot (Z.shiftl 1 k)))).
Proof.
  intros Hw Hk; rewrite Z.shiftl_1_l; apply u64_of_bits.
  - destruct v; [apply Z.lor_nonneg | apply Z.land_nonneg; left]; try apply Hw.
    split; [apply Hw | apply Z.pow_nonneg; lia].
  - intros j Hj; destruct v.
    + rewrite Z.lor_spec, (u64_high w j), Z.pow2_bits_eqb by (done || lia).
      destruct (Z.eqb_spec k j); [lia|done].
    + now rewrite Z.land_spec, (u64_high w j).
Qed.

Lemma bm_set_spec b i v : bm_ok b -> 0 <= i < bm_size b ->
  exists b', bm_set b i v = Some b' /\ bm_ok b' /\ bm_size b' = bm_size b /\
    forall j, 0 <= j < bm_size b -> bm_bit b' j = if decide (j = i) then v else bm_bit b j.
Proof.
  intros O Hi; pose proof O as [S L W]; unfold bm_set; rewrite word_lookup by done; cbn [mbind option_bind].
  rewrite which_bit_eq; unfold which_word, word_size.
  pose proof (Z.mod_pos_bound i 64 ltac:(lia)) as Hm.
  pose proof (word_lookup b i O Hi) as Lk; unfold which_word, word_size in Lk.
  assert (Hw : is_u64 (bm_data b !!! Z.to_nat (i / 64))) by (eapply Forall_lookup_1; [apply W|apply Lk]).
  eexists; split; [reflexivity|]; split; [split; cbn|split; cbn; [done|]].
  - done.
  - now rewrite length_insert.
  - apply Forall_insert; [done|]; now apply set_bit_u64.
  - intros j Hj; unfold bm_bit; cbn [bm_data].
    pose proof (Z.mod_pos_bound j 64 ltac:(lia)) as Hjm.
    pose proof (Z.div_mod i 64 ltac:(lia)); pose proof (Z.div_mod j 64 ltac:(lia)).
    destruct (decide (j / 64 = i / 64)) as [E|N].
    + rewrite E, list_lookup_total_insert_eq by (apply lookup_lt_Some in Lk; lia).
      rewrite set_bit_spec by done; do 2 case_decide; try done; exfalso; lia.
    + assert (0 <= i / 64 /\ 0 <= j / 64) by (split; apply Z.div_pos; lia).
      rewrite list_lookup_total_insert_ne by lia; case_decide; [subst; done|done].
Qed.

(** *** Whole bitmaps *)

Lemma length_memset_words l n v : length (memset_words l n v) = length l.
Proof. revert n; induction l; intros; cbn; auto. Qed.

Lemma memset_words_lookup l n v (i : nat) w : l !! i = Some w ->
  memset_words l n v !! i = Some (fill_word w (Z.max 0 (Z.min 8 (n - 8 * Z.of_nat i))) v).
Proof.
  revert n i; induction l as [|w' l IH]; intros n i; [done|]; destruct i as [|i]; intros E.
  - injection E as <-; cbn; do 3 f_equal; lia.
  - transitivity (memset_words l (n - 8) v !! i); [done|].
    rewrite (IH (n - 8) i E); do 4 f_equal; lia.
Qed.

Lemma fill_word_bit w n v j : 0 <= n -> 0 <= j < 8 * n -> Z.testbit (fill_word w n v) j = v.
Proof.
  intros Hn Hj; unfold fill_word; destruct v.
  - rewrite Z.lor_spec, Z.ones_spec_low by lia; apply orb_true_r.
  - rewrite Z.ldiff_spec, Z.ones_spec_low by lia; apply andb_false_r.
Qed.

Lemma fill_word_u64 w n v : is_u64 w -> 0 <= n <= 8 -> is_u64 (fill_word w n v).
Proof.
  intros Hw Hn; apply u64_of_bits; unfold fill_word.
  - destruct v; [apply Z.lor_nonneg; split | apply Z.ldiff_nonneg; left]; try apply Hw.
    rewrite Z.ones_equiv; pose proof (Z.pow_pos_nonneg 2 (8 * n)); lia.
  - intros j Hj; destruct v.
    + rewrite Z.lor_spec, (u64_high w j), Z.ones_spec_high by (done || lia); done.
    + rewrite Z.ldiff_spec, (u64_high w j) by done; done.
Qed.

Lemma memset_ok b v : bm_ok b ->
  let b' := mkBitmap (memset_words (bm_data b) (nbytes (bm_size b)) v) (bm_size b) in
  bm_ok b' /\ forall j, 0 <= j < bm_size b -> bm_bit b' j = v.
Proof.
  intros O b'; pose proof O as [S L W]; unfold b'; split.
  - split; cbn; [done | now rewrite length_memset_words |].
    clear S L O b'; generalize (nbytes (bm_size b)) as n; induction W as [|w l Hw _ IH]; intros n; cbn;
      constructor; [apply fill_word_u64; [done|lia] | apply IH].
  - intros j Hj; unfold bm_bit; cbn [bm_data].
    pose proof (word_lookup b j O Hj) as Lk; unfold which_word, word_size in Lk.
    pose proof (memset_words_lookup _ (nbytes (bm_size b)) v _ _ Lk) as M.
    rewrite (list_lookup_total_correct _ _ _ M); apply fill_word_bit; [lia|].
    rewrite nbytes_eq, Z2Nat.id by (lia || (apply Z.div_pos; lia)).
    pose proof (Z.mod_pos_bound j 64 ltac:(lia)); pose proof (Z.div_mod j 64 ltac:(lia)).
    Z.div_mod_to_equations; lia.
Qed.

Lemma bm_resize_ok junk size : 0 <= size < 4294967232 -> bm_ok (bm_resize junk size).
Proof.
  intros Hs; unfold bm_resize; rewrite nwords_eq by done; split; cbn; [done| |].
  - rewrite length_map, length_seqZ, Z2Nat.id by (apply Z.div_pos; lia); done.
  - apply Forall_forall; intros x Hx; apply list_elem_of_fmap in Hx as (y & -> & _); apply u64_range.
Qed.

(** ** Areas and masks *)

Record area_ok (a : area) : Prop := {
  ao_bm : bm_ok (a_bitmap a);
  ao_len : bm_size (a_bitmap a) = Z.of_nat (length (a_section a)) }.

Lemma area_test_bit a i : area_ok a -> 0 <= i < area_count a ->
  area_test a i = Some (bm_bit (a_bitmap a) i).
Proof. intros O Hi; apply bm_test_bit; [apply O | apply Hi]. Qed.

(** The part of an area that no mask changes. *)
Definition same_shape (a a' : area) : Prop :=
  a_name a' = a_name a /\ a_section a' = a_section a /\ area_count a' = area_count a.

#[export] Instance same_shape_equiv : Equivalence same_shape.
Proof.
  split; unfold same_shape; [done| |].
  - intros ? ? (? & ? & ?); auto.
  - intros ? ? ? (-> & -> & ->) (-> & -> & ->); auto.
Qed.

Lemma section_name_shape a a' i : same_shape a a' -> section_name a' i = section_name a i.
Proof. unfold same_shape, section_name, area_count; intros (_ & -> & ->); done. Qed.

Lemma area_set_spec a i v : area_ok a -> 0 <= i < area_count a ->
  exists a', area_set a i v = Some a' /\ area_ok a' /\ same_shape a a' /\
    forall j, 0 <= j < area_count a ->
      bm_bit (a_bitmap a') j = if decide (j = i) then v else bm_bit (a_bitmap a) j.
Proof.
  intros [B L] Hi; destruct (bm_set_spec _ i v B Hi) as (b & E & Ob & Sb & Bits).
  unfold area_set; rewrite E; cbn; eexists; split; [reflexivity|].
  split; [split; cbn; [done | congruence]|]; split; [split; [|split]; cbn; done|done].
Qed.

(** A new area has the sections it was given, or the six default ones, all
    of them disabled, whatever was in the memory of its bitmap; enabling or
    disabling one section changes the state of that section only. *)
Theorem area_sections junk name section i j v :
  let names := match section with Some l => l | None => default_section_names end in
  Z.of_nat (length names) < 4294967232 ->
  0 <= i < Z.of_nat (length names) -> 0 <= j < Z.of_nat (length names) ->
  let a := area_new junk name section in
  area_count a = Z.of_nat (length names) /\
  names !! Z.to_nat i = Some (section_name a i) /\
  area_test a i = Some false /\
  exists a', area_enable a i v = Some a' /\
    area_test a' j = Some (if decide (j = i) then v else false).
Proof.
  intros names Hl Hi Hj a.
  assert (O0 : bm_ok (bm_resize junk (Z.of_nat (length names)))) by (apply bm_resize_ok; lia).
  destruct (memset_ok _ false O0) as [O1 B1].
  assert (O : area_ok a) by (split; [exact O1|reflexivity]).
  split; [done|]; split.
  - unfold section_name, a, area_new; fold names; cbn.
    rewrite (proj2 (Z.leb_gt _ _)) by lia.
    destruct (lookup_lt_is_Some_2 names (Z.to_nat i)) as [x ->]; [lia|done].
  - rewrite area_test_bit by (done || apply Hi).
    split; [f_equal; apply B1; exact Hi|].
    destruct (area_set_spec a i v O Hi) as (a' & E & O' & (_ & _ & S) & Bits).
    exists a'; split; [exact E|]; rewrite area_test_bit by (done || (rewrite S; exact Hj)).
    f_equal; rewrite Bits by exact Hj; case_decide; [done|apply B1; exact Hj].
Qed.

Lemma same_sections_spec n l1 l2 : length l1 = n -> length l2 = n ->
  same_sections n l1 l2 = true <-> l1 = l2.
Proof.
  revert l1 l2; induction n as [|n IH]; intros [|s1 l1] [|s2 l2] H1 H2; try discriminate; cbn; [done|].
  injection H1 as H1; injection H2 as H2; specialize (IH l1 l2 H1 H2).
  destruct (String.eqb_spec s1 s2); split; intros E; try discriminate;
    [f_equal; [done|now apply IH] | apply IH; congruence | congruence].
Qed.

(** Two areas compare equal exactly when they have the same name and the same
    sections in the same order. *)
Lemma area_eq_ok a b : area_ok a -> area_ok b ->
  area_eq a b = true <-> a_name a = a_name b /\ a_section a = a_section b.
Proof.
  intros [_ La] [_ Lb]; unfold area_eq, area_count.
  destruct (String.eqb_spec (a_name a) (a_name b)) as [En|En]; cbn; [|split; [done|tauto]].
  destruct (Z.eqb_spec (bm_size (a_bitmap a)) (bm_size (a_bitmap b))) as [Es|Es]; cbn.
  - rewrite same_sections_spec by lia; tauto.
  - split; [done|]; intros [_ E]; rewrite E in La; congruence.
Qed.

(** Two areas compare equal exactly when they have the same name and the
    same sections in the same order; which sections are enabled plays no role. *)
Theorem area_eq_spec a b : area_ok a -> area_ok b ->
  area_eq a b = true <-> a_name a = a_name b /\ a_section a = a_section b.
Proof. intros Oa Ob; now apply area_eq_ok. Qed.

Section MaskSpec.
Context `{Rx : Regex}.

(** Whether a section ends up enabled: the last entry that matches both the
    area and the section decides; without one it keeps its state. *)
Definition verdict (m : list mask_data) (name sect : string) (cur : bool) : bool :=
  fold_left (fun cur it =>
    if regex_match name (md_area it) && regex_match sect (md_sect it) then md_on it else cur) m cur.

Lemma verdict_cases m name sect :
  (forall c, verdict m name sect c = c) \/ exists v, forall c, verdict m name sect c = v.
Proof.
  induction m as [|it m IH]; [now left|]; unfold verdict in *; cbn.
  destruct (regex_match name (md_area it) && regex_match sect (md_sect it)); [right; eauto|exact IH].
Qed.

Lemma verdict_idem m name sect c : verdict m name sect (verdict m name sect c) = verdict m name sect c.
Proof. destruct (verdict_cases m name sect) as [E|[v E]]; now rewrite !E. Qed.

Lemma apply_loop_spec fuel i re on a : area_ok a -> 0 <= i -> i + Z.of_nat fuel = area_count a ->
  exists a', apply_loop fuel i re on a = Some a' /\ area_ok a' /\ same_shape a a' /\
    forall j, 0 <= j < area_count a -> bm_bit (a_bitmap a') j =
      if bool_decide (i <= j) && regex_match (section_name a j) re then on else bm_bit (a_bitmap a) j.
Proof.
  revert i a; induction fuel as [|fuel IH]; intros i a O Hi Hf; cbn [apply_loop].
  - exists a; split; [done|]; split; [done|]; split; [reflexivity|]; intros j Hj.
    rewrite bool_decide_false by lia; done.
  - rewrite (proj2 (Z.ltb_lt _ _)) by lia.
    assert (Step : exists a1, (if regex_match (section_name a i) re then area_set a i on else Some a) = Some a1
      /\ area_ok a1 /\ same_shape a a1 /\ forall j, 0 <= j < area_count a -> bm_bit (a_bitmap a1) j =
        if decide (j = i) then (if regex_match (section_name a i) re then on else bm_bit (a_bitmap a) j)
        else bm_bit (a_bitmap a) j).
    { destruct (regex_match (section_name a i) re).
      - apply area_set_spec; [done|lia].
      - exists a; split; [done|]; split; [done|]; split; [reflexivity|]; intros; now case_decide. }
    destruct Step as (a1 & -> & O1 & S1 & B1); cbn [mbind option_bind].
    pose proof S1 as (_ & _ & C1); destruct (IH (i + 1) a1 O1) as (a2 & -> & O2 & S2 & B2); [lia|lia|].
    exists a2; split; [done|]; split; [done|]; split; [now transitivity a1|].
    intros j Hj; rewrite B2, B1, (section_name_shape a a1) by (done || lia).
    destruct (decide (j = i)) as [->|N].
    + rewrite (bool_decide_false (i + 1 <= i)), (bool_decide_true (i <= i)) by lia; done.
    + rewrite (bool_decide_ext (i + 1 <= j) (i <= j)) by lia; done.
Qed.

Lemma mask_apply_bits m a : area_ok a ->
  exists a', mask_apply m a = Some a' /\ area_ok a' /\ same_shape a a' /\
    forall j, 0 <= j < area_count a ->
      bm_bit (a_bitmap a') j = verdict m (a_name a) (section_name a j) (bm_bit (a_bitmap a) j).
Proof.
  revert a; induction m as [|it m IH]; intros a O; cbn [mask_apply].
  - exists a; split; [done|]; split; [done|]; split; [reflexivity|done].
  - assert (Step : exists a1, (if regex_match (a_name a) (md_area it)
        then __apply a (md_sect it) (md_on it) else Some a) = Some a1
      /\ area_ok a1 /\ same_shape a a1 /\ forall j, 0 <= j < area_count a -> bm_bit (a_bitmap a1) j =
        if regex_match (a_name a) (md_area it) && regex_match (section_name a j) (md_sect it)
        then md_on it else bm_bit (a_bitmap a) j).
    { destruct (regex_match (a_name a) (md_area it)); cbn.
      - destruct (apply_loop_spec (Z.to_nat (area_count a)) 0 (md_sect it) (md_on it) a O)
          as (a1 & E & O1 & S1 & B1); [lia | unfold area_count; rewrite (ao_len _ O); lia |].
        exists a1; do 3 (split; [done|]); intros j Hj; rewrite B1 by done.
        rewrite bool_decide_true by lia; done.
      - exists a; split; [done|]; split; [done|]; split; [reflexivity|done]. }
    destruct Step as (a1 & -> & O1 & S1 & B1); cbn [mbind option_bind].
    pose proof S1 as (N1 & _ & C1); destruct (IH a1 O1) as (a2 & -> & O2 & S2 & B2).
    exists a2; split; [done|]; split; [done|]; split; [now transitivity a1|].
    intros j Hj; rewrite B2, B1, N1, (section_name_shape a a1) by (done || lia); done.
Qed.

(** C35: Applying a mask to an area always succeeds, keeps its name and
    sections, and leaves each section in the state that the last matching
    entry of the mask asks for, or as it was when no entry matches; applying
    the mask again changes nothing. *)
Theorem mask_apply_correct m a : area_ok a ->
  exists a', mask_apply m a = Some a' /\ area_ok a' /\ same_shape a a' /\
    (forall j, 0 <= j < area_count a -> area_test a' j =
       Some (verdict m (a_name a) (section_name a j) (bm_bit (a_bitmap a) j))) /\
    exists a'', mask_apply m a' = Some a'' /\
      forall j, 0 <= j < area_count a -> area_test a'' j = area_test a' j.
Proof.
  intros O; destruct (mask_apply_bits m a O) as (a1 & E1 & O1 & S1 & B1).
  pose proof S1 as (N1 & _ & C1).
  destruct (mask_apply_bits m a1 O1) as (a2 & E2 & O2 & S2 & B2); pose proof S2 as (_ & _ & C2).
  exists a1; do 3 (split; [done|]); split.
  - intros j Hj; rewrite area_test_bit, B1 by (done || lia); done.
  - exists a2; split; [done|]; intros j Hj; rewrite !area_test_bit by (done || lia).
    f_equal; rewrite B2, B1, N1, (section_name_shape a a1) by (done || lia).
    apply verdict_idem.
Qed.

(** A line of text without a newline, and what the stream has after it. *)
Lemma get_line l rest : (forall n, String.get n l <> Some "010"%char) ->
  get_until_newline (String.append l (String "010" rest)) = (l, String "010" rest).
Proof.
  induction l as [|c l IH]; intros Hl; [done|].
  change (String.append (String c l) (String "010" rest)) with (String c (String.append l (String "010" rest))).
  cbn [get_until_newline]; destruct (Ascii.eqb_spec c "010"%char) as [->|_]; [exfalso; apply (Hl 0%nat); done|].
  rewrite IH; [done|]; intros n; apply (Hl (S n)).
Qed.

(** Reading a mask from a stream takes the first line only, and, because the
    newline stays in the stream, adds an empty mask string after it; that entry
    matches every area and section, so the mask that was read enables every
    section of every area, whatever the stream says. *)
Theorem mask_read_enables_all l rest m :
  l <> ""%string -> (forall n, String.get n l <> Some "010"%char) ->
  mask_read 2 [] (String.append l (String "010" rest)) = Some m ->
  forall a, area_ok a -> exists a', mask_apply m a = Some a' /\
    forall j, 0 <= j < area_count a -> area_test a' j = Some true.
Proof.
  intros Hl Hn Hm a O; cbn [mask_read] in Hm; rewrite get_line in Hm by done.
  destruct (mask_add [] l) as [m1|]; [cbn [mbind option_bind] in Hm | discriminate].
  rewrite (proj2 (String.eqb_neq l "") Hl) in Hm; cbn in Hm.
  destruct regex_any as (re & Ere & Any); unfold mask_add in Hm; cbn in Hm.
  rewrite Ere in Hm; cbn in Hm; injection Hm as <-.
  destruct (mask_apply_bits (m1 ++ [mkMaskData "" re re true]) a O) as (a' & E & O' & (_ & _ & C) & B).
  exists a'; split; [done|]; intros j Hj; rewrite area_test_bit, B by (done || lia).
  f_equal; unfold verdict; rewrite fold_left_app; cbn; now rewrite !Any.
Qed.
End MaskSpec.

(** *** Witnesses: an instance whose expressions match literally. *)

#[export] Instance literal_regex : Regex := {
  regex := string;
  regex_compile := Some;
  regex_match s re := String.eqb re ".*" || String.eqb re s;
  regex_any := ex_intro _ ".*"%string (conj eq_refl (fun _ => eq_refl)) }.

Definition demo_area : area := area_new (fun i => 12345 * i + 77) "A" (Some ["X"; "Y"; "Z"]%string).

Lemma demo_area_ok : area_ok demo_area.
Proof.
  split; [|reflexivity].
  apply (memset_ok (bm_resize (fun i => 12345 * i + 77) 3) false), bm_resize_ok; lia.
Qed.

Lemma area_sections_witness :
  area_test demo_area 1 = Some false /\
  exists a', area_enable demo_area 1 true = Some a' /\ area_test a' 1 = Some true.
Proof.
  destruct (area_sections (fun i => 12345 * i + 77) "A" (Some ["X"; "Y"; "Z"]%string) 1 1 true)
    as (_ & _ & T & a' & E & T'); [cbn; lia .. |].
  split; [exact T|]; exists a'; split; [exact E|exact T'].
Defined.

Lemma area_eq_spec_witness :
  area_eq demo_area demo_area = true <-> a_name demo_area = a_name demo_area /\ a_section demo_area = a_section demo_area.
Proof. apply area_eq_spec; apply demo_area_ok. Defined.

Lemma mask_apply_correct_witness :
  exists m a', mask_new [] ["A:X"; "!:Y"; "B:Z"]%string = Some m /\ mask_apply m demo_area = Some a' /\
    area_test a' 0 = Some true /\ area_test a' 1 = Some false /\ area_test a' 2 = Some false.
Proof.
  destruct (mask_new [] ["A:X"; "!:Y"; "B:Z"]%string) as [m|] eqn:Em; [|discriminate].
  destruct (mask_apply_correct m demo_area demo_area_ok) as (a' & E & _ & _ & T & _).
  exists m, a'; split; [done|]; split; [exact E|].
  injection Em as <-; rewrite !T by (cbn; lia); repeat split; reflexivity.
Defined.

Lemma mask_read_enables_all_witness :
  exists m, mask_read 2 [] (String.append "!A:X" (String "010" "!A:Y")) = Some m /\
    exists a', mask_apply m demo_area = Some a' /\
      forall j, 0 <= j < area_count demo_area -> area_test a' j = Some true.
Proof.
  destruct (mask_read 2 [] (String.append "!A:X" (String "010" "!A:Y"))) as [m|] eqn:E; [|discriminate].
  exists m; split; [done|]; apply (mask_read_enables_all "!A:X" "!A:Y" m); [done| |exact E|apply demo_area_ok].
  intros n; do 4 (destruct n as [|n]; [discriminate|]); discriminate.
Defined.
