(* ===== verification/Timestamp.v ===== *)
(** * Timestamps (detail/timestamp.hpp)

    A timestamp is one 64-bit value, compared as such.  A build option selects
    what the value holds: nanoseconds, or the two 32-bit halves of a timespec
    (little-endian layout). *)

From S2P Require Import Prelude.

Inductive ts_format := Nsec | Timespec.

(* src: include/hogl/detail/timestamp.hpp 44-64 timestamp *)
Definition nsec_per_sec : Z := 1000000000.

(** The value of the union, and its halves: [sec] comes first in memory. *)
Definition ts_sec (v : Z) : Z := v mod 4294967296.
Definition ts_nsec (v : Z) : Z := v / 4294967296.
Definition ts_pair (sec nsec : Z) : Z := u32 sec + 4294967296 * u32 nsec.

(* src: include/hogl/detail/timestamp.hpp 66-94 timestamp::operator< *)
Definition ts_lt (a b : Z) : bool := a <? b.

Section Format.
Variable fmt : ts_format.

(* src: include/hogl/detail/timestamp.hpp 101-105 timestamp::from_timespec *)
Definition from_timespec (sec nsec : Z) : Z :=
  match fmt with
  | Timespec => ts_pair sec nsec
  | Nsec => u64 (u64 (u64 sec * nsec_per_sec) + nsec)
  end.

(* src: include/hogl/detail/timestamp.hpp 106-110 timestamp::to_timespec *)
Definition to_timespec (v : Z) : Z * Z :=
  match fmt with
  | Timespec => (ts_sec v, ts_nsec v)
  | Nsec => (v / nsec_per_sec, v mod nsec_per_sec)
  end.

(** With the timespec layout both factors of the product are 32-bit. *)
(* src: include/hogl/detail/timestamp.hpp 112-116 timestamp::from_nsec *)
Definition from_nsec (n : Z) : Z :=
  match fmt with
  | Timespec => ts_pair (n / nsec_per_sec) (n mod nsec_per_sec)
  | Nsec => n
  end.
(* src: include/hogl/detail/timestamp.hpp 118-147 timestamp::to_nsec *)
Definition to_nsec (v : Z) : Z :=
  match fmt with
  | Timespec => (ts_sec v *u32 nsec_per_sec) +u32 ts_nsec v
  | Nsec => v
  end.

(* src: include/hogl/detail/timestamp.hpp 149-152 timestamp::from_usec *)
Definition from_usec (u : Z) : Z := from_nsec (u *u64 1000).
(* src: include/hogl/detail/timestamp.hpp 154-157 timestamp::to_usec *)
Definition to_usec (v : Z) : Z := to_nsec v / 1000.
(* src: include/hogl/detail/timestamp.hpp 159-162 timestamp::from_msec *)
Definition from_msec (m : Z) : Z := from_nsec ((m *u64 1000) *u64 1000).
(* src: include/hogl/detail/timestamp.hpp 164-167 timestamp::to_msec *)
Definition to_msec (v : Z) : Z := to_nsec v / (1000 * 1000).
(* src: include/hogl/detail/timestamp.hpp 169-172 timestamp::from_sec *)
Definition from_sec (s : Z) : Z := from_nsec (s *u64 nsec_per_sec).
(* src: include/hogl/detail/timestamp.hpp 174-177 timestamp::to_sec *)
Definition to_sec (v : Z) : Z := to_nsec v / nsec_per_sec.
(* src: include/hogl/detail/timestamp.hpp 194-201 timestamp::operator+= *)
Definition ts_add (v a : Z) : Z := from_nsec (to_nsec v +u64 a).
(* src: include/hogl/detail/timestamp.hpp 226-246 timestamp::operator- *)
Definition ts_sub (v m : Z) : Z := from_nsec (to_nsec v -u64 m).
End Format.

(** Chronological order of the clock readings. *)
Definition before (s1 n1 s2 n2 : Z) : Prop := s1 < s2 \/ s1 = s2 /\ n1 < n2.

Definition clock_ok (sec nsec : Z) : Prop :=
  0 <= sec /\ 0 <= nsec < nsec_per_sec /\ sec * nsec_per_sec + nsec < 18446744073709551616.

Lemma from_timespec_nsec sec nsec : clock_ok sec nsec ->
  from_timespec Nsec sec nsec = sec * nsec_per_sec + nsec.
Proof.
  unfold clock_ok, from_timespec, nsec_per_sec; intros (? & ? & ?).
  rewrite (u64_small sec), (u64_small (sec * _)), u64_small by (words; lia); reflexivity.
Qed.

(** In the default format a timestamp keeps the clock reading it was made
    from, timestamps compare in the order of their readings, and adding or
    subtracting nanoseconds is exact as long as 64 bits hold the result. *)
Theorem nsec_format_faithful s1 n1 s2 n2 d : clock_ok s1 n1 -> clock_ok s2 n2 -> 0 <= d ->
  let t1 := from_timespec Nsec s1 n1 in let t2 := from_timespec Nsec s2 n2 in
  to_timespec Nsec t1 = (s1, n1) /\ (ts_lt t1 t2 = true <-> before s1 n1 s2 n2) /\
  (t1 + d < 18446744073709551616 -> ts_sub Nsec (ts_add Nsec t1 d) d = t1 /\
     to_nsec Nsec (ts_add Nsec t1 d) = to_nsec Nsec t1 + d).
Proof.
  intros O1 O2 Hd t1 t2; unfold t1, t2; rewrite !from_timespec_nsec by done.
  unfold clock_ok, before, ts_lt, to_timespec in *; unfold nsec_per_sec in *.
  split; [f_equal; Z.div_mod_to_equations; lia|]; split.
  - rewrite Z.ltb_lt; lia.
  - intros H; unfold ts_sub, ts_add, to_nsec, from_nsec; rewrite (u64_small (_ + d)) by (words; lia).
    rewrite u64_small by (words; lia); lia.
Qed.

(** Conversions from microseconds, milliseconds and seconds and back are
    exact in the default format as long as the nanoseconds fit in 64 bits. *)
Theorem nsec_units_roundtrip u : 0 <= u ->
  (u * 1000 < 18446744073709551616 -> to_usec Nsec (from_usec Nsec u) = u) /\
  (u * 1000000 < 18446744073709551616 -> to_msec Nsec (from_msec Nsec u) = u) /\
  (u * 1000000000 < 18446744073709551616 -> to_sec Nsec (from_sec Nsec u) = u).
Proof.
  intros Hu; unfold to_usec, from_usec, to_msec, from_msec, to_sec, from_sec, to_nsec, from_nsec, nsec_per_sec.
  split; [|split]; intros H; rewrite ?(u64_small (u * 1000)) by (words; lia);
    rewrite ?u64_small by (words; lia); Z.div_mod_to_equations; lia.
Qed.

(** In the timespec format on a little-endian machine the seconds are the
    low half of the compared value, so a reading that is earlier by up to a
    second's nanoseconds can compare as later, whatever the seconds are; and
    [to_nsec] is computed in 32 bits, so every reading from five seconds on
    loses its value. *)
Theorem timespec_format_broken s1 n1 s2 n2 :
  is_u32 s1 -> is_u32 s2 -> 0 <= n2 -> n2 < n1 < nsec_per_sec -> 5 <= s1 ->
  ts_lt (from_timespec Timespec s2 n2) (from_timespec Timespec s1 n1) = true /\
  to_nsec Timespec (from_timespec Timespec s1 n1) < s1 * nsec_per_sec + n1.
Proof.
  unfold from_timespec, ts_pair, ts_lt, to_nsec, ts_sec, ts_nsec, nsec_per_sec; intros H1 H2 Hn Hlt H5.
  words; rewrite (Z.mod_small s1), (Z.mod_small n1), (Z.mod_small s2), (Z.mod_small n2) by lia.
  split; [apply Z.ltb_lt; lia|].
  pose proof (Z.mod_pos_bound ((((s1 + 4294967296 * n1) mod 4294967296 * 1000000000) mod 4294967296)
    + (s1 + 4294967296 * n1) / 4294967296) 4294967296); lia.
Qed.

Lemma nsec_format_faithful_witness :
  to_timespec Nsec (from_timespec Nsec 1700000000 999999999) = (1700000000, 999999999) /\
  ts_lt (from_timespec Nsec 1700000000 999999999) (from_timespec Nsec 1700000001 0) = true.
Proof.
  destruct (nsec_format_faithful 1700000000 999999999 1700000001 0 7)
    as (A & B & _); [unfold clock_ok, nsec_per_sec; lia .. |].
  split; [exact A|]; apply B; left; lia.
Defined.

Lemma nsec_units_roundtrip_witness : to_msec Nsec (from_msec Nsec 1700000000000) = 1700000000000.
Proof. destruct (nsec_units_roundtrip 1700000000000) as (_ & M & _); [lia|apply M; lia]. Defined.

Lemma timespec_format_broken_witness :
  before 1700000000 5 1700000001 4 /\
  ts_lt (from_timespec Timespec 1700000001 4) (from_timespec Timespec 1700000000 5) = true.
Proof.
  split; [left; lia|].
  apply (timespec_format_broken 1700000000 5 1700000001 4); unfold nsec_per_sec; words; lia.
Defined.
