(* ===== verification/Tso.v ===== *)
(** * The timestamp ordering buffer (detail/tsobuf.hpp)

    An array of entries with a head and a tail, sorted with [std::sort]. *)

From S2P Require Import Prelude Timestamp.

(** An entry: the timestamp it is sorted by, the record and the index of the
    ring it comes from. *)
(* src: include/hogl/detail/tsobuf.hpp 46-53 tsobuf::entry *)
Record entry (P : Type) := mkEntry { te_timestamp : Z; te_rec : P; te_tag : nat }.
Arguments mkEntry {P}. Arguments te_timestamp {P}. Arguments te_rec {P}. Arguments te_tag {P}.

(* src: include/hogl/detail/tsobuf.hpp 55-59 tsobuf *)
Record tsobuf (P : Type) := mkTso {
  tb_head : Z; tb_tail : Z; tb_capacity : Z; tb_entry : list (entry P) }.
Arguments mkTso {P}. Arguments tb_head {P}. Arguments tb_tail {P}.
Arguments tb_capacity {P}. Arguments tb_entry {P}.

(* src: include/hogl/detail/tsobuf.hpp 61-69 tsobuf::less *)
Definition tso_less {P} (i j : entry P) : bool := ts_lt (te_timestamp i) (te_timestamp j).

(** The comparison is by the timestamp as a key. *)
Lemma tso_less_key {P} (i j : entry P) : tso_less i j = true <-> te_timestamp i < te_timestamp j.
Proof. apply Z.ltb_lt. Qed.

Section Tso.
Context {P : Type}.
Implicit Types (b : tsobuf P) (e : entry P).

(** [new entry[n]] leaves its entries uninitialised: [junk]. *)
(* src: include/hogl/detail/tsobuf.hpp 72-79 tsobuf::resize *)
Definition tso_resize (junk : nat -> entry P) (n : Z) : tsobuf P :=
  mkTso 0 0 n (map junk (seq 0 (Z.to_nat n))).

(* src: include/hogl/detail/tsobuf.hpp 81-87 tsobuf::clear, reset *)
Definition tso_reset b : tsobuf P := mkTso 0 0 (tb_capacity b) (tb_entry b).
(* src: include/hogl/detail/tsobuf.hpp 90-90 tsobuf::size *)
Definition tso_size b : Z := tb_tail b -u32 tb_head b.
(* src: include/hogl/detail/tsobuf.hpp 91-91 tsobuf::full *)
Definition tso_full b : bool := tb_tail b =? tb_capacity b.
(* src: include/hogl/detail/tsobuf.hpp 92-92 tsobuf::empty *)
Definition tso_empty b : bool := tb_tail b <=? tb_head b.

(** [None] is a write past the end of the array. *)
(* src: include/hogl/detail/tsobuf.hpp 94-103 tsobuf::push *)
Definition tso_push b e : option (tsobuf P) :=
  if decide (0 <= tb_tail b < Z.of_nat (length (tb_entry b))) then
    Some (mkTso (tb_head b) (tb_tail b +u32 1) (tb_capacity b)
            (<[Z.to_nat (tb_tail b) := e]> (tb_entry b)))
  else None.

(* src: include/hogl/detail/tsobuf.hpp 105-114 tsobuf::pop *)
Definition tso_pop b : option (entry P * tsobuf P) :=
  if tso_empty b then None
  else
    match tb_entry b !! Z.to_nat (tb_head b) with
    | Some e => Some (e, mkTso (tb_head b +u32 1) (tb_tail b) (tb_capacity b) (tb_entry b))
    | None => None
    end.

(* src: include/hogl/detail/tsobuf.hpp 116-125 tsobuf::top *)
Definition tso_top b : option (entry P) :=
  if tso_empty b then None else tb_entry b !! Z.to_nat (tb_head b).

(** The entries between head and tail. *)
Definition pending b : list (entry P) :=
  take (Z.to_nat (tb_tail b - tb_head b)) (drop (Z.to_nat (tb_head b)) (tb_entry b)).

(* src: include/hogl/detail/tsobuf.hpp 127-138 tsobuf::flip *)
Definition tso_flip b : tsobuf P :=
  let s := tso_size b in
  let moved := take (Z.to_nat s) (drop (Z.to_nat (tb_head b)) (tb_entry b)) in
  mkTso 0 s (tb_capacity b) (moved ++ drop (length moved) (tb_entry b)).

(* src: include/hogl/detail/tsobuf.hpp 140-143 tsobuf::sort *)
Definition tso_sort `{StdSort (entry P) te_timestamp} b : tsobuf P :=
  let h := Z.to_nat (tb_head b) in
  mkTso (tb_head b) (tb_tail b) (tb_capacity b)
    (take h (tb_entry b) ++ std_sort te_timestamp (pending b) ++ drop (h + length (pending b)) (tb_entry b)).

(** ** Laws *)

Record tso_ok b : Prop := {
  tok_head : 0 <= tb_head b <= tb_tail b;
  tok_tail : tb_tail b <= tb_capacity b;
  tok_cap : tb_capacity b < 4294967296;
  tok_len : Z.of_nat (length (tb_entry b)) = tb_capacity b }.

Lemma length_pending b : tso_ok b -> Z.of_nat (length (pending b)) = tb_tail b - tb_head b.
Proof. intros [? ? ? ?]; unfold pending; rewrite length_take, length_drop; lia. Qed.

Lemma tso_size_eq b : tso_ok b -> tso_size b = Z.of_nat (length (pending b)).
Proof.
  intros O; rewrite length_pending by done; destruct O.
  unfold tso_size; apply u32_small; words; lia.
Qed.

Lemma tso_resize_ok junk n : 0 <= n < 4294967296 ->
  tso_ok (tso_resize junk n) /\ pending (tso_resize junk n) = [].
Proof. intros; split; [split; cbn; rewrite ?length_map, ?length_seq; lia | done]. Qed.

Lemma tso_reset_ok b : tso_ok b -> tso_ok (tso_reset b) /\ pending (tso_reset b) = [].
Proof. intros []; split; [split; cbn; lia | done]. Qed.

Lemma tso_empty_pending b : tso_ok b -> tso_empty b = bool_decide (pending b = []).
Proof.
  intros O; pose proof (length_pending b O); unfold tso_empty; destruct O.
  destruct (Z.leb_spec (tb_tail b) (tb_head b)) as [L|L]; symmetry.
  - apply bool_decide_true, nil_length_inv; lia.
  - apply bool_decide_false; intros E; rewrite E in *; cbn in *; lia.
Qed.

Lemma tso_push_ok b e : tso_ok b -> tb_tail b < tb_capacity b ->
  exists b', tso_push b e = Some b' /\ tso_ok b' /\ pending b' = pending b ++ [e] /\
    tb_capacity b' = tb_capacity b /\ tb_tail b' = tb_tail b + 1 /\ tb_head b' = tb_head b.
Proof.
  intros [H1 H2 H3 H4] Hf; unfold tso_push; rewrite decide_True by lia.
  assert (E : tb_tail b +u32 1 = tb_tail b + 1) by (apply u32_small; words; lia).
  eexists; split; [reflexivity|]; rewrite E; split; [split; cbn; rewrite ?length_insert; lia|].
  split; [|done]; unfold pending; cbn.
  rewrite drop_insert_ge by lia.
  replace (Z.to_nat (tb_tail b + 1 - tb_head b)) with (S (Z.to_nat (tb_tail b - tb_head b))) by lia.
  rewrite (take_S_r _ _ e).
  - rewrite take_insert_ge by lia; done.
  - replace (Z.to_nat (tb_tail b) - Z.to_nat (tb_head b))%nat
      with (Z.to_nat (tb_tail b - tb_head b)) by lia.
    apply list_lookup_insert_eq; rewrite length_drop; lia.
Qed.

(** A push on a full buffer writes out of bounds. *)
Lemma tso_push_full b e : tso_ok b -> tso_full b = true -> tso_push b e = None.
Proof.
  intros [H1 H2 H3 H4] Hf; unfold tso_full in Hf; apply Z.eqb_eq in Hf.
  unfold tso_push; now rewrite decide_False by lia.
Qed.

Lemma tso_pop_ok b : tso_ok b ->
  match pending b with
  | [] => tso_pop b = None
  | e :: l => tso_top b = Some e /\ exists b', tso_pop b = Some (e, b') /\ tso_ok b' /\ pending b' = l /\
      tb_capacity b' = tb_capacity b /\ tb_tail b' = tb_tail b /\ tb_head b' = tb_head b + 1
  end.
Proof.
  intros O; pose proof (tso_empty_pending b O) as E; pose proof (length_pending b O) as L.
  unfold tso_pop, tso_top; destruct (pending b) as [|e l] eqn:Pe.
  - now rewrite E, bool_decide_true.
  - rewrite E, bool_decide_false by done; destruct O as [H1 H2 H3 H4]; cbn in L.
    unfold pending in Pe.
    destruct (drop (Z.to_nat (tb_head b)) (tb_entry b)) as [|e' l'] eqn:D; [now rewrite take_nil in Pe|].
    replace (Z.to_nat (tb_tail b - tb_head b)) with (S (Z.to_nat (tb_tail b - (tb_head b + 1)))) in Pe by lia.
    injection Pe as -> Pe.
    assert (Lk : tb_entry b !! Z.to_nat (tb_head b) = Some e).
    { rewrite <- (Nat.add_0_r (Z.to_nat (tb_head b))), <- lookup_drop, D; done. }
    rewrite Lk; split; [done|].
    assert (U : tb_head b +u32 1 = tb_head b + 1) by (apply u32_small; words; lia).
    eexists; split; [reflexivity|]; rewrite U; split; [split; cbn; lia|]; split; [|done].
    unfold pending; cbn; replace (Z.to_nat (tb_head b + 1)) with (Z.to_nat (tb_head b) + 1)%nat by lia.
    rewrite <- drop_drop, D; exact Pe.
Qed.

(** [flip] keeps the entries and makes the room before the head available. *)
Lemma tso_flip_ok b : tso_ok b ->
  tso_ok (tso_flip b) /\ pending (tso_flip b) = pending b /\ tb_capacity (tso_flip b) = tb_capacity b /\
  tb_head (tso_flip b) = 0 /\ tb_tail (tso_flip b) = Z.of_nat (length (pending b)).
Proof.
  intros O; pose proof (length_pending b O) as L; pose proof (tso_size_eq b O) as S.
  destruct O as [H1 H2 H3 H4]; unfold tso_flip; rewrite S, Nat2Z.id.
  assert (M : take (length (pending b)) (drop (Z.to_nat (tb_head b)) (tb_entry b)) = pending b)
    by (unfold pending at 2; f_equal; lia).
  rewrite M; split; [split; cbn; rewrite ?length_app, ?length_drop; lia|].
  split; [|done]; unfold pending at 1; cbn.
  apply take_app_length'; lia.
Qed.

(** [sort] keeps the entries and puts them in order. *)
Lemma tso_sort_ok `{StdSort (entry P) te_timestamp} b : tso_ok b ->
  tso_ok (tso_sort b) /\ pending (tso_sort b) = std_sort te_timestamp (pending b) /\
  tb_capacity (tso_sort b) = tb_capacity b /\ tb_head (tso_sort b) = tb_head b /\
  tb_tail (tso_sort b) = tb_tail b.
Proof.
  intros O; pose proof (length_pending b O) as L.
  pose proof (Permutation_length (std_sort_perm (pending b))) as Ls.
  destruct O as [H1 H2 H3 H4].
  split; [split; cbn; rewrite ?length_app, ?length_take, ?length_drop; lia|]; split; [|done].
  unfold pending at 1; cbn; rewrite drop_app_length' by (rewrite length_take; lia).
  rewrite take_app_length' by lia; done.
Qed.
End Tso.
