(* ===== verification/Post.v ===== *)
(** * Posting records, and waiting for the engine (hogl/post.hpp, src/post.cc,
    src/flush.cc, src/timesource.cc)

    A posting thread takes the slot of the tail of its ring, fills the record
    of Record in place and commits it.  [flush] and [change_timesource] push a
    special record and poll it until the engine acknowledges it; what other
    threads do to the ring while the caller sleeps is a function of the number
    of the sleep. *)

From S2P Require Import Prelude Args Record Ring Area.

#[export] Instance record_inhabited : Inhabited record :=
  stdpp.base.populate (mkRecord None 0 0 0 0 []).

Abbreviation ring := (ringbuf record).

(** The slots of the ring hold records with the buffer its options gave. *)
Definition recs_ok (r : ring) : Prop :=
  128 <= record_tailroom r < 4294967296 /\
  Forall (fun x => Z.of_nat (length (r_argval x)) = record_tailroom r) (_recs r).

(** ** Posting *)

(** The fields that identify a record. *)
Definition stamp (x : record) (now seq a s : Z) : record :=
  with_section (with_seqnum (mkRecord (Some a) now 0 0 (r_argtype x) (r_argval x)) seq) s.

(** [now] is what the time source of the ring returns. *)
(* src: src/post.cc 42-55 post_impl::begin_unlocked *)
Definition begin_unlocked (r : ring) (now a s : Z) : Z * ring :=
  let p := push_begin r in
  let '(seq, r) := inc_seqnum r in
  (p, write_slot r p (stamp (_recs r !!! Z.to_nat p) now seq a s)).

(* src: src/post.cc 57-64 post_impl::finish_unlocked *)
Definition finish_unlocked (r : ring) : push_result record := push_commit r.

(** With complex arguments the work is done out of line from a pack, without
    it is done in place; the locked versions add the ring mutex. *)
(* src: include/hogl/post.hpp 46-88 push, push_unlocked *)
Definition push_args (m : memory) (ap0 : argpack) (r : ring) (now a s : Z) (args : list arg)
  : option (push_result record) :=
  let '(ap, n) := Args.populate ap0 args in
  let '(p, r) := begin_unlocked r now a s in
  let x := _recs r !!! Z.to_nat p in
  x ← (if n =? 0 then set_args m x (record_tailroom r) args
       else set_args_pack m x (record_tailroom r) ap);
  Some (finish_unlocked (write_slot r p x)).

Inductive post_result :=
  | Skipped                              (* the section is disabled *)
  | Posted (res : push_result record).

(* src: include/hogl/post.hpp 90-128 post, post_unlocked *)
Definition post (m : memory) (ap0 : argpack) (r : ring) (ar : area) (now a s : Z) (args : list arg)
  : option post_result :=
  t ← area_test ar s;
  if (t : bool) then res ← push_args m ap0 r now a s args; Some (Posted res) else Some Skipped.

(** ** Waiting with a timeout *)

(** The two special records. *)
Definition SPR_FLUSH : Z := 0.
Definition SPR_TIMESOURCE_CHANGE : Z := 1.

Section Waiting.
(** What the other threads do to the ring during the [k]-th sleep. *)
Variable env : nat -> ring -> ring.

(** Polling [ready] until it holds or the time is used up: the outcome, the
    ring, the time spent and the number of sleeps so far. *)
(* src: src/flush.cc 44-67 timeout, do_flush *)
Fixpoint poll (fuel : nat) (ready : ring -> bool) (k : nat) (r : ring) (to usec : Z)
  : option (bool * ring * Z * nat) :=
  match fuel with
  | O => None
  | S fuel =>
      if ready r then Some (true, r, to, k)
      else if usec <=? to then Some (false, r, to, k)
      else poll fuel ready (S k) (env k r) (to +u64 1000) usec
  end.

(** Push a special record; it goes in as any other record does. *)
Definition push_special (r : ring) (now seq type arg1 : Z) : option (Z * push_result record) :=
  let p := push_begin r in
  let x := with_seqnum (_recs r !!! Z.to_nat p) seq in
  let x := mkRecord (r_area x) now (r_seqnum x) (r_section x) (r_argtype x) (r_argval x) in
  x ← make_special x type arg1 0;
  Some (p, push_commit (write_slot r p x)).

Definition is_acked (p : Z) (r : ring) : bool := acked (_recs r !!! Z.to_nat p).

(** The common protocol; [early] tells that the caller does not wait for the
    acknowledgement.  A push that finds the ring full again does not happen:
    the caller holds the ring; it is [None] here. *)
Definition do_special (fuel : nat) (early : bool) (r : ring) (now type arg1 usec : Z)
  : option (bool * ring * nat) :=
  let '(seq, r) := inc_seqnum r in
  '(ok, r, to, k) ← poll fuel (fun r => negb (room r =? 0)) 0 r 0 usec;
  if negb (ok : bool) then Some (false, r, k)
  else
    '(p, res) ← push_special r now seq type arg1;
    match res with
    | Pushed r =>
        if early then Some (true, r, k)
        else '(ok, r, _, k) ← poll fuel (is_acked p) k r to usec; Some (ok, r, k)
    | _ => None
    end.

(* src: src/flush.cc 56-98 do_flush, flush *)
Definition flush (fuel : nat) (r : ring) (now usec : Z) : option (bool * ring * nat) :=
  do_special fuel false r now SPR_FLUSH 0 usec.

(* src: src/timesource.cc 54-106 do_change_timesource, change_timesource *)
Definition change_timesource (fuel : nat) (r : ring) (now ts usec : Z) : option (bool * ring * nat) :=
  do_special fuel (usec =? 0) r now SPR_TIMESOURCE_CHANGE ts usec.
End Waiting.

(** ** Posting is correct *)

Lemma recs_ok_lookup r p : ring_wf r -> recs_ok r -> 0 <= p <= _capacity r ->
  Z.of_nat (length (r_argval (_recs r !!! Z.to_nat p))) = record_tailroom r.
Proof.
  intros W [_ F] Hp; destruct (ring_wf_facts r W) as (n & Hn & Fa); pose proof (rf_len _ _ Fa).
  rewrite Forall_lookup in F; eapply F, list_lookup_lookup_total_lt; lia.
Qed.

Lemma recs_ok_write r p x : recs_ok r -> Z.of_nat (length (r_argval x)) = record_tailroom r ->
  recs_ok (write_slot r p x).
Proof. intros [T F] Hx; split; [exact T|]; now apply Forall_insert. Qed.

(** Filling the slot of the tail twice is filling it once. *)
Lemma write_slot_twice r p (x y : record) : write_slot (write_slot r p x) p y = write_slot r p y.
Proof. unfold write_slot, set_recs; cbn; now rewrite list_insert_insert_eq. Qed.

Lemma write_slot_get r p (x : record) : ring_wf r -> 0 <= p <= _capacity r ->
  _recs (write_slot r p x) !!! Z.to_nat p = x.
Proof.
  intros W Hp; destruct (ring_wf_facts r W) as (n & Hn & F); pose proof (rf_len _ _ F).
  apply list_lookup_total_insert_eq; lia.
Qed.

Lemma inc_seqnum_wf (r : ring) : ring_wf r -> ring_wf (snd (inc_seqnum r)).
Proof. intros W; apply (ring_wf_config r); [done | repeat split | apply W | apply W]. Qed.

(** Filling a record with arguments, one way or the other. *)
Lemma fill_args_ok m ap0 x tailroom args :
  mem_ok m -> (length args <= 16)%nat -> Forall arg_wf args -> pack_wf ap0 ->
  128 <= tailroom < 4294967296 -> Z.of_nat (length (r_argval x)) = tailroom ->
  exists y, (if snd (Args.populate ap0 args) =? 0 then set_args m x tailroom args
             else set_args_pack m x tailroom (fst (Args.populate ap0 args))) = Some y /\
    length (r_argval y) = length (r_argval x) /\
    y = with_argval (with_argtype x (r_argtype y)) (r_argval y) /\
    forall j a, args !! j = Some a ->
      args_spec m tailroom (arg_span args * 8) args !! j = Some (view y (Z.of_nat j)).
Proof.
  intros Hm Hn Hw Hp Ht Hl; destruct (Z.eqb_spec (snd (Args.populate ap0 args)) 0) as [E|E].
  - assert (S : Forall (fun a => is_simple (a_type a) = true) args) by (eapply populate_zero, E).
    destruct (set_args_simple_ok m x tailroom args) as (y & Ey & Ly & Fy & Vy); auto; [lia|].
    exists y; do 3 (split; [done|]); intros j a Ha.
    destruct (args_spec_lookup m tailroom args (arg_span args * 8) j a Ha) as [rm ->].
    rewrite (Vy j a Ha); do 2 f_equal; apply arg_spec_simple; rewrite Forall_lookup in S; eauto.
  - destruct (set_args_pack_ok m x tailroom ap0 args) as (y & Ey & Ly & Fy & Vy); auto.
    exists y; do 3 (split; [done|]); intros j a Ha; apply (Vy j a Ha).
Qed.

(** A record pushed by hand: [push] of Ring, on the slot as it was left. *)
Lemma push_refill (r : ring) x y : ring_wf r ->
  push_commit (write_slot (write_slot r (push_begin r) x) (push_begin r) y) = push r y.
Proof. intros W; unfold push; now rewrite write_slot_twice. Qed.

Lemma push_args_eq m ap0 r now a s args :
  mem_ok m -> (length args <= 16)%nat -> Forall arg_wf args -> pack_wf ap0 ->
  ring_wf r -> recs_ok r ->
  exists x, r_area x = Some a /\ r_timestamp x = now /\ r_seqnum x = _seqnum r mod 2 ^ 52 /\
    r_section x = s mod 2 ^ 12 /\ Z.of_nat (length (r_argval x)) = record_tailroom r /\
    (forall j b, args !! j = Some b ->
       args_spec m (record_tailroom r) (arg_span args * 8) args !! j = Some (view x (Z.of_nat j))) /\
    push_args m ap0 r now a s args = Some (push (snd (inc_seqnum r)) x).
Proof.
  intros Hm Hn Hw Hp W O; pose proof (push_begin_tail r W) as Ep.
  set (x0 := stamp (_recs r !!! Z.to_nat (_tail r)) now (_seqnum r) a s).
  assert (L0 : Z.of_nat (length (r_argval x0)) = record_tailroom r)
    by (apply (recs_ok_lookup r); [done|done|apply W]).
  destruct (fill_args_ok m ap0 x0 (record_tailroom r) args) as (y & Ey & Ly & Fy & Vy); auto; [apply O|].
  exists y; rewrite Fy; cbn [r_area r_timestamp r_seqnum r_section with_argval with_argtype].
  do 4 (split; [done|]); split; [cbn; lia|]; split.
  { intros j b Hj; rewrite <- Fy; now apply (Vy j b). }
  unfold push_args, begin_unlocked; destruct (Args.populate ap0 args) as [ap k]; cbn [snd fst] in Ey.
  cbn [inc_seqnum]; rewrite Ep; pose proof (inc_seqnum_wf r W) as W1; cbn in W1.
  change (record_tailroom (write_slot (set_seqnum r (_seqnum r +u64 1)) (_tail r) _)) with (record_tailroom r).
  change (_recs (set_seqnum r _)) with (_recs r); fold x0.
  rewrite write_slot_get by (done || apply W); rewrite Ey; cbn [mbind option_bind].
  do 2 f_equal; unfold finish_unlocked; rewrite <- Fy.
  cbn [snd inc_seqnum]; rewrite <- (push_refill _ x0 y W1), (push_begin_tail _ W1); reflexivity.
Qed.

(** C9: Posting does nothing when the section is disabled.  When it is enabled
    the record gets the next sequence number of the ring, the time, area and
    section it was posted with and arguments that read back as specified, and
    is either appended to the ring, or, on a full ring, dropped and counted
    (the caller of a blocking ring waits); the sequence number is used up in
    every case, and the records already in the ring are untouched. *)
Theorem post_correct m ap0 r ar now a s args :
  mem_ok m -> (length args <= 16)%nat -> Forall arg_wf args -> pack_wf ap0 ->
  ring_wf r -> recs_ok r -> area_ok ar -> 0 <= s < area_count ar ->
  (area_test ar s = Some false /\ post m ap0 r ar now a s args = Some Skipped) \/
  exists x res, area_test ar s = Some true /\ post m ap0 r ar now a s args = Some (Posted res) /\
    r_area x = Some a /\ r_timestamp x = now /\ r_seqnum x = _seqnum r mod 2 ^ 52 /\
    r_section x = s mod 2 ^ 12 /\
    (forall j b, args !! j = Some b ->
       args_spec m (record_tailroom r) (arg_span args * 8) args !! j = Some (view x (Z.of_nat j))) /\
    match res with
    | Pushed r' => size r < _capacity r /\ ring_wf r' /\ contents r' = contents r ++ [x] /\
        _seqnum r' = u64 (_seqnum r + 1) /\ _dropcnt r' = _dropcnt r
    | Dropped r' => size r = _capacity r /\ blocking r = false /\ ring_wf r' /\
        contents r' = contents r /\ _seqnum r' = u64 (_seqnum r + 1) /\
        _dropcnt r' = u64 (_dropcnt r + 1)
    | MustBlock => size r = _capacity r /\ blocking r = true
    end.
Proof.
  intros Hm Hn Hw Hp W O Oa Hs; unfold post; rewrite (area_test_bit ar s Oa Hs); cbn [mbind option_bind].
  destruct (bm_bit (a_bitmap ar) s); [right | now left].
  destruct (push_args_eq m ap0 r now a s args) as (x & A1 & A2 & A3 & A4 & _ & A5 & E); auto.
  exists x; rewrite E; cbn [mbind option_bind]; eexists; do 2 (split; [done|]).
  do 5 (split; [done|]); pose proof (inc_seqnum_wf r W) as W1.
  destruct (push_cases (snd (inc_seqnum r)) x W1) as [(S & r' & -> & Wr & _ & Ct & D & Sq & _)
    |[(S & B & r' & -> & Wr & _ & Ct & D & Sq & _) | (S & B & ->)]].
  - cbn in D, Sq; do 2 (split; [done|]); split; [exact Ct | done].
  - cbn in D, Sq; do 3 (split; [done|]); split; [exact Ct | done].
  - done.
Qed.

(** ** Waiting terminates, and says what happened *)

(** The most a caller sleeps: once per started millisecond of its timeout. *)
Definition max_sleeps (usec : Z) : nat := Z.to_nat ((usec + 999) / 1000).

(** The ring after [n] sleeps, the first of which is the [k]-th. *)
Fixpoint elapse (env : nat -> ring -> ring) (k n : nat) (r : ring) : ring :=
  match n with O => r | S n => elapse env (S k) n (env k r) end.

Section WaitingSpec.
Variable env : nat -> ring -> ring.

(** Polling ends at the first ring that is ready, or when the time is used. *)
Lemma poll_spec fuel ready k r (n : nat) usec :
  is_u32 usec -> (max_sleeps usec - n < fuel)%nat -> (n <= max_sleeps usec)%nat ->
  exists d : nat, let r' := elapse env k d r in
    poll env fuel ready k r (1000 * Z.of_nat n) usec = Some (ready r', r', 1000 * Z.of_nat (n + d), (k + d)%nat) /\
    (n + d <= max_sleeps usec)%nat /\ (ready r' = false -> (n + d)%nat = max_sleeps usec) /\
    (forall j, (j < d)%nat -> ready (elapse env k j r) = false).
Proof.
  unfold is_u32; revert k r n; induction fuel as [|fuel IH]; intros k r n Hu Hf Hn; [lia|]; cbn [poll].
  destruct (ready r) eqn:Rd.
  { exists 0%nat; cbn [elapse]; rewrite Rd, !Nat.add_0_r; do 3 (split; [done|]); lia. }
  destruct (Z.leb_spec usec (1000 * Z.of_nat n)) as [L|L].
  { assert (n = max_sleeps usec) as E by (unfold max_sleeps in *; Z.div_mod_to_equations; lia).
    exists 0%nat; cbn [elapse]; rewrite Rd, !Nat.add_0_r; do 3 (split; [done|]); lia. }
  assert (n < max_sleeps usec)%nat by (unfold max_sleeps in *; Z.div_mod_to_equations; lia).
  rewrite u64_small by (words; lia); replace (1000 * Z.of_nat n + 1000) with (1000 * Z.of_nat (S n)) by lia.
  destruct (IH (S k) (env k r) (S n)) as (d & E & B & F & P); [done|lia|lia|].
  exists (S d); cbn [elapse]; replace (n + S d)%nat with (S n + d)%nat by lia; replace (k + S d)%nat with (S k + d)%nat by lia.
  do 3 (split; [done|]); intros [|j] Hj; [exact Rd|apply P; lia].
Qed.

Lemma make_special_ok x type arg1 : 128 <= Z.of_nat (length (r_argval x)) < 4294967296 ->
  exists y, make_special x type arg1 0 = Some y /\ length (r_argval y) = length (r_argval x) /\
    is_special y = true /\ acked y = false /\ r_argtype y = u64 type /\
    r_seqnum y = r_seqnum x /\ r_timestamp y = r_timestamp x /\ get_arg_val64 y 1 = u64 arg1.
Proof.
  intros Hl; unfold make_special; set (x0 := with_section _ _).
  destruct (set_arg_val64_get x0 0 0) as (r1 & E1 & F1 & L1 & V1 & _); [lia|done|].
  rewrite E1; cbn [mbind option_bind]; assert (length (r_argval x0) = length (r_argval x)) by done.
  destruct (set_arg_val64_get r1 1 arg1) as (r2 & E2 & F2 & L2 & V2 & K2); [lia|lia|].
  rewrite E2; cbn [mbind option_bind].
  destruct (set_arg_val64_get r2 2 0) as (r3 & E3 & F3 & L3 & V3 & K3); [lia|lia|].
  exists r3; split; [done|]; split; [lia|].
  split; [rewrite F3, F2, F1; reflexivity|].
  split; [unfold acked; rewrite K3, K2, V1 by lia; reflexivity|].
  do 3 (split; [rewrite F3, F2, F1; reflexivity|]); rewrite K3, V2 by lia; reflexivity.
Qed.

Lemma room_zero (r : ring) : ring_wf r -> room r = 0 <-> size r = _capacity r.
Proof.
  intros W; destruct (ring_wf_facts r W) as (n & Hn & F); rewrite Hn, <- (full_iff r n F), (room_eq r n F).
  pose proof (rf_n _ _ F); pose proof (rf_head _ _ F); pose proof (rf_tail _ _ F); split; [|intros ->].
  - intros E; apply Z.mod_divide in E as [q Hq]; [|lia]; assert (q = 0) by nia; subst; lia.
  - rewrite Z.sub_diag; apply Z.mod_0_l; lia.
Qed.

(** What a special record is like when it enters the ring. *)
Record fresh_special (x : record) (now seq type arg1 : Z) : Prop := {
  fs_special : is_special x = true;
  fs_unacked : acked x = false;
  fs_type : r_argtype x = u64 type;
  fs_seqnum : r_seqnum x = seq mod 2 ^ 52;
  fs_timestamp : r_timestamp x = now;
  fs_arg1 : get_arg_val64 x 1 = u64 arg1 }.

Lemma push_special_ok (r : ring) now seq type arg1 : ring_wf r -> recs_ok r -> room r <> 0 ->
  exists x r', push_special r now seq type arg1 = Some (_tail r, Pushed r') /\ push r x = Pushed r' /\
    fresh_special x now seq type arg1 /\ contents r' = contents r ++ [x] /\ _recs r' !!! Z.to_nat (_tail r) = x.
Proof.
  intros W O Hr; unfold push_special; rewrite (push_begin_tail r W).
  set (x0 := mkRecord _ now _ _ _ _).
  assert (L : Z.of_nat (length (r_argval x0)) = record_tailroom r)
    by (apply (recs_ok_lookup r); [done|done|apply W]).
  destruct (make_special_ok x0 type arg1) as (y & Ey & Ly & A1 & A2 & A3 & A4 & A5 & A6); [rewrite L; apply O|].
  rewrite Ey; cbn [mbind option_bind].
  assert (S : size r <> _capacity r) by (rewrite <- room_zero; done).
  destruct (push_cases r y W) as [(_ & r' & E & _ & _ & Ct & _)|[(? & _)|(? & _)]]; [|done|done].
  exists y, r'; pose proof E as E'; unfold push in E'; rewrite (push_begin_tail r W) in E'; rewrite E'.
  split; [done|]; split; [exact E|]; split; [split; rewrite ?A4, ?A5; done|]; split; [exact Ct|].
  destruct (ring_wf_facts r W) as (n & Hn & F); pose proof (rf_len _ _ F); pose proof (rf_tail _ _ F).
  unfold push_commit in E'; cbn [_head _tail write_slot set_recs] in E'; destruct (_head r =? _tail r); [now destruct (negb _)|].
  injection E' as <-; cbn; apply list_lookup_total_insert_eq; lia.
Qed.

Hypothesis env_ok : forall k r, ring_wf r -> recs_ok r -> ring_wf (env k r) /\ recs_ok (env k r).

Lemma poll_ok fuel ready k r to usec res : ring_wf r -> recs_ok r ->
  poll env fuel ready k r to usec = Some res -> ring_wf (res.1.1.2) /\ recs_ok (res.1.1.2).
Proof.
  revert k r to; induction fuel as [|fuel IH]; intros k r to W O; cbn [poll]; [done|].
  destruct (ready r); [intros [= <-]; done|]; destruct (usec <=? to); [intros [= <-]; done|].
  destruct (env_ok k r W O); apply IH; done.
Qed.

(** The outcome of the whole protocol: the ring [r0] in which the caller has
    taken its sequence number, after [k1] sleeps the ring [r1] that has room or
    time is up, then the ring [r2] with the record and, after [k] sleeps in all,
    the ring that is returned. *)
Definition special_outcome (early : bool) (r0 : ring) (now seq type arg1 usec : Z) (k1 k : nat) (res : option (bool * ring * nat)) : Prop :=
  let r1 := elapse env 0 k1 r0 in
  (k1 <= k <= max_sleeps usec)%nat /\ (forall j, (j < k1)%nat -> room (elapse env 0 j r0) = 0) /\
  if room r1 =? 0 then res = Some (false, r1, k1) /\ k = k1 /\ k1 = max_sleeps usec
  else exists x r2, fresh_special x now seq type arg1 /\ push r1 x = Pushed r2 /\ contents r2 = contents r1 ++ [x] /\
    let slot := Z.to_nat (_tail r1) in _recs r2 !!! slot = x /\
    if early then res = Some (true, r2, k1) /\ k = k1
    else let r3 := elapse env k1 (k - k1) r2 in
      res = Some (acked (_recs r3 !!! slot), r3, k) /\
      (acked (_recs r3 !!! slot) = false -> k = max_sleeps usec) /\
      (forall j, (j < k - k1)%nat -> acked (_recs (elapse env k1 j r2) !!! slot) = false).

Lemma do_special_ok fuel early (r : ring) now type arg1 usec :
  ring_wf r -> recs_ok r -> is_u32 usec -> (max_sleeps usec < fuel)%nat ->
  exists k1 k, special_outcome early (snd (inc_seqnum r)) now (_seqnum r) type arg1 usec k1 k
    (do_special env fuel early r now type arg1 usec).
Proof.
  intros W O Hu Hf; unfold do_special, special_outcome; cbv zeta; cbn [inc_seqnum snd].
  pose proof (inc_seqnum_wf r W) as W1; cbn in W1; set (r0 := set_seqnum r _) in *.
  destruct (poll_spec fuel (fun r => negb (room r =? 0)) 0 r0 0 usec Hu) as (k1 & E & B & F & P); [lia|lia|].
  change (1000 * Z.of_nat 0) with 0 in E; rewrite E; cbn [mbind option_bind]; rewrite !Nat.add_0_l in *.
  destruct (poll_ok _ _ _ _ _ _ _ W1 O E) as [Wp Op]; cbn [fst snd] in Wp, Op; set (r1 := elapse env 0 k1 r0) in *.
  assert (P' : forall j, (j < k1)%nat -> room (elapse env 0 j r0) = 0).
  { intros j Hj; specialize (P j Hj); now apply negb_false_iff, Z.eqb_eq in P. }
  exists k1; fold r1; destruct (Z.eqb_spec (room r1) 0) as [Z0|N0]; cbn [negb].
  - exists k1; split; [lia|]; split; [exact P'|]; do 2 (split; [done|]); now apply F.
  - destruct (push_special_ok r1 now (_seqnum r) type arg1 Wp Op N0) as (x & r2 & Es & Ep & Fs & Ct & Sl).
    rewrite Es; cbn [mbind option_bind]; destruct early.
    + exists k1; split; [lia|]; split; [exact P'|]; exists x, r2; done.
    + destruct (poll_spec fuel (is_acked (_tail r1)) k1 r2 k1 usec Hu) as (d & E2 & B2 & F2 & P2); [lia|lia|].
      rewrite E2; cbn [mbind option_bind]; exists (k1 + d)%nat; split; [lia|]; split; [exact P'|]; exists x, r2.
      do 4 (split; [done|]); replace (k1 + d - k1)%nat with d by lia; done.
Qed.
End WaitingSpec.

(** C39: [flush] always returns, after at most one sleep per started
    millisecond of its timeout over both of its waits, whatever the other
    threads do to the ring during the sleeps, as long as it stays a well-formed
    ring.  It waits while the ring has no room, and no longer.  When there is
    none before the time is up it returns false and has pushed nothing.  Otherwise it pushes one flush record, not yet
    acknowledged and with the sequence number it took at first, behind
    everything that is in the ring, and then waits, no longer than needed, for
    the acknowledgement in the slot of that very record: the result says
    whether it is there, and it is false only when the whole time is used.  The
    ring it leaves is the one the others made of the ring it pushed to. *)
Theorem flush_correct env fuel (r : ring) now usec :
  (forall k r, ring_wf r -> recs_ok r -> ring_wf (env k r) /\ recs_ok (env k r)) ->
  ring_wf r -> recs_ok r -> is_u32 usec -> (max_sleeps usec < fuel)%nat ->
  let r0 := snd (inc_seqnum r) in
  exists k1 k, let r1 := elapse env 0 k1 r0 in
    (k1 <= k <= max_sleeps usec)%nat /\ (forall j, (j < k1)%nat -> room (elapse env 0 j r0) = 0) /\
    (room r1 = 0 -> flush env fuel r now usec = Some (false, r1, k) /\ k = k1 /\ k = max_sleeps usec) /\
    (room r1 <> 0 -> exists x r2, fresh_special x now (_seqnum r) SPR_FLUSH 0 /\ push r1 x = Pushed r2 /\
       contents r2 = contents r1 ++ [x] /\
       let slot := Z.to_nat (_tail r1) in let r3 := elapse env k1 (k - k1) r2 in
       _recs r2 !!! slot = x /\ flush env fuel r now usec = Some (acked (_recs r3 !!! slot), r3, k) /\
       (acked (_recs r3 !!! slot) = false -> k = max_sleeps usec) /\
       (forall j, (j < k - k1)%nat -> acked (_recs (elapse env k1 j r2) !!! slot) = false)).
Proof.
  intros He W O Hu Hf r0; cbv zeta; unfold flush.
  destruct (do_special_ok env He fuel false r now SPR_FLUSH 0 usec W O Hu Hf) as (k1 & k & B & P & S).
  exists k1, k; split; [exact B|]; split; [exact P|]; cbv zeta in S; fold r0 in S; destruct (Z.eqb_spec (room (elapse env 0 k1 r0)) 0) as [Z0|N0].
  - split; [|done]; intros _; destruct S as (E & -> & M); done.
  - split; [done|]; intros _; destruct S as (x & r2 & A1 & A2 & A3 & A4 & A5 & A6 & A7); exists x, r2; done.
Qed.

(** When the ring stays full until the timeout of a change of the time
    source, the call fails with nothing pushed and nothing counted as dropped,
    yet a sequence number of the ring is used up: the next record leaves a gap,
    which the engine reports as a dropped record that never existed. *)
Theorem change_timesource_timeout fuel (r : ring) now ts usec :
  ring_wf r -> recs_ok r -> is_u32 usec -> (max_sleeps usec < fuel)%nat -> room r = 0 ->
  exists r', change_timesource (fun _ r => r) fuel r now ts usec = Some (false, r', max_sleeps usec) /\
    contents r' = contents r /\ _seqnum r' = u64 (_seqnum r + 1) /\ _dropcnt r' = _dropcnt r.
Proof.
  intros W O Hu Hf Hr; unfold change_timesource, do_special; cbn [inc_seqnum].
  set (r0 := set_seqnum r _).
  assert (P : forall fuel k to res, poll (fun _ r => r) fuel (fun r => negb (room r =? 0)) k r0 to usec = Some res ->
    exists to' k', res = (false, r0, to', k')).
  { clear Hf; intros fuel0; induction fuel0 as [|f IH]; intros k to res; cbn [poll]; [done|].
    change (room r0) with (room r); rewrite Hr; cbn.
    destruct (usec <=? to); [intros [= <-]; eauto | apply IH]. }
  destruct (poll_spec (fun _ r => r) fuel (fun r => negb (room r =? 0)) 0 r0 0 usec Hu) as (d & E & _ & F & _); [lia|lia|].
  change (1000 * Z.of_nat 0) with 0 in E; destruct (P _ _ _ _ E) as (to' & k' & X); rewrite E; injection X as N1 R1 _ _.
  rewrite N1, R1; cbn [mbind option_bind negb]; specialize (F N1); cbn in F; subst d; exists r0; auto.
Qed.

(** *** Witnesses *)

(** A ring of four slots of 256 bytes. *)
Definition demo_ring (flags tail : Z) : ring :=
  mkRing "R" flags 0 8 224 3 1 false 0 tail 5 0 3 (replicate 4 (demo_record 224)).

Lemma demo_ring_wf flags tail : 0 <= tail <= 3 -> ring_wf (demo_ring flags tail).
Proof. intros; split; cbn; [exists 2; cbn; lia | lia | lia]. Qed.

Lemma demo_ring_ok flags tail : recs_ok (demo_ring flags tail).
Proof. split; [cbn; lia|]; repeat (apply Forall_cons; split; [reflexivity|]); constructor. Qed.

Definition demo_enabled : area :=
  match area_enable demo_area 1 true with Some a => a | None => demo_area end.

Lemma demo_enabled_ok : area_ok demo_enabled.
Proof.
  destruct (area_set_spec demo_area 1 true demo_area_ok) as (a' & E & O & _); [cbn; lia|].
  unfold demo_enabled, area_enable; now rewrite E.
Qed.

Lemma post_correct_witness :
  exists x r', post demo_mem demo_pack (demo_ring 0 0) demo_enabled 42 7 1 demo_args = Some (Posted (Pushed r')) /\
    contents r' = [x] /\ r_seqnum x = 5 /\ r_timestamp x = 42 /\ _seqnum r' = 6.
Proof.
  destruct (post_correct demo_mem demo_pack (demo_ring 0 0) demo_enabled 42 7 1 demo_args)
    as [(T & _)|(x & res & T & E & _ & B & C & _ & _ & D)].
  - apply demo_mem_ok.
  - cbn; lia.
  - apply demo_args_wf.
  - apply demo_pack_wf.
  - apply demo_ring_wf; lia.
  - apply demo_ring_ok.
  - apply demo_enabled_ok.
  - vm_compute; done.
  - vm_compute in T; discriminate.
  - destruct res as [r'|r'|].
    + destruct D as (_ & _ & Ct & Sq & _); exists x, r'; repeat split; try done.
    + destruct D as (S & _); vm_compute in S; discriminate.
    + destruct D as (S & _); vm_compute in S; discriminate.
Defined.

(** An engine that, at the second sleep, acknowledges the record in slot 0. *)
Definition demo_env (k : nat) (r : ring) : ring :=
  if decide (k = 1%nat) then
    match ack (_recs r !!! 0%nat) with Some x => write_slot r 0 x | None => r end
  else r.

Lemma demo_env_ok k r : ring_wf r -> recs_ok r -> ring_wf (demo_env k r) /\ recs_ok (demo_env k r).
Proof.
  intros W O; unfold demo_env; case_decide; [|done].
  destruct (ack (_recs r !!! 0%nat)) as [x|] eqn:E; [|done]; split.
  - apply (ring_wf_config r); [done | | apply W | apply W].
    unfold same_config, write_slot, set_recs; cbn; rewrite length_insert; repeat split.
  - apply recs_ok_write; [done|].
    pose proof (recs_ok_lookup r 0 W O ltac:(destruct W; lia)) as L.
    destruct (set_arg_val64_get (_recs r !!! Z.to_nat 0) 0 32383) as (y & Ey & _ & Ly & _);
      [lia | rewrite L; apply O |].
    change (Z.to_nat 0) with 0%nat in *; unfold ack in E; rewrite Ey in E; injection E as <-; rewrite Ly; exact L.
Qed.

Lemma flush_correct_witness :
  exists r' k, flush demo_env 20 (demo_ring 0 0) 42 10000 = Some (true, r', k) /\ (k <= 10)%nat /\
    exists r1 r2 x, room r1 <> 0 /\ fresh_special x 42 5 SPR_FLUSH 0 /\ push r1 x = Pushed r2 /\ r' = elapse demo_env 0 k r2.
Proof.
  destruct (flush_correct demo_env 20 (demo_ring 0 0) 42 10000)
    as (k1 & k & B & P & _ & T); [apply demo_env_ok | apply demo_ring_wf; lia | apply demo_ring_ok
    | words; lia | vm_compute; lia |].
  assert (k1 = 0%nat) as ->.
  { destruct k1; [done|]; specialize (P 0%nat ltac:(lia)); vm_compute in P; discriminate. }
  destruct T as (x & r2 & A1 & A2 & A3 & A4 & A5 & _); [vm_compute; discriminate|]; rewrite Nat.sub_0_r in *.
  set (ok := acked _) in A5; assert (X : option_map (fun q => q.1.1) (flush demo_env 20 (demo_ring 0 0) 42 10000) = Some true)
      by (vm_compute; reflexivity).
  rewrite A5 in X; injection X as X; rewrite X in A5; exists (elapse demo_env 0 k r2), k; split; [exact A5|]; split; [apply B|].
  exists (elapse demo_env 0 0 (snd (inc_seqnum (demo_ring 0 0)))), r2, x; split; [vm_compute; discriminate|done].
Defined.

Lemma change_timesource_timeout_witness :
  exists r', change_timesource (fun _ r => r) 20 (demo_ring 0 3) 42 99 10000 = Some (false, r', 10%nat) /\
    contents r' = contents (demo_ring 0 3) /\ _seqnum r' = 6.
Proof.
  destruct (change_timesource_timeout 20 (demo_ring 0 3) 42 99 10000) as (r' & E & Ct & Sq & _);
    [apply demo_ring_wf; lia | apply demo_ring_ok | words; lia | vm_compute; lia | reflexivity |].
  exists r'; split; [exact E|]; split; [exact Ct | exact Sq].
Defined.
