(* ===== verification/Registry.v ===== *)
(** * The registries of the engine: areas, rings and the ring index
    (detail/engine.hpp, src/engine.cc, src/default-engine.cc)

    The state of the engine, and the operations that other threads call on it
    under its mutexes.  Ring objects live in a heap, keyed by their address; an
    area is identified by its name, since areas are never removed.  Messages an
    operation posts through the ring of its caller are part of its result. *)

From S2P Require Import Prelude Args Record Ring Area Timestamp Tso Post.

(** ** The state *)

(** What the engine hands to the output, in order: records, messages of its
    own, special records it has processed, and flushes of the output.  The
    arguments of a message are numbers, or the name of the time source at an
    address. *)
Inductive inject_arg := ArgNum (n : Z) | ArgName (ts : Z).

Inductive event :=
  | EvRecord (ring : string) (r : record)
  | EvInject (ring : string) (ts seq : Z) (sect : internal_section) (fmt : string) (arg0 arg1 : inject_arg)
  | EvSpecial (ring : string) (r : record)
  | EvFlush.

(** An entry of the ring index: the iterator with its ring, the last record
    processed and the sequence number expected next. *)
(* src: include/hogl/detail/engine.hpp 90-106 engine::ring_index *)
Record index_entry := mkIx {
  ix_ring : option Z; ix_pit : pop_iterator; ix_lastrec : option Z; ix_seqnum : Z }.

(* src: include/hogl/detail/engine.hpp 75-88 engine::stats *)
Record stats := mkStats {
  tso_full_cnt : Z; recs_out : Z; recs_dropped : Z; loops : Z; rings_indexed : Z;
  areas_added : Z; mask_changed : Z; timesource_changed : Z }.

(* src: include/hogl/detail/engine.hpp 54-73 engine::features, options *)
Record options := mkOptions {
  opt_polling_interval_usec : Z; opt_tso_buffer_capacity : Z; opt_features : Z; opt_timesource : option Z }.

Definition DISABLE_TSO : Z := 1.

Abbreviation heap := (gmap Z (ringbuf record)).

Section Registry.
Context `{Rx : Regex}.

(* src: include/hogl/detail/engine.hpp 108-167 engine *)
Record engine := mkEngine {
  e_heap : heap;
  e_rings : list (string * Z);            (* _ring_map *)
  e_index : list index_entry; e_dirty : bool;
  e_areas : list (string * area);         (* _area_map *)
  e_mask : list mask_data;
  e_tso : tsobuf Z; e_leftover : Z;
  e_stats : stats;
  e_timesource : Z;
  e_opts : options;
  e_trace : list event }.

Implicit Type e : engine.

Definition with_heap e (h : heap) : engine :=
  mkEngine h (e_rings e) (e_index e) (e_dirty e) (e_areas e) (e_mask e) (e_tso e) (e_leftover e)
    (e_stats e) (e_timesource e) (e_opts e) (e_trace e).
Definition with_rings e (m : list (string * Z)) (dirty : bool) : engine :=
  mkEngine (e_heap e) m (e_index e) dirty (e_areas e) (e_mask e) (e_tso e) (e_leftover e)
    (e_stats e) (e_timesource e) (e_opts e) (e_trace e).
Definition with_index e (l : list index_entry) (dirty : bool) : engine :=
  mkEngine (e_heap e) (e_rings e) l dirty (e_areas e) (e_mask e) (e_tso e) (e_leftover e)
    (e_stats e) (e_timesource e) (e_opts e) (e_trace e).
Definition with_areas e (m : list (string * area)) : engine :=
  mkEngine (e_heap e) (e_rings e) (e_index e) (e_dirty e) m (e_mask e) (e_tso e) (e_leftover e)
    (e_stats e) (e_timesource e) (e_opts e) (e_trace e).
Definition with_mask e (m : list mask_data) : engine :=
  mkEngine (e_heap e) (e_rings e) (e_index e) (e_dirty e) (e_areas e) m (e_tso e) (e_leftover e)
    (e_stats e) (e_timesource e) (e_opts e) (e_trace e).
Definition with_tso e (b : tsobuf Z) : engine :=
  mkEngine (e_heap e) (e_rings e) (e_index e) (e_dirty e) (e_areas e) (e_mask e) b (e_leftover e)
    (e_stats e) (e_timesource e) (e_opts e) (e_trace e).
Definition with_leftover e (n : Z) : engine :=
  mkEngine (e_heap e) (e_rings e) (e_index e) (e_dirty e) (e_areas e) (e_mask e) (e_tso e) n
    (e_stats e) (e_timesource e) (e_opts e) (e_trace e).
Definition with_stats e (s : stats) : engine :=
  mkEngine (e_heap e) (e_rings e) (e_index e) (e_dirty e) (e_areas e) (e_mask e) (e_tso e) (e_leftover e)
    s (e_timesource e) (e_opts e) (e_trace e).
Definition with_timesource e (ts : Z) : engine :=
  mkEngine (e_heap e) (e_rings e) (e_index e) (e_dirty e) (e_areas e) (e_mask e) (e_tso e) (e_leftover e)
    (e_stats e) ts (e_opts e) (e_trace e).
Definition emit e (ev : event) : engine :=
  mkEngine (e_heap e) (e_rings e) (e_index e) (e_dirty e) (e_areas e) (e_mask e) (e_tso e) (e_leftover e)
    (e_stats e) (e_timesource e) (e_opts e) (e_trace e ++ [ev]).

Definition put_ring e (p : Z) (r : ring) : engine := with_heap e (<[p := r]> (e_heap e)).

Definition bump_areas_added (s : stats) : stats :=
  mkStats (tso_full_cnt s) (recs_out s) (recs_dropped s) (loops s) (rings_indexed s)
    (areas_added s +u64 1) (mask_changed s) (timesource_changed s).
Definition bump_mask_changed (s : stats) : stats :=
  mkStats (tso_full_cnt s) (recs_out s) (recs_dropped s) (loops s) (rings_indexed s)
    (areas_added s) (mask_changed s +u64 1) (timesource_changed s).
Definition bump_rings_indexed (s : stats) : stats :=
  mkStats (tso_full_cnt s) (recs_out s) (recs_dropped s) (loops s) (rings_indexed s +u64 1)
    (areas_added s) (mask_changed s) (timesource_changed s).

(** Messages to the internal area, posted by the calling thread. *)
Record message := mkMessage { msg_section : internal_section; msg_fmt : string; msg_name : string }.

(** ** Areas *)

Definition internal_area_name : string := "HOGL".

(** The area whose sections say what the engine itself reports. *)
(* src: include/hogl/detail/engine.hpp 233-236 engine::internal_area *)
Definition internal_area e : option area := smap_find internal_area_name (e_areas e).

(* src: src/engine.cc 587-600 engine::find_area *)
Definition find_area e (name : string) : option area := smap_find name (e_areas e).

Definition smap_set {V} (k : string) (v : V) (m : list (string * V)) : list (string * V) :=
  map (fun kv => if decide (kv.1 = k) then (k, v) else kv) m.

(** The new area keeps its place in the map while the mask is applied to it. *)
(* src: src/engine.cc 602-640 engine::add_area *)
Definition add_area e (junk : Z -> Z) (name : string) (sections : option (list string))
  : option (engine * option string * list message) :=
  let na := area_new junk name sections in
  let '(m, inserted) := smap_insert name na (e_areas e) in
  let e := with_stats (with_areas e m) (bump_areas_added (e_stats e)) in
  if (inserted : bool) then
    a ← mask_apply (e_mask e) na;
    Some (with_areas e (smap_set name a (e_areas e)), Some name,
          [mkMessage I_AREA_DEBUG "new area %s(%p): number-of-sections %u" name])
  else
    match smap_find name (e_areas e) with
    | None => None
    | Some a =>
        if area_eq na a then Some (e, Some name, [])
        else Some (e, None, [mkMessage I_ERROR "failed to add area %s. already exists and is not reusable." name])
    end.

Fixpoint apply_all (m : list mask_data) (areas : list (string * area)) : option (list (string * area)) :=
  match areas with
  | [] => Some []
  | (k, a) :: areas => a ← mask_apply m a; areas ← apply_all m areas; Some ((k, a) :: areas)
  end.

(* src: src/engine.cc 753-765 engine::apply_mask *)
Definition apply_mask e (m : list mask_data) : option engine :=
  areas ← apply_all m (e_areas e);
  Some (with_stats (with_areas (with_mask e m) areas) (bump_mask_changed (e_stats e))).

(* src: src/engine.cc 767-779 engine::list_areas *)
Definition list_areas e : list string := map (fun kv => a_name (snd kv)) (e_areas e).

(** ** Rings *)

(** Dropping a reference to the ring at [p]; [None] is [abort()]. *)
Definition release_at e (p : Z) : option engine :=
  r ← e_heap e !! p;
  match release r with
  | Kept r => Some (put_ring e p r)
  | Deleted => Some (with_heap e (delete p (e_heap e)))
  | Aborted => None
  end.

Definition hold_at e (p : Z) : option engine :=
  r ← e_heap e !! p; Some (put_ring e p (hold r)).

(** [p] is the address the new ring is allocated at, [alloc] what the
    allocation of its buffers does. *)
(* src: src/engine.cc 642-696 engine::add_ring *)
Definition add_ring e (p : Z) (alloc : Z -> bool) (zero : record) (name : string) (opts : ring_options)
  : option (engine * option Z * list message) :=
  nr ← ringbuf_new alloc zero (e_timesource e) name opts;
  let nr := set_timesource (hold nr) (e_timesource e) in
  let e := put_ring e p nr in
  let '(m, inserted) := smap_insert name p (e_rings e) in
  q ← smap_find name m;
  e ← hold_at e q;
  if (inserted : bool) then
    Some (with_rings e m true, Some p,
          [mkMessage I_RING_DEBUG "new ring %s(%p): prio %u capacity %u record-size %u" name])
  else
    e ← release_at (with_rings e m (e_dirty e)) p;
    r ← e_heap e !! q;
    if shared r then Some (e, Some q, [])
    else if reusable r && (_refcnt r =? 2) then Some (e, Some q, [])
    else
      e ← release_at e q;
      Some (e, None, [mkMessage I_ERROR "failed to add ring %s. already exists and is not reusable." name]).

(* src: src/engine.cc 698-720 engine::add_ring *)
Definition add_ring_ptr e (p : Z) : option (engine * bool * list message) :=
  r ← e_heap e !! p;
  let '(m, inserted) := smap_insert (_name r) p (e_rings e) in
  if (inserted : bool) then
    Some (with_rings (put_ring e p (set_timesource (hold r) (e_timesource e))) m true, true, [])
  else
    Some (e, false, [mkMessage I_ERROR "failed to add ring %s. already exists." (_name r)]).

(* src: src/engine.cc 722-737 engine::find_ring *)
Definition find_ring e (name : string) : option (engine * option Z) :=
  match smap_find name (e_rings e) with
  | None => Some (e, None)
  | Some p => e ← hold_at e p; Some (e, Some p)
  end.

(* src: src/engine.cc 739-751 engine::list_rings *)
Definition list_rings e : option (list string) :=
  mapM (fun kv => r ← e_heap e !! snd kv; Some (_name r)) (e_rings e).

(** ** The ring index *)

Definition dead_iterator : pop_iterator := mkIter 0 0.

(* src: src/engine.cc 187-195 engine::ring_index::operator() *)
Fixpoint index_find (l : list index_entry) (p : Z) : option index_entry :=
  match l with
  | [] => None
  | ie :: l => if decide (ix_ring ie = Some p) then Some ie else index_find l p
  end.

(** The priority the index is sorted by, highest first. *)
Definition ring_prio (h : heap) (ie : index_entry) : Z :=
  match ix_ring ie with
  | Some p => match h !! p with Some r => _prio r | None => 0 end
  | None => 0
  end.

Definition new_entry (h : heap) (old : list index_entry) (p : Z) : option index_entry :=
  r ← h !! p;
  Some (mkIx (Some p) (it_reset r) None
          (match index_find old p with Some ie => ix_seqnum ie | None => 0 end)).

(* src: src/engine.cc 178-241 engine::rebuild_ring_index *)
Definition rebuild_ring_index `{forall key, StdSort index_entry key} e : option engine :=
  let e := with_stats e (bump_rings_indexed (e_stats e)) in
  ni ← mapM (fun kv => new_entry (e_heap e) (e_index e) (snd kv)) (e_rings e);
  Some (with_index e (std_sort (fun ie => - ring_prio (e_heap e) ie) ni) false).

(** [locked] tells whether [trylock] got the mutex.  The ring is found in the
    map by its name. *)
(* src: src/engine.cc 270-286 engine::kill_orphan *)
Definition kill_orphan e (locked : bool) (i : nat) (p : Z) : option engine :=
  if locked then
    r ← e_heap e !! p;
    ie ← e_index e !! i;
    let m := smap_erase (_name r) (e_rings e) in
    let ie := mkIx None dead_iterator (ix_lastrec ie) (ix_seqnum ie) in
    let e := with_index (with_rings e m (e_dirty e)) (<[i := ie]> (e_index e)) true in
    release_at e p
  else Some e.

(** ** Life of an engine *)

(* src: src/engine.cc 66-89 engine::add_internal_area *)
Definition new_internal_area (junk : Z -> Z) (m : list mask_data) : option area :=
  let a := area_new junk internal_area_name (Some internal_section_names) in
  a ← area_enable a (internal_id I_INFO) true;
  a ← area_enable a (internal_id I_WARN) true;
  a ← area_enable a (internal_id I_ERROR) true;
  a ← area_enable a (internal_id I_DROPMARK) true;
  a ← area_enable a (internal_id I_TSOFULLMARK) true;
  mask_apply m a.

(* src: src/engine.cc 93-134 engine::engine *)
Definition engine_new (junk : Z -> Z) (junk_tso : nat -> entry Z) (default_ts : Z)
    (opts : options) (m : list mask_data) : option engine :=
  a ← new_internal_area junk m;
  let ts := match opt_timesource opts with Some ts => ts | None => default_ts end in
  let n := if opt_tso_buffer_capacity opts =? 0 then 2048 else opt_tso_buffer_capacity opts in
  let tso := if Z.land (opt_features opts) DISABLE_TSO =? 0 then tso_resize junk_tso n
             else tso_resize junk_tso 1 in
  Some (mkEngine ∅ [] [] true [(internal_area_name, a)] m tso 0
          (mkStats 0 0 0 0 0 0 0 0) ts opts []).

Fixpoint release_all e (l : list (string * Z)) : option engine :=
  match l with
  | [] => Some e
  | (_, p) :: l => e ← release_at e p; release_all e l
  end.

(* src: src/engine.cc 136-156 engine::~engine *)
Definition engine_destroy e : option engine := release_all e (e_rings e).
End Registry.
