(* ===== verification/Engine.v ===== *)
(** * The engine thread (src/engine.cc)

    One pass of the engine over its rings, with and without timestamp
    ordering, call for call.  [None] is undefined behaviour: a null or dangling
    pointer, an access out of bounds, or [abort()].  The outcome of each
    [trylock] is given by a list of booleans, one for each attempt; when the
    list is used up the attempts fail. *)

From S2P Require Import Prelude Args Record Ring Area Timestamp Tso Post Registry.

Section Engine.
Context `{Rx : Regex}.
Context `{SortT : StdSort (entry Z) te_timestamp}.
Context `{SortI : forall key, StdSort index_entry key}.
Implicit Type e : engine.

(** ** Access *)

Definition index_at e (i : nat) : option index_entry := e_index e !! i.

(** The ring of an index entry, which is dereferenced without a test. *)
Definition ring_at e (i : nat) : option (Z * ring) :=
  ie ← index_at e i; p ← ix_ring ie; r ← e_heap e !! p; Some (p, r).

(** The record in a slot. *)
Definition record_at (r : ring) (p : Z) : option record := _recs r !! Z.to_nat p.

Definition set_index e (i : nat) (ie : index_entry) : engine :=
  with_index e (<[i := ie]> (e_index e)) (e_dirty e).

Definition bump_out (s : stats) : stats :=
  mkStats (tso_full_cnt s) (recs_out s +u64 1) (recs_dropped s) (loops s) (rings_indexed s)
    (areas_added s) (mask_changed s) (timesource_changed s).
Definition bump_dropped (s : stats) (n : Z) : stats :=
  mkStats (tso_full_cnt s) (recs_out s) (recs_dropped s +u64 n) (loops s) (rings_indexed s)
    (areas_added s) (mask_changed s) (timesource_changed s).
Definition bump_tso_full (s : stats) : stats :=
  mkStats (tso_full_cnt s +u64 1) (recs_out s) (recs_dropped s) (loops s) (rings_indexed s)
    (areas_added s) (mask_changed s) (timesource_changed s).
Definition bump_loops (s : stats) : stats :=
  mkStats (tso_full_cnt s) (recs_out s) (recs_dropped s) (loops s +u64 1) (rings_indexed s)
    (areas_added s) (mask_changed s) (timesource_changed s).
Definition bump_ts (s : stats) : stats :=
  mkStats (tso_full_cnt s) (recs_out s) (recs_dropped s) (loops s) (rings_indexed s)
    (areas_added s) (mask_changed s) (timesource_changed s +u64 1).

(** Whether a section of the internal area is enabled. *)
Definition reports e (s : internal_section) : option bool :=
  a ← internal_area e; area_test a (internal_id s).

(** ** Records going out *)

(** A report of the engine's own; the record that is built for the output is
    [inject_data] of Output. *)
Definition inject_record e (ring : string) (ts seq : Z) (sect : internal_section) (fmt : string)
    (arg0 arg1 : inject_arg) : engine :=
  emit e (EvInject ring ts seq sect fmt arg0 arg1).

Fixpoint set_timesources (h : heap) (ts : Z) (m : list (string * Z)) : option heap :=
  match m with
  | [] => Some h
  | (_, p) :: m => r ← h !! p; set_timesources (<[p := set_timesource r ts]> h) ts m
  end.

(* src: src/engine.cc 243-268 engine::switch_timesource *)
Definition switch_timesource e (r : ring) (x : record) : option engine :=
  let e := with_stats e (bump_ts (e_stats e)) in
  let ts := get_arg_val64 x 1 in
  let e := inject_record e (_name r) (r_timestamp x) (r_seqnum x) I_INFO
             "switching timesource from %s to %s" (ArgName (e_timesource e)) (ArgName ts) in
  let e := with_timesource e ts in
  h ← set_timesources (e_heap e) ts (e_rings e);
  Some (with_heap e h).

(* src: src/engine.cc 288-314 engine::flush_record *)
Definition flush_record e (i : nat) (slot : Z) : option engine :=
  '(p, r) ← ring_at e i;
  x ← record_at r slot;
  e ← (if is_special x then
         e ← (if r_argtype x =? SPR_TIMESOURCE_CHANGE then switch_timesource e r x else Some e);
         y ← ack x;
         r ← e_heap e !! p;
         Some (emit (put_ring e p (write_slot r slot y)) (EvSpecial (_name r) x))
       else Some (emit e (EvRecord (_name r) x)));
  Some (with_stats e (bump_out (e_stats e))).

(** ** Timestamp ordering *)

(** A sequence number that is not the expected one means records were lost:
    the engine reports how many, in front of the record. *)
Definition check_drop e (r : ring) (ie : index_entry) (x : record) : option engine :=
  if r_seqnum x =? ix_seqnum ie then Some e
  else
    let n := r_seqnum x -u64 ix_seqnum ie in
    on ← reports e I_DROPMARK;
    let e := if (on : bool)
             then inject_record e (_name r) (ts_sub Nsec (r_timestamp x) 1) 0 I_DROPMARK
                    "dropped %llu record(s)" (ArgNum n) (ArgNum 0)
             else e in
    Some (with_stats e (bump_dropped (e_stats e) n)).

(** One record taken out of the buffer: drop detection, bookkeeping, output. *)
Definition flush_entry e (te : entry Z) : option engine :=
  let i := te_tag te in
  let slot := te_rec te in
  '(p, r) ← ring_at e i;
  ie ← index_at e i;
  x ← record_at r slot;
  e ← check_drop e r ie x;
  let e := set_index e i (mkIx (ix_ring ie) (ix_pit ie) (Some slot) (r_seqnum x +u64 1)) in
  flush_record e i slot.

Fixpoint pop_loop (n : nat) e : option engine :=
  match n with
  | O => Some e
  | S n =>
      match tso_pop (e_tso e) with
      | None => Some e
      | Some (te, b) => e ← flush_entry (with_tso e b) te; pop_loop n e
      end
  end.

(* src: src/engine.cc 352-382 engine::do_flush_tso *)
Definition do_flush_tso e (size : Z) : option engine :=
  pop_loop (Z.to_nat size) (with_tso e (tso_sort (e_tso e))).

(* src: src/engine.cc 384-403 engine::flush_full_tso *)
Definition flush_full_tso e : option engine :=
  let size := tso_size (e_tso e) / 2 in
  on ← reports e I_TSOFULLMARK;
  e ← (if (on : bool) then
         te ← tso_top (e_tso e);
         '(_, r) ← ring_at e (te_tag te);
         x ← record_at r (te_rec te);
         Some (inject_record e "ENGINE" (ts_sub Nsec (r_timestamp x) 1) 0 I_TSOFULLMARK
                 "following records may be out of order" (ArgNum 0) (ArgNum 0))
       else Some e);
  e ← do_flush_tso e size;
  let e := with_tso (with_leftover e 0) (tso_flip (e_tso e)) in
  Some (with_stats e (bump_tso_full (e_stats e))).

(* src: src/engine.cc 405-421 engine::flush_tso *)
Definition flush_tso e : option engine :=
  let size := tso_size (e_tso e) in
  let keep := tb_capacity (e_tso e) / 8 in
  let size := if keep <? size then size - keep else 0 in
  let size := if size <? e_leftover e then e_leftover e else size in
  e ← (if size =? 0 then Some e else do_flush_tso e size);
  Some (with_tso (with_leftover e (tso_size (e_tso e))) (tso_reset (e_tso e))).

(** The loop over the records of one ring; [tso_ts] is the last timestamp used
    for this ring.  A ring never yields more records than it has slots. *)
Fixpoint read_ring (fuel : nat) e (i : nat) (tso_ts : Z) : option engine :=
  match fuel with
  | O => None
  | S fuel =>
      '(p, r) ← ring_at e i;
      ie ← index_at e i;
      match it_next r (ix_pit ie) with
      | None => Some e
      | Some (slot, it) =>
          let e := set_index e i (mkIx (ix_ring ie) it (ix_lastrec ie) (ix_seqnum ie)) in
          x ← record_at r slot;
          let ts := r_timestamp x in
          let ts := if ts <=? tso_ts then tso_ts +u64 1 else ts in
          b ← tso_push (e_tso e) (mkEntry ts slot i);
          let e := with_tso e b in
          e ← (if tso_full (e_tso e) then flush_full_tso e else Some e);
          read_ring fuel e i ts
      end
  end.

Definition next_lock (locks : list bool) : bool * list bool :=
  match locks with [] => (false, []) | l :: locks => (l, locks) end.

(** The end of the turn of a ring: an orphan without records is killed. *)
Definition check_orphan e (locks : list bool) (i : nat) : option (engine * list bool) :=
  '(p, r) ← ring_at e i;
  if orphan r && empty r then
    let '(l, locks) := next_lock locks in
    e ← kill_orphan e l i p; Some (e, locks)
  else Some (e, locks).

Definition ring_turn_tso e (locks : list bool) (i : nat) : option (engine * list bool) :=
  ie ← index_at e i;
  match ix_ring ie with
  | None => Some (e, locks)
  | Some p =>
      r ← e_heap e !! p;
      let e := set_index e i (mkIx (ix_ring ie) (it_reset r) (ix_lastrec ie) (ix_seqnum ie)) in
      e ← read_ring (S (Z.to_nat (capacity r))) e i 0;
      check_orphan e locks i
  end.

(** The head of a ring moves to the last record flushed, if there is one. *)
Definition commit_ring e (i : nat) : option engine :=
  ie ← index_at e i;
  match ix_lastrec ie, ix_ring ie with
  | Some slot, Some p =>
      r ← e_heap e !! p;
      let it := it_rewind r (ix_pit ie) slot in
      let r := set_block_active (it_commit r it) false in
      Some (set_index (put_ring e p r) i (mkIx (ix_ring ie) it None (ix_seqnum ie)))
  | _, _ => Some e
  end.

Fixpoint for_rings (f : engine -> list bool -> nat -> option (engine * list bool))
    (n i : nat) e (locks : list bool) : option (engine * list bool) :=
  match n with
  | O => Some (e, locks)
  | S n => '(e, locks) ← f e locks i; for_rings f n (S i) e locks
  end.

Definition commit_turn e (locks : list bool) (i : nat) : option (engine * list bool) :=
  e ← commit_ring e i; Some (e, locks).

(* src: src/engine.cc 423-487 engine::process_rings_tso *)
Definition process_rings_tso e (locks : list bool) : option (engine * list bool) :=
  '(e, locks) ← for_rings ring_turn_tso (length (e_index e)) 0 e locks;
  e ← flush_tso e;
  for_rings commit_turn (length (e_index e)) 0 e locks.

(** ** Without timestamp ordering *)

Fixpoint drain_ring (fuel : nat) e (i : nat) : option engine :=
  match fuel with
  | O => None
  | S fuel =>
      '(p, r) ← ring_at e i;
      ie ← index_at e i;
      match it_next r (ix_pit ie) with
      | None => Some e
      | Some (slot, it) =>
          let e := set_index e i (mkIx (ix_ring ie) it (ix_lastrec ie) (ix_seqnum ie)) in
          e ← flush_record e i slot;
          drain_ring fuel e i
      end
  end.

Definition ring_turn_notso e (locks : list bool) (i : nat) : option (engine * list bool) :=
  ie ← index_at e i;
  match ix_ring ie with
  | None => Some (e, locks)
  | Some p =>
      r ← e_heap e !! p;
      let e := set_index e i (mkIx (ix_ring ie) (it_reset r) (ix_lastrec ie) (ix_seqnum ie)) in
      e ← drain_ring (S (Z.to_nat (capacity r))) e i;
      r ← e_heap e !! p;
      ie ← index_at e i;
      let e := put_ring e p (set_block_active (it_commit r (ix_pit ie)) false) in
      check_orphan e locks i
  end.

(* src: src/engine.cc 489-512 engine::process_rings_notso *)
Definition process_rings_notso e (locks : list bool) : option (engine * list bool) :=
  for_rings ring_turn_notso (length (e_index e)) 0 e locks.

(** ** The loop *)

(* src: src/engine.cc 514-538 engine::process_rings *)
Definition process_rings e (locks : list bool) : option engine :=
  let e := with_stats e (bump_loops (e_stats e)) in
  '(e, locks) ←
    (if e_dirty e then
       let '(l, locks) := next_lock locks in
       if (l : bool) then e ← rebuild_ring_index e; Some (e, locks) else Some (e, locks)
     else Some (e, locks));
  '(e, _) ← (if Z.land (opt_features (e_opts e)) DISABLE_TSO =? 0
             then process_rings_tso e locks else process_rings_notso e locks);
  Some (emit e EvFlush).

(** Draining at the end of the engine's life: passes until no ring is left;
    [None] when [fuel] passes are not enough. *)
(* src: src/engine.cc 540-553 engine::drain_rings *)
Fixpoint drain_rings (fuel : nat) e (locks : nat -> list bool) : option engine :=
  match fuel with
  | O => None
  | S fuel =>
      e ← process_rings e (locks fuel);
      if negb (e_dirty e) && Nat.eqb (length (e_index e)) 0 then Some e
      else drain_rings fuel e locks
  end.
End Engine.
