(* ===== verification/EngineFacts.v ===== *)
(** * Well-formed engines, and what flushing one record does

    The invariant every operation of the registry and of the engine keeps, and
    the effect of the smallest steps of a pass of Engine. *)

From S2P Require Import Prelude Args Record Ring Area Timestamp Tso Post Registry Engine.

Section Facts.
Context `{Rx : Regex}.
Context `{SortT : StdSort (entry Z) te_timestamp}.
Context `{SortI : forall key, StdSort index_entry key}.
Implicit Type e : engine.

(** ** The invariant

    Registered rings exist under their name and the engine holds a reference
    to each; an entry of the index that has a ring has a registered one, and no
    two entries share a ring. *)
Record ring_ok (r : ring) : Prop := {
  rk_wf : ring_wf r; rk_recs : recs_ok r; rk_ref : 1 <= _refcnt r < 2147483648 }.

Record registry_ok e : Prop := {
  ro_sorted : smap_ok (e_rings e);
  ro_rings : forall n p, (n, p) ∈ e_rings e ->
    exists r, e_heap e !! p = Some r /\ _name r = n /\ ring_ok r;
  ro_index : forall i ie p, e_index e !! i = Some ie -> ix_ring ie = Some p ->
    exists n, (n, p) ∈ e_rings e;
  ro_distinct : forall i j ie je p, e_index e !! i = Some ie -> e_index e !! j = Some je ->
    ix_ring ie = Some p -> ix_ring je = Some p -> i = j }.

Lemma ro_keys e : registry_ok e -> NoDup (map fst (e_rings e)).
Proof. intros R; apply smap_ok_NoDup, R. Qed.

Definition internal_ok e : Prop :=
  exists a, internal_area e = Some a /\ area_ok a /\ area_count a = 9.

Lemma reports_total e s : internal_ok e -> exists b, reports e s = Some b.
Proof.
  intros (a & E & O & C); unfold reports; rewrite E; cbn [mbind option_bind].
  eexists; apply area_test_bit; [done|]; rewrite C; destruct s; cbn; lia.
Qed.

(** The ring of a valid entry. *)
Lemma ring_at_ok e i ie p : registry_ok e -> e_index e !! i = Some ie -> ix_ring ie = Some p ->
  exists r, ring_at e i = Some (p, r) /\ e_heap e !! p = Some r /\ ring_ok r.
Proof.
  intros R Ei Ep; destruct (ro_index _ R _ _ _ Ei Ep) as [n Hn].
  destruct (ro_rings _ R _ _ Hn) as (r & Er & _ & Ok); exists r.
  unfold ring_at, index_at; rewrite Ei; cbn; rewrite Ep; cbn; rewrite Er; done.
Qed.

(** ** Frames *)

(** What a step of the flush leaves alone. *)
Record frame e e' : Prop := {
  fr_rings : e_rings e' = e_rings e; fr_dirty : e_dirty e' = e_dirty e;
  fr_areas : e_areas e' = e_areas e; fr_mask : e_mask e' = e_mask e;
  fr_tso : e_tso e' = e_tso e; fr_leftover : e_leftover e' = e_leftover e;
  fr_opts : e_opts e' = e_opts e; fr_count : length (e_index e') = length (e_index e) }.

#[export] Instance frame_preorder : PreOrder frame.
Proof.
  split; [intros e; split; done|].
  intros a b c [] []; split; congruence.
Qed.

Lemma frame_internal e e' : frame e e' -> internal_ok e -> internal_ok e'.
Proof. intros F; unfold internal_ok, internal_area; now rewrite (fr_areas _ _ F). Qed.

(** A ring after a step: only the slots in [S] may hold another record. *)
Record ring_rel (S : Z -> Prop) (r r' : ring) : Prop := {
  rr_config : same_config r r';
  rr_head : _head r' = _head r; rr_tail : _tail r' = _tail r;
  rr_refcnt : _refcnt r' = _refcnt r;
  rr_ok : ring_ok r -> ring_ok r';
  rr_slots : forall s, 0 <= s -> ~ S s -> _recs r' !! Z.to_nat s = _recs r !! Z.to_nat s }.

Lemma ring_rel_refl S r : ring_rel S r r.
Proof. split; try done; reflexivity. Qed.

Lemma ring_rel_trans (S : Z -> Prop) r1 r2 r3 : ring_rel S r1 r2 -> ring_rel S r2 r3 -> ring_rel S r1 r3.
Proof.
  intros [C1 H1 T1 F1 O1 S1] [C2 H2 T2 F2 O2 S2]; split; try congruence; auto.
  - now transitivity r2.
  - intros; rewrite S2, S1; auto.
Qed.

Lemma ring_rel_weaken (S S' : Z -> Prop) r r' : (forall s, S s -> S' s) -> ring_rel S r r' -> ring_rel S' r r'.
Proof. intros HS []; split; auto. Qed.

Lemma ring_rel_timesource S (r : ring) ts : ring_rel S r (set_timesource r ts).
Proof.
  split; try done; intros [W O F]; split; [|exact O|exact F].
  apply (ring_wf_config r); [done | repeat split | apply W | apply W].
Qed.

Lemma ring_rel_write (r : ring) s (x : record) : 0 <= s ->
  Z.of_nat (length (r_argval x)) = record_tailroom r -> ring_rel (fun s' => s' = s) r (write_slot r s x).
Proof.
  intros Hs Hx; split; try done.
  - unfold same_config, write_slot, set_recs; cbn; rewrite length_insert; repeat split.
  - intros [W O F]; split; [|now apply recs_ok_write|exact F].
    apply (ring_wf_config r); [done | | apply W | apply W].
    unfold same_config, write_slot, set_recs; cbn; rewrite length_insert; repeat split.
  - intros s' Hs' Hne; unfold write_slot, set_recs; cbn.
    apply list_lookup_insert_ne; lia.
Qed.

(** The heap after a step: in the ring at [p] only slot [s] may change. *)
Definition heap_rel (p s : Z) (h h' : heap) : Prop :=
  forall q r, h !! q = Some r -> exists r', h' !! q = Some r' /\ ring_rel (fun s' => q = p /\ s' = s) r r'.

Lemma registry_ok_step e e' p s : registry_ok e -> frame e e' -> e_index e' = e_index e ->
  heap_rel p s (e_heap e) (e_heap e') -> registry_ok e'.
Proof.
  intros [K Rg I D] F Ei H; split; rewrite ?Ei, ?(fr_rings _ _ F); auto.
  intros n q Hn; destruct (Rg n q Hn) as (r & Er & En & Ok).
  destruct (H q r Er) as (r' & Er' & Rel); exists r'; split; [done|]; split; [|now apply (rr_ok _ _ _ Rel)].
  destruct (rr_config _ _ _ Rel) as (-> & _); done.
Qed.

(** ** Time sources *)

Lemma set_timesources_ok ts m : forall h, (forall n p, (n, p) ∈ m -> is_Some (h !! p)) ->
  exists h', set_timesources h ts m = Some h' /\
    forall q r, h !! q = Some r -> exists x, h' !! q = Some (set_timesource r x).
Proof.
  induction m as [|[n p] m IH]; intros h Hm; cbn [set_timesources].
  - exists h; split; [done|]; intros q r E; exists (_timesource r); rewrite E; now destruct r.
  - destruct (Hm n p) as [r Er]; [now constructor|]; rewrite Er; cbn [mbind option_bind].
    destruct (IH (<[p := set_timesource r ts]> h)) as (h' & E & H).
    { intros n' q Hq; destruct (decide (q = p)) as [->|N].
      - rewrite lookup_insert_eq; eauto.
      - rewrite lookup_insert_ne by done; apply (Hm n'); now constructor. }
    exists h'; split; [done|]; intros q r' Eq; destruct (decide (q = p)) as [->|N].
    + destruct (H p (set_timesource r ts)) as [x Ex]; [apply lookup_insert_eq|].
      exists x; rewrite Ex; rewrite Er in Eq; injection Eq as ->; done.
    + destruct (H q r') as [x Ex]; [now rewrite lookup_insert_ne|]; eauto.
Qed.

(** ** Events *)

(** The records an engine has sent out or processed. *)
Definition out_of (ev : event) : option (string * record) :=
  match ev with EvRecord n x | EvSpecial n x => Some (n, x) | _ => None end.
Definition outs e : list (string * record) := omap out_of (e_trace e).

Lemma outs_emit e ev : outs (emit e ev) = outs e ++ match out_of ev with Some o => [o] | None => [] end.
Proof. unfold outs; cbn; rewrite omap_app; cbn; destruct (out_of ev); done. Qed.

(** ** One record *)

Lemma switch_timesource_ok e p s r x : registry_ok e ->
  exists e', switch_timesource e r x = Some e' /\ frame e e' /\ e_index e' = e_index e /\
    heap_rel p s (e_heap e) (e_heap e') /\ outs e' = outs e /\
    recs_out (e_stats e') = recs_out (e_stats e) /\ recs_dropped (e_stats e') = recs_dropped (e_stats e) /\
    tso_full_cnt (e_stats e') = tso_full_cnt (e_stats e).
Proof.
  intros R; unfold switch_timesource; cbn.
  destruct (set_timesources_ok (get_arg_val64 x 1) (e_rings e) (e_heap e)) as (h & Eh & Hh).
  { intros n q Hn; destruct (ro_rings _ R _ _ Hn) as (r' & Er & _); eauto. }
  rewrite Eh; cbn; eexists; split; [reflexivity|]; split; [split; done|]; split; [done|].
  split; [|split; [unfold outs; cbn; rewrite omap_app; cbn; apply app_nil_r | done]].
  intros q r' Er; destruct (Hh q r' Er) as [t Et]; cbn; rewrite Et.
  eexists; split; [done|]; apply ring_rel_timesource.
Qed.

(** The number of records missing in front of one. *)
Definition gap (s : Z) (x : record) : Z := if r_seqnum x =? s then 0 else r_seqnum x -u64 s.

Lemma check_drop_ok e r ie x : internal_ok e ->
  exists e', check_drop e r ie x = Some e' /\ frame e e' /\ e_index e' = e_index e /\
    e_heap e' = e_heap e /\ outs e' = outs e /\
    recs_out (e_stats e') = recs_out (e_stats e) /\ tso_full_cnt (e_stats e') = tso_full_cnt (e_stats e) /\
    u64 (recs_dropped (e_stats e')) = u64 (recs_dropped (e_stats e) + gap (ix_seqnum ie) x).
Proof.
  intros I; unfold check_drop, gap; destruct (r_seqnum x =? ix_seqnum ie).
  - exists e; rewrite Z.add_0_r; repeat split; reflexivity.
  - destruct (reports_total e I_DROPMARK I) as [on ->]; cbn [mbind option_bind].
    eexists; split; [reflexivity|]; destruct on; cbn.
    all: split; [split; done|]; do 2 (split; [done|]);
      split; [unfold outs; cbn; rewrite ?omap_app; cbn; now rewrite ?app_nil_r|];
      do 2 (split; [done|]); unfold u64; now rewrite Z.mod_mod by lia.
Qed.

Lemma ack_ok x : 128 <= Z.of_nat (length (r_argval x)) < 4294967296 ->
  exists y, ack x = Some y /\ length (r_argval y) = length (r_argval x).
Proof.
  intros H; destruct (set_arg_val64_get x 0 32383) as (y & E & _ & L & _); [lia|done|]; eauto.
Qed.

Lemma flush_record_ok e i p r s x : registry_ok e ->
  ring_at e i = Some (p, r) -> 0 <= s -> record_at r s = Some x ->
  exists e', flush_record e i s = Some e' /\ registry_ok e' /\ frame e e' /\ e_index e' = e_index e /\
    heap_rel p s (e_heap e) (e_heap e') /\ outs e' = outs e ++ [(_name r, x)] /\
    recs_out (e_stats e') = u64 (recs_out (e_stats e) + 1) /\
    recs_dropped (e_stats e') = recs_dropped (e_stats e) /\
    tso_full_cnt (e_stats e') = tso_full_cnt (e_stats e).
Proof.
  intros R Er Hs Ex; unfold flush_record; rewrite Er; cbn [mbind option_bind]; rewrite Ex; cbn [mbind option_bind].
  assert (Ok : e_heap e !! p = Some r /\ ring_ok r).
  { unfold ring_at, index_at in Er; destruct (e_index e !! i) as [ie|] eqn:Ei; [|done]; cbn in Er.
    destruct (ix_ring ie) as [q|] eqn:Eq; [|done]; cbn in Er.
    destruct (ring_at_ok e i ie q R Ei Eq) as (r' & Er' & Hr & Ok).
    rewrite Hr in Er; cbn in Er; injection Er as -> ->; done. }
  destruct Ok as [Hp Ok].
  destruct (is_special x).
  - assert (S : exists e1, (if r_argtype x =? SPR_TIMESOURCE_CHANGE then switch_timesource e r x else Some e) = Some e1
      /\ frame e e1 /\ e_index e1 = e_index e /\ heap_rel p s (e_heap e) (e_heap e1) /\ outs e1 = outs e /\
      recs_out (e_stats e1) = recs_out (e_stats e) /\ recs_dropped (e_stats e1) = recs_dropped (e_stats e) /\
      tso_full_cnt (e_stats e1) = tso_full_cnt (e_stats e)).
    { destruct (r_argtype x =? SPR_TIMESOURCE_CHANGE); [now apply switch_timesource_ok|].
      exists e; split; [done|]; split; [reflexivity|]; split; [done|]; split; [|done].
      intros q r' Hq; exists r'; split; [done|apply ring_rel_refl]. }
    destruct S as (e1 & -> & F1 & I1 & H1 & O1 & S1 & S2 & S3); cbn [mbind option_bind].
    destruct (H1 p r Hp) as (r1 & Er1 & Rel1).
    assert (Lx : Z.of_nat (length (r_argval x)) = record_tailroom r).
    { destruct Ok as [_ [_ Fa] _]; rewrite Forall_lookup in Fa; exact (Fa _ _ Ex). }
    destruct (ack_ok x) as (y & -> & Ly); [rewrite Lx; apply Ok|]; cbn [mbind option_bind].
    rewrite Er1; cbn [mbind option_bind]; eexists; split; [reflexivity|].
    assert (Tr : record_tailroom r1 = record_tailroom r)
      by (destruct (rr_config _ _ _ Rel1) as (_ & _ & _ & _ & E & _); exact E).
    assert (H2 : heap_rel p s (e_heap e) (<[p := write_slot r1 s y]> (e_heap e1))).
    { intros q r' Hq; destruct (decide (q = p)) as [->|N].
      - rewrite lookup_insert_eq; eexists; split; [done|].
        rewrite Hp in Hq; injection Hq as <-.
        apply (ring_rel_trans _ r r1); [exact Rel1|].
        apply (ring_rel_weaken (fun s' => s' = s)); [auto|].
        apply ring_rel_write; [done | congruence].
      - rewrite lookup_insert_ne by done; apply H1, Hq. }
    split; [apply (registry_ok_step e _ p s); [done | | done | exact H2]|].
    { destruct F1; split; cbn; done. }
    split; [destruct F1; split; cbn; done|]; split; [done|]; split; [exact H2|].
    split; [|cbn; rewrite S1, S2, S3; done].
    transitivity (outs (emit (put_ring e1 p (write_slot r1 s y)) (EvSpecial (_name r1) x))); [done|].
    rewrite outs_emit; unfold outs in *; cbn; rewrite O1.
    destruct (rr_config _ _ _ Rel1) as (-> & _); done.
  - cbn [mbind option_bind]; eexists; split; [reflexivity|].
    assert (H2 : heap_rel p s (e_heap e) (e_heap e))
      by (intros q r' Hq; exists r'; split; [done|apply ring_rel_refl]).
    split; [apply (registry_ok_step e _ p s); [done | split; done | done | exact H2]|].
    split; [split; done|]; split; [done|]; split; [exact H2|]; split; [apply outs_emit|done].
Qed.

(** ** Killing an orphan *)

Lemma registered_name e p : registry_ok e -> (exists n, (n, p) ∈ e_rings e) ->
  exists r, e_heap e !! p = Some r /\ ring_ok r /\ (_name r, p) ∈ e_rings e.
Proof.
  intros R [n Hn]; destruct (ro_rings _ R _ _ Hn) as (r & Er & <- & Ok); eauto.
Qed.

Lemma registered_unique e n p p' : registry_ok e -> (n, p) ∈ e_rings e -> (n, p') ∈ e_rings e -> p = p'.
Proof.
  intros R H H'; apply (smap_find_elem _ _ _ (ro_keys _ R)) in H, H'; congruence.
Qed.

(** The ring leaves the map and the index, and the engine's reference, the
    last one, is dropped. *)
Lemma kill_orphan_ok e i ie p r : registry_ok e -> e_index e !! i = Some ie -> ix_ring ie = Some p ->
  e_heap e !! p = Some r -> orphan r = true ->
  exists e', kill_orphan e true i p = Some e' /\ registry_ok e' /\
    e_index e' = <[i := mkIx None dead_iterator (ix_lastrec ie) (ix_seqnum ie)]> (e_index e) /\
    e_rings e' = smap_erase (_name r) (e_rings e) /\ e_dirty e' = true /\
    e_areas e' = e_areas e /\ e_mask e' = e_mask e /\ e_tso e' = e_tso e /\ e_leftover e' = e_leftover e /\
    e_stats e' = e_stats e /\ e_trace e' = e_trace e /\ e_opts e' = e_opts e /\
    e_heap e' !! p = (if immortal r then Some (set_refcnt r 0) else None) /\
    forall q, q <> p -> e_heap e' !! q = e_heap e !! q.
Proof.
  intros R Hie Hp Hr Or; unfold orphan in Or; apply Z.eqb_eq in Or.
  destruct (registered_name e p R) as (r' & Hr' & _ & Hin); [now apply (ro_index _ R i ie)|].
  assert (r' = r) as -> by congruence.
  unfold kill_orphan; rewrite Hr; cbn [mbind option_bind]; rewrite Hie; cbn [mbind option_bind].
  unfold release_at; cbn [e_heap with_index with_rings]; rewrite Hr; cbn [mbind option_bind].
  unfold release, refcount_dec; rewrite Or; change (s32 (1 - 1)) with 0; cbn [Z.ltb Z.compare].
  change (immortal (set_refcnt r 0)) with (immortal r); change (destroy_ok (set_refcnt r 0)) with true.
  assert (Common : forall h, (forall q, q <> p -> h !! q = e_heap e !! q) ->
    registry_ok (with_heap (with_index (with_rings e (smap_erase (_name r) (e_rings e)) (e_dirty e))
      (<[i := mkIx None dead_iterator (ix_lastrec ie) (ix_seqnum ie)]> (e_index e)) true) h)).
  { intros h Hh; pose proof (ro_keys _ R) as K; destruct R as [Ks Rg I D]; split; cbn.
    - now apply smap_erase_ok.
    - intros n q Hn; apply (smap_erase_elem _ _ _ _ K) in Hn as [Hn Hne].
      destruct (Rg n q Hn) as (r2 & E2 & <- & Ok2); exists r2; split; [|done]; rewrite Hh; [done|].
      intros ->; congruence.
    - intros j je q Hj Hq; destruct (decide (j = i)) as [->|N].
      { rewrite list_lookup_insert_eq in Hj by (eapply lookup_lt_Some, Hie); now injection Hj as <-. }
      rewrite list_lookup_insert_ne in Hj by done; destruct (I j je q Hj Hq) as [n Hn]; exists n.
      apply (smap_erase_elem _ _ _ _ K); split; [done|]; intros ->; apply N.
      assert (q = p) as -> by (apply (smap_find_elem _ _ _ K) in Hn, Hin; congruence).
      apply (D j i je ie p); done.
    - intros j k je ke q Hj Hk Pj Pk; destruct (decide (j = i)) as [->|Nj].
      { rewrite list_lookup_insert_eq in Hj by (eapply lookup_lt_Some, Hie); now injection Hj as <-. }
      destruct (decide (k = i)) as [->|Nk].
      { rewrite list_lookup_insert_eq in Hk by (eapply lookup_lt_Some, Hie); now injection Hk as <-. }
      rewrite list_lookup_insert_ne in Hj, Hk by done; eapply (D j k); eauto. }
  destruct (immortal r); eexists; (split; [reflexivity|]).
  - assert (Hq : forall q, q <> p -> (<[p := set_refcnt r 0]> (e_heap e)) !! q = e_heap e !! q)
      by (intros; now apply lookup_insert_ne).
    split; [exact (Common _ Hq)|]; cbn; do 10 (split; [done|]); split; [apply lookup_insert_eq | exact Hq].
  - assert (Hq : forall q, q <> p -> (delete p (e_heap e)) !! q = e_heap e !! q)
      by (intros; now apply lookup_delete_ne).
    split; [exact (Common _ Hq)|]; cbn; do 10 (split; [done|]); split; [apply lookup_delete_eq | exact Hq].
Qed.
End Facts.
