(* ===== verification/Sample.v ===== *)
(** * Small engines for concrete instances

    Decision procedures for the invariants, and an engine with two rings that
    the concrete instances of the theorems run on. *)

From S2P Require Import Prelude Args Record Ring Area Timestamp Tso Post Registry Engine EngineFacts.

(** ** Deciding the invariants *)

Definition ring_check (r : ring) : bool :=
  let k := Z.log2 (_capacity r + 1) in
  (0 <=? _capacity r) && (_capacity r =? 2 ^ k - 1) && (0 <=? _rec_shift r) && (k + _rec_shift r <=? 31) &&
  (Z.of_nat (length (_recs r)) =? 2 ^ k) &&
  (0 <=? _head r) && (_head r <=? _capacity r) && (0 <=? _tail r) && (_tail r <=? _capacity r) &&
  (128 <=? record_tailroom r) && (record_tailroom r <? 4294967296) &&
  forallb (fun x => Z.of_nat (length (r_argval x)) =? record_tailroom r) (_recs r) &&
  (1 <=? _refcnt r) && (_refcnt r <? 2147483648).

Lemma ring_check_ok r : ring_check r = true -> ring_ok r.
Proof.
  unfold ring_check; rewrite !andb_true_iff; intros H; destruct_and! H.
  rewrite ?Z.leb_le, ?Z.ltb_lt, ?Z.eqb_eq in *.
  split; [split; [exists (Z.log2 (_capacity r + 1))| |]| |].
  all: try (pose proof (Z.log2_nonneg (_capacity r + 1)); repeat split; lia).
  split; [lia|]; apply Forall_forall; intros x Hx.
  match goal with F : forallb _ _ = true |- _ => rewrite forallb_forall in F; apply Z.eqb_eq, F, list_elem_of_In, Hx end.
Qed.

Section Check.
Context `{Rx : Regex}.
Implicit Type e : engine.

Fixpoint sorted_check (l : list string) : bool :=
  match l with
  | [] => true
  | k :: l => forallb (fun k' => match String.compare k k' with Lt => true | _ => false end) l && sorted_check l
  end.

Lemma sorted_check_ok {V} (m : list (string * V)) : sorted_check (map fst m) = true -> smap_ok m.
Proof.
  induction m as [|[k v] m IH]; cbn; [constructor|]; rewrite andb_true_iff, forallb_forall; intros [F S].
  constructor; [now apply IH|]; apply Forall_forall; intros [k' v'] H; cbn; unfold str_lt.
  specialize (F k' ltac:(apply list_elem_of_In, list_elem_of_fmap; exists (k', v'); done)).
  destruct (String.compare k k'); done.
Qed.

Definition registry_check e : bool :=
  sorted_check (map fst (e_rings e)) &&
  forallb (fun kv => match e_heap e !! snd kv with
                     | Some r => String.eqb (_name r) (fst kv) && ring_check r | None => false end) (e_rings e) &&
  forallb (fun ie => match ix_ring ie with
                     | Some p => existsb (fun kv => snd kv =? p) (e_rings e) | None => true end) (e_index e) &&
  bool_decide (NoDup (omap ix_ring (e_index e))).

Lemma omap_lookup_distinct (l : list index_entry) : NoDup (omap ix_ring l) ->
  forall i j ie je p, l !! i = Some ie -> l !! j = Some je -> ix_ring ie = Some p -> ix_ring je = Some p -> i = j.
Proof.
  induction l as [|a l IH]; intros N i j ie je p Hi Hj Pi Pj; [done|].
  cbn in N; destruct i as [|i], j as [|j]; cbn in Hi, Hj; [done| | |].
  - injection Hi as ->; rewrite Pi in N; apply NoDup_cons in N as [N _]; exfalso; apply N.
    apply list_elem_of_omap; exists je; split; [eapply list_elem_of_lookup_2, Hj|done].
  - injection Hj as ->; rewrite Pj in N; apply NoDup_cons in N as [N _]; exfalso; apply N.
    apply list_elem_of_omap; exists ie; split; [eapply list_elem_of_lookup_2, Hi|done].
  - f_equal; apply (IH ltac:(destruct (ix_ring a); [now apply NoDup_cons in N as [_ N]|done]) i j ie je p); done.
Qed.

Lemma registry_check_ok e : registry_check e = true -> registry_ok e.
Proof.
  unfold registry_check; rewrite !andb_true_iff, !forallb_forall, bool_decide_eq_true.
  intros [[[S Rg] I] N]; split; [now apply sorted_check_ok| | |now apply omap_lookup_distinct].
  - intros n p H; specialize (Rg (n, p) ltac:(now apply list_elem_of_In)); cbn in Rg.
    destruct (e_heap e !! p) as [r|]; [|done]; apply andb_true_iff in Rg as [E C]; exists r.
    split; [done|]; split; [now apply String.eqb_eq|now apply ring_check_ok].
  - intros i ie p Hi Hp; apply list_elem_of_lookup_2, list_elem_of_In in Hi; specialize (I ie Hi); rewrite Hp in I.
    apply existsb_exists in I as ([n q] & H & E); cbn in E; apply Z.eqb_eq in E as ->.
    exists n; now apply list_elem_of_In.
Qed.
End Check.

(** ** Engines *)

Definition sample_record (ts seq : Z) : record := mkRecord (Some 5) ts seq 0 0 (replicate 128 0).

(** A ring of four slots with [recs], at most three, and [refs] references. *)
Definition sample_ring (name : string) (prio refs : Z) (recs : list record) : ring :=
  mkRing name 0 prio 8 128 3 refs false 9 (Z.of_nat (length recs)) (Z.of_nat (length recs)) 0 3
    (recs ++ replicate (4 - length recs) (sample_record 0 0)).

Definition sample_entry (p : Z) (r : ring) : index_entry := mkIx (Some p) (it_reset r) None 0.

Definition sample_internal : area := area_new (fun i => i) internal_area_name (Some internal_section_names).

(** An engine with two rings, a buffer of [cap] entries and [left] of them left
    over from the pass before. *)
Definition sample_engine (cap left : Z) (a b : ring) : engine :=
  mkEngine (<[1 := a]> (<[2 := b]> ∅)) [(_name a, 1); (_name b, 2)]
    [sample_entry 1 a; sample_entry 2 b] false [(internal_area_name, sample_internal)] []
    (tso_resize (fun _ => mkEntry 0 0 0%nat) cap) left (mkStats 0 0 0 0 0 0 0 0) 9 (mkOptions 10 cap 0 None) [].

Definition ring_a : ring := sample_ring "a" 3 2 [sample_record 10 0; sample_record 30 1].
Definition ring_b : ring := sample_ring "b" 1 2 [sample_record 20 0].
Definition orphan_b : ring := sample_ring "b" 1 1 [].
Definition sample8 : engine := sample_engine 8 0 ring_a ring_b.
Definition sample_orphan : engine := sample_engine 8 0 ring_a orphan_b.

Lemma sample8_registry : registry_ok sample8.
Proof. apply registry_check_ok; vm_compute; reflexivity. Qed.

Lemma sample_orphan_registry : registry_ok sample_orphan.
Proof. apply registry_check_ok; vm_compute; reflexivity. Qed.

Lemma sample_internal_ok : area_ok sample_internal /\ area_count sample_internal = 9.
Proof.
  split; [|reflexivity]; split; [|reflexivity].
  apply (memset_ok (bm_resize (fun i => i) 9) false), bm_resize_ok; lia.
Qed.

Lemma sample8_internal : internal_ok sample8.
Proof. exists sample_internal; split; [reflexivity|apply sample_internal_ok]. Qed.
