(* ===== verification/RegistryFacts.v ===== *)
(** * The registries: what their operations do

    Rings and areas registered by name, the references the engine and its
    callers hold, and the index the engine thread works on. *)

From S2P Require Import Prelude Args Record Ring Area Timestamp Tso Post Registry Engine EngineFacts Sample.

Section RegistryFacts.
Context `{Rx : Regex}.
Context `{SortI : forall key, StdSort index_entry key}.
Implicit Types (e : engine) (r : ring).

(** ** References *)

Lemma hold_count r : _refcnt r < 2147483647 -> 0 <= _refcnt r -> _refcnt (hold r) = _refcnt r + 1.
Proof. intros; unfold hold, refcount_inc; cbn; unfold s32; Z.div_mod_to_equations; lia. Qed.

(** A ring but for its reference count and its time source. *)
Definition same_ring (r r' : ring) : Prop :=
  same_config r r' /\ _head r' = _head r /\ _tail r' = _tail r /\ _seqnum r' = _seqnum r /\
  _dropcnt r' = _dropcnt r /\ _recs r' = _recs r.

Lemma same_ring_refl r : same_ring r r.
Proof. repeat split. Qed.

Lemma same_ring_trans r1 r2 r3 : same_ring r1 r2 -> same_ring r2 r3 -> same_ring r1 r3.
Proof.
  intros (C1 & H1 & T1 & S1 & D1 & R1) (C2 & H2 & T2 & S2 & D2 & R2).
  split; [now transitivity r2|]; repeat split; congruence.
Qed.

Lemma same_ring_ok r r' : same_ring r r' -> ring_wf r -> recs_ok r -> 1 <= _refcnt r' < 2147483648 -> ring_ok r'.
Proof.
  intros (C & H & T & _ & _ & E) W [O1 O2] F; split; [|split|exact F].
  - apply (ring_wf_config r); [done|done|rewrite H; apply W|rewrite T; apply W].
  - destruct C as (_ & _ & _ & _ & C & _); unfold record_tailroom in *; now rewrite C.
  - destruct C as (_ & _ & _ & _ & C & _); rewrite E; unfold record_tailroom in *; now rewrite C.
Qed.

Lemma same_ring_hold r : same_ring r (hold r).
Proof. repeat split. Qed.

(** ** The invariant of the registry *)

Record registry_inv e : Prop := {
  ri_reg : registry_ok e;
  ri_int : internal_ok e;
  ri_areas : smap_ok (e_areas e);
  ri_area : forall n a, (n, a) ∈ e_areas e -> area_ok a /\ a_name a = n }.

(** A step that only replaces the ring at [p] by one with another count. *)
Lemma registry_put e p r r' : registry_ok e -> e_heap e !! p = Some r -> same_ring r r' ->
  1 <= _refcnt r' < 2147483648 -> (exists n, (n, p) ∈ e_rings e) -> registry_ok (put_ring e p r').
Proof.
  intros R Hr Sm Hc [n0 Hn0]; destruct (ro_rings _ R n0 p Hn0) as (r0 & Hr0 & Nm & Ok).
  assert (r0 = r) as -> by congruence; destruct R as [K Rg I D]; split; auto; cbn; intros n q Hq.
  destruct (decide (q = p)) as [->|N].
  - rewrite lookup_insert_eq; exists r'; destruct (Rg n p Hq) as (r2 & E2 & N2 & _).
    assert (r2 = r) as -> by congruence; split; [done|]; split.
    + destruct Sm as [(-> & _) _]; done.
    + apply (same_ring_ok r); [done|apply Ok|apply Ok|done].
  - rewrite lookup_insert_ne by done; now apply Rg.
Qed.

(** [find_ring] gives the ring registered under the name, with a reference
    for the caller on top of those there were, and nothing for any other
    name. *)
Theorem find_ring_correct e name : registry_ok e ->
  (forall n p r, (n, p) ∈ e_rings e -> e_heap e !! p = Some r -> _refcnt r < 2147483647) ->
  exists e' res, find_ring e name = Some (e', res) /\ registry_ok e' /\ e_rings e' = e_rings e /\
    match res with
    | None => e' = e /\ forall p, (name, p) ∉ e_rings e
    | Some p => (name, p) ∈ e_rings e /\ exists r r', e_heap e !! p = Some r /\ e_heap e' !! p = Some r' /\
        _name r = name /\ same_ring r r' /\ _refcnt r' = _refcnt r + 1 /\
        forall q, q <> p -> e_heap e' !! q = e_heap e !! q
    end.
Proof.
  intros R Small; unfold find_ring; destruct (smap_find name (e_rings e)) as [p|] eqn:Fd.
  - apply (smap_find_elem _ _ _ (ro_keys _ R)) in Fd; destruct (ro_rings _ R _ _ Fd) as (r & Hr & Nm & Ok).
    unfold hold_at; rewrite Hr; cbn [mbind option_bind].
    pose proof (rk_ref _ Ok); pose proof (Small _ _ _ Fd Hr); pose proof (hold_count r) as Hc.
    exists (put_ring e p (hold r)), (Some p); split; [done|]; split.
    { apply (registry_put e p r); [done|done|apply same_ring_hold|lia|eauto]. }
    split; [done|]; split; [done|]; exists r, (hold r); split; [done|]; split; [apply lookup_insert_eq|].
    split; [done|]; split; [apply same_ring_hold|]; split; [lia|]; intros; now apply lookup_insert_ne.
  - exists e, None; do 4 (split; [done|]); intros p Hp.
    apply (smap_find_elem _ _ _ (ro_keys _ R)) in Hp; congruence.
Qed.

(** ** Registering a ring *)

(** A request for a ring whose memory can be had: [c] slots of [rs] bytes. *)
Record request_ok (alloc : Z -> bool) (zero : record) (opts : ring_options) (c rs : Z) : Prop := {
  rq_wf : ring_options_wf opts;
  rq_cap : o_capacity opts <= 2147483648; rq_tail : o_record_tailroom opts <= 2147483616;
  rq_slots : pow2_ceil (o_capacity opts) c;
  rq_size : pow2_ceil (header_size + Z.max argval_size (o_record_tailroom opts)) rs;
  rq_bytes : c * rs < 4294967296;
  rq_alloc : forall n, alloc n = true;
  rq_zero : Z.of_nat (length (r_argval zero)) = rs - header_size }.

Lemma request_new alloc zero ts name opts c rs : request_ok alloc zero opts c rs ->
  exists r, ringbuf_new alloc zero ts name opts = Some r /\ ring_wf r /\ recs_ok r /\ contents r = [] /\
    capacity r = c /\ _flags r = o_flags opts /\ _refcnt r = 0 /\ _seqnum r = 0 /\ _name r = name.
Proof.
  intros [W Hc Ht Pc Pr Hp Ha Hz].
  destruct (ring_new_facts alloc zero ts name opts c rs W Hc Ht Pc Pr Hp Ha)
    as (r & E & Wr & C & Cp & Rs & Tr & _ & _ & Fl & Rf & Sq & _ & Nm & Rc).
  exists r; split; [exact E|]; split; [exact Wr|]; split; [|done].
  assert (1 <= c) by (destruct Pc as (k & ? & -> & _); apply (Z.pow_le_mono_r 2 0); lia).
  assert (160 <= rs).
  { destruct Pr as (k & _ & _ & L & _); change header_size with 32 in L; change argval_size with 128 in L; lia. }
  split; [rewrite Tr; change header_size with 32; nia|].
  rewrite Rc, Tr; apply Forall_replicate; exact Hz.
Qed.

Definition refs_small e : Prop :=
  forall n p r, (n, p) ∈ e_rings e -> e_heap e !! p = Some r -> _refcnt r < 2147483647.

(** The first branch: the name is new. *)
Lemma add_ring_new e p alloc zero name opts c rs : registry_ok e -> e_heap e !! p = None ->
  request_ok alloc zero opts c rs -> smap_find name (e_rings e) = None ->
  exists e' r msg, add_ring e p alloc zero name opts = Some (e', Some p, [msg]) /\ registry_ok e' /\
    e_heap e' !! p = Some r /\ _name r = name /\ contents r = [] /\ capacity r = c /\ _refcnt r = 2 /\
    _timesource r = e_timesource e /\ e_dirty e' = true /\
    (forall kv, kv ∈ e_rings e' <-> kv = (name, p) \/ kv ∈ e_rings e) /\
    (forall q, q <> p -> e_heap e' !! q = e_heap e !! q) /\ e_index e' = e_index e.
Proof.
  intros R Fp Rq Fd; destruct (request_new _ _ (e_timesource e) name _ _ _ Rq) as (nr & En & W & O & C & Cp & _ & Rf & _ & Nm).
  pose proof (smap_insert_spec name p _ (ro_sorted _ R)) as Ins; rewrite Fd in Ins.
  destruct Ins as (m' & Ei & Sm & Fm & Em).
  unfold add_ring; rewrite En; cbn [mbind option_bind put_ring e_rings with_heap]; rewrite Ei, Fm; cbn [mbind option_bind].
  unfold hold_at; cbn [e_heap with_heap put_ring]; rewrite lookup_insert_eq; cbn [mbind option_bind].
  set (nr1 := set_timesource (hold nr) (e_timesource e)); set (r2 := hold nr1).
  set (h := <[p := r2]> (<[p := nr1]> (e_heap e))).
  assert (R2 : _refcnt r2 = 2) by (unfold r2, nr1, hold, refcount_inc; cbn; now rewrite Rf).
  eexists _, r2, _; split; [reflexivity|]; cbn.
  assert (Hq : forall q, q <> p -> h !! q = e_heap e !! q) by (intros q N; unfold h; now rewrite !lookup_insert_ne by done).
  split; [|split; [apply lookup_insert_eq|]].
  - destruct R as [K Rg I D]; split; cbn; auto.
    + intros n q Hn; apply Em in Hn as [[= -> ->]|Hn].
      * exists r2; unfold h; rewrite lookup_insert_eq; split; [done|]; split; [exact Nm|].
        apply (same_ring_ok nr); [repeat split|done|done|lia].
      * destruct (Rg n q Hn) as (r & Hr & ?); exists r; split; [|done]; rewrite Hq; [done|congruence].
    + intros i ie q Hi Hp; destruct (I i ie q Hi Hp) as [n Hn]; exists n; apply Em; now right.
  - do 5 (split; [done|]); split; [done|]; split; [exact Em|]; split; [exact Hq|done].
Qed.

(** A name that is taken. *)
Definition reuse r : bool := shared r || (reusable r && (_refcnt r =? 1)).

Lemma release_hold r : 1 <= _refcnt r < 2147483647 -> release (hold r) = Kept r.
Proof.
  intros H; unfold release, hold, refcount_inc, refcount_dec; cbn.
  assert (E : s32 (s32 (_refcnt r + 1) - 1) = _refcnt r) by (unfold s32; Z.div_mod_to_equations; lia).
  rewrite E.
  destruct (Z.ltb_spec (_refcnt r) 0); [lia|]; destruct (Z.ltb_spec 0 (_refcnt r)); [|lia]; now destruct r.
Qed.

Lemma release_new r : _refcnt r = 1 -> release r = if immortal r then Kept (set_refcnt r 0) else Deleted.
Proof. intros H; unfold release, refcount_dec; rewrite H; reflexivity. Qed.

(** The ring found under a taken name is shared or its owner is gone: the
    caller gets it.  Otherwise the engine is left as it was; the ring made for
    the request is deleted again, unless it is immortal. *)
Lemma add_ring_taken e p q r alloc zero name opts c rs : registry_ok e -> e_heap e !! p = None ->
  request_ok alloc zero opts c rs -> smap_find name (e_rings e) = Some q -> e_heap e !! q = Some r ->
  _refcnt r < 2147483647 ->
  exists e' res msgs, add_ring e p alloc zero name opts = Some (e', res, msgs) /\ registry_ok e' /\
    e_rings e' = e_rings e /\ e_index e' = e_index e /\ e_dirty e' = e_dirty e /\
    (if reuse r then res = Some q /\ msgs = [] /\ e_heap e' !! q = Some (hold r)
     else res = None /\ length msgs = 1%nat /\ e_heap e' !! q = Some r) /\
    (is_Some (e_heap e' !! p) <-> Z.land (o_flags opts) IMMORTAL <> 0) /\
    (forall q', q' <> p -> q' <> q -> e_heap e' !! q' = e_heap e !! q').
Proof.
  intros R Fp Rq Fd Hr Hs; destruct (request_new _ _ (e_timesource e) name _ _ _ Rq)
    as (nr & En & W & O & C & Cp & Fl & Rf & _ & Nm).
  pose proof (smap_insert_spec name p _ (ro_sorted _ R)) as Ins; rewrite Fd in Ins.
  pose proof Fd as Hin; apply (smap_find_elem _ _ _ (ro_keys _ R)) in Hin.
  destruct (ro_rings _ R _ _ Hin) as (r0 & Hr0 & Nr & Ok); assert (r0 = r) as -> by congruence.
  pose proof (rk_ref _ Ok) as Hc; assert (N : q <> p) by congruence.
  set (nr1 := set_timesource (hold nr) (e_timesource e)).
  assert (R1 : _refcnt nr1 = 1) by (unfold nr1, hold, refcount_inc; cbn; now rewrite Rf).
  assert (Im : immortal nr1 = negb (Z.land (o_flags opts) IMMORTAL =? 0)) by (unfold immortal, nr1; cbn; now rewrite Fl).
  (* the engine when the ring made for nothing is gone *)
  set (h1 := if immortal nr1 then <[p := set_refcnt nr1 0]> (<[q := hold r]> (<[p := nr1]> (e_heap e)))
             else delete p (<[q := hold r]> (<[p := nr1]> (e_heap e)))).
  assert (Hq1 : h1 !! q = Some (hold r)).
  { unfold h1; destruct (immortal nr1); [rewrite lookup_insert_ne|rewrite lookup_delete_ne]; try done; apply lookup_insert_eq. }
  assert (Ho1 : forall q', q' <> p -> q' <> q -> h1 !! q' = e_heap e !! q').
  { intros q' N1 N2; unfold h1; destruct (immortal nr1); [rewrite lookup_insert_ne|rewrite lookup_delete_ne]; try done;
      now rewrite !lookup_insert_ne by done. }
  assert (Hp1 : is_Some (h1 !! p) <-> Z.land (o_flags opts) IMMORTAL <> 0).
  { unfold h1; rewrite Im; destruct (Z.eqb_spec (Z.land (o_flags opts) IMMORTAL) 0); cbn.
    - rewrite lookup_delete_eq; split; [intros [? ?]|]; done.
    - rewrite lookup_insert_eq; split; [done|eauto]. }
  assert (Step : forall rq, same_ring r rq -> 1 <= _refcnt rq < 2147483648 ->
    registry_ok (with_heap e (<[q := rq]> h1))).
  { intros rq Sm Hrq; destruct R as [K Rg I D]; split; cbn; auto; intros n q' Hn.
    destruct (Rg n q' Hn) as (r1 & Hr1 & Nm1 & Ok1); destruct (decide (q' = q)) as [->|Nq].
    - rewrite lookup_insert_eq; exists rq; split; [done|]; assert (r1 = r) as -> by congruence; split.
      + destruct Sm as [(-> & _) _]; done.
      + apply (same_ring_ok r); [done|apply Ok1|apply Ok1|done].
    - exists r1; rewrite lookup_insert_ne by done; split; [rewrite Ho1; congruence|done]. }
  unfold add_ring; rewrite En; cbn [mbind option_bind put_ring e_rings with_heap]; rewrite Ins, Fd; cbn [mbind option_bind].
  fold nr1; unfold hold_at at 1; cbn [e_heap with_heap put_ring]; rewrite lookup_insert_ne, Hr by done; cbn [mbind option_bind].
  assert (E1 : release_at (with_rings (put_ring (put_ring e p nr1) q (hold r)) (e_rings e)
    (e_dirty (put_ring (put_ring e p nr1) q (hold r)))) p = Some (with_heap e h1)).
  { unfold release_at; cbn [e_heap with_heap put_ring with_rings].
    rewrite lookup_insert_ne, lookup_insert_eq by done; cbn [mbind option_bind].
    rewrite (release_new nr1 R1); unfold h1; destruct (immortal nr1); reflexivity. }
  rewrite E1; cbn [mbind option_bind e_heap with_heap]; rewrite Hq1; cbn [mbind option_bind].
  change (shared (hold r)) with (shared r); change (reusable (hold r)) with (reusable r).
  rewrite (hold_count r) by lia.
  assert (Hh : <[q := hold r]> h1 = h1) by (now apply insert_id).
  pose proof (Step (hold r) (same_ring_hold r)) as St; rewrite Hh, (hold_count r) in St by lia.
  destruct (reuse r) eqn:Eu.
  - assert (Br : (if shared r then Some (with_heap e h1, Some q, [])
        else if reusable r && (_refcnt r + 1 =? 2) then Some (with_heap e h1, Some q, [])
        else None) = Some (with_heap e h1, Some q, ([] : list message))).
    { unfold reuse in Eu; replace (_refcnt r + 1 =? 2) with (_refcnt r =? 1) by lia.
      destruct (shared r); [done|]; cbn in Eu; now rewrite Eu. }
    exists (with_heap e h1), (Some q), []; split.
    { destruct (shared r); [done|]; destruct (reusable r && (_refcnt r + 1 =? 2)); [done|discriminate]. }
    split; [apply St; lia|]; do 3 (split; [done|]); split; [done|]; split; [exact Hp1|exact Ho1].
  - assert (Bs : shared r = false /\ (reusable r && (_refcnt r + 1 =? 2)) = false).
    { unfold reuse in Eu; apply orb_false_iff in Eu as [? Eu]; split; [done|].
      replace (_refcnt r + 1 =? 2) with (_refcnt r =? 1) by lia; done. }
    destruct Bs as [-> ->]; unfold release_at; cbn [e_heap with_heap]; rewrite Hq1; cbn [mbind option_bind].
    rewrite (release_hold r) by lia; cbn [mbind option_bind].
    eexists _, None, _; split; [reflexivity|]; split; [apply (Step r); [repeat split|exact Hc]|].
    do 3 (split; [done|]); split; [split; [done|]; split; [done|]; apply lookup_insert_eq|]; split.
    + cbn; rewrite lookup_insert_ne by done; exact Hp1.
    + intros q' N1 N2; cbn; rewrite lookup_insert_ne by done; now apply Ho1.
Qed.

(** C30: [add_ring] never corrupts the registry.  Under a new name it registers an
    empty ring with the requested number of slots, one reference for the engine
    and one for the caller, and marks the index out of date.  Under a name that
    is taken it adds no ring: the caller shares the ring that is there if it is
    shared, or reusable and owned by nobody else, and is otherwise refused with
    an error message, all references being as before.  The ring made for the
    request is then freed, except that one with the immortal flag is leaked. *)
Theorem add_ring_correct e p alloc zero name opts c rs : registry_ok e -> e_heap e !! p = None ->
  request_ok alloc zero opts c rs -> refs_small e ->
  exists e' res msgs, add_ring e p alloc zero name opts = Some (e', res, msgs) /\ registry_ok e' /\
    e_index e' = e_index e /\
    match smap_find name (e_rings e) with
    | None =>
        res = Some p /\ e_dirty e' = true /\
        (forall kv, kv ∈ e_rings e' <-> kv = (name, p) \/ kv ∈ e_rings e) /\
        (forall q, q <> p -> e_heap e' !! q = e_heap e !! q) /\
        exists r, e_heap e' !! p = Some r /\ contents r = [] /\ capacity r = c /\ _refcnt r = 2 /\
          _timesource r = e_timesource e
    | Some q =>
        e_rings e' = e_rings e /\ e_dirty e' = e_dirty e /\
        (forall q', q' <> p -> q' <> q -> e_heap e' !! q' = e_heap e !! q') /\
        (is_Some (e_heap e' !! p) <-> Z.land (o_flags opts) IMMORTAL <> 0) /\
        exists r r', e_heap e !! q = Some r /\ e_heap e' !! q = Some r' /\ same_ring r r' /\
          if shared r || (reusable r && (_refcnt r =? 1))
          then res = Some q /\ msgs = [] /\ _refcnt r' = _refcnt r + 1
          else res = None /\ length msgs = 1%nat /\ r' = r
    end.
Proof.
  intros R Fp Rq Sm; destruct (smap_find name (e_rings e)) as [q|] eqn:Fd.
  - pose proof Fd as Hin; apply (smap_find_elem _ _ _ (ro_keys _ R)) in Hin.
    destruct (ro_rings _ R _ _ Hin) as (r & Hr & _ & Ok); pose proof (Sm _ _ _ Hin Hr).
    destruct (add_ring_taken e p q r alloc zero name opts c rs R Fp Rq Fd Hr ltac:(lia))
      as (e' & res & msgs & E & R' & Er & Ei & Ed & Br & Hp & Ho).
    exists e', res, msgs; do 5 (split; [done|]); split; [exact Ho|]; split; [exact Hp|].
    fold (reuse r); destruct (reuse r) eqn:Eu; [exists r, (hold r)|exists r, r];
      (split; [done|]); fold (reuse r); rewrite Eu.
    + destruct Br as (-> & -> & ->); do 2 (split; [done|]); rewrite hold_count by (pose proof (rk_ref _ Ok); lia); done.
    + destruct Br as (-> & -> & ->); do 2 (split; [done|]); done.
  - destruct (add_ring_new e p alloc zero name opts c rs R Fp Rq Fd)
      as (e' & r & msg & E & R' & Hr & Nm & Ct & Cp & Rf & Ts & Ed & Em & Eh & Ei).
    exists e', (Some p), [msg]; do 3 (split; [done|]); do 4 (split; [done|]); exists r; done.
Qed.

(** ** The ring index *)

Lemma new_entry_ok e p r old : e_heap e !! p = Some r ->
  new_entry (e_heap e) old p = Some (mkIx (Some p) (it_reset r) None
    (match index_find old p with Some ie => ix_seqnum ie | None => 0 end)).
Proof. intros E; unfold new_entry; now rewrite E. Qed.

Lemma index_find_elem l p ie : index_find l p = Some ie -> ie ∈ l /\ ix_ring ie = Some p.
Proof.
  induction l as [|a l IH]; cbn; [done|]; case_decide as D.
  - intros [= ->]; split; [constructor|done].
  - intros H; destruct (IH H); split; [now constructor|done].
Qed.

Lemma rebuild_entries e (old : list index_entry) m :
  (forall n p, (n, p) ∈ m -> exists r, e_heap e !! p = Some r) ->
  exists ni, mapM (fun kv => new_entry (e_heap e) old (snd kv)) m = Some ni /\
    Forall2 (fun (kv : string * Z) ie => exists r, e_heap e !! kv.2 = Some r /\
      ie = mkIx (Some kv.2) (it_reset r) None
             (match index_find old kv.2 with Some ie => ix_seqnum ie | None => 0 end)) m ni.
Proof.
  induction m as [|[n p] m IH]; intros H; [exists []; split; [done|constructor]|].
  destruct (H n p ltac:(constructor)) as [r Hr].
  destruct IH as (ni & E & F); [intros n' p' Hp; apply (H n'); now constructor|].
  exists (mkIx (Some p) (it_reset r) None (match index_find old p with Some ie => ix_seqnum ie | None => 0 end) :: ni).
  split; [|constructor; [cbn; eauto|exact F]].
  cbn [mapM snd]; rewrite (new_entry_ok e p r old Hr); cbn [mbind option_bind]; now rewrite E.
Qed.

(** Every registered ring has an entry, when the index is up to date. *)
Definition index_complete e : Prop := e_dirty e = false -> forall n p, (n, p) ∈ e_rings e ->
  exists i ie, e_index e !! i = Some ie /\ ix_ring ie = Some p.

Definition old_seqnum e (p : Z) : Z :=
  match index_find (e_index e) p with Some ie => ix_seqnum ie | None => 0 end.

Lemma rebuild_ok e : registry_ok e -> exists e', rebuild_ring_index e = Some e' /\ registry_ok e' /\
  e_dirty e' = false /\ e_rings e' = e_rings e /\ e_heap e' = e_heap e /\ e_areas e' = e_areas e /\
  e_mask e' = e_mask e /\ e_tso e' = e_tso e /\ e_leftover e' = e_leftover e /\ e_opts e' = e_opts e /\
  e_trace e' = e_trace e /\
  StronglySorted (fun a b => ring_prio (e_heap e) b <= ring_prio (e_heap e) a) (e_index e') /\
  (forall n p, (n, p) ∈ e_rings e -> exists i ie, e_index e' !! i = Some ie /\ ix_ring ie = Some p) /\
  forall i ie, e_index e' !! i = Some ie -> exists n p r, (n, p) ∈ e_rings e /\ e_heap e !! p = Some r /\
    ie = mkIx (Some p) (it_reset r) None (old_seqnum e p).
Proof.
  intros R; unfold rebuild_ring_index; cbn [e_heap e_index e_rings with_stats].
  destruct (rebuild_entries e (e_index e) (e_rings e)) as (ni & E & F2).
  { intros n p Hn; destruct (ro_rings _ R n p Hn) as (r & Hr & _); eauto. }
  rewrite E; cbn [mbind option_bind]; set (l := std_sort _ ni).
  assert (P : Permutation l ni) by apply std_sort_perm.
  assert (Spec : forall i ie, l !! i = Some ie -> exists n p r, (n, p) ∈ e_rings e /\ e_heap e !! p = Some r /\
    ie = mkIx (Some p) (it_reset r) None (old_seqnum e p)).
  { intros i ie Hi; apply list_elem_of_lookup_2 in Hi; rewrite P in Hi; apply list_elem_of_lookup in Hi as [k Hk].
    destruct (Forall2_lookup_r _ _ _ _ _ F2 Hk) as ([n p] & Hn & r & Hr & ->); exists n, p, r.
    split; [eapply list_elem_of_lookup_2, Hn|done]. }
  assert (Nd : NoDup l).
  { rewrite P; apply NoDup_alt; intros i j ie Hi Hj.
    destruct (Forall2_lookup_r _ _ _ _ _ F2 Hi) as ([n p] & Hn & r & Hr & Ei).
    destruct (Forall2_lookup_r _ _ _ _ _ F2 Hj) as ([n' p'] & Hn' & r' & Hr' & Ej).
    cbn in *; subst ie; injection Ej as <- _ _.
    destruct (ro_rings _ R n p ltac:(eapply list_elem_of_lookup_2, Hn)) as (r1 & E1 & N1 & _).
    destruct (ro_rings _ R n' p ltac:(eapply list_elem_of_lookup_2, Hn')) as (r2 & E2 & N2 & _).
    apply (NoDup_lookup (map fst (e_rings e)) i j n); [apply ro_keys, R| |];
      rewrite list_lookup_fmap; [rewrite Hn|rewrite Hn']; cbn; congruence. }
  eexists; split; [reflexivity|]; split; [|do 9 (split; [done|]); split; [|split; [|exact Spec]]].
  - destruct R as [K Rg I D]; split; cbn; auto.
    + intros i ie p Hi Hp; destruct (Spec i ie Hi) as (n & p' & r & Hn & Hr & ->); injection Hp as ->; eauto.
    + intros i j ie je p Hi Hj Pi Pj.
      destruct (Spec i ie Hi) as (n & p1 & r & _ & Hr & Ei); destruct (Spec j je Hj) as (n' & p2 & r' & _ & Hr' & Ej).
      assert (ie = je) as Eq by (subst; cbn in *; congruence); rewrite <- Eq in Hj.
      exact (NoDup_lookup _ _ _ _ Nd Hi Hj).
  - eapply sorted_impl; [|apply std_sort_sorted]; cbn; intros; lia.
  - intros n p Hn; apply list_elem_of_lookup in Hn as [k Hk].
    destruct (Forall2_lookup_l _ _ _ _ _ F2 Hk) as (ie & Hi & r & _ & ->).
    apply list_elem_of_lookup_2 in Hi; rewrite <- P in Hi; apply list_elem_of_lookup in Hi as [j Hj].
    eexists j, _; split; [exact Hj|done].
Qed.

(** Rebuilding the index succeeds and leaves it up to date: it has one entry
    for each registered ring and no other, by falling priority, its iterator at
    the ring's unread records; a ring that was indexed before keeps the
    sequence number expected from it, a new ring is expected to start at
    zero. *)
Theorem rebuild_index_correct e : registry_ok e ->
  exists e', rebuild_ring_index e = Some e' /\ registry_ok e' /\ e_dirty e' = false /\
    e_heap e' = e_heap e /\
    StronglySorted (fun a b => ring_prio (e_heap e) b <= ring_prio (e_heap e) a) (e_index e') /\
    (forall n p, (n, p) ∈ e_rings e -> exists i ie, e_index e' !! i = Some ie /\ ix_ring ie = Some p) /\
    forall i ie, e_index e' !! i = Some ie -> exists n p r, (n, p) ∈ e_rings e /\ e_heap e !! p = Some r /\
      ix_ring ie = Some p /\ ix_pit ie = it_reset r /\ ix_lastrec ie = None /\
      (forall j je, e_index e !! j = Some je -> ix_ring je = Some p -> ix_seqnum ie = ix_seqnum je) /\
      ((forall j je, e_index e !! j = Some je -> ix_ring je <> Some p) -> ix_seqnum ie = 0).
Proof.
  intros R; destruct (rebuild_ok e R) as (e' & E & R' & D & _ & H & _ & _ & _ & _ & _ & _ & So & Cp & Sp).
  exists e'; do 6 (split; [done|]); intros i ie Hi.
  destruct (Sp i ie Hi) as (n & p & r & Hn & Hr & ->); exists n, p, r; do 5 (split; [done|]); cbn; unfold old_seqnum.
  split.
  - intros j je Hj Hp; destruct (index_find (e_index e) p) as [ke|] eqn:Fk.
    + apply index_find_elem in Fk as [Hk Pk]; apply list_elem_of_lookup in Hk as [k Hk].
      assert (k = j) as -> by exact (ro_distinct _ R _ _ _ _ _ Hk Hj Pk Hp); congruence.
    + exfalso; clear -Hj Hp Fk; revert j Hj; induction (e_index e) as [|a l IH]; intros j Hj; [done|].
      cbn in Fk; case_decide; [done|]; destruct j as [|j]; cbn in Hj; [congruence|]; eapply IH; eauto.
  - intros Nf; destruct (index_find (e_index e) p) as [ke|] eqn:Fk; [|done].
    apply index_find_elem in Fk as [Hk Pk]; apply list_elem_of_lookup in Hk as [k Hk]; destruct (Nf k ke Hk Pk).
Qed.

(** C37: The engine tests for an orphan before it takes the ring mutex.  When a
    thread looks the ring up in between, the engine still unregisters it: the
    thread then holds the only reference to a ring no index and no map knows, so
    that no pass reads what it posts there. *)
Theorem kill_orphan_race e i ie p r : registry_ok e -> e_index e !! i = Some ie -> ix_ring ie = Some p ->
  e_heap e !! p = Some r -> orphan r = true ->
  exists e1 e2 r2, find_ring e (_name r) = Some (e1, Some p) /\ kill_orphan e1 true i p = Some e2 /\
    (forall q, (_name r, q) ∉ e_rings e2) /\
    (forall j je, e_index e2 !! j = Some je -> ix_ring je <> Some p) /\
    e_heap e2 !! p = Some r2 /\ same_ring r r2 /\ _refcnt r2 = 1.
Proof.
  intros R Hi Hp Hr Or; unfold orphan in Or; apply Z.eqb_eq in Or.
  destruct (ro_index _ R _ _ _ Hi Hp) as [n Hn].
  destruct (ro_rings _ R _ _ Hn) as (r' & Hr' & Nm & _); assert (r' = r) as -> by congruence; subst n.
  unfold find_ring; rewrite (proj1 (smap_find_elem _ _ _ (ro_keys _ R)) Hn).
  unfold hold_at; rewrite Hr; cbn [mbind option_bind].
  set (e1 := put_ring e p (hold r)); exists e1; unfold kill_orphan; cbn [e_heap e1 put_ring with_heap].
  unfold e1; cbn [e_heap put_ring with_heap e_index]; rewrite lookup_insert_eq; cbn [mbind option_bind].
  rewrite Hi; cbn [mbind option_bind]; unfold release_at; cbn [e_heap with_index with_rings put_ring with_heap].
  rewrite lookup_insert_eq; cbn [mbind option_bind]; rewrite (release_hold r) by lia.
  eexists; exists r; split; [reflexivity|]; split; [reflexivity|]; split; [|split; [|split; [apply lookup_insert_eq|]]].
  - intros q Hq; cbn in Hq; apply (smap_erase_elem _ _ _ _ (ro_keys _ R)) in Hq as [_ N]; done.
  - intros j je Hj Pj; cbn in Hj; destruct (decide (j = i)) as [->|N].
    + rewrite list_lookup_insert_eq in Hj by (eapply lookup_lt_Some, Hi); now injection Hj as <-.
    + rewrite list_lookup_insert_ne in Hj by done; apply N, (ro_distinct _ R _ _ _ _ _ Hj Hi Pj Hp).
  - split; [repeat split|done].
Qed.

(** ** Areas *)

Lemma area_new_ok junk name sections :
  let names := match sections with Some l => l | None => default_section_names end in
  Z.of_nat (length names) < 4294967232 ->
  area_ok (area_new junk name sections) /\ area_count (area_new junk name sections) = Z.of_nat (length names) /\
  forall j, 0 <= j < Z.of_nat (length names) -> bm_bit (a_bitmap (area_new junk name sections)) j = false.
Proof.
  cbv zeta; intros H; set (n := Z.of_nat _) in *.
  destruct (memset_ok (bm_resize junk n) false) as [O B]; [apply bm_resize_ok; lia|].
  split; [split; [exact O|reflexivity]|]; split; [reflexivity|exact B].
Qed.

Lemma smap_set_keys {V} k (v : V) m : map fst (smap_set k v m) = map fst m.
Proof.
  unfold smap_set; rewrite map_map; apply map_ext; intros [k' v']; cbn; now case_decide.
Qed.

Lemma smap_ok_keys {V W} (m : list (string * V)) : forall m' : list (string * W),
  map fst m' = map fst m -> smap_ok m -> smap_ok m'.
Proof.
  induction m as [|[k v] m IH]; intros [|[k' v'] m'] E S; try discriminate E; [constructor|].
  injection E as -> E.
  inversion S as [|? ? S' F]; subst; constructor; [now apply IH|].
  apply Forall_forall; intros [k2 w] H; cbn; rewrite Forall_forall in F.
  assert (Hk : k2 ∈ map fst m) by (rewrite <- E; apply list_elem_of_fmap; exists (k2, w); done).
  apply list_elem_of_fmap in Hk as ([k3 w3] & -> & H3); exact (F _ H3).
Qed.

Lemma smap_set_elem {V} k (v : V) m kv : NoDup (map fst m) -> k ∈ map fst m ->
  kv ∈ smap_set k v m <-> kv = (k, v) \/ (kv ∈ m /\ kv.1 <> k).
Proof.
  intros Nd Hk; unfold smap_set; rewrite list_elem_of_fmap; split.
  - intros ([k' v'] & -> & H); cbn; case_decide; [now left|right; done].
  - intros [->|[H N]].
    + apply list_elem_of_fmap in Hk as ([k' v'] & -> & H); exists (k', v'); cbn; rewrite decide_True by done; done.
    + exists kv; rewrite decide_False by done; done.
Qed.

Lemma smap_set_find {V} k (v : V) m : NoDup (map fst m) -> k ∈ map fst m -> smap_find k (smap_set k v m) = Some v.
Proof.
  intros Nd Hk; apply smap_find_elem; [now rewrite smap_set_keys|]; apply smap_set_elem; auto.
Qed.

(** Under a new name [add_area] registers the area with the sections asked
    for, each enabled as the last matching entry of the engine's mask says and
    disabled without one.  Under a name that is taken it gives the area that is
    there if the sections are the same, and refuses otherwise, changing
    nothing. *)
Theorem add_area_correct e junk name sections :
  let names := match sections with Some l => l | None => default_section_names end in
  registry_inv e -> Z.of_nat (length names) < 4294967232 ->
  exists e' res msgs, add_area e junk name sections = Some (e', res, msgs) /\
    smap_ok (e_areas e') /\ (forall n a, (n, a) ∈ e_areas e' -> area_ok a /\ a_name a = n) /\
    match find_area e name with
    | None => res = Some name /\ exists a, find_area e' name = Some a /\ a_section a = names /\
        (forall n b, n <> name -> (n, b) ∈ e_areas e' <-> (n, b) ∈ e_areas e) /\
        forall j, 0 <= j < Z.of_nat (length names) ->
          area_test a j = Some (verdict (e_mask e) name (section_name a j) false)
    | Some a => e_areas e' = e_areas e /\
        if decide (a_section a = names) then res = Some name /\ msgs = []
        else res = None /\ length msgs = 1%nat
    end.
Proof.
  cbv zeta; set (names := match sections with Some l => l | None => _ end); intros [R I S A] Hn.
  destruct (area_new_ok junk name sections Hn) as (Ok & Cn & Bn); fold names in Cn, Bn.
  unfold add_area, find_area; set (na := area_new junk name sections) in *.
  pose proof (smap_insert_spec name na _ S) as Ins; destruct (smap_find name (e_areas e)) as [a|] eqn:Fd.
  - rewrite Ins; cbn [e_areas with_areas with_stats]; rewrite Fd.
    apply (smap_find_elem _ _ _ (smap_ok_NoDup _ S)) in Fd; destruct (A _ _ Fd) as [Oa Na].
    assert (Eq : area_eq na a = true <-> a_section a = names).
    { rewrite (area_eq_ok na a Ok Oa), Na; split; [intros [_ <-]; done|intros ->; done]. }
    destruct (area_eq na a) eqn:Ea; do 3 eexists; (split; [reflexivity|]);
      (split; [exact S|]); (split; [exact A|]); (split; [done|]).
    + rewrite decide_True by (apply Eq; done); done.
    + rewrite decide_False; [done|]; intros H; apply Eq in H; discriminate H.
  - destruct Ins as (m' & -> & Sm' & Fm' & Em'); cbn [e_mask e_areas with_areas with_stats].
    destruct (mask_apply_bits (e_mask e) na Ok) as (a & Ea & Oa & (Na & Sa & Ca) & Ba); rewrite Ea.
    cbn [mbind option_bind]; do 3 eexists; split; [reflexivity|]; cbn [e_areas with_areas with_stats].
    assert (Hk : name ∈ map fst m').
    { apply list_elem_of_fmap; exists (name, na); split; [done|]; apply Em'; now left. }
    pose proof (smap_ok_NoDup _ Sm') as Nd; split; [|split; [|split; [done|]]].
    + apply (smap_ok_keys m'); [apply smap_set_keys|exact Sm'].
    + intros n b Hb; apply (smap_set_elem name a m' _ Nd Hk) in Hb as [[= -> ->]|[Hb N]]; [done|].
      apply Em' in Hb as [[= -> _]|Hb]; [done|now apply A].
    + exists a; split; [now apply smap_set_find|]; split; [exact Sa|]; split.
      * intros n b N; rewrite (smap_set_elem name a m' _ Nd Hk), Em'; cbn.
        split; [intros [[= -> _]|[[[= -> _]|H] _]]; done|intros H; right; auto].
      * intros j Hj; rewrite area_test_bit by (done || (rewrite Ca, Cn; done)).
        rewrite Ba by (now rewrite Cn); rewrite Bn by done; f_equal; f_equal.
        symmetry; apply section_name_shape; done.
Qed.
End RegistryFacts.

(** ** Concrete instances *)

Lemma sample8_refs : refs_small sample8.
Proof.
  intros n p r Hn Hr; unfold sample8, sample_engine in Hn; cbn [e_rings] in Hn.
  apply list_elem_of_In in Hn as [[= <- <-]|[[= <- <-]|[]]];
    vm_compute in Hr; injection Hr as <-; vm_compute; reflexivity.
Qed.

Lemma sample8_inv : registry_inv sample8.
Proof.
  split; [apply sample8_registry|apply sample8_internal|repeat constructor|].
  intros n a H; apply list_elem_of_singleton in H as [= -> ->]; split; [apply sample_internal_ok|reflexivity].
Qed.

Definition sample_options (flags : Z) : ring_options := mkRingOptions 4 0 flags 128.
Definition sample_zero : record := mkRecord None 0 0 0 0 (replicate 224 0).

Lemma sample_request flags : is_u32 flags -> request_ok (fun _ => true) sample_zero (sample_options flags) 4 256.
Proof.
  intros Hf; split.
  - split; [words; cbn; lia..|exact Hf|words; cbn; lia].
  - cbn; lia.
  - cbn; lia.
  - apply (pow2_ceil_witness _ 2); cbn; lia.
  - apply (pow2_ceil_witness _ 8); change (header_size + Z.max argval_size _) with 160; lia.
  - lia.
  - reflexivity.
  - reflexivity.
Qed.

Lemma find_ring_correct_witness :
  exists e' r', find_ring sample8 "b" = Some (e', Some 2) /\ registry_ok e' /\ e_heap e' !! 2 = Some r' /\ _refcnt r' = 3.
Proof.
  destruct (find_ring_correct sample8 "b" sample8_registry sample8_refs) as (e' & res & E & R & _ & H).
  assert (res = Some 2) as -> by (vm_compute in E; congruence).
  destruct H as (_ & r & r' & Hr & Hr' & _ & _ & Rf & _); exists e', r'; do 3 (split; [done|]).
  assert (_refcnt r = 2) by (vm_compute in Hr; now injection Hr as <-); lia.
Defined.

Lemma add_ring_correct_witness :
  exists e' r msgs, add_ring sample8 7 (fun _ => true) sample_zero "c" (sample_options 0) = Some (e', Some 7, msgs) /\
    registry_ok e' /\ e_heap e' !! 7 = Some r /\ contents r = [] /\ capacity r = 4 /\ _refcnt r = 2.
Proof.
  destruct (add_ring_correct sample8 7 (fun _ => true) sample_zero "c" (sample_options 0) 4 256
    sample8_registry eq_refl (sample_request 0 ltac:(words; lia)) sample8_refs) as (e' & res & msgs & E & R & _ & H).
  change (smap_find "c" (e_rings sample8)) with (@None Z) in H; cbv iota in H.
  destruct H as (-> & _ & _ & _ & r & Hr & C & Cp & Rf & _); exists e', r, msgs; done.
Defined.

Lemma rebuild_index_correct_witness :
  exists e', rebuild_ring_index sample8 = Some e' /\ registry_ok e' /\
    exists i ie, e_index e' !! i = Some ie /\ ix_ring ie = Some 2.
Proof.
  destruct (rebuild_index_correct sample8 sample8_registry) as (e' & E & R & _ & _ & _ & Cp & _).
  exists e'; do 2 (split; [done|]); apply (Cp "b"%string); apply list_elem_of_In; right; left; reflexivity.
Defined.

Lemma kill_orphan_race_witness :
  exists e1 e2 r2, find_ring sample_orphan "b" = Some (e1, Some 2) /\ kill_orphan e1 true 1 2 = Some e2 /\
    (forall q, ("b"%string, q) ∉ e_rings e2) /\ e_heap e2 !! 2 = Some r2 /\ _refcnt r2 = 1.
Proof.
  destruct (kill_orphan_race sample_orphan 1 (sample_entry 2 orphan_b) 2 orphan_b
    sample_orphan_registry eq_refl eq_refl eq_refl eq_refl) as (e1 & e2 & r2 & F & Kl & N & _ & H & _ & C).
  exists e1, e2, r2; done.
Defined.

Lemma add_area_correct_witness :
  exists e' msgs a, add_area sample8 (fun i => i) "net" (Some ["RX"; "TX"]%string) = Some (e', Some "net"%string, msgs) /\
    find_area e' "net" = Some a /\ a_section a = ["RX"; "TX"]%string.
Proof.
  destruct (add_area_correct sample8 (fun i => i) "net" (Some ["RX"; "TX"]%string) sample8_inv ltac:(cbn; lia))
    as (e' & res & msgs & E & _ & _ & H).
  change (find_area sample8 "net") with (@None area) in H; cbv iota in H.
  destruct H as (-> & a & Fa & Sa & _); exists e', msgs, a; done.
Defined.
