(* ===== verification/Dump.v ===== *)
(** * Text dumps (operator<< of engine.cc, ringbuf.cc, schedparam.cc)

    What the program prints of its rings, statistics and options, and of a whole
    engine, line by line.  The dump of areas and masks is in Area. *)

From stdpp Require Import pretty.
From S2P Require Import Prelude Args Record Ring Area Timestamp Tso Post Registry Engine EngineFacts RegistryFacts Sample.

Section Dump.
Context `{Rx : Regex}.
Implicit Type e : engine.

(** The name of a time source, how a pointer is printed, and a number in
    hexadecimal. *)
Variables (ts_name : Z -> string) (show_ptr : Z -> string) (hex : Z -> string).

Definition cat (l : list string) : string := String.concat "" l.

(** A field and its value. *)
Definition field (k : string) (v : Z) : string := cat [k; ":"; pretty v; ", "]%string.

(* src: src/ringbuf.cc 202-222 operator<< *)
Definition ring_dump (w : nat) (r : ring) : string :=
  let name := if _timesource r =? 0 then "null"%string else ts_name (_timesource r) in
  cat ([pad w ""; _name r; ": { "]%string ++
       [field "prio" (_prio r); field "refcnt" (_refcnt r); field "seqnum" (_seqnum r); field "dropcnt" (_dropcnt r);
        field "capacity" (capacity r); field "size" (size r); field "room" (room r);
        field "record_size" (record_size r); field "record_tailroom" (record_tailroom r)] ++
       ["timesource:"; name; " }"]%string).

(* src: src/engine.cc 781-794 operator<< *)
Definition stats_dump (w : nat) (s : stats) : string :=
  cat ([pad w ""; "{ "]%string ++
       [field "tso_full" (tso_full_cnt s); field "recs_out" (recs_out s); field "recs_dropped" (recs_dropped s);
        field "loops" (loops s); field "rings_indexed" (rings_indexed s); field "areas_added" (areas_added s);
        field "mask_changed" (mask_changed s); field "timesource_changed" (timesource_changed s)] ++ [" }"]%string).

(** [sched] is the pointer to the scheduling parameters. *)
(* src: src/engine.cc 796-817 operator<< *)
Definition options_dump (w : nat) (sched : Z) (o : options) : string :=
  let name := match opt_timesource o with Some ts => ts_name ts | None => "null"%string end in
  cat ([pad w ""; "{ "]%string ++
       [field "polling_interval_usec" (opt_polling_interval_usec o);
        field "tso_buffer_capacity" (opt_tso_buffer_capacity o); field "tso_buffer_capacity" (opt_tso_buffer_capacity o)] ++
       ["features:"; hex (opt_features o); ", "; "schedparam:"; show_ptr sched; ", "; "timesource:"; name; " }"]%string).

(* src: src/schedparam.cc 274-287 operator<< *)
Definition schedparam_dump (w : nat) (policy priority : Z) (affinity : string) : string :=
  cat [pad w ""; "{ "; field "policy" policy; field "priority" priority; "cpu-affinity:"; affinity; " }"]%string.

(** The rings that are found under the names of the list: each is held while it
    is printed. *)
Fixpoint dump_rings e (names : list string) : option (engine * list string) :=
  match names with
  | [] => Some (e, [])
  | n :: names =>
      '(e, q) ← find_ring e n;
      match q with
      | None => dump_rings e names
      | Some p =>
          r ← e_heap e !! p;
          e ← release_at e p;
          '(e, lines) ← dump_rings e names;
          Some (e, ring_dump 4 r :: lines)
      end
  end.

Fixpoint dump_areas e (names : list string) : list string :=
  match names with
  | [] => []
  | n :: names => match find_area e n with Some a => area_dump 4 a ++ dump_areas e names | None => dump_areas e names end
  end.

(* src: src/engine.cc 819-858 operator<< *)
Definition engine_dump e (sched : Z) : option (engine * list string) :=
  rings ← list_rings e;
  let head := ["Options: "%string; options_dump 4 sched (e_opts e); "Mask: "%string] ++ mask_dump 4 (e_mask e) ++
              ["Stats: "%string; stats_dump 4 (e_stats e); "Rings:"%string] in
  '(e, lines) ← dump_rings e rings;
  Some (e, head ++ lines ++ ["Areas:"%string] ++ dump_areas e (list_areas e)).

(** ** A dump changes nothing *)

Lemma release_held e p r : e_heap e !! p = Some r -> 1 <= _refcnt r < 2147483647 ->
  release_at (put_ring e p (hold r)) p = Some e.
Proof.
  intros Hr B; unfold release_at; cbn [e_heap put_ring with_heap]; rewrite lookup_insert_eq; cbn [mbind option_bind].
  rewrite (release_hold r B); f_equal; unfold put_ring, with_heap; cbn; rewrite insert_insert_eq, (insert_id _ _ _ Hr); now destruct e.
Qed.

(** The line of a registered ring: it is printed with the reference the dump
    itself has taken. *)
Definition ring_line e (n : string) : option string :=
  p ← smap_find n (e_rings e); r ← e_heap e !! p; Some (ring_dump 4 (hold r)).

Lemma dump_rings_ok e names : registry_ok e -> refs_small e -> dump_rings e names = Some (e, omap (ring_line e) names).
Proof.
  intros R Sm; induction names as [|n names IH]; [done|]; cbn [dump_rings]; unfold find_ring.
  change (omap (ring_line e) (n :: names)) with
    (match ring_line e n with Some l => l :: omap (ring_line e) names | None => omap (ring_line e) names end); unfold ring_line at 1.
  destruct (smap_find n (e_rings e)) as [p|] eqn:Fd; cbn [mbind option_bind]; [|exact IH].
  apply (smap_find_elem _ _ _ (ro_keys _ R)) in Fd; destruct (ro_rings _ R n p Fd) as (r & Hr & _ & Ok).
  unfold hold_at; rewrite Hr; cbn [mbind option_bind e_heap put_ring with_heap]; rewrite lookup_insert_eq; cbn [mbind option_bind].
  pose proof (rk_ref _ Ok); pose proof (Sm n p r Fd Hr); rewrite (release_held e p r Hr) by lia; cbn [mbind option_bind].
  now rewrite IH.
Qed.

Lemma list_rings_ok e : registry_ok e -> list_rings e = Some (map fst (e_rings e)).
Proof.
  intros R; unfold list_rings; assert (H : forall n p, (n, p) ∈ e_rings e -> exists r, e_heap e !! p = Some r /\ _name r = n).
  { intros n p Hn; destruct (ro_rings _ R n p Hn) as (r & Hr & Nm & _); eauto. }
  induction (e_rings e) as [|[n p] l IH]; [done|]; destruct (H n p ltac:(constructor)) as (r & Hr & Nm).
  cbn [mapM snd map fst]; rewrite Hr; cbn [mbind option_bind]; rewrite IH by (intros; apply H; now constructor); cbn [mbind option_bind].
  now rewrite Nm.
Qed.

Lemma ring_lines e (l : list (string * Z)) :
  (forall n p, (n, p) ∈ l -> exists r, e_heap e !! p = Some r /\ ring_line e n = Some (ring_dump 4 (hold r))) ->
  length (omap (ring_line e) (map fst l)) = length l /\
  forall i n p r, l !! i = Some (n, p) -> e_heap e !! p = Some r -> omap (ring_line e) (map fst l) !! i = Some (ring_dump 4 (hold r)).
Proof.
  induction l as [|[n p] l IH]; intros L; [split; [done|intros [|i] ? ? ? H'; discriminate H']|].
  destruct (L n p ltac:(constructor)) as (r & Hr & E); cbn [map fst omap list_omap]; rewrite E; cbn [length].
  destruct (IH (fun n p H => L n p ltac:(now constructor))) as [I1 I2]; split; [f_equal; exact I1|].
  intros [|i] n' p' r' Hi Hr'; [|exact (I2 i n' p' r' Hi Hr')].
  injection Hi as <- <-; cbn [lookup list_lookup]; assert (r' = r) as -> by congruence; reflexivity.
Qed.

(** Printing an engine succeeds, leaves it exactly as it was, every reference
    count included, and prints one line for each registered ring, in the order
    of the names, between the options, the mask and the statistics in front and
    the sections of the areas behind. *)
Theorem engine_dump_correct e sched : registry_ok e -> refs_small e ->
  exists lines, engine_dump e sched = Some (e,
      ["Options: "%string; options_dump 4 sched (e_opts e); "Mask: "%string] ++ mask_dump 4 (e_mask e) ++
      ["Stats: "%string; stats_dump 4 (e_stats e); "Rings:"%string] ++ lines ++ ["Areas:"%string] ++ dump_areas e (list_areas e)) /\
    length lines = length (e_rings e) /\
    forall i n p r, e_rings e !! i = Some (n, p) -> e_heap e !! p = Some r -> lines !! i = Some (ring_dump 4 (hold r)).
Proof.
  intros R Sm; exists (omap (ring_line e) (map fst (e_rings e))); unfold engine_dump; rewrite (list_rings_ok e R); cbn [mbind option_bind].
  rewrite (dump_rings_ok e _ R Sm); cbn [mbind option_bind]; rewrite <- !app_assoc; split; [done|].
  assert (L : forall n p, (n, p) ∈ e_rings e -> exists r, e_heap e !! p = Some r /\ ring_line e n = Some (ring_dump 4 (hold r))).
  { intros n p Hn; destruct (ro_rings _ R n p Hn) as (r & Hr & _); exists r; split; [done|].
    unfold ring_line; rewrite (proj1 (smap_find_elem _ _ _ (ro_keys _ R)) Hn); cbn [mbind option_bind]; now rewrite Hr. }
  exact (ring_lines e _ L).
Qed.
End Dump.

(** ** An engine, printed *)

Lemma engine_dump_correct_witness :
  exists lines : list string, option_map fst (engine_dump (fun _ => "clock"%string) (fun _ => "0"%string) pretty sample8 0) = Some sample8 /\
    lines !! 0%nat = Some "    a: { prio:3, refcnt:3, seqnum:2, dropcnt:0, capacity:4, size:2, room:1, record_size:256, record_tailroom:128, timesource:clock }"%string.
Proof.
  destruct (engine_dump_correct (fun _ => "clock"%string) (fun _ => "0"%string) pretty sample8 0 sample8_registry sample8_refs) as (l & E & _ & H).
  exists l; split; [now rewrite E|]; rewrite (H 0%nat "a"%string 1 ring_a eq_refl); vm_compute; reflexivity.
Defined.
