(* ===== verification/EngineApart.v ===== *)
(** * What a pass leaves alone

    A principle for passes with timestamp ordering: a preorder that holds for
    the primitive steps holds for the whole pass.  With it: a pass over an index
    that is out of date touches no ring the index does not know. *)

From S2P Require Import Prelude Args Record Ring Area Timestamp Tso Post Registry Engine.
From S2P Require Import EngineFacts RegistryFacts.

(** ** Relations that passes respect *)

Section Steps.
Context `{Rx : Regex}.
Context `{SortT : StdSort (entry Z) te_timestamp}.
Implicit Type e : engine.

(** A relation between engines that the primitive steps of a pass respect. *)
Class PassRel (Rel : engine -> engine -> Prop) : Prop := {
  pq_preorder :: PreOrder Rel;
  pq_same : forall e e', e_heap e' = e_heap e -> e_rings e' = e_rings e -> e_index e' = e_index e -> Rel e e';
  pq_index : forall e i ie ie', e_index e !! i = Some ie -> ix_ring ie' = ix_ring ie -> Rel e (set_index e i ie');
  pq_put : forall e i p r r', ring_at e i = Some (p, r) -> _name r' = _name r -> Rel e (put_ring e p r');
  pq_clock : forall e h ts m, set_timesources (e_heap e) ts m = Some h -> Rel e (with_heap e h);
  pq_kill : forall e i p r e', ring_at e i = Some (p, r) -> kill_orphan e true i p = Some e' -> Rel e e' }.

Context (Rel : engine -> engine -> Prop) `{PR : !PassRel Rel}.

Lemma rel_switch e r x e' : switch_timesource e r x = Some e' -> Rel e e' /\ e_index e' = e_index e.
Proof.
  unfold switch_timesource; destruct (set_timesources _ _ _) as [h|] eqn:E; [|done]; cbn [mbind option_bind]; intros [= <-].
  split; [|done]; match goal with |- Rel e (with_heap ?e1 h) => transitivity e1 end;
    [now apply pq_same|exact (pq_clock _ _ _ _ E)].
Qed.

(** The ring of an entry after the heap has changed. *)
Lemma ring_at_again e e1 i p r r1 : ring_at e i = Some (p, r) -> e_index e1 = e_index e -> e_heap e1 !! p = Some r1 ->
  ring_at e1 i = Some (p, r1).
Proof.
  unfold ring_at, index_at; intros A -> H; destruct (e_index e !! i) as [ie|]; [|done]; cbn in *.
  destruct (ix_ring ie) as [q|]; [|done]; cbn in *; destruct (e_heap e !! q); [|done]; cbn in A.
  injection A as -> _; now rewrite H.
Qed.

Lemma rel_flush_record e i s e' : flush_record e i s = Some e' -> Rel e e'.
Proof.
  unfold flush_record; destruct (ring_at e i) as [[p r]|] eqn:At; [|done]; cbn [mbind option_bind].
  destruct (record_at r s) as [x|]; [|done]; cbn [mbind option_bind]; destruct (is_special x).
  - set (sw := if r_argtype x =? SPR_TIMESOURCE_CHANGE then switch_timesource e r x else Some e).
    destruct sw as [e1|] eqn:E1; [|done]; cbn [mbind option_bind]; unfold sw in E1; clear sw.
    assert (Q : Rel e e1 /\ e_index e1 = e_index e)
      by (destruct (_ =? SPR_TIMESOURCE_CHANGE); [now apply (rel_switch e r x)|injection E1 as <-; split; reflexivity]).
    destruct Q as [Q I]; destruct (ack x) as [y|]; [|done]; cbn [mbind option_bind].
    destruct (e_heap e1 !! p) as [r1|] eqn:Hp; [|done]; intros [= <-]; transitivity e1; [exact Q|].
    transitivity (put_ring e1 p (write_slot r1 s y)); [|now apply pq_same].
    apply (pq_put e1 i p r1); [now apply (ring_at_again e e1 i p r r1)|reflexivity].
  - intros [= <-]; now apply pq_same.
Qed.

Lemma rel_check_drop e r ie x e' : check_drop e r ie x = Some e' -> Rel e e' /\ e_index e' = e_index e.
Proof.
  unfold check_drop; destruct (_ =? _); [intros [= <-]; split; reflexivity|]; destruct (reports _ _) as [on|]; [|done].
  intros [= <-]; destruct on; split; try reflexivity; now apply pq_same.
Qed.

Lemma rel_flush_entry e te e' : flush_entry e te = Some e' -> Rel e e'.
Proof.
  unfold flush_entry; destruct (ring_at e (te_tag te)) as [[p r]|]; [|done]; cbn [mbind option_bind].
  destruct (index_at e (te_tag te)) as [ie|] eqn:Hi; [|done]; cbn [mbind option_bind].
  destruct (record_at r (te_rec te)) as [x|]; [|done]; cbn [mbind option_bind].
  destruct (check_drop e r ie x) as [e1|] eqn:E1; [|done]; cbn [mbind option_bind]; intros E2.
  destruct (rel_check_drop _ _ _ _ _ E1) as [Q1 I1]; apply rel_flush_record in E2; transitivity e1; [done|].
  eapply transitivity; [|exact E2]; apply (pq_index e1 _ ie); [now rewrite I1|done].
Qed.

Lemma rel_pop_loop n : forall e e', pop_loop n e = Some e' -> Rel e e'.
Proof.
  induction n as [|n IH]; intros e e'; cbn [pop_loop]; [intros [= <-]; reflexivity|].
  destruct (tso_pop (e_tso e)) as [[te b]|]; [|intros [= <-]; reflexivity].
  destruct (flush_entry (with_tso e b) te) as [e1|] eqn:E1; [|done]; cbn [mbind option_bind]; intros E2.
  transitivity (with_tso e b); [now apply pq_same|]; transitivity e1; [eapply rel_flush_entry, E1|now apply IH].
Qed.

Lemma rel_do_flush_tso e n e' : do_flush_tso e n = Some e' -> Rel e e'.
Proof. intros E; apply rel_pop_loop in E; eapply transitivity; [|exact E]; now apply pq_same. Qed.

Lemma rel_flush_full_tso e e' : flush_full_tso e = Some e' -> Rel e e'.
Proof.
  unfold flush_full_tso; destruct (reports e I_TSOFULLMARK) as [on|]; [|done]; cbn [mbind option_bind].
  match goal with |- context [mbind _ ?c] => set (marked := c) end.
  destruct marked as [e1|] eqn:M; [|done]; cbn [mbind option_bind]; unfold marked in M; clear marked.
  assert (Q : Rel e e1).
  { destruct on; [|injection M as <-; reflexivity]; destruct (tso_top (e_tso e)) as [te|]; [|done]; cbn [mbind option_bind] in M.
    destruct (ring_at e (te_tag te)) as [[p r]|]; [|done]; cbn [mbind option_bind] in M.
    destruct (record_at r (te_rec te)); [|done]; injection M as <-; now apply pq_same. }
  destruct (do_flush_tso e1 _) as [e2|] eqn:E2; [|done]; cbn [mbind option_bind]; intros [= <-].
  transitivity e1; [done|]; transitivity e2; [eapply rel_do_flush_tso, E2|now apply pq_same].
Qed.

Lemma rel_flush_tso e e' : flush_tso e = Some e' -> Rel e e'.
Proof.
  unfold flush_tso; set (n := if _ <? e_leftover e then _ else _).
  destruct (if n =? 0 then Some e else do_flush_tso e n) as [e1|] eqn:E1; [|done]; cbn [mbind option_bind]; intros [= <-].
  transitivity e1; [|now apply pq_same]; destruct (n =? 0); [injection E1 as <-; reflexivity|eapply rel_do_flush_tso, E1].
Qed.

Lemma rel_read_ring fuel : forall e i ts e', read_ring fuel e i ts = Some e' -> Rel e e'.
Proof.
  induction fuel as [|fuel IH]; intros e i ts e'; cbn [read_ring]; [done|].
  destruct (ring_at e i) as [[p r]|]; [|done]; cbn [mbind option_bind].
  destruct (index_at e i) as [ie|] eqn:Hi; [|done]; cbn [mbind option_bind].
  destruct (it_next r (ix_pit ie)) as [[s it]|]; [|intros [= <-]; reflexivity].
  destruct (record_at r s) as [x|]; [|done]; cbn [mbind option_bind].
  destruct (tso_push _ _) as [b|]; [|done]; cbn [mbind option_bind]; set (e1 := with_tso _ b).
  destruct (if tso_full (e_tso e1) then flush_full_tso e1 else Some e1) as [e2|] eqn:E2; [|done]; cbn [mbind option_bind]; intros E3.
  transitivity (set_index e i (mkIx (ix_ring ie) it (ix_lastrec ie) (ix_seqnum ie))); [now apply (pq_index e i ie)|].
  transitivity e1; [now apply pq_same|]; transitivity e2; [|eapply IH, E3].
  destruct (tso_full _); [eapply rel_flush_full_tso, E2|injection E2 as <-; reflexivity].
Qed.

Lemma rel_check_orphan e locks i e' locks' : check_orphan e locks i = Some (e', locks') -> Rel e e'.
Proof.
  unfold check_orphan; destruct (ring_at e i) as [[p r]|] eqn:At; [|done]; cbn [mbind option_bind].
  destruct (orphan r && empty r); [|intros [= <- <-]; reflexivity]; destruct (next_lock locks) as [l ls].
  destruct (kill_orphan e l i p) as [e1|] eqn:E1; [|done]; cbn [mbind option_bind]; intros [= <- <-].
  destruct l; [exact (pq_kill _ _ _ _ _ At E1)|injection E1 as <-; reflexivity].
Qed.

Lemma rel_ring_turn e locks i e' locks' : ring_turn_tso e locks i = Some (e', locks') -> Rel e e'.
Proof.
  unfold ring_turn_tso; destruct (index_at e i) as [ie|] eqn:Hi; [|done]; cbn [mbind option_bind].
  destruct (ix_ring ie) as [p|] eqn:Hp; [|intros [= <- <-]; reflexivity]; destruct (e_heap e !! p) as [r|]; [|done].
  cbn [mbind option_bind]; destruct (read_ring _ _ i 0) as [e1|] eqn:E1; [|done]; cbn [mbind option_bind]; intros E2.
  transitivity e1; [|eapply rel_check_orphan, E2]; apply rel_read_ring in E1; eapply transitivity; [|exact E1].
  now apply (pq_index e i ie).
Qed.

Lemma rel_commit_turn e locks i e' locks' : commit_turn e locks i = Some (e', locks') -> Rel e e'.
Proof.
  unfold commit_turn, commit_ring; destruct (index_at e i) as [ie|] eqn:Hi; [|done]; cbn [mbind option_bind].
  destruct (ix_lastrec ie) as [s|]; [|intros [= <- <-]; reflexivity]; destruct (ix_ring ie) as [p|] eqn:Hp; [|intros [= <- <-]; reflexivity].
  destruct (e_heap e !! p) as [r|] eqn:Hr; [|done]; cbn [mbind option_bind]; intros [= <- <-].
  match goal with |- Rel e (set_index (put_ring e p ?r') i ?ie') => transitivity (put_ring e p r') end.
  - apply (pq_put e i p r); [|done]; unfold ring_at; rewrite Hi; cbn; rewrite Hp; cbn; now rewrite Hr.
  - apply (pq_index _ i ie); [exact Hi|now rewrite Hp].
Qed.

Lemma rel_for_rings f n : (forall e locks i e' locks', f e locks i = Some (e', locks') -> Rel e e') ->
  forall i e locks e' locks', for_rings f n i e locks = Some (e', locks') -> Rel e e'.
Proof.
  intros F; induction n as [|n IH]; intros i e locks e' locks'; cbn [for_rings]; [intros [= <- <-]; reflexivity|].
  destruct (f e locks i) as [[e1 l1]|] eqn:E1; [|done]; cbn [mbind option_bind]; intros E2.
  transitivity e1; [eapply F, E1|eapply IH, E2].
Qed.

Lemma rel_pass e locks e' locks' : process_rings_tso e locks = Some (e', locks') -> Rel e e'.
Proof.
  unfold process_rings_tso; destruct (for_rings _ _ _ _ _) as [[e1 l1]|] eqn:E1; [|done]; cbn [mbind option_bind].
  destruct (flush_tso e1) as [e2|] eqn:E2; [|done]; cbn [mbind option_bind]; intros E3.
  transitivity e1; [eapply rel_for_rings, E1; apply rel_ring_turn|]; transitivity e2; [eapply rel_flush_tso, E2|].
  eapply rel_for_rings, E3; apply rel_commit_turn.
Qed.
End Steps.

(** ** Rings the index does not know *)

Section Apart.
Context `{Rx : Regex}.
Context `{SortT : StdSort (entry Z) te_timestamp}.
Implicit Type e : engine.

Definition known e (p : Z) : Prop := exists i ie, e_index e !! i = Some ie /\ ix_ring ie = Some p.

(** What is not in the index keeps its records, its references and its
    registration; only rings of the index lose their registration. *)
Record apart e e' : Prop := {
  ap_known : forall p, known e' p -> known e p;
  ap_heap : forall p r, e_heap e !! p = Some r -> ~ known e p ->
    exists r', e_heap e' !! p = Some r' /\ same_ring r r' /\ _refcnt r' = _refcnt r;
  ap_names : forall p r', e_heap e' !! p = Some r' -> exists r, e_heap e !! p = Some r /\ _name r' = _name r;
  ap_rings : forall kv, kv ∈ e_rings e -> kv ∈ e_rings e' \/
    exists q r, known e q /\ e_heap e !! q = Some r /\ _name r = kv.1 }.

Lemma known_or_not e p : known e p \/ ~ known e p.
Proof.
  destruct (decide (p ∈ omap ix_ring (e_index e))) as [H|H]; [left|right].
  - apply list_elem_of_omap in H as (ie & Hi & Hp); apply list_elem_of_lookup in Hi as [i Hi]; now exists i, ie.
  - intros (i & ie & Hi & Hp); apply H, list_elem_of_omap; exists ie; split; [eapply list_elem_of_lookup_2, Hi|done].
Qed.

#[export] Instance apart_preorder : PreOrder apart.
Proof.
  split.
  - intros e; split; eauto; intros p r Hp _; exists r; split; [done|]; split; [apply same_ring_refl|done].
  - intros a b c [K1 H1 N1 R1] [K2 H2 N2 R2]; split; [auto| | |].
    + intros p r Hp Nk; destruct (H1 p r Hp Nk) as (r1 & P1 & S1 & F1).
      destruct (H2 p r1 P1 ltac:(auto)) as (r2 & P2 & S2 & F2); exists r2; split; [done|].
      split; [now apply (same_ring_trans r r1)|congruence].
    + intros p r Hp; destruct (N2 p r Hp) as (r1 & P1 & E1); destruct (N1 p r1 P1) as (r0 & P0 & E0); exists r0; split; congruence.
    + intros kv Hk; destruct (R1 kv Hk) as [Hb|?]; [|now right]; destruct (R2 kv Hb) as [?|(q & r & Kq & Hq & Nq)]; [now left|right].
      destruct (N1 q r Hq) as (r0 & P0 & E0); exists q, r0; split; [auto|]; split; congruence.
Qed.

Lemma smap_erase_other {V} k (m : list (string * V)) kv : kv ∈ m -> kv.1 <> k -> kv ∈ smap_erase k m.
Proof.
  induction m as [|[k' v'] m IH]; cbn [smap_erase]; [done|]; intros H N; apply elem_of_cons in H as [->|H].
  - cbn in N; rewrite decide_False by congruence; constructor.
  - case_decide; [done|]; constructor; now apply IH.
Qed.

Lemma set_timesources_same ts m : forall h h', set_timesources h ts m = Some h' -> forall p,
  match h !! p with
  | Some r => exists r', h' !! p = Some r' /\ same_ring r r' /\ _refcnt r' = _refcnt r
  | None => h' !! p = None
  end.
Proof.
  induction m as [|[n q] m IH]; intros h h' E p; cbn [set_timesources] in E.
  - injection E as <-; destruct (h !! p) as [r|]; [|done]; exists r; split; [done|]; split; [apply same_ring_refl|done].
  - destruct (h !! q) as [rq|] eqn:Hq; [|done]; cbn [mbind option_bind] in E; specialize (IH _ _ E p).
    destruct (decide (p = q)) as [->|N]; [rewrite lookup_insert_eq in IH; now rewrite Hq|now rewrite lookup_insert_ne in IH].
Qed.

Lemma apart_same e e' : e_heap e' = e_heap e -> e_rings e' = e_rings e -> e_index e' = e_index e -> apart e e'.
Proof.
  intros H R I; split; unfold known; rewrite ?H, ?R, ?I; eauto.
  intros p r Hp _; exists r; split; [done|]; split; [apply same_ring_refl|done].
Qed.

(** Another entry in the place of entry [i], for the same ring or for none. *)
Lemma known_set_index e i ie ie' p : e_index e !! i = Some ie -> ix_ring ie' = ix_ring ie \/ ix_ring ie' = None ->
  known (set_index e i ie') p -> known e p.
Proof.
  intros Hi Hr (j & je & Hj & Pj); cbn in Hj; destruct (decide (j = i)) as [->|N].
  - rewrite list_lookup_insert_eq in Hj by (eapply lookup_lt_Some, Hi); injection Hj as <-; exists i, ie.
    destruct Hr; split; congruence.
  - rewrite list_lookup_insert_ne in Hj by done; now exists j, je.
Qed.

Lemma apart_index e i ie ie' : e_index e !! i = Some ie -> ix_ring ie' = ix_ring ie -> apart e (set_index e i ie').
Proof.
  intros Hi Hr; destruct (apart_same e e eq_refl eq_refl eq_refl) as [_ A2 A3 A4]; split; [|exact A2|exact A3|exact A4].
  intros p; apply (known_set_index e i ie ie' p Hi); now left.
Qed.

(** The heap changes at addresses of the index only. *)
Lemma apart_known_heap e e1 (h : heap) : apart e e1 -> (forall p, ~ known e p -> h !! p = e_heap e1 !! p) ->
  (forall p r', h !! p = Some r' -> exists r, e_heap e1 !! p = Some r /\ _name r' = _name r) -> apart e (with_heap e1 h).
Proof.
  intros [A1 A2 A3 A4] Hk Hn; split; [exact A1| | |exact A4]; cbn.
  - intros p r Hp Nk; rewrite Hk by done; now apply A2.
  - intros p r' Hp; destruct (Hn p r' Hp) as (r1 & H1 & N1); destruct (A3 p r1 H1) as (r & Hr & N2); exists r; split; congruence.
Qed.

Lemma ring_at_known e i p r : ring_at e i = Some (p, r) ->
  known e p /\ e_heap e !! p = Some r /\ exists ie, e_index e !! i = Some ie.
Proof.
  unfold ring_at, index_at; intros At; destruct (e_index e !! i) as [ie|] eqn:Hi; [|done]; cbn in At.
  destruct (ix_ring ie) as [q|] eqn:Hq; [|done]; cbn in At; destruct (e_heap e !! q) eqn:Hp; [|done]; injection At as -> ->.
  split; [now exists i, ie|]; split; [done|now exists ie].
Qed.

Lemma apart_put e e1 p r r' : apart e e1 -> known e p -> e_heap e1 !! p = Some r -> _name r' = _name r ->
  apart e (put_ring e1 p r').
Proof.
  intros A K Hp Nm; apply (apart_known_heap e e1 _ A).
  - intros q Nk; rewrite lookup_insert_ne; [done|congruence].
  - intros q rq; destruct (decide (q = p)) as [->|N]; [rewrite lookup_insert_eq; intros [= <-]; eauto|].
    rewrite lookup_insert_ne by done; eauto.
Qed.

Lemma apart_clock e h ts m : set_timesources (e_heap e) ts m = Some h -> apart e (with_heap e h).
Proof.
  intros E; pose proof (set_timesources_same ts m _ _ E) as S; split; cbn; eauto.
  - intros p r Hp _; specialize (S p); rewrite Hp in S; exact S.
  - intros p r' Hp; specialize (S p); destruct (e_heap e !! p) as [r|]; [|congruence].
    destruct S as (r2 & H2 & ((Nm & _) & _) & _); exists r; split; [done|congruence].
Qed.

Lemma apart_release e e1 p e' : apart e e1 -> known e p -> release_at e1 p = Some e' -> apart e e'.
Proof.
  intros A K; unfold release_at; destruct (e_heap e1 !! p) as [r|] eqn:Hp; [|done]; cbn [mbind option_bind].
  assert (P : forall r', release r = Kept r' -> _name r' = _name r)
    by (intros r'; unfold release; repeat case_match; congruence || (intros [= <-]; done)).
  destruct (release r) as [r'| |]; [| |done]; intros [= <-].
  - apply (apart_put e e1 p r r' A K Hp), P; done.
  - apply (apart_known_heap e e1 _ A).
    + intros q Nk; rewrite lookup_delete_ne; [done|congruence].
    + intros q rq Hq; apply lookup_delete_Some in Hq as [_ Hq]; eauto.
Qed.

Lemma apart_kill e i p r e' : ring_at e i = Some (p, r) -> kill_orphan e true i p = Some e' -> apart e e'.
Proof.
  intros At E; destruct (ring_at_known e i p r At) as (K & Hp & ie & Hi); unfold kill_orphan in E.
  rewrite Hp in E; cbn [mbind option_bind] in E; rewrite Hi in E; cbn [mbind option_bind] in E.
  eapply (apart_release e _ p e'); [|exact K|exact E]; split; cbn.
  - intros q; apply (known_set_index e i ie (mkIx None dead_iterator (ix_lastrec ie) (ix_seqnum ie)) q Hi); now right.
  - intros q rq Hq _; exists rq; split; [done|]; split; [apply same_ring_refl|done].
  - eauto.
  - intros kv Hk; destruct (decide (kv.1 = _name r)) as [->|N]; [right; now exists p, r|left; now apply smap_erase_other].
Qed.

#[export] Instance apart_pass : PassRel apart.
Proof.
  split; [apply _|apply apart_same|apply apart_index| |apply apart_clock|apply apart_kill].
  intros e i p r r' At; destruct (ring_at_known e i p r At) as (K & Hp & _); apply (apart_put e e p r); [reflexivity|done|done].
Qed.
End Apart.
