(* ===== verification/EngineTso.v ===== *)
(** * A pass of the engine with timestamp ordering

    The pass of Engine is correct: it is memory safe, every ring gives up a
    prefix of its records, in order and once, whatever the buffer overflows and
    whatever the sort does with equal timestamps, and the rest stays in the
    ring for the next pass. *)

From S2P Require Import Prelude Args Record Ring Area Timestamp Tso Post Registry Engine EngineFacts.

(** ** The entries of one ring *)

Implicit Types (r : ring) (x : record) (te : entry Z).

Definition adjusted (ts : Z) (x : record) : Z :=
  if r_timestamp x <=? ts then ts +u64 1 else r_timestamp x.

Fixpoint entries (i : nat) (ts : Z) (l : list (Z * record)) : list (entry Z) :=
  match l with
  | [] => []
  | (slot, x) :: l => mkEntry (adjusted ts x) slot i :: entries i (adjusted ts x) l
  end.

Definition items (r : ring) : list (Z * record) := zip (slot_list r) (contents r).
Definition ring_entries (i : nat) (r : ring) : list (entry Z) := entries i 0 (items r).

(** The clock stays far enough from wrapping around. *)
Definition clock_room (x : record) : Prop := 0 <= r_timestamp x < 18446744071562067968.

Lemma length_entries i ts l : length (entries i ts l) = length l.
Proof. revert ts; induction l as [|[s x] l IH]; intros; cbn; auto. Qed.

Lemma length_items r : length (items r) = Z.to_nat (size r).
Proof. unfold items; rewrite length_zip, length_slot_list, length_contents; lia. Qed.

Lemma length_ring_entries i r : length (ring_entries i r) = Z.to_nat (size r).
Proof. unfold ring_entries; rewrite length_entries; apply length_items. Qed.

Lemma entries_app i ts l l' :
  entries i ts (l ++ l') = entries i ts l ++ entries i (fold_left adjusted (map snd l) ts) l'.
Proof. revert ts; induction l as [|[s x] l IH]; intros; cbn; [done|]; now rewrite IH. Qed.

Lemma entries_lookup i ts l k te : entries i ts l !! k = Some te ->
  te_tag te = i /\ exists x, l !! k = Some (te_rec te, x).
Proof.
  revert ts k; induction l as [|[s x] l IH]; intros ts k; [done|]; destruct k as [|k]; cbn.
  - intros [= <-]; eauto.
  - intros E; destruct (IH _ _ E) as (? & ? & ?); eauto.
Qed.

Lemma adjusted_bounds ts x (n : Z) : clock_room x -> 0 <= ts < 18446744071562067968 + n -> 0 <= n < 2147483648 ->
  ts < adjusted ts x < 18446744071562067968 + (n + 1).
Proof.
  unfold clock_room, adjusted; intros Hx Ht Hn.
  destruct (Z.leb_spec (r_timestamp x) ts); [rewrite u64_small by (words; lia)|]; lia.
Qed.

(** Timestamps of one ring are made to grow strictly. *)
Lemma entries_sorted i l : forall ts n, Forall (fun p => clock_room p.2) l ->
  0 <= ts < 18446744071562067968 + n -> 0 <= n -> n + Z.of_nat (length l) < 2147483648 ->
  StronglySorted (fun a b => te_timestamp a < te_timestamp b) (entries i ts l) /\
  Forall (fun te => ts < te_timestamp te) (entries i ts l).
Proof.
  induction l as [|[s x] l IH]; intros ts n F Ht Hn Hl; cbn [entries]; [split; constructor|].
  inversion F as [|? ? Hx F']; subst; cbn in Hx, Hl.
  destruct (adjusted_bounds ts x n Hx Ht ltac:(lia)) as [A1 A2].
  destruct (IH (adjusted ts x) (n + 1) F') as [S G]; [lia|lia|lia|].
  split; constructor; cbn; auto.
  apply (Forall_impl _ _ _ G); cbn; lia.
Qed.

Definition ring_clock (r : ring) : Prop := Forall clock_room (contents r).

Lemma items_snd r : map snd (items r) = contents r.
Proof.
  unfold items; rewrite <- (snd_zip (slot_list r) (contents r)) at 2; [done|].
  rewrite length_slot_list, length_contents; lia.
Qed.

Lemma items_lookup r (k : nat) s x : items r !! k = Some (s, x) <->
  slot_list r !! k = Some s /\ contents r !! k = Some x.
Proof.
  unfold items; rewrite lookup_zip_with_Some; split.
  - intros (? & ? & [= -> ->] & ? & ?); done.
  - intros [? ?]; eauto.
Qed.

Lemma ring_entries_sorted i r : ring_wf r -> ring_clock r ->
  StronglySorted (fun a b => te_timestamp a < te_timestamp b) (ring_entries i r).
Proof.
  intros W C; destruct (ring_wf_facts r W) as (n & _ & F); pose proof (size_range _ _ F); pose proof (rf_n _ _ F).
  apply (entries_sorted i (items r) 0 0); [|lia|lia|rewrite length_items; lia].
  apply Forall_lookup; intros k [s x] Hk; apply items_lookup in Hk as [_ Hk]; cbn.
  unfold ring_clock in C; rewrite Forall_lookup in C; eauto.
Qed.

(** A slot that is read holds the record of the contents at its position. *)
Lemma slot_record r (k : nat) s : ring_wf r -> slot_list r !! k = Some s ->
  exists x, contents r !! k = Some x /\ _recs r !! Z.to_nat s = Some x /\ 0 <= s.
Proof.
  intros W Hs; destruct (ring_wf_facts r W) as (n & _ & F); pose proof (rf_n _ _ F); pose proof (rf_len _ _ F).
  pose proof (lookup_lt_Some _ _ _ Hs) as Lt; rewrite length_slot_list in Lt.
  pose proof (slot_list_lookup r n (Z.of_nat k) F ltac:(lia)) as Hs'; rewrite Nat2Z.id, Hs in Hs'.
  injection Hs' as ->; pose proof (mod_range (_head r + 1 + Z.of_nat k) n ltac:(lia)).
  eexists; rewrite contents_slot_list, list_lookup_fmap, Hs; cbn; split; [done|].
  split; [|lia]; apply list_lookup_lookup_total_lt; lia.
Qed.

Lemma slot_list_NoDup r : ring_wf r -> NoDup (slot_list r).
Proof.
  intros W; destruct (ring_wf_facts r W) as (n & _ & F); pose proof (size_range _ _ F).
  apply NoDup_alt; intros i j s Hi Hj.
  pose proof (lookup_lt_Some _ _ _ Hi) as Li; pose proof (lookup_lt_Some _ _ _ Hj) as Lj.
  rewrite length_slot_list in Li, Lj.
  pose proof (slot_list_lookup r n (Z.of_nat i) F ltac:(lia)) as Ei; rewrite Nat2Z.id, Hi in Ei.
  pose proof (slot_list_lookup r n (Z.of_nat j) F ltac:(lia)) as Ej; rewrite Nat2Z.id, Hj in Ej.
  rewrite Ei in Ej; injection Ej as E; rewrite <- !(Z.add_assoc _ 1) in E.
  apply mod_add_inj in E; lia.
Qed.

(** The entry of a record, from the timestamps before it. *)
Definition last_ts (r : ring) (k : nat) : Z := fold_left adjusted (take k (contents r)) 0.

Lemma ring_entries_at i r (k : nat) s x : slot_list r !! k = Some s -> contents r !! k = Some x ->
  ring_entries i r !! k = Some (mkEntry (adjusted (last_ts r k) x) s i) /\
  last_ts r (S k) = adjusted (last_ts r k) x.
Proof.
  intros Hs Hx; assert (Hi : items r !! k = Some (s, x)) by (apply items_lookup; done).
  pose proof (lookup_lt_Some _ _ _ Hi) as Lt; split.
  - unfold ring_entries; rewrite <- (take_drop_middle _ _ _ Hi), entries_app.
    rewrite lookup_app_r by (rewrite length_entries, length_take; lia).
    rewrite length_entries, length_take, Nat.min_l, Nat.sub_diag by lia; cbn.
    unfold last_ts; rewrite <- (items_snd r), firstn_map; done.
  - unfold last_ts; rewrite (take_S_r _ _ _ Hx), fold_left_app; done.
Qed.

(** The iterator at a position of its ring. *)
Definition it_at r (k : nat) : pop_iterator :=
  mkIter ((_head r + Z.of_nat k) mod capacity r) (_tail r).

Lemma it_next_at r (k : nat) : ring_wf r -> (k <= Z.to_nat (size r))%nat ->
  it_next r (it_at r k) =
    match slot_list r !! k with Some s => Some (s, it_at r (S k)) | None => None end.
Proof.
  intros W Hk; destruct (ring_wf_facts r W) as (n & _ & F); pose proof (size_range _ _ F); pose proof (rf_n _ _ F).
  unfold it_next, it_at; cbn [it_head it_tail]; rewrite (rf_mask _ _ F), (rf_cap _ _ F), mod_mod_add.
  destruct (decide (k < Z.to_nat (size r))%nat) as [L|L].
  - pose proof (slot_list_lookup r n (Z.of_nat k) F ltac:(lia)) as S; rewrite Nat2Z.id in S; rewrite S.
    replace (_head r + Z.of_nat k + 1) with (_head r + 1 + Z.of_nat k) by lia.
    destruct (Z.eqb_spec ((_head r + 1 + Z.of_nat k) mod n) (_tail r)) as [E|_].
    + rewrite (tail_eq _ _ F) in E; apply mod_add_inj in E; lia.
    + rewrite (rf_rec _ _ F) by (apply mod_range; lia); do 4 f_equal; lia.
  - rewrite lookup_ge_None_2 by (rewrite length_slot_list; lia).
    rewrite (tail_eq _ _ F); replace (_head r + Z.of_nat k + 1) with (_head r + 1 + size r) by lia.
    now rewrite Z.eqb_refl.
Qed.

Lemma it_next_config r r' it : same_config r r' -> it_next r' it = it_next r it.
Proof. intros (_ & _ & _ & E1 & _ & E2 & _); unfold it_next, get_record; now rewrite E1, E2. Qed.

Lemma it_reset_at r : ring_wf r -> it_reset r = it_at r 0.
Proof.
  intros W; destruct (ring_wf_facts r W) as (n & _ & F); pose proof (rf_head _ _ F).
  unfold it_reset, it_at; rewrite (rf_cap _ _ F), Z.add_0_r, Z.mod_small; done.
Qed.

(** ** The state in the middle of a pass *)
Section Pass.
Context `{Rx : Regex}.
Context `{SortT : StdSort (entry Z) te_timestamp}.
Context `{SortI : forall key, StdSort index_entry key}.
Implicit Type e : engine.

(** The entries with a given tag. *)
Definition tagged (i : nat) (l : list (entry Z)) : list (entry Z) := filter (fun te => te_tag te = i) l.

Lemma tagged_app i l l' : tagged i (l ++ l') = tagged i l ++ tagged i l'.
Proof. apply filter_app. Qed.

Lemma tagged_cons_eq i te l : te_tag te = i -> tagged i (te :: l) = te :: tagged i l.
Proof. intros E; unfold tagged; rewrite filter_cons, decide_True; done. Qed.
Lemma tagged_cons_ne i te l : te_tag te <> i -> tagged i (te :: l) = tagged i l.
Proof. intros E; unfold tagged; rewrite filter_cons, decide_False; done. Qed.

(** The rings of the valid entries at the start of the pass, and the sequence
    numbers expected then. *)
Variable R0 : nat -> option (Z * ring).
Variable S0 : nat -> Z.

Definition rec_of te : option record :=
  '(_, r) ← R0 (te_tag te); _recs r !! Z.to_nat (te_rec te).

(** What a list of flushed entries sends out. *)
Definition sent (fe : list (entry Z)) : list (nat * record) :=
  omap (fun te => x ← rec_of te; Some (te_tag te, x)) fe.

Definition name_of (i : nat) : string := match R0 i with Some (_, r) => _name r | None => "" end.

(** The expected sequence numbers after some records, and the number of
    records that are missing in front of the ones sent. *)
Definition next_seq (s : Z) (l : list record) : Z := fold_left (fun _ x => r_seqnum x +u64 1) l s.

Fixpoint gaps (s : Z) (l : list record) : Z :=
  match l with [] => 0 | x :: l => gap s x + gaps (r_seqnum x +u64 1) l end.

(** Missing records found while sending [fl], with the expected numbers [s]. *)
Fixpoint replay (s : nat -> Z) (fl : list (nat * record)) : Z :=
  match fl with
  | [] => 0
  | (i, x) :: fl =>
      gap (s i) x + replay (fun j => if decide (j = i) then r_seqnum x +u64 1 else s j) fl
  end.

Definition of_ring (i : nat) (fl : list (nat * record)) : list record :=
  map snd (filter (fun p => p.1 = i) fl).

Definition seqs_after (fl : list (nat * record)) (i : nat) : Z := next_seq (S0 i) (of_ring i fl).

Definition flushed (fe : list (entry Z)) (i : nat) : nat := length (tagged i fe).

(** [K]: rings killed so far; [q i]: records read from ring [i] so far; [fe]:
    the entries flushed so far. *)
Record sim (K : list nat) (q : nat -> nat) (fe : list (entry Z)) (e0 e : engine) : Prop := {
  s_reg : registry_ok e;
  s_int : internal_ok e;
  s_tso : tso_ok (e_tso e);
  s_count : length (e_index e) = length (e_index e0);
  s_start : forall i p r, R0 i = Some (p, r) -> ring_ok r /\ ring_clock r /\ (q i <= Z.to_nat (size r))%nat;
  s_ring : forall i p r, R0 i = Some (p, r) -> i ∉ K -> exists r' ie,
    e_heap e !! p = Some r' /\ e_index e !! i = Some ie /\ ix_ring ie = Some p /\
    ring_rel (fun s => s ∈ take (flushed fe i) (slot_list r)) r r' /\
    ix_lastrec ie = last (take (flushed fe i) (slot_list r)) /\
    ix_seqnum ie = next_seq (S0 i) (take (flushed fe i) (contents r));
  s_none : forall i ie, e_index e !! i = Some ie -> R0 i = None \/ i ∈ K ->
    ix_ring ie = None /\ ix_lastrec ie = None;
  s_killed : forall i p r, R0 i = Some (p, r) -> i ∈ K -> size r = 0;
  s_read : forall i p r, R0 i = Some (p, r) -> exists rest,
    tagged i fe ++ rest = take (q i) (ring_entries i r) /\ Permutation (tagged i (pending (e_tso e))) rest;
  s_dom : forall te, te ∈ pending (e_tso e) \/ te ∈ fe -> is_Some (R0 (te_tag te));
  s_outs : outs e = outs e0 ++ map (fun '(i, x) => (name_of i, x)) (sent fe);
  s_recs_out : u64 (recs_out (e_stats e)) = u64 (recs_out (e_stats e0) + Z.of_nat (length (sent fe)));
  s_dropped : u64 (recs_dropped (e_stats e)) = u64 (recs_dropped (e_stats e0) + replay S0 (sent fe));
  s_bound : forall i p r, R0 i = Some (p, r) -> (i < length (e_index e0))%nat }.

(** The iterators are not touched by a flush. *)
Definition pits_kept e e' : Prop :=
  forall i ie, e_index e !! i = Some ie -> exists ie', e_index e' !! i = Some ie' /\
    ix_pit ie' = ix_pit ie /\ ix_ring ie' = ix_ring ie.

#[export] Instance pits_kept_preorder : PreOrder pits_kept.
Proof.
  split; [intros e i ie E; eauto|]; intros a b c H1 H2 i ie E.
  destruct (H1 i ie E) as (ie1 & E1 & P1 & Q1); destruct (H2 i ie1 E1) as (ie2 & E2 & P2 & Q2).
  exists ie2; split; [done|split; congruence].
Qed.

Lemma sent_app fe fe' : sent (fe ++ fe') = sent fe ++ sent fe'.
Proof. apply omap_app. Qed.

Lemma replay_app fl : forall s fl',
  replay s (fl ++ fl') = replay s fl + replay (fun j => next_seq (s j) (of_ring j fl)) fl'.
Proof.
  induction fl as [|[i x] fl IH]; intros s fl'; cbn [replay app]; [done|].
  rewrite IH, Z.add_assoc; f_equal.
  assert (Ext : forall fl s s', (forall j, s j = s' j) -> replay s fl = replay s' fl).
  { clear; induction fl as [|[i x] fl IH]; intros s s' H; cbn; [done|]; rewrite H; f_equal.
    apply IH; intros j; now case_decide. }
  apply Ext; intros j; unfold of_ring; rewrite filter_cons; cbn [fst].
  destruct (decide (j = i)) as [->|N].
  - now rewrite decide_True by done.
  - rewrite decide_False by congruence; done.
Qed.

Lemma of_ring_app i fl fl' : of_ring i (fl ++ fl') = of_ring i fl ++ of_ring i fl'.
Proof. unfold of_ring; now rewrite filter_app, map_app. Qed.

(** What was sent for a ring is a prefix of its contents. *)
Lemma sent_of_ring fe i p r : (forall te, te ∈ fe -> is_Some (R0 (te_tag te))) -> ring_wf r ->
  R0 i = Some (p, r) -> (exists rest, tagged i fe ++ rest = take (length (tagged i fe ++ rest)) (ring_entries i r)) ->
  of_ring i (sent fe) = take (flushed fe i) (contents r).
Proof.
  intros Dom W E [rest Hp].
  assert (Pre : forall fe' k, (forall te, te ∈ fe' -> is_Some (R0 (te_tag te))) ->
    (forall j te, tagged i fe' !! j = Some te -> ring_entries i r !! (k + j)%nat = Some te) ->
    of_ring i (sent fe') = take (length (tagged i fe')) (drop k (contents r))).
  { clear Dom Hp; induction fe' as [|te fe' IH]; intros k Dom H; [now rewrite take_0|].
    assert (Dom' : forall te, te ∈ fe' -> is_Some (R0 (te_tag te))) by (intros; apply Dom; now constructor).
    destruct (decide (te_tag te = i)) as [Ti|Ti].
    - rewrite tagged_cons_eq in H |- * by done.
      pose proof (H 0%nat te eq_refl) as H0; rewrite Nat.add_0_r in H0.
      apply entries_lookup in H0 as (_ & x & Hx); apply items_lookup in Hx as [Hs Hx].
      destruct (slot_record r k _ W Hs) as (x' & Hx' & Hr & _); assert (x' = x) as -> by congruence.
      assert (Sx : sent (te :: fe') = (i, x) :: sent fe').
      { unfold sent; cbn; unfold rec_of; rewrite Ti, E; cbn; rewrite Hr; done. }
      rewrite Sx; unfold of_ring; rewrite filter_cons, decide_True by done; cbn.
      rewrite (drop_S _ _ _ Hx); cbn; f_equal; apply (IH (S k) Dom').
      intros j te' Hj; specialize (H (S j) te' Hj); now rewrite Nat.add_succ_r in H.
    - rewrite tagged_cons_ne in H |- * by done.
      rewrite <- (IH k Dom' H); unfold sent; cbn; unfold rec_of.
      destruct (Dom te ltac:(constructor)) as [[p' r'] Er]; rewrite Er; cbn.
      destruct (_recs r' !! Z.to_nat (te_rec te)); cbn; [|done].
      unfold of_ring; cbn; rewrite decide_False; done. }
  rewrite (Pre fe 0%nat Dom); [done|]; intros j te Hj; cbn.
  pose proof (lookup_lt_Some _ _ _ Hj) as Lt.
  assert (Lk : (tagged i fe ++ rest) !! j = Some te) by now rewrite lookup_app_l.
  rewrite Hp, lookup_take_lt in Lk; [exact Lk|]; rewrite length_app; lia.
Qed.

(** *** Changing an index entry *)

Lemma registry_ok_set_index e i ie ie' : registry_ok e -> e_index e !! i = Some ie ->
  ix_ring ie' = ix_ring ie -> registry_ok (set_index e i ie').
Proof.
  intros [K Rg I D] Ei Er.
  assert (L : forall j je, e_index (set_index e i ie') !! j = Some je ->
    exists je0, e_index e !! j = Some je0 /\ ix_ring je = ix_ring je0).
  { intros j je; cbn; destruct (decide (j = i)) as [->|N].
    - rewrite list_lookup_insert_eq by (eapply lookup_lt_Some, Ei); intros [= <-]; eauto.
    - rewrite list_lookup_insert_ne by done; eauto. }
  split; [exact K | exact Rg | |].
  - intros j je p Ej Ep; destruct (L j je Ej) as (je0 & Ej0 & Q); apply (I j je0 p Ej0); congruence.
  - intros j k je ke p Ej Ek Pj Pk; destruct (L j je Ej) as (je0 & Ej0 & Q).
    destruct (L k ke Ek) as (ke0 & Ek0 & Q'); apply (D j k je0 ke0 p); [done|done|congruence|congruence].
Qed.

Lemma take_S_last {T} (l : list T) k a : l !! k = Some a -> last (take (S k) l) = Some a.
Proof. intros E; rewrite (take_S_r _ _ _ E); apply last_snoc. Qed.

Lemma elem_of_take_le {T} (l : list T) a b z : (a <= b)%nat -> z ∈ take a l -> z ∈ take b l.
Proof.
  intros Hab Hz; apply list_elem_of_lookup in Hz as [k Hk]; apply lookup_take_Some in Hk as [Hk Hlt].
  apply list_elem_of_lookup; exists k; apply lookup_take_Some; split; [done|lia].
Qed.

Lemma next_seq_snoc s l x : next_seq s (l ++ [x]) = r_seqnum x +u64 1.
Proof. unfold next_seq; now rewrite fold_left_app. Qed.

(** The entry the buffer gives out is the next one of its ring. *)
Lemma head_is_next K q fe e0 e te l : sim K q fe e0 e ->
  StronglySorted (fun a b => te_timestamp a <= te_timestamp b) (te :: l) ->
  pending (e_tso e) = te :: l ->
  exists p r rest, R0 (te_tag te) = Some (p, r) /\ (te_tag te ∉ K) /\
    tagged (te_tag te) fe ++ (te :: rest) = take (q (te_tag te)) (ring_entries (te_tag te) r) /\
    Permutation (tagged (te_tag te) l) rest.
Proof.
  intros Sm So Pe; destruct (s_dom _ _ _ _ _ Sm te) as [[p r] E]; [left; rewrite Pe; constructor|].
  destruct (s_start _ _ _ _ _ Sm _ _ _ E) as (Ok & Clk & _).
  destruct (s_read _ _ _ _ _ Sm _ _ _ E) as (rest & T & Pm).
  rewrite Pe, tagged_cons_eq in Pm by done.
  assert (Sr : StronglySorted (fun a b => te_timestamp a < te_timestamp b) rest).
  { pose proof (ring_entries_sorted (te_tag te) r (rk_wf _ Ok) Clk) as S1.
    rewrite <- (take_drop (q (te_tag te)) (ring_entries _ r)), <- T in S1.
    apply StronglySorted_app in S1 as (_ & S1 & _); now apply StronglySorted_app in S1 as (_ & _ & S1). }
  assert (Eq : te :: tagged (te_tag te) l = rest).
  { apply (sorted_perm_eq te_timestamp); [done| |done].
    rewrite <- (tagged_cons_eq (te_tag te) te l) by done; now apply sorted_filter. }
  exists p, r, (tagged (te_tag te) l); split; [done|]; split.
  - intros HK; pose proof (s_killed _ _ _ _ _ Sm _ _ _ E HK) as Z0.
    assert (X : length (tagged (te_tag te) fe ++ rest) = 0%nat)
      by (rewrite T, length_take, length_ring_entries, Z0; cbn; lia).
    rewrite <- Eq, length_app in X; cbn in X; lia.
  - split; [now rewrite Eq | done].
Qed.

Lemma heap_rel_lookup p s h h' q r : heap_rel p s h h' -> h !! q = Some r ->
  exists r', h' !! q = Some r' /\ ring_rel (fun s' => q = p /\ s' = s) r r'.
Proof. intros H; apply H. Qed.

(** The new state after the entry [te] of ring [i], its record [x], is
    flushed: index entry [ie'], heap changed in slot [te_rec te] of [p] only. *)
Lemma sim_flushed K q fe e0 e e' te l p r r' rest ie x :
  sim K q fe e0 e -> pending (e_tso e) = te :: l -> R0 (te_tag te) = Some (p, r) -> te_tag te ∉ K ->
  tagged (te_tag te) fe ++ (te :: rest) = take (q (te_tag te)) (ring_entries (te_tag te) r) ->
  Permutation (tagged (te_tag te) l) rest ->
  e_index e !! te_tag te = Some ie -> e_heap e !! p = Some r' -> ix_ring ie = Some p ->
  slot_list r !! flushed fe (te_tag te) = Some (te_rec te) -> contents r !! flushed fe (te_tag te) = Some x ->
  rec_of te = Some x ->
  registry_ok e' -> internal_ok e' -> tso_ok (e_tso e') -> pending (e_tso e') = l ->
  e_index e' = <[te_tag te := mkIx (ix_ring ie) (ix_pit ie) (Some (te_rec te)) (r_seqnum x +u64 1)]> (e_index e) ->
  heap_rel p (te_rec te) (e_heap e) (e_heap e') ->
  outs e' = outs e ++ [(_name r, x)] ->
  recs_out (e_stats e') = u64 (recs_out (e_stats e) + 1) ->
  u64 (recs_dropped (e_stats e')) = u64 (recs_dropped (e_stats e) + gap (ix_seqnum ie) x) ->
  sim K q (fe ++ [te]) e0 e'.
Proof.
  set (i := te_tag te); set (s := te_rec te).
  intros Sm Pe Er HK Tk Pm Hie Hr' Hp Hs Hx Hrec Rg In Ob Pb Ix Hh Ou So Sd.
  destruct (s_start _ _ _ _ _ Sm _ _ _ Er) as (Ok & Clk & Hq).
  assert (Fi : flushed (fe ++ [te]) i = S (flushed fe i)).
  { unfold flushed; rewrite tagged_app, length_app, tagged_cons_eq by done; cbn; lia. }
  assert (Fj : forall j, j <> i -> flushed (fe ++ [te]) j = flushed fe j).
  { intros j N; unfold flushed; rewrite tagged_app, length_app, tagged_cons_ne by (fold i; congruence); cbn; lia. }
  assert (Snt : sent (fe ++ [te]) = sent fe ++ [(i, x)]).
  { rewrite sent_app; f_equal; unfold sent; cbn; now rewrite Hrec. }
  assert (Pre : of_ring i (sent fe) = take (flushed fe i) (contents r)).
  { apply (sent_of_ring fe i p r); [|apply Ok|done|].
    - intros te' Hte; apply (s_dom _ _ _ _ _ Sm); now right.
    - exists (te :: rest); rewrite Tk, length_take; f_equal.
      rewrite length_ring_entries; lia. }
  pose proof (lookup_lt_Some _ _ _ Hie) as Li.
  split; try done.
  - rewrite Ix, length_insert; apply (s_count _ _ _ _ _ Sm).
  - apply (s_start _ _ _ _ _ Sm).
  - intros j p2 r2 Ej HKj; destruct (s_ring _ _ _ _ _ Sm _ _ _ Ej HKj) as (r2' & je & A1 & A2 & A3 & A4 & A5 & A6).
    destruct (Hh p2 r2' A1) as (r4 & B1 & B2); rewrite Ix; exists r4.
    destruct (decide (j = i)) as [->|N].
    + rewrite Er in Ej; injection Ej as <- <-; rewrite list_lookup_insert_eq, Fi by done.
      eexists; do 3 (split; [done|]); split; [|split].
      * apply (ring_rel_trans _ r r2').
        -- eapply ring_rel_weaken, A4; cbn; intros z; apply elem_of_take_le; lia.
        -- eapply ring_rel_weaken, B2; intros z [_ ->].
           apply list_elem_of_lookup; exists (flushed fe i); rewrite lookup_take_lt by lia; done.
      * cbn; symmetry; now apply take_S_last.
      * cbn; rewrite (take_S_r _ _ _ Hx); symmetry; apply next_seq_snoc.
    + rewrite list_lookup_insert_ne, Fj by done; exists je; do 3 (split; [done|]); split; [|done].
      apply (ring_rel_trans _ r2 r2'); [done|]; eapply ring_rel_weaken, B2; intros z [-> _]; exfalso.
      apply N, (ro_distinct _ (s_reg _ _ _ _ _ Sm) _ _ _ _ _ A2 Hie A3 Hp).
  - intros j je; rewrite Ix; destruct (decide (j = i)) as [->|N].
    + intros _ [|]; [congruence|done].
    + rewrite list_lookup_insert_ne by done; apply (s_none _ _ _ _ _ Sm).
  - apply (s_killed _ _ _ _ _ Sm).
  - intros j p2 r2 Ej; rewrite Pb, tagged_app; destruct (decide (j = i)) as [->|N].
    + rewrite Er in Ej; injection Ej as <- <-; exists rest; split; [|done].
      rewrite tagged_cons_eq, <- app_assoc by done; exact Tk.
    + rewrite (tagged_cons_ne j te []) by (fold i; congruence); rewrite app_nil_r.
      destruct (s_read _ _ _ _ _ Sm _ _ _ Ej) as (rest' & T' & P'); exists rest'; split; [done|].
      rewrite Pe, tagged_cons_ne in P' by (fold i; congruence); done.
  - intros te' [Hin|Hin]; apply (s_dom _ _ _ _ _ Sm).
    + left; rewrite Pe; constructor; rewrite <- Pb; done.
    + apply elem_of_app in Hin as [Hin|Hin]; [now right|].
      apply list_elem_of_singleton in Hin as ->; left; rewrite Pe; constructor.
  - rewrite Ou, (s_outs _ _ _ _ _ Sm), Snt, map_app, <- app_assoc; cbn; unfold name_of; now rewrite Er.
  - rewrite So, u64_idem, <- u64_add_l, (s_recs_out _ _ _ _ _ Sm), Snt, length_app, u64_add_l; f_equal; cbn; lia.
  - rewrite Sd, Snt, replay_app; cbn; rewrite Z.add_0_r, Pre.
    destruct (s_ring _ _ _ _ _ Sm _ _ _ Er HK) as (r2' & je & A1 & A2 & A3 & A4 & A5 & A6).
    assert (je = ie) as -> by congruence; rewrite <- A6.
    rewrite <- u64_add_l, (s_dropped _ _ _ _ _ Sm), u64_add_l, Z.add_assoc; reflexivity.
  - apply (s_bound _ _ _ _ _ Sm).
Qed.

(** One entry flushed. *)
Lemma flush_entry_ok K q fe e0 e te l b : sim K q fe e0 e ->
  StronglySorted (fun a b => te_timestamp a <= te_timestamp b) (te :: l) ->
  pending (e_tso e) = te :: l -> tso_ok b -> pending b = l ->
  exists e', flush_entry (with_tso e b) te = Some e' /\ sim K q (fe ++ [te]) e0 e' /\
    frame (with_tso e b) e' /\ pits_kept e e' /\
    tso_full_cnt (e_stats e') = tso_full_cnt (e_stats e).
Proof.
  intros Sm So Pe Ob Pb.
  destruct (head_is_next K q fe e0 e te l Sm So Pe) as (p & r & rest & Er & HK & Tk & Pm).
  set (i := te_tag te) in *; set (k := flushed fe i).
  destruct (s_start _ _ _ _ _ Sm _ _ _ Er) as (Ok & Clk & Hq).
  destruct (s_ring _ _ _ _ _ Sm _ _ _ Er HK) as (r' & ie & Hr' & Hie & Hp & Rel & Last & Seq).
  fold k in Rel, Last, Seq.
  assert (Ek : ring_entries i r !! k = Some te).
  { assert (X : (tagged i fe ++ te :: rest) !! k = Some te)
      by (unfold k, flushed; rewrite lookup_app_r, Nat.sub_diag; done).
    rewrite Tk in X; apply lookup_take_Some in X; tauto. }
  destruct (entries_lookup _ _ _ _ _ Ek) as (_ & x & Hx); apply items_lookup in Hx as [Hs Hx].
  destruct (slot_record r k _ (rk_wf _ Ok) Hs) as (x' & Hx' & Hrec & Hpos).
  assert (x' = x) as -> by congruence; clear Hx'.
  set (s := te_rec te) in *.
  assert (Hfresh : s ∉ take k (slot_list r)).
  { intros Hin; apply list_elem_of_lookup in Hin as [j Hj]; apply lookup_take_Some in Hj as [Hj Hlt].
    pose proof (NoDup_lookup _ _ _ _ (slot_list_NoDup r (rk_wf _ Ok)) Hj Hs); lia. }
  assert (Hrec' : _recs r' !! Z.to_nat s = Some x) by (rewrite (rr_slots _ _ _ Rel); done).
  assert (Name : _name r' = _name r) by (destruct (rr_config _ _ _ Rel) as (-> & _); done).
  set (e1 := with_tso e b).
  assert (R1 : registry_ok e1) by (destruct (s_reg _ _ _ _ _ Sm); split; done).
  assert (At1 : ring_at e1 i = Some (p, r')).
  { unfold ring_at, index_at; cbn; rewrite Hie; cbn; rewrite Hp; cbn; now rewrite Hr'. }
  set (ie' := mkIx (ix_ring ie) (ix_pit ie) (Some s) (r_seqnum x +u64 1)).
  destruct (check_drop_ok e1 r' ie x (s_int _ _ _ _ _ Sm)) as (e2 & Drop & F2 & I2 & H2 & O2 & St1 & St2 & St3).
  assert (Hie2 : e_index e2 !! i = Some ie) by (rewrite I2; exact Hie).
  assert (R2 : registry_ok e2).
  { destruct R1 as [X1 X2 X3 X4]; split; rewrite ?I2, ?H2, ?(fr_rings _ _ F2); done. }
  set (e3 := set_index e2 i ie').
  assert (R3 : registry_ok e3) by (apply (registry_ok_set_index e2 i ie ie'); done).
  assert (At3 : ring_at e3 i = Some (p, r')).
  { unfold ring_at, index_at, e3, set_index; cbn.
    rewrite list_lookup_insert_eq by (eapply lookup_lt_Some, Hie2); cbn; rewrite Hp; cbn.
    rewrite H2; change (e_heap e1) with (e_heap e); now rewrite Hr'. }
  destruct (flush_record_ok e3 i p r' s x R3 At3 Hpos Hrec')
    as (e4 & Fl & R4 & F4 & I4 & H4 & O4 & T1 & T2 & T3).
  exists e4; split; [|split; [|split; [|split]]].
  - unfold flush_entry; fold i s; fold e1; rewrite At1; cbn [mbind option_bind].
    unfold index_at at 1; change (e_index e1) with (e_index e); rewrite Hie; cbn [mbind option_bind].
    unfold record_at at 1; rewrite Hrec'; cbn [mbind option_bind].
    rewrite Drop; cbn [mbind option_bind]; exact Fl.
  - assert (I4' : e_index e4 = <[i := ie']> (e_index e)) by (rewrite I4; cbn; now rewrite I2).
    apply (sim_flushed K q fe e0 e e4 te l p r r' rest ie x); try done.
    + unfold rec_of; fold i s; rewrite Er; cbn; exact Hrec.
    + apply (frame_internal e3); [done|]; apply (frame_internal e2); [split; try done; cbn; now rewrite length_insert|].
      apply (frame_internal e1 e2 F2); apply (s_int _ _ _ _ _ Sm).
    + rewrite (fr_tso _ _ F4); change (e_tso e3) with (e_tso e2); rewrite (fr_tso _ _ F2); exact Ob.
    + rewrite (fr_tso _ _ F4); change (e_tso e3) with (e_tso e2); rewrite (fr_tso _ _ F2); exact Pb.
    + change (e_heap e3) with (e_heap e2) in H4; rewrite H2 in H4; exact H4.
    + rewrite O4, Name; change (outs e3) with (outs e2); now rewrite O2.
    + rewrite T1; change (e_stats e3) with (e_stats e2); now rewrite St1.
    + rewrite T2; change (e_stats e3) with (e_stats e2); exact St3.
  - transitivity e2; [exact F2|]; transitivity e3; [|exact F4].
    split; try done; cbn; now rewrite length_insert.
  - intros j je Hj; rewrite I4; unfold e3, set_index; cbn; rewrite I2; cbn.
    destruct (decide (j = i)) as [->|N].
    + rewrite list_lookup_insert_eq by (eapply lookup_lt_Some, Hie); exists ie'.
      rewrite Hie in Hj; injection Hj as <-; done.
    + rewrite list_lookup_insert_ne by done; exists je; done.
  - rewrite T3; exact St2.
Qed.

(** *** Steps that move no record *)

(** Same registry, rings, index and counters; the buffer may be reordered. *)
Record still e e' : Prop := {
  st_rings : e_rings e' = e_rings e; st_heap : e_heap e' = e_heap e; st_index : e_index e' = e_index e;
  st_areas : e_areas e' = e_areas e; st_outs : outs e' = outs e;
  st_recs_out : recs_out (e_stats e') = recs_out (e_stats e);
  st_dropped : recs_dropped (e_stats e') = recs_dropped (e_stats e);
  st_pending : Permutation (pending (e_tso e')) (pending (e_tso e)) }.

Lemma registry_ok_still e e' : registry_ok e -> still e e' -> registry_ok e'.
Proof. intros [A B C D] []; split; rewrite ?st_rings0, ?st_index0, ?st_heap0; auto. Qed.

Lemma tagged_perm i l l' : Permutation l l' -> Permutation (tagged i l) (tagged i l').
Proof. intros P; unfold tagged; now rewrite P. Qed.

Lemma sim_still K q fe e0 e e' : sim K q fe e0 e -> still e e' -> tso_ok (e_tso e') -> sim K q fe e0 e'.
Proof.
  intros [A1 A2 A3 A4 A5 A6 A7 A8 A9 A10 A11 A12 A13 A14] St O; destruct St as [B1 B2 B3 B4 B5 B6 B7 B8] eqn:ESt.
  split; rewrite ?B3, ?B2, ?B5, ?B6, ?B7; auto.
  - now apply (registry_ok_still e).
  - unfold internal_ok, internal_area in *; now rewrite B4.
  - intros i p r E; destruct (A9 i p r E) as (rest & T & P); exists rest; split; [done|].
    now rewrite <- P; apply tagged_perm.
  - intros te [H|H]; apply A10; [left; now rewrite <- B8 | now right].
Qed.

Lemma frame_tso_trans e b1 e1 b2 e2 :
  frame (with_tso e b1) e1 -> frame (with_tso e1 b2) e2 -> frame (with_tso e b2) e2.
Proof. intros [] []; cbn in *; split; cbn; congruence. Qed.

Lemma frame_tso_same e e' b : frame (with_tso e b) e' -> e_tso e' = b.
Proof. intros F; apply (fr_tso _ _ F). Qed.

(** *** Flushing a sorted buffer *)

Lemma pop_loop_ok K q e0 (n : nat) : forall fe e, sim K q fe e0 e ->
  StronglySorted (fun a b => te_timestamp a <= te_timestamp b) (pending (e_tso e)) ->
  exists e', pop_loop n e = Some e' /\ sim K q (fe ++ take n (pending (e_tso e))) e0 e' /\
    pending (e_tso e') = drop n (pending (e_tso e)) /\
    tb_capacity (e_tso e') = tb_capacity (e_tso e) /\ tb_tail (e_tso e') = tb_tail (e_tso e) /\
    frame (with_tso e (e_tso e')) e' /\ pits_kept e e' /\
    tso_full_cnt (e_stats e') = tso_full_cnt (e_stats e).
Proof.
  induction n as [|n IH]; intros fe e Sm So; cbn [pop_loop].
  - exists e; rewrite take_0, app_nil_r; split; [done|]; split; [done|]; do 3 (split; [done|]).
    split; [split; done|]; split; [reflexivity|done].
  - pose proof (tso_pop_ok _ (s_tso _ _ _ _ _ Sm)) as Pop; destruct (pending (e_tso e)) as [|te l] eqn:Pe.
    + rewrite Pop; exists e; rewrite app_nil_r; split; [done|]; split; [done|].
      rewrite Pe; do 3 (split; [done|]); split; [split; done|]; split; [reflexivity|done].
    + destruct Pop as (_ & b & -> & Ob & Pb & Cb & Tb & _).
      destruct (flush_entry_ok K q fe e0 e te l b Sm So Pe Ob Pb) as (e1 & E1 & Sm1 & F1 & Pk1 & C1).
      rewrite E1; cbn [mbind option_bind].
      pose proof (frame_tso_same _ _ _ F1) as Tso1.
      destruct (IH (fe ++ [te]) e1 Sm1) as (e2 & E2 & Sm2 & P2 & Cp2 & Tl2 & F2 & Pk2 & C2).
      { rewrite Tso1, Pb; now inversion So. }
      rewrite Tso1, Pb in Sm2, P2; exists e2; split; [done|]; split; [rewrite <- app_assoc in Sm2; exact Sm2|].
      split; [exact P2|]; rewrite Cp2, Tl2, Tso1; do 2 (split; [done|]).
      split; [eapply frame_tso_trans; eauto|]; split; [now transitivity e1 | congruence].
Qed.

Lemma do_flush_tso_ok K q fe e0 e size : sim K q fe e0 e ->
  let sorted := std_sort te_timestamp (pending (e_tso e)) in
  let n := Z.to_nat size in
  exists e', do_flush_tso e size = Some e' /\ sim K q (fe ++ take n sorted) e0 e' /\
    pending (e_tso e') = drop n sorted /\
    tb_capacity (e_tso e') = tb_capacity (e_tso e) /\ tb_tail (e_tso e') = tb_tail (e_tso e) /\
    frame (with_tso e (e_tso e')) e' /\ pits_kept e e' /\
    tso_full_cnt (e_stats e') = tso_full_cnt (e_stats e).
Proof.
  intros Sm sorted n; destruct (tso_sort_ok _ (s_tso _ _ _ _ _ Sm)) as (O & P & C & _ & T).
  assert (Sm1 : sim K q fe e0 (with_tso e (tso_sort (e_tso e)))).
  { apply (sim_still _ _ _ _ e); [done| |exact O]; split; try done; cbn; rewrite P; apply std_sort_perm. }
  destruct (pop_loop_ok K q e0 n fe _ Sm1) as (e' & E & Sm' & P' & C' & T' & F' & Pk & Cn).
  { cbn; rewrite P; apply std_sort_sorted. }
  cbn in Sm', P', C', T', F', Pk; rewrite P in Sm', P'; exists e'; unfold do_flush_tso; fold n.
  split; [exact E|]; split; [exact Sm'|]; split; [exact P'|]; done.
Qed.

(** Every pending entry points at a record that is still in place. *)
Lemma pending_readable K q fe e0 e te : sim K q fe e0 e -> te ∈ pending (e_tso e) ->
  exists p r x, ring_at e (te_tag te) = Some (p, r) /\ record_at r (te_rec te) = Some x.
Proof.
  intros Sm Hin; destruct (s_dom _ _ _ _ _ Sm te) as [[p r] Er]; [now left|].
  set (i := te_tag te) in *; destruct (s_start _ _ _ _ _ Sm _ _ _ Er) as (Ok & _ & Hq).
  destruct (s_read _ _ _ _ _ Sm _ _ _ Er) as (rest & Tk & Pm).
  assert (Hr : te ∈ rest) by (rewrite <- Pm; apply list_elem_of_filter; done).
  apply list_elem_of_lookup in Hr as [j Hj].
  assert (Ek : ring_entries i r !! (flushed fe i + j)%nat = Some te).
  { assert (X : (tagged i fe ++ rest) !! (flushed fe i + j)%nat = Some te).
    { unfold flushed; rewrite lookup_app_r by lia; rewrite <- Hj; f_equal; lia. }
    rewrite Tk in X; apply lookup_take_Some in X; tauto. }
  destruct (entries_lookup _ _ _ _ _ Ek) as (_ & x & Hx); apply items_lookup in Hx as [Hs _].
  destruct (slot_record r _ _ (rk_wf _ Ok) Hs) as (x' & _ & Hrec & Hpos).
  assert (HK : i ∉ K).
  { intros HK; pose proof (s_killed _ _ _ _ _ Sm _ _ _ Er HK) as Z0.
    pose proof (lookup_lt_Some _ _ _ Ek) as Lt; rewrite length_ring_entries, Z0 in Lt; cbn in Lt; lia. }
  destruct (s_ring _ _ _ _ _ Sm _ _ _ Er HK) as (r' & ie & Hr' & Hie & Hp & Rel & _).
  exists p, r', x'; split.
  - unfold ring_at, index_at; rewrite Hie; cbn; rewrite Hp; cbn; now rewrite Hr'.
  - unfold record_at; rewrite (rr_slots _ _ _ Rel); [done|done|]; intros Hf.
    apply list_elem_of_lookup in Hf as [m Hm]; apply lookup_take_Some in Hm as [Hm Hlt].
    pose proof (NoDup_lookup _ _ _ _ (slot_list_NoDup r (rk_wf _ Ok)) Hm Hs); lia.
Qed.

(** The emergency flush makes room in a full buffer of two entries or more. *)
Lemma flush_full_tso_ok K q fe e0 e : sim K q fe e0 e -> tb_head (e_tso e) = 0 ->
  2 <= tb_tail (e_tso e) ->
  exists e' fe', flush_full_tso e = Some e' /\ sim K q (fe ++ fe') e0 e' /\
    tb_head (e_tso e') = 0 /\ tb_tail (e_tso e') < tb_tail (e_tso e) /\
    tb_capacity (e_tso e') = tb_capacity (e_tso e) /\ e_leftover e' = 0 /\
    frame (with_leftover (with_tso e (e_tso e')) 0) e' /\ pits_kept e e' /\
    tso_full_cnt (e_stats e') = u64 (tso_full_cnt (e_stats e) + 1).
Proof.
  intros Sm Hh Ht; pose proof (s_tso _ _ _ _ _ Sm) as O.
  pose proof (length_pending _ O) as Lp; pose proof (tso_size_eq _ O) as Sz.
  unfold flush_full_tso; destruct (reports_total e I_TSOFULLMARK (s_int _ _ _ _ _ Sm)) as [on ->].
  cbn [mbind option_bind].
  assert (Mark : exists e1, (if (on : bool) then
         te ← tso_top (e_tso e);
         '(_, r) ← ring_at e (te_tag te);
         x ← record_at r (te_rec te);
         Some (inject_record e "ENGINE" (ts_sub Nsec (r_timestamp x) 1) 0 I_TSOFULLMARK
                 "following records may be out of order" (ArgNum 0) (ArgNum 0))
       else Some e) = Some e1 /\ still e e1 /\ frame e e1 /\ e_stats e1 = e_stats e).
  { destruct on; [|exists e; split; [done|]; split; [split; done|split; reflexivity]].
    pose proof (tso_pop_ok _ O) as Pop; destruct (pending (e_tso e)) as [|te l] eqn:Pe; [cbn in Lp; lia|].
    destruct Pop as [-> _]; destruct (pending_readable K q fe e0 e te Sm) as (p & r & x & At & Rx1).
    { rewrite Pe; constructor. }
    cbn [mbind option_bind]; rewrite At; cbn [mbind option_bind]; rewrite Rx1; cbn [mbind option_bind].
    eexists; split; [reflexivity|]; split; [|split; [split; done|done]].
    split; try done; unfold outs; cbn; rewrite omap_app; apply app_nil_r. }
  destruct Mark as (e1 & -> & St1 & F1 & Stt); cbn [mbind option_bind].
  assert (Sm1 : sim K q fe e0 e1) by (apply (sim_still _ _ _ _ e); [done..|now rewrite (fr_tso _ _ F1)]).
  destruct (do_flush_tso_ok K q fe e0 e1 (tso_size (e_tso e) / 2) Sm1)
    as (e2 & E2 & Sm2 & P2 & C2 & _ & F2 & Pk2 & Cn2).
  rewrite E2; cbn [mbind option_bind]; rewrite (fr_tso _ _ F1) in *.
  destruct (tso_flip_ok _ (s_tso _ _ _ _ _ Sm2)) as (Of & Pf & Cf & Hf & Tf).
  eexists; eexists; split; [reflexivity|]; cbn [e_tso with_stats with_tso].
  split; [eapply (sim_still _ _ _ _ e2); [exact Sm2| |exact Of]; split; try done; cbn; now rewrite Pf|].
  split; [exact Hf|]; split.
  - rewrite Tf, P2, length_drop, (Permutation_length (std_sort_perm (pending (e_tso e)))).
    rewrite Sz, Lp, Hh; Z.div_mod_to_equations; lia.
  - split; [now rewrite Cf, C2|]; split; [done|]; split; [|split].
    + destruct F1, F2; split; cbn in *; congruence.
    + transitivity e1; [|exact Pk2]; intros i ie Hi; exists ie; now rewrite (st_index _ _ St1).
    + cbn; now rewrite Cn2, Stt.
Qed.

(** *** Reading a ring *)

Definition upd (q : nat -> nat) (i k : nat) : nat -> nat := fun j => if decide (j = i) then k else q j.

Lemma sim_q_ext K q q' fe e0 e : (forall i, q i = q' i) -> sim K q fe e0 e -> sim K q' fe e0 e.
Proof.
  intros H []; split; auto.
  - intros i p r E; rewrite <- H; eauto.
  - intros i p r E; rewrite <- H; eauto.
Qed.

(** What does not change while the rings are read. *)
Record pframe e e' : Prop := {
  pf_areas : e_areas e' = e_areas e; pf_mask : e_mask e' = e_mask e;
  pf_opts : e_opts e' = e_opts e; pf_cap : tb_capacity (e_tso e') = tb_capacity (e_tso e) }.

#[export] Instance pframe_preorder : PreOrder pframe.
Proof. split; [split; done|]; intros a b c [] []; split; congruence. Qed.

(** The iterator of ring [i] moves, its next record enters the buffer. *)
Lemma sim_push K q fe e0 e i p r ie it x s b : sim K q fe e0 e -> R0 i = Some (p, r) ->
  e_index e !! i = Some ie -> slot_list r !! q i = Some s -> contents r !! q i = Some x ->
  tso_ok b -> pending b = pending (e_tso e) ++ [mkEntry (adjusted (last_ts r (q i)) x) s i] ->
  sim K (upd q i (S (q i))) fe e0
    (with_tso (set_index e i (mkIx (ix_ring ie) it (ix_lastrec ie) (ix_seqnum ie))) b).
Proof.
  intros [A1 A2 A3 A4 A5 A6 A7 A8 A9 A10 A11 A12 A13 A14] Er Hie Hs Hx Ob Pb.
  set (ie' := mkIx _ it _ _); set (te := mkEntry _ s i) in *.
  destruct (ring_entries_at i r _ s x Hs Hx) as [Ek _]; fold te in Ek.
  assert (Lk : forall j je, e_index (set_index e i ie') !! j = Some je -> exists je0,
    e_index e !! j = Some je0 /\ ix_ring je = ix_ring je0 /\ ix_lastrec je = ix_lastrec je0).
  { intros j je; cbn; destruct (decide (j = i)) as [->|N].
    - rewrite list_lookup_insert_eq by (eapply lookup_lt_Some, Hie); intros [= <-]; eauto.
    - rewrite list_lookup_insert_ne by done; eauto. }
  split; auto.
  - pose proof (registry_ok_set_index e i ie ie' A1 Hie eq_refl) as [X1 X2 X3 X4]; split; done.
  - cbn; now rewrite length_insert.
  - intros j p2 r2 Ej; destruct (A5 j p2 r2 Ej) as (O & C & Q); do 2 (split; [done|]).
    unfold upd; case_decide; [subst; rewrite Er in Ej; injection Ej as <- <-|done].
    pose proof (lookup_lt_Some _ _ _ Hs) as Lt; rewrite length_slot_list in Lt; lia.
  - intros j p2 r2 Ej HK; destruct (A6 j p2 r2 Ej HK) as (r' & je & B1 & B2 & B3 & B4 & B5 & B6).
    exists r'; cbn; destruct (decide (j = i)) as [->|N].
    + rewrite list_lookup_insert_eq by (eapply lookup_lt_Some, Hie).
      rewrite Hie in B2; injection B2 as <-; exists ie'; done.
    + rewrite list_lookup_insert_ne by done; exists je; done.
  - intros j je Hj Hn; destruct (Lk j je Hj) as (je0 & Hj0 & -> & ->); eauto.
  - intros j p2 r2 Ej; cbn [e_tso with_tso]; rewrite Pb, tagged_app.
    destruct (A9 j p2 r2 Ej) as (rest & T & P); unfold upd; case_decide as D.
    + subst j; rewrite Er in Ej; injection Ej as <- <-; exists (rest ++ [te]).
      rewrite app_assoc, T, (take_S_r _ _ _ Ek); split; [done|].
      rewrite P, tagged_cons_eq by done; reflexivity.
    + exists rest; rewrite (tagged_cons_ne j te []) by (cbn; congruence); now rewrite app_nil_r.
  - intros te' [H|H]; [|apply A10; now right]; cbn in H; rewrite Pb in H.
    apply elem_of_app in H as [H|H]; [apply A10; now left|].
    apply list_elem_of_singleton in H as ->; cbn; eauto.
Qed.

(** The records of ring [i] that are not yet flushed are in place. *)
Lemma unflushed_record K q fe e0 e i p r (k : nat) s : sim K q fe e0 e -> R0 i = Some (p, r) -> i ∉ K ->
  (flushed fe i <= k)%nat -> slot_list r !! k = Some s ->
  exists r' x, ring_at e i = Some (p, r') /\ same_config r r' /\ contents r !! k = Some x /\
    record_at r' s = Some x.
Proof.
  intros Sm Er HK Hf Hs; destruct (s_start _ _ _ _ _ Sm _ _ _ Er) as (Ok & _).
  destruct (slot_record r k s (rk_wf _ Ok) Hs) as (x & Hx & Hrec & Hpos).
  destruct (s_ring _ _ _ _ _ Sm _ _ _ Er HK) as (r' & ie & Hr' & Hie & Hp & Rel & _).
  exists r', x; split; [|split; [apply Rel|split; [done|]]].
  - unfold ring_at, index_at; rewrite Hie; cbn; rewrite Hp; cbn; now rewrite Hr'.
  - unfold record_at; rewrite (rr_slots _ _ _ Rel); [done|done|]; intros Hin.
    apply list_elem_of_lookup in Hin as [m Hm]; apply lookup_take_Some in Hm as [Hm Hlt].
    pose proof (NoDup_lookup _ _ _ _ (slot_list_NoDup r (rk_wf _ Ok)) Hm Hs); lia.
Qed.

Lemma flushed_le_read K q fe e0 e i p r : sim K q fe e0 e -> R0 i = Some (p, r) ->
  (flushed fe i <= q i)%nat.
Proof.
  intros Sm Er; destruct (s_read _ _ _ _ _ Sm _ _ _ Er) as (rest & T & _).
  assert (X : length (tagged i fe ++ rest) = length (take (q i) (ring_entries i r))) by now rewrite T.
  rewrite length_app, length_take in X; unfold flushed; lia.
Qed.

(** *** Counting *)

Definition size_of (i : nat) : nat := match R0 i with Some (_, r) => Z.to_nat (size r) | None => 0 end.

(** The records of all the rings of the pass. *)
Definition total (n : nat) : nat := sum_list_with size_of (seq 0 n).

Lemma sum_tagged n l : (forall te, te ∈ l -> (te_tag te < n)%nat) ->
  sum_list_with (fun i => length (tagged i l)) (seq 0 n) = length l.
Proof.
  induction l as [|te l IH]; intros H.
  - cbn; induction (seq 0 n) as [|a s IHs]; cbn; [done|exact IHs].
  - cbn [length]; rewrite <- IH by (intros; apply H; now constructor); clear IH.
    assert (Lt : (te_tag te < n)%nat) by (apply H; constructor).
    clear H; remember (te_tag te) as k eqn:Ek.
    assert (X : forall a m, sum_list_with (fun i => length (tagged i (te :: l))) (seq a m) =
      ((if decide (a <= k < a + m) then 1 else 0) +
       sum_list_with (fun i => length (tagged i l)) (seq a m))%nat).
    { intros a m; revert a; induction m as [|m IHm]; intros a; cbn [seq sum_list_with].
      - rewrite decide_False by lia; done.
      - rewrite IHm; destruct (decide (k = a)) as [->|N].
        + rewrite tagged_cons_eq, (decide_True (P := a <= a < a + S m)%nat), (decide_False (P := S a <= a < S a + m)%nat) by (congruence || lia).
          cbn [length]; lia.
        + rewrite tagged_cons_ne by congruence; repeat case_decide; lia. }
    rewrite X, decide_True by lia; done.
Qed.

Lemma sum_le {T} (f g : T -> nat) (l : list T) : (forall y, y ∈ l -> (f y <= g y)%nat) ->
  (sum_list_with f l <= sum_list_with g l)%nat.
Proof.
  induction l as [|a l IH]; intros H; cbn; [done|].
  pose proof (H a ltac:(constructor)) as Ha.
  assert (Hl : forall y, y ∈ l -> (f y <= g y)%nat) by (intros; apply H; now constructor).
  specialize (IH Hl); lia.
Qed.

Lemma tagged_pending_length K q fe e0 e i : sim K q fe e0 e ->
  (length (tagged i (pending (e_tso e))) + flushed fe i = match R0 i with Some _ => q i | None => 0 end)%nat.
Proof.
  intros Sm; destruct (R0 i) as [[p r]|] eqn:Er.
  - destruct (s_read _ _ _ _ _ Sm _ _ _ Er) as (rest & T & P); rewrite (Permutation_length P).
    destruct (s_start _ _ _ _ _ Sm _ _ _ Er) as (_ & _ & Hq).
    assert (X : length (tagged i fe ++ rest) = length (take (q i) (ring_entries i r))) by now rewrite T.
    rewrite length_app, length_take, length_ring_entries in X; unfold flushed; lia.
  - assert (N : forall l, (forall te, te ∈ l -> te ∈ pending (e_tso e) \/ te ∈ fe) -> tagged i l = []).
    { intros l Hl; destruct (tagged i l) as [|te l'] eqn:T; [done|exfalso].
      assert (Hte : te ∈ tagged i l) by (rewrite T; constructor).
      apply list_elem_of_filter in Hte as [Ht Hin]; destruct (s_dom _ _ _ _ _ Sm te (Hl te Hin)) as [? E]; congruence. }
    unfold flushed; rewrite (N (pending _)), (N fe); auto.
Qed.

Lemma pending_total K q fe e0 e : sim K q fe e0 e ->
  (length (pending (e_tso e)) <= total (length (e_index e0)))%nat.
Proof.
  intros Sm; rewrite <- (sum_tagged (length (e_index e0)) (pending (e_tso e))).
  - apply sum_le; intros i _; pose proof (tagged_pending_length K q fe e0 e i Sm) as L; unfold size_of.
    destruct (R0 i) as [[p r]|] eqn:Er; [|lia].
    destruct (s_start _ _ _ _ _ Sm _ _ _ Er) as (_ & _ & Hq); lia.
  - intros te Hin; destruct (s_dom _ _ _ _ _ Sm te (or_introl Hin)) as [[p r] Er].
    exact (s_bound _ _ _ _ _ Sm _ _ _ Er).
Qed.

(** The bookkeeping of emergency flushes: [m] of them between [e] and [e'],
    which flushed [fe']. *)
Record fulls (tot : nat) (m : nat) (fe' : list (entry Z)) e e' : Prop := {
  fl_head : tb_head (e_tso e') = 0;
  fl_room : tb_tail (e_tso e') < tb_capacity (e_tso e');
  fl_frame : pframe e e';
  fl_count : u64 (tso_full_cnt (e_stats e')) = u64 (tso_full_cnt (e_stats e) + Z.of_nat m);
  fl_leftover : e_leftover e' = if decide (m = 0%nat) then e_leftover e else 0;
  fl_none : m = 0%nat -> fe' = [];
  fl_some : m = 0%nat \/ tb_capacity (e_tso e) <= Z.of_nat tot }.

Lemma fulls_refl tot e : tb_head (e_tso e) = 0 -> tb_tail (e_tso e) < tb_capacity (e_tso e) -> fulls tot 0 [] e e.
Proof. intros; split; try done; [cbn; f_equal; lia | now left]. Qed.

Lemma fulls_trans tot m1 f1 m2 f2 e1 e2 e3 : fulls tot m1 f1 e1 e2 -> fulls tot m2 f2 e2 e3 ->
  fulls tot (m1 + m2) (f1 ++ f2) e1 e3.
Proof.
  intros [H1 R1 F1 C1 L1 N1 X1] [H2 R2 F2 C2 L2 N2 X2]; split; auto.
  - now transitivity e2.
  - rewrite C2, <- u64_add_l, C1, u64_add_l; f_equal; lia.
  - rewrite L2, L1; repeat case_decide; (done || lia).
  - intros M; rewrite N1, N2 by lia; done.
  - rewrite (pf_cap _ _ F1) in X2; destruct X1, X2; [left; lia | now right..].
Qed.

(** One record read: pushed, with an emergency flush if that fills the buffer. *)
Lemma read_step K q fe e0 e i p r ie it x s : sim K q fe e0 e -> R0 i = Some (p, r) ->
  e_index e !! i = Some ie -> slot_list r !! q i = Some s -> contents r !! q i = Some x ->
  tb_head (e_tso e) = 0 -> tb_tail (e_tso e) < tb_capacity (e_tso e) -> 2 <= tb_capacity (e_tso e) ->
  let e1 := set_index e i (mkIx (ix_ring ie) it (ix_lastrec ie) (ix_seqnum ie)) in
  exists b e2 fe2 m2, tso_push (e_tso e1) (mkEntry (adjusted (last_ts r (q i)) x) s i) = Some b /\
    (if tso_full (e_tso (with_tso e1 b)) then flush_full_tso (with_tso e1 b) else Some (with_tso e1 b)) = Some e2 /\
    sim K (upd q i (S (q i))) (fe ++ fe2) e0 e2 /\ fulls (total (length (e_index e0))) m2 fe2 e e2 /\
    exists ie2, e_index e2 !! i = Some ie2 /\ ix_pit ie2 = it.
Proof.
  intros Sm Er Hie Hs Hx Hh Ht Hc e1.
  destruct (tso_push_ok (e_tso e1) (mkEntry (adjusted (last_ts r (q i)) x) s i) (s_tso _ _ _ _ _ Sm) Ht)
    as (b & Eb & Ob & Pb & Cb & Tb & Hb).
  pose proof (sim_push K q fe e0 e i p r ie it x s b Sm Er Hie Hs Hx Ob Pb) as Sm1; fold e1 in Sm1.
  assert (Hie1 : e_index (with_tso e1 b) !! i = Some (mkIx (ix_ring ie) it (ix_lastrec ie) (ix_seqnum ie)))
    by (apply list_lookup_insert_eq, (lookup_lt_Some _ _ _ Hie)).
  change (e_tso e1) with (e_tso e) in *.
  exists b; destruct (tso_full (e_tso (with_tso e1 b))) eqn:Fu.
  - destruct (flush_full_tso_ok K _ fe e0 (with_tso e1 b) Sm1) as (e2 & fe2 & E2 & Sm2 & H2 & T2 & C2 & L2 & F2 & Pk2 & N2).
    { cbn; now rewrite Hb. }
    { unfold tso_full in Fu; apply Z.eqb_eq in Fu; cbn in *; lia. }
    exists e2, fe2, 1%nat; do 2 (split; [done|]); split; [done|]; split.
    + unfold tso_full in Fu; apply Z.eqb_eq in Fu; cbn in Fu, T2, C2, N2; split; auto; try lia.
      * destruct F2; split; cbn in *; congruence.
      * rewrite N2; unfold u64; now rewrite Z.mod_mod by lia.
      * right; pose proof (pending_total _ _ _ _ _ Sm1) as Pt; pose proof (length_pending _ Ob); cbn in Pt; lia.
    + destruct (Pk2 _ _ Hie1) as (ie2 & A & B & _); exists ie2; split; [done|now rewrite B].
  - exists (with_tso e1 b), [], 0%nat; do 2 (split; [done|]); rewrite app_nil_r; split; [done|]; split.
    + unfold tso_full in Fu; apply Z.eqb_neq in Fu; pose proof (tok_tail _ Ob); cbn in *; split; cbn; auto; try lia.
      * split; done.
      * now rewrite Z.add_0_r.
    + eexists; split; [exact Hie1|done].
Qed.

(** One pass over the records of a ring: everything is read. *)
Lemma read_ring_ok K e0 i p r fuel : forall q fe e ie,
  sim K q fe e0 e -> R0 i = Some (p, r) -> i ∉ K -> e_index e !! i = Some ie ->
  ix_pit ie = it_at r (q i) -> (Z.to_nat (size r) - q i < fuel)%nat ->
  tb_head (e_tso e) = 0 -> tb_tail (e_tso e) < tb_capacity (e_tso e) -> 2 <= tb_capacity (e_tso e) ->
  exists e' fe' m, read_ring fuel e i (last_ts r (q i)) = Some e' /\
    sim K (upd q i (Z.to_nat (size r))) (fe ++ fe') e0 e' /\ fulls (total (length (e_index e0))) m fe' e e'.
Proof.
  induction fuel as [|fuel IH]; intros q fe e ie Sm Er HK Hie Hit Hf Hh Ht Hc; [lia|].
  destruct (s_start _ _ _ _ _ Sm _ _ _ Er) as (Ok & _ & Hq).
  destruct (s_ring _ _ _ _ _ Sm _ _ _ Er HK) as (r' & ie' & Hr' & Hie' & Hp & Rel & _).
  assert (ie' = ie) as -> by congruence; clear Hie'.
  assert (At : ring_at e i = Some (p, r'))
    by (unfold ring_at, index_at; rewrite Hie; cbn; rewrite Hp; cbn; now rewrite Hr').
  cbn [read_ring]; rewrite At; cbn [mbind option_bind]; unfold index_at at 1; rewrite Hie; cbn [mbind option_bind].
  rewrite (it_next_config r r' _ (rr_config _ _ _ Rel)), Hit, (it_next_at r (q i) (rk_wf _ Ok) Hq).
  destruct (slot_list r !! q i) as [s|] eqn:Hs.
  - destruct (unflushed_record K q fe e0 e i p r (q i) s Sm Er HK (flushed_le_read _ _ _ _ _ _ _ _ Sm Er) Hs)
      as (r2 & x & At2 & _ & Hx & Hrec).
    rewrite At in At2; injection At2 as <-; cbv zeta; rewrite Hrec; cbn [mbind option_bind].
    fold (adjusted (last_ts r (q i)) x).
    destruct (read_step K q fe e0 e i p r ie (it_at r (S (q i))) x s Sm Er Hie Hs Hx Hh Ht Hc)
      as (b & e2 & fe2 & m2 & Eb & E2 & Sm2 & Fu2 & ie2 & Hie2 & Hit2).
    rewrite Eb; cbn [mbind option_bind]; rewrite E2; cbn [mbind option_bind].
    destruct (ring_entries_at i r _ s x Hs Hx) as [_ <-].
    pose proof (lookup_lt_Some _ _ _ Hs) as Lt; rewrite length_slot_list in Lt.
    assert (U : upd q i (S (q i)) i = S (q i)) by (unfold upd; now rewrite decide_True).
    destruct (IH (upd q i (S (q i))) (fe ++ fe2) e2 ie2 Sm2 Er HK Hie2) as (e3 & fe3 & m3 & E3 & Sm3 & Fu3);
      [now rewrite U|rewrite U; lia|apply Fu2|apply Fu2| |].
    { destruct (fl_frame _ _ _ _ _ Fu2) as [_ _ _ ->]; done. }
    rewrite U in E3; exists e3, (fe2 ++ fe3), (m2 + m3)%nat; split; [exact E3|].
    split; [|now apply (fulls_trans _ _ _ _ _ _ e2)]; rewrite app_assoc.
    eapply sim_q_ext; [|exact Sm3]; intros j; unfold upd; now case_decide.
  - exists e, [], 0%nat; split; [done|]; rewrite app_nil_r; split; [|now apply fulls_refl].
    apply lookup_ge_None in Hs; rewrite length_slot_list in Hs.
    eapply sim_q_ext; [|exact Sm]; intros j; unfold upd; case_decide; [subst; lia|done].
Qed.

(** *** The turn of a ring *)

(** Moving an iterator changes nothing else. *)
Lemma sim_set_pit K q fe e0 e i ie it : sim K q fe e0 e -> e_index e !! i = Some ie ->
  sim K q fe e0 (set_index e i (mkIx (ix_ring ie) it (ix_lastrec ie) (ix_seqnum ie))).
Proof.
  intros [A1 A2 A3 A4 A5 A6 A7 A8 A9 A10 A11 A12 A13 A14] Hie; set (ie' := mkIx _ it _ _).
  split; auto.
  - now apply (registry_ok_set_index e i ie ie').
  - cbn; now rewrite length_insert.
  - intros j p2 r2 Ej HK; destruct (A6 j p2 r2 Ej HK) as (r' & je & B1 & B2 & B3 & B4 & B5 & B6).
    exists r'; cbn; destruct (decide (j = i)) as [->|N].
    + rewrite list_lookup_insert_eq by (eapply lookup_lt_Some, Hie).
      rewrite Hie in B2; injection B2 as <-; exists ie'; done.
    + rewrite list_lookup_insert_ne by done; exists je; done.
  - intros j je Hj Hn; cbn in Hj; destruct (decide (j = i)) as [->|N].
    + rewrite list_lookup_insert_eq in Hj by (eapply lookup_lt_Some, Hie); injection Hj as <-; apply (A7 i ie Hie Hn).
    + rewrite list_lookup_insert_ne in Hj by done; eauto.
Qed.

(** An empty orphan is killed: it had nothing to read. *)
Lemma sim_kill K q fe e0 e i p r r' ie e' : sim K q fe e0 e -> R0 i = Some (p, r) -> i ∉ K ->
  ring_at e i = Some (p, r') -> e_index e !! i = Some ie -> size r = 0 ->
  kill_orphan e true i p = Some e' -> orphan r' = true ->
  sim (i :: K) q fe e0 e' /\ e_tso e' = e_tso e /\ e_leftover e' = e_leftover e /\
  e_stats e' = e_stats e /\ pframe e e'.
Proof.
  intros Sm Er HK At Hie Sz Ek Or.
  destruct (s_ring _ _ _ _ _ Sm _ _ _ Er HK) as (r2 & ie2 & Hr2 & Hie2 & Hp & Rel & Last & Seq).
  assert (ie2 = ie) as -> by congruence.
  assert (r2 = r') as ->.
  { unfold ring_at, index_at in At; rewrite Hie in At; cbn in At; rewrite Hp in At; cbn in At.
    rewrite Hr2 in At; cbn in At; congruence. }
  destruct (kill_orphan_ok e i ie p r' (s_reg _ _ _ _ _ Sm) Hie Hp Hr2 Or)
    as (e2 & Ek2 & R2 & I2 & _ & _ & Ar & Mk & Ts & Lf & Stt & Tr & Op & _ & Hh).
  rewrite Ek in Ek2; injection Ek2 as <-.
  assert (L0 : slot_list r = []) by (apply nil_length_inv; rewrite length_slot_list, Sz; done).
  rewrite L0, take_nil in Last; cbn in Last.
  split; [|split; [done|split; [done|split; [done|split; try done; now rewrite Ts]]]].
  destruct Sm as [A1 A2 A3 A4 A5 A6 A7 A8 A9 A10 A11 A12 A13 A14]; split; rewrite ?Ts, ?Stt; auto.
  - unfold internal_ok, internal_area in *; now rewrite Ar.
  - rewrite I2, length_insert; done.
  - intros j p2 r3 Ej HKj; rewrite not_elem_of_cons in HKj; destruct HKj as [N HKj].
    destruct (A6 j p2 r3 Ej HKj) as (r4 & je & B1 & B2 & B3 & B4 & B5 & B6); exists r4, je.
    assert (p2 <> p) by (intros ->; apply N; apply (ro_distinct _ A1 _ _ _ _ _ B2 Hie B3 Hp)).
    rewrite Hh, I2, list_lookup_insert_ne by congruence; done.
  - intros j je; rewrite I2; destruct (decide (j = i)) as [->|N].
    + rewrite list_lookup_insert_eq by (eapply lookup_lt_Some, Hie); intros [= <-] _; done.
    + rewrite list_lookup_insert_ne by congruence; intros Hj [Hn|Hn]; [eauto|].
      rewrite elem_of_cons in Hn; destruct Hn as [|Hn]; [done|eauto].
  - intros j p2 r3 Ej HKj; rewrite elem_of_cons in HKj; destruct HKj as [->|HKj]; [|eauto].
    rewrite Er in Ej; now injection Ej as <- <-.
  - unfold outs in *; now rewrite Tr.
Qed.

Lemma empty_config r r' : ring_wf r -> same_config r r' -> _head r' = _head r -> _tail r' = _tail r ->
  empty r' = true -> size r = 0.
Proof.
  intros W (_ & _ & _ & _ & _ & Ec & _) Eh Et; destruct (ring_wf_facts r W) as (n & _ & F).
  unfold empty; rewrite Eh, Et, Ec, (next_head_eq _ _ F); intros E; apply Z.eqb_eq in E.
  now apply (empty_iff _ _ F).
Qed.

Lemma check_orphan_ok K q fe e0 e locks i p r : sim K q fe e0 e -> R0 i = Some (p, r) -> i ∉ K ->
  exists e' locks' K', check_orphan e locks i = Some (e', locks') /\ sim K' q fe e0 e' /\
    (K' = K \/ K' = i :: K) /\
    e_tso e' = e_tso e /\ e_leftover e' = e_leftover e /\ e_stats e' = e_stats e /\ pframe e e'.
Proof.
  intros Sm Er HK; destruct (s_start _ _ _ _ _ Sm _ _ _ Er) as (Ok & _).
  destruct (s_ring _ _ _ _ _ Sm _ _ _ Er HK) as (r' & ie & Hr' & Hie & Hp & Rel & _).
  assert (At : ring_at e i = Some (p, r'))
    by (unfold ring_at, index_at; rewrite Hie; cbn; rewrite Hp; cbn; now rewrite Hr').
  unfold check_orphan; rewrite At; cbn [mbind option_bind].
  destruct (orphan r') eqn:Or; destruct (empty r') eqn:Em; cbn [andb];
    try (exists e, locks, K; split; [done|]; split; [done|]; split; [now left|]; do 3 (split; [done|]); reflexivity).
  destruct (next_lock locks) as [[|] locks'].
  - destruct (kill_orphan_ok e i ie p r' (s_reg _ _ _ _ _ Sm) Hie Hp Hr' Or) as (e' & Ek & _).
    assert (Sz : size r = 0) by (apply (empty_config r r'); auto; [apply Ok | apply Rel..]).
    destruct (sim_kill K q fe e0 e i p r r' ie e' Sm Er HK At Hie Sz Ek Or) as (Sm' & T & L & S & F).
    rewrite Ek; cbn [mbind option_bind]; exists e', locks', (i :: K).
    split; [done|]; split; [done|]; split; [now right|]; done.
  - cbn; exists e, locks', K; split; [done|]; split; [done|]; split; [now left|].
    do 3 (split; [done|]); reflexivity.
Qed.

(** *** All the rings *)

Lemma size_capacity r : ring_wf r -> (Z.to_nat (size r) < S (Z.to_nat (capacity r)))%nat.
Proof.
  intros W; destruct (ring_wf_facts r W) as (n & _ & F); pose proof (size_range _ _ F).
  rewrite (rf_cap _ _ F); lia.
Qed.

Lemma ring_turn_tso_ok K q fe e0 e locks i ie : sim K q fe e0 e -> e_index e !! i = Some ie ->
  i ∉ K -> q i = 0%nat ->
  tb_head (e_tso e) = 0 -> tb_tail (e_tso e) < tb_capacity (e_tso e) -> 2 <= tb_capacity (e_tso e) ->
  exists e' locks' K' fe' m, ring_turn_tso e locks i = Some (e', locks') /\
    sim K' (upd q i (size_of i)) (fe ++ fe') e0 e' /\ (K' = K \/ K' = i :: K) /\
    fulls (total (length (e_index e0))) m fe' e e'.
Proof.
  intros Sm Hie HK Hq Hh Ht Hc; unfold ring_turn_tso, index_at; rewrite Hie; cbn [mbind option_bind].
  destruct (R0 i) as [[p r]|] eqn:Er.
  - destruct (s_ring _ _ _ _ _ Sm _ _ _ Er HK) as (r' & ie2 & Hr' & Hie2 & Hp & Rel & _).
    assert (ie2 = ie) as -> by congruence; rewrite Hp, Hr'; cbn [mbind option_bind].
    destruct (s_start _ _ _ _ _ Sm _ _ _ Er) as (Ok & _).
    assert (Rs : it_reset r' = it_at r (q i)).
    { rewrite Hq, <- (it_reset_at r (rk_wf _ Ok)); unfold it_reset.
      now rewrite (rr_head _ _ _ Rel), (rr_tail _ _ _ Rel). }
    set (ie1 := mkIx (ix_ring ie) (it_reset r') (ix_lastrec ie) (ix_seqnum ie)).
    pose proof (sim_set_pit K q fe e0 e i ie (it_reset r') Sm Hie) as Sm1; fold ie1 in Sm1.
    assert (Cap : capacity r' = capacity r)
      by (destruct (rr_config _ _ _ Rel) as (_ & _ & _ & _ & _ & E & _); unfold capacity; now rewrite E).
    destruct (read_ring_ok K e0 i p r (S (Z.to_nat (capacity r'))) q fe _ ie1 Sm1 Er HK)
      as (e2 & fe2 & m & E2 & Sm2 & Fu2); try done.
    { apply list_lookup_insert_eq, (lookup_lt_Some _ _ _ Hie). }
    { rewrite Cap; pose proof (size_capacity r (rk_wf _ Ok)); lia. }
    rewrite Hq in E2; change (last_ts r 0) with 0 in E2; rewrite <- Hp; fold ie1.
    rewrite E2; cbn [mbind option_bind].
    destruct (check_orphan_ok K _ (fe ++ fe2) e0 e2 locks i p r Sm2 Er HK)
      as (e3 & locks3 & K' & E3 & Sm3 & HK' & T3 & L3 & S3 & F3).
    exists e3, locks3, K', fe2, m; split; [exact E3|]; split; [unfold size_of; now rewrite Er|].
    split; [done|]; destruct Fu2 as [H1 H2 H3 H4 H5 H6 H7]; split; rewrite ?T3, ?S3, ?L3; auto.
    transitivity e2; [|exact F3]; destruct H3; split; done.
  - destruct (s_none _ _ _ _ _ Sm i ie Hie (or_introl Er)) as [-> _].
    exists e, locks, K, [], 0%nat; rewrite app_nil_r; split; [done|]; split.
    + eapply sim_q_ext; [|exact Sm]; intros j; unfold upd, size_of; case_decide; [subst; now rewrite Er|done].
    + split; [now left|now apply fulls_refl].
Qed.

(** Ring positions after the first [c] turns. *)
Definition upto (c : nat) : nat -> nat := fun i => if decide (i < c)%nat then size_of i else 0%nat.

Lemma read_all_ok n : forall i K fe e0 e locks, sim K (upto i) fe e0 e -> (forall k, k ∈ K -> (k < i)%nat) ->
  (i + n = length (e_index e0))%nat ->
  tb_head (e_tso e) = 0 -> tb_tail (e_tso e) < tb_capacity (e_tso e) -> 2 <= tb_capacity (e_tso e) ->
  exists e' locks' K' fe' m, for_rings ring_turn_tso n i e locks = Some (e', locks') /\
    sim K' (upto (i + n)) (fe ++ fe') e0 e' /\ fulls (total (length (e_index e0))) m fe' e e'.
Proof.
  induction n as [|n IH]; intros i K fe e0 e locks Sm HK Hn Hh Ht Hc; cbn [for_rings].
  - exists e, locks, K, [], 0%nat; rewrite app_nil_r, Nat.add_0_r; split; [done|]; split; [done|now apply fulls_refl].
  - destruct (lookup_lt_is_Some_2 (e_index e) i) as [ie Hie]; [rewrite (s_count _ _ _ _ _ Sm); lia|].
    destruct (ring_turn_tso_ok K (upto i) fe e0 e locks i ie Sm Hie)
      as (e1 & l1 & K1 & fe1 & m1 & E1 & Sm1 & HK1 & Fu1); try done.
    { intros Hin; specialize (HK _ Hin); lia. }
    { unfold upto; rewrite decide_False by lia; done. }
    rewrite E1; cbn [mbind option_bind].
    assert (Sm1' : sim K1 (upto (S i)) (fe ++ fe1) e0 e1).
    { eapply sim_q_ext; [|exact Sm1]; intros j; unfold upd, upto; repeat case_decide; subst; (done || lia). }
    destruct (IH (S i) K1 (fe ++ fe1) e0 e1 l1 Sm1') as (e2 & l2 & K2 & fe2 & m2 & E2 & Sm2 & Fu2).
    { intros k Hk; destruct HK1 as [-> | ->]; [specialize (HK k Hk); lia|].
      rewrite elem_of_cons in Hk; destruct Hk as [->|Hk]; [lia|specialize (HK k Hk); lia]. }
    { lia. }
    { apply Fu1. } { apply Fu1. } { rewrite (pf_cap _ _ (fl_frame _ _ _ _ _ Fu1)); done. }
    exists e2, l2, K2, (fe1 ++ fe2), (m1 + m2)%nat; split; [exact E2|]; split.
    + rewrite app_assoc; replace (i + S n)%nat with (S i + n)%nat by lia; exact Sm2.
    + now apply (fulls_trans _ _ _ _ _ _ e1).
Qed.

(** *** The flush at the end of the pass *)

(** How many entries it flushes. *)
Definition flush_count e : Z :=
  let n := Z.of_nat (length (pending (e_tso e))) in
  let keep := tb_capacity (e_tso e) / 8 in
  Z.max (if keep <? n then n - keep else 0) (e_leftover e).

Lemma flush_tso_ok K q fe e0 e : sim K q fe e0 e -> 0 <= e_leftover e ->
  let sorted := std_sort te_timestamp (pending (e_tso e)) in
  let n := Z.to_nat (flush_count e) in
  exists e1, flush_tso e = Some (with_tso (with_leftover e1 (Z.of_nat (length (pending (e_tso e1))))) (tso_reset (e_tso e1))) /\
    sim K q (fe ++ take n sorted) e0 e1 /\ Permutation (pending (e_tso e1)) (drop n sorted) /\
    pframe e e1 /\ tso_full_cnt (e_stats e1) = tso_full_cnt (e_stats e).
Proof.
  intros Sm Hl sorted n; unfold flush_tso.
  rewrite (tso_size_eq _ (s_tso _ _ _ _ _ Sm)).
  set (c := Z.of_nat (length (pending (e_tso e)))); set (keep := tb_capacity (e_tso e) / 8).
  assert (Fc : (if (if keep <? c then c - keep else 0) <? e_leftover e then e_leftover e
      else if keep <? c then c - keep else 0) = flush_count e).
  { unfold flush_count; fold c keep.
    destruct (Z.ltb_spec (if keep <? c then c - keep else 0) (e_leftover e)); lia. }
  rewrite Fc; destruct (Z.eqb_spec (flush_count e) 0) as [Z0|Nz]; cbn [mbind option_bind].
  - unfold n; rewrite Z0; cbn [Z.to_nat]; rewrite take_0, drop_0, app_nil_r; exists e.
    rewrite (tso_size_eq _ (s_tso _ _ _ _ _ Sm)); split; [done|]; split; [done|].
    split; [symmetry; apply std_sort_perm|]; split; [reflexivity|done].
  - destruct (do_flush_tso_ok K q fe e0 e (flush_count e) Sm) as (e1 & E1 & Sm1 & P1 & C1 & _ & F1 & _ & N1).
    rewrite E1; cbn [mbind option_bind]; exists e1.
    rewrite (tso_size_eq _ (s_tso _ _ _ _ _ Sm1)); split; [done|]; split; [exact Sm1|].
    split; [rewrite P1; done|]; split; [|done].
    destruct F1; split; cbn in *; congruence.
Qed.
End Pass.
