(* ===== verification/EnginePass.v ===== *)
(** * A whole pass with timestamp ordering

    The rings are committed at the end of a pass: what was sent leaves them,
    what was not stays.  The theorems about [process_rings_tso]. *)

From S2P Require Import Prelude Args Record Ring Area Timestamp Tso Post Registry Engine.
From S2P Require Import EngineFacts EngineTso.

(** ** Committing a ring *)

Section Commit.
Context `{Rx : Regex}.
Implicit Type e : engine.

Lemma slot_list_rel S r r' : ring_rel S r r' -> slot_list r' = slot_list r /\ size r' = size r.
Proof.
  intros [(_ & _ & _ & _ & _ & Ec & _) Eh Et _ _ _].
  unfold slot_list, size, capacity; now rewrite Ec, Eh, Et.
Qed.

(** The records behind the flushed ones are as they were. *)
Lemma contents_behind (f : nat) r r' : ring_wf r ->
  ring_rel (fun s => s ∈ take f (slot_list r)) r r' -> drop f (contents r') = drop f (contents r).
Proof.
  intros W Rel; destruct (slot_list_rel _ _ _ Rel) as [El _].
  rewrite !contents_slot_list, El, !skipn_map; apply map_ext_in; intros s Hs.
  apply list_elem_of_In, list_elem_of_lookup in Hs as [k Hk]; rewrite lookup_drop in Hk.
  rewrite !list_lookup_total_alt, (rr_slots _ _ _ Rel); [done| |].
  - destruct (slot_record r _ _ W Hk) as (? & _ & _ & ?); done.
  - intros Hin; apply list_elem_of_lookup in Hin as [m Hm]; apply lookup_take_Some in Hm as [Hm Lt].
    pose proof (NoDup_lookup _ _ _ _ (slot_list_NoDup r W) Hm Hk); lia.
Qed.

(** The ring after the flush of its first [f] records. *)
Record ring_drained (f : nat) (r r' : ring) : Prop := {
  dr_config : same_config r r'; dr_refcnt : _refcnt r' = _refcnt r;
  dr_ok : ring_ok r'; dr_contents : contents r' = drop f (contents r) }.

Lemma ring_drained_commit (f : nat) r r' s it : ring_ok r -> (f <= Z.to_nat (size r))%nat ->
  ring_rel (fun s => s ∈ take f (slot_list r)) r r' -> last (take f (slot_list r)) = Some s ->
  ring_drained f r (set_block_active (it_commit r' (it_rewind r' it s)) false).
Proof.
  intros Ok Hf Rel Hl; destruct (slot_list_rel _ _ _ Rel) as [El Es].
  pose proof (rr_ok _ _ _ Rel Ok) as Ok'; destruct (ring_wf_facts r' (rk_wf _ Ok')) as (n & _ & F).
  destruct f as [|f]; [now rewrite take_0 in Hl|].
  assert (Hs : s = (_head r' + Z.of_nat (S f)) mod n).
  { rewrite <- El in Hl; destruct (lookup_lt_is_Some_2 (slot_list r') f) as [s' Hs'];
      [rewrite length_slot_list; lia|].
    rewrite (take_S_r _ _ _ Hs'), last_snoc in Hl; injection Hl as ->.
    pose proof (slot_list_lookup r' n (Z.of_nat f) F ltac:(lia)) as E; rewrite Nat2Z.id, Hs' in E.
    injection E as ->; f_equal; lia. }
  pose proof (rf_n _ _ F); pose proof (mod_range (_head r' + Z.of_nat (S f)) n ltac:(lia)).
  assert (Eg : get_index r' s = (_head r' + Z.of_nat (S f)) mod n)
    by (unfold get_index; rewrite Hs; apply u32_small; words; lia).
  unfold it_commit, it_rewind; cbn [it_head]; rewrite Eg.
  destruct (commit_head_contents r' n (Z.of_nat (S f)) (rk_wf _ Ok') F ltac:(lia)) as (W & C & _).
  rewrite Nat2Z.id, (contents_behind (S f) r r' (rk_wf _ Ok) Rel) in C.
  destruct Ok' as [_ [Rz Ro] Rf]; split.
  - destruct (rr_config _ _ _ Rel) as (? & ? & ? & ? & ? & ? & ?); repeat split; done.
  - apply (rr_refcnt _ _ _ Rel).
  - split; [|split; [exact Rz|exact Ro]|exact Rf].
    apply (ring_wf_config _ _ W); [repeat split|apply W|apply W].
  - exact C.
Qed.

Lemma ring_drained_none (f : nat) r r' : ring_ok r -> (f <= Z.to_nat (size r))%nat ->
  ring_rel (fun s => s ∈ take f (slot_list r)) r r' -> last (take f (slot_list r)) = None ->
  ring_drained f r r'.
Proof.
  intros Ok Hf Rel Hl; apply last_None in Hl.
  assert (f = 0%nat) as ->.
  { apply (f_equal length) in Hl; rewrite length_take, length_slot_list in Hl; cbn in Hl; lia. }
  split; [apply Rel | apply Rel | now apply (rr_ok _ _ _ Rel)|].
  apply (contents_behind 0 r r' (rk_wf _ Ok) Rel).
Qed.
End Commit.

(** ** Committing every ring *)

Section CommitAll.
Context `{Rx : Regex}.
Implicit Type e : engine.
Variable R0 : nat -> option (Z * ring).
Variable S0 : nat -> Z.
Variable K : list nat.
Variable fe : list (entry Z).

(** Ring [i] once it is committed. *)
Definition settled (i : nat) r r' (ie : index_entry) : Prop :=
  ix_lastrec ie = None /\ ring_drained (flushed fe i) r r'.

(** Ring [i] before. *)
Definition unsettled (i : nat) r r' (ie : index_entry) : Prop :=
  ring_rel (fun s => s ∈ take (flushed fe i) (slot_list r)) r r' /\
  ix_lastrec ie = last (take (flushed fe i) (slot_list r)).

(** The state when the rings below [c] are committed. *)
Record committed (c : nat) e1 e : Prop := {
  cm_reg : registry_ok e;
  cm_frame : frame e1 e;
  cm_stats : e_stats e = e_stats e1;
  cm_trace : e_trace e = e_trace e1;
  cm_start : forall i p r, R0 i = Some (p, r) -> ring_ok r /\ (flushed fe i <= Z.to_nat (size r))%nat;
  cm_none : forall i ie, e_index e !! i = Some ie -> R0 i = None \/ i ∈ K ->
    ix_ring ie = None /\ ix_lastrec ie = None;
  cm_ring : forall i p r, R0 i = Some (p, r) -> i ∉ K -> exists r' ie,
    e_heap e !! p = Some r' /\ e_index e !! i = Some ie /\ ix_ring ie = Some p /\
    ix_seqnum ie = next_seq (S0 i) (take (flushed fe i) (contents r)) /\
    if decide (i < c)%nat then settled i r r' ie else unsettled i r r' ie }.

(** The step, for a ring that exchanges its object and its index entry. *)
Lemma registry_ok_put e i ie ie' p r r' : registry_ok e -> e_index e !! i = Some ie ->
  ix_ring ie = Some p -> ix_ring ie' = Some p -> e_heap e !! p = Some r -> _name r' = _name r -> ring_ok r' ->
  registry_ok (set_index (put_ring e p r') i ie').
Proof.
  intros R Hie Hp Hp' Hr Hn Ok; apply (registry_ok_set_index _ i ie); [|done|congruence].
  destruct R as [Ky Rg I D]; split; auto; cbn; intros n q Hq.
  destruct (decide (q = p)) as [->|N].
  - rewrite lookup_insert_eq; exists r'; destruct (Rg n p Hq) as (r2 & E2 & N2 & _).
    assert (r2 = r) as -> by congruence; repeat split; congruence || apply Ok.
  - rewrite lookup_insert_ne by done; now apply Rg.
Qed.

Lemma commit_step c e1 e : committed c e1 e -> (c < length (e_index e))%nat ->
  exists e', commit_ring e c = Some e' /\ committed (S c) e1 e'.
Proof.
  intros Cm Hc; destruct (lookup_lt_is_Some_2 _ _ Hc) as [ie Hie].
  unfold commit_ring, index_at; rewrite Hie; cbn [mbind option_bind].
  assert (Same : forall j (r r' : ring) je, j <> c ->
    (if decide (j < c)%nat then settled j r r' je else unsettled j r r' je) ->
    if decide (j < S c)%nat then settled j r r' je else unsettled j r r' je).
  { intros j r r' je N; repeat case_decide; (done || lia). }
  assert (Dead : R0 c = None \/ c ∈ K -> exists e', Some e = Some e' /\ committed (S c) e1 e').
  { intros H; exists e; split; [done|]; destruct Cm as [B1 B2 B3 B4 B5 B6 B7]; split; auto.
    intros i p r Ei HK; destruct (B7 i p r Ei HK) as (r' & je & C1 & C2 & C3 & C4 & C5); exists r', je.
    repeat (split; [done|]); apply (Same i); [|done]; intros ->; destruct H; [congruence|done]. }
  destruct (R0 c) as [[p r]|] eqn:Er; [destruct (decide (c ∈ K)) as [HK|HK]|].
  - destruct (cm_none _ _ _ Cm c ie Hie (or_intror HK)) as [-> ->]; auto.
  - destruct (cm_ring _ _ _ Cm c p r Er HK) as (r' & je & C1 & C2 & C3 & C4 & C5).
    assert (je = ie) as -> by congruence; rewrite decide_False in C5 by lia; destruct C5 as [Rel Last].
    destruct (cm_start _ _ _ Cm c p r Er) as [Ok Hf].
    rewrite Last, C3; destruct (last _) as [s|] eqn:El.
    + rewrite C1; cbn [mbind option_bind]; eexists; split; [reflexivity|].
      set (it := it_rewind r' (ix_pit ie) s); set (r2 := set_block_active _ _).
      assert (D : ring_drained (flushed fe c) r r2) by now apply ring_drained_commit.
      destruct Cm as [B1 B2 B3 B4 B5 B6 B7]; split; auto.
      * apply (registry_ok_put e c ie _ p r'); done || apply D.
      * destruct B2; split; try done; cbn; now rewrite length_insert.
      * intros j je Hj Hn; cbn in Hj; destruct (decide (j = c)) as [->|N].
        -- destruct Hn; [congruence|done].
        -- rewrite list_lookup_insert_ne in Hj by done; eauto.
      * intros j p2 r3 Ej HKj; cbn; destruct (decide (j = c)) as [->|N].
        -- rewrite Er in Ej; injection Ej as <- <-.
           rewrite lookup_insert_eq, list_lookup_insert_eq by (eapply lookup_lt_Some, Hie).
           do 2 eexists; do 3 (split; [done|]); split; [exact C4|]; rewrite decide_True by lia; split; done.
        -- destruct (B7 j p2 r3 Ej HKj) as (r4 & je & D1 & D2 & D3 & D4 & D5); exists r4, je.
           assert (p2 <> p) by (intros ->; apply N; apply (ro_distinct _ B1 _ _ _ _ _ D2 Hie D3 C3)).
           rewrite lookup_insert_ne, list_lookup_insert_ne by done.
           repeat (split; [done|]); now apply (Same j).
    + exists e; split; [done|]; destruct Cm as [B1 B2 B3 B4 B5 B6 B7]; split; auto.
      intros j p2 r3 Ej HKj; destruct (B7 j p2 r3 Ej HKj) as (r4 & je & D1 & D2 & D3 & D4 & D5); exists r4, je.
      repeat (split; [done|]); destruct (decide (j = c)) as [->|N]; [|now apply (Same j)].
      rewrite Er in Ej; injection Ej as <- <-; rewrite decide_False in D5 by lia; destruct D5 as [Rel' Last'].
      rewrite decide_True by lia; split; [congruence|]; apply ring_drained_none; auto.
  - destruct (cm_none _ _ _ Cm c ie Hie (or_introl Er)) as [-> ->]; auto.
Qed.

Lemma commit_all n : forall c e1 e locks, committed c e1 e -> (c + n = length (e_index e))%nat ->
  exists e', for_rings commit_turn n c e locks = Some (e', locks) /\ committed (c + n) e1 e'.
Proof.
  induction n as [|n IH]; intros c e1 e locks Cm Hc; cbn [for_rings].
  - exists e; rewrite Nat.add_0_r; done.
  - destruct (commit_step c e1 e Cm ltac:(lia)) as (e' & E & Cm').
    assert (commit_turn e locks c = Some (e', locks)) as -> by (unfold commit_turn; now rewrite E).
    cbn [mbind option_bind].
    destruct (IH (S c) e1 e' locks Cm') as (e2 & E2 & Cm2).
    { rewrite (fr_count _ _ (cm_frame _ _ _ Cm')), <- (fr_count _ _ (cm_frame _ _ _ Cm)); lia. }
    exists e2; split; [exact E2|]; replace (c + S n)%nat with (S c + n)%nat by lia; exact Cm2.
Qed.
End CommitAll.

(** ** The pass *)

Section WholePass.
Context `{Rx : Regex}.
Context `{SortT : StdSort (entry Z) te_timestamp}.
Context `{SortI : forall key, StdSort index_entry key}.
Implicit Type e : engine.

(** The engine between two passes. *)
Record idle e : Prop := {
  id_reg : registry_ok e; id_int : internal_ok e; id_tso : tso_ok (e_tso e);
  id_head : tb_head (e_tso e) = 0; id_tail : tb_tail (e_tso e) = 0;
  id_cap : 2 <= tb_capacity (e_tso e); id_left : 0 <= e_leftover e;
  id_last : forall i ie, e_index e !! i = Some ie -> ix_lastrec ie = None }.

(** The clocks of its rings have room for the adjustments. *)
Definition clocks_ok e : Prop := forall i p r, ring_at e i = Some (p, r) -> ring_clock r.

Definition seq_at e (i : nat) : Z := match e_index e !! i with Some ie => ix_seqnum ie | None => 0 end.

Lemma ring_at_inv e i p r : ring_at e i = Some (p, r) ->
  exists ie, e_index e !! i = Some ie /\ ix_ring ie = Some p /\ e_heap e !! p = Some r.
Proof.
  unfold ring_at, index_at; destruct (e_index e !! i) as [ie|] eqn:Hi; [|done]; cbn.
  destruct (ix_ring ie) as [q|] eqn:Hq; [|done]; cbn.
  destruct (e_heap e !! q) as [r'|] eqn:Hr; [|done]; cbn; intros [= -> ->]; eauto.
Qed.

Lemma ring_at_good e i p r : registry_ok e -> ring_at e i = Some (p, r) -> ring_ok r.
Proof.
  intros R E; destruct (ring_at_inv _ _ _ _ E) as (ie & Hi & Hp & Hr).
  destruct (ring_at_ok e i ie p R Hi Hp) as (r' & E' & _ & Ok); congruence.
Qed.

Lemma ring_at_none e i ie : registry_ok e -> e_index e !! i = Some ie -> ring_at e i = None -> ix_ring ie = None.
Proof.
  intros R Hi E; destruct (ix_ring ie) as [p|] eqn:Hp; [|done].
  destruct (ring_at_ok e i ie p R Hi Hp) as (r & E' & _); congruence.
Qed.

Lemma idle_pending e : idle e -> pending (e_tso e) = [].
Proof. intros I; unfold pending; now rewrite (id_head _ I), (id_tail _ I). Qed.

Lemma sim_start e : idle e -> clocks_ok e ->
  sim (ring_at e) (seq_at e) [] (upto (ring_at e) 0) [] e e.
Proof.
  intros I C; pose proof (idle_pending e I) as P; destruct I as [I1 I2 I3 I4 I5 I6 I7 I8]; split; auto.
  - intros i p r E; split; [eapply ring_at_good; eauto|]; split; [eapply C, E|unfold upto; rewrite decide_False by lia; lia].
  - intros i p r E _; destruct (ring_at_inv _ _ _ _ E) as (ie & Hi & Hp & Hr); exists r, ie.
    do 3 (split; [done|]); cbn; rewrite !take_0; split; [apply ring_rel_refl|]; split; [eauto|].
    unfold seq_at; rewrite Hi; done.
  - intros i ie Hi [E|E]; [|set_solver]; split; [now apply (ring_at_none e i)|eauto].
  - intros i p r E H; set_solver.
  - intros i p r E; exists []; rewrite P; done.
  - intros te [H|H]; [rewrite P in H|]; set_solver.
  - cbn; now rewrite app_nil_r.
  - cbn; now rewrite Z.add_0_r.
  - cbn; now rewrite Z.add_0_r.
  - intros i p r E; destruct (ring_at_inv _ _ _ _ E) as (ie & Hi & _); eapply lookup_lt_Some, Hi.
Qed.

(** The entries flushed are records: each is sent. *)
Lemma length_sent R0 S0 K q fe e0 e : sim R0 S0 K q fe e0 e -> length (sent R0 fe) = length fe.
Proof.
  intros Sm; assert (H : forall te, te ∈ fe -> is_Some (rec_of R0 te)).
  { intros te Hin; destruct (s_dom _ _ _ _ _ _ _ Sm te (or_intror Hin)) as [[p r] Er].
    destruct (s_start _ _ _ _ _ _ _ Sm _ _ _ Er) as (Ok & _ & _).
    destruct (s_read _ _ _ _ _ _ _ Sm _ _ _ Er) as (rest & Tk & _).
    assert (Ht : te ∈ tagged (te_tag te) fe) by (apply list_elem_of_filter; done).
    apply list_elem_of_lookup in Ht as [k Hk].
    assert (Ek : (tagged (te_tag te) fe ++ rest) !! k = Some te)
      by (rewrite lookup_app_l; [done|eapply lookup_lt_Some, Hk]).
    rewrite Tk in Ek; apply lookup_take_Some in Ek as [Ek _].
    destruct (entries_lookup _ _ _ _ _ Ek) as (_ & x & Hx); apply items_lookup in Hx as [Hs _].
    destruct (slot_record r _ _ (rk_wf _ Ok) Hs) as (y & _ & Hrec & _).
    exists y; unfold rec_of; rewrite Er; exact Hrec. }
  clear Sm; unfold sent; induction fe as [|te fe IH]; cbn; [done|].
  destruct (H te ltac:(constructor)) as [x ->]; cbn; f_equal; apply IH; intros; apply H; now constructor.
Qed.

(** The rings when everything is read and some of it flushed, ready for the
    commits. *)
Lemma sim_committed R0 S0 K q fe e0 e1 e : sim R0 S0 K q fe e0 e1 ->
  e_rings e = e_rings e1 -> e_heap e = e_heap e1 -> e_index e = e_index e1 -> committed R0 S0 K fe 0 e e.
Proof.
  intros Sm Er Eh Ei; pose proof Sm as [A1 A2 A3 A4 A5 A6 A7 A8 A9 A10 A11 A12 A13 A14]; split; try done.
  - destruct A1 as [X1 X2 X3 X4]; split; rewrite ?Er, ?Eh, ?Ei; done.
  - intros i p r E; destruct (A5 i p r E) as (Ok & _ & Hq); split; [done|].
    pose proof (flushed_le_read _ _ _ _ _ _ _ _ _ _ Sm E); lia.
  - rewrite Ei; exact A7.
  - intros i p r E HK; rewrite Eh, Ei; destruct (A6 i p r E HK) as (r' & ie & B1 & B2 & B3 & B4 & B5 & B6).
    exists r', ie; do 4 (split; [done|]); split; done.
Qed.

(** What a pass does: [K] are the rings it killed, [fe] the entries it sent. *)
Record pass_result (K : list nat) (fe : list (entry Z)) e e' : Prop := {
  pr_idle : idle e';
  pr_count : length (e_index e') = length (e_index e);
  pr_frame : pframe e e';
  pr_outs : outs e' = outs e ++ map (fun '(i, x) => (name_of (ring_at e) i, x)) (sent (ring_at e) fe);
  pr_recs_out : u64 (recs_out (e_stats e')) = u64 (recs_out (e_stats e) + Z.of_nat (length (sent (ring_at e) fe)));
  pr_dropped : u64 (recs_dropped (e_stats e')) =
    u64 (recs_dropped (e_stats e) + replay (seq_at e) (sent (ring_at e) fe));
  pr_ring : forall i p r, ring_at e i = Some (p, r) ->
    of_ring i (sent (ring_at e) fe) = take (flushed fe i) (contents r) /\
    (flushed fe i <= length (contents r))%nat /\
    if decide (i ∈ K) then contents r = [] /\ ring_at e' i = None
    else exists r', ring_at e' i = Some (p, r') /\ ring_drained (flushed fe i) r r' /\
      seq_at e' i = next_seq (seq_at e i) (take (flushed fe i) (contents r));
  pr_none : forall i, ring_at e i = None -> ring_at e' i = None;
  pr_fe : forall te, te ∈ fe -> is_Some (ring_at e (te_tag te));
  pr_length : length (sent (ring_at e) fe) = length fe }.

Lemma committed_result K fe e0 e1 e2 e b (q : nat -> nat) n : idle e0 ->
  sim (ring_at e0) (seq_at e0) K q fe e0 e1 -> pframe e0 e1 -> (length (e_index e1) <= n)%nat ->
  e = with_tso (with_leftover e1 b) (tso_reset (e_tso e1)) -> 0 <= b ->
  committed (ring_at e0) (seq_at e0) K fe n e e2 -> pass_result K fe e0 e2.
Proof.
  intros I Sm F Hn -> Hb Cm; pose proof (cm_frame _ _ _ _ _ _ _ Cm) as Fr.
  pose proof (s_count _ _ _ _ _ _ _ Sm) as Cnt; destruct (tso_reset_ok _ (s_tso _ _ _ _ _ _ _ Sm)) as [Ot _].
  assert (Ring : forall i p r, ring_at e0 i = Some (p, r) -> i ∉ K -> exists r' ie,
    ring_at e2 i = Some (p, r') /\ ring_drained (flushed fe i) r r' /\ e_index e2 !! i = Some ie /\
    ix_lastrec ie = None /\ ix_seqnum ie = next_seq (seq_at e0 i) (take (flushed fe i) (contents r))).
  { intros i p r E HK; destruct (cm_ring _ _ _ _ _ _ _ Cm i p r E HK) as (r' & ie & C1 & C2 & C3 & C4 & C5).
    pose proof (s_bound _ _ _ _ _ _ _ Sm i p r E); rewrite decide_True in C5 by lia; destruct C5 as [C5 C6].
    exists r', ie; split; [|done]; unfold ring_at, index_at; rewrite C2; cbn; rewrite C3; cbn; now rewrite C1. }
  assert (Dead : forall i, ring_at e0 i = None \/ i ∈ K -> ring_at e2 i = None).
  { intros i H; unfold ring_at, index_at; destruct (e_index e2 !! i) as [ie|] eqn:Hi; [|done]; cbn.
    destruct (cm_none _ _ _ _ _ _ _ Cm i ie Hi H) as [-> _]; done. }
  split.
  - split; rewrite ?(fr_tso _ _ Fr), ?(fr_leftover _ _ Fr); try done.
    + apply Cm.
    + apply (frame_internal _ _ Fr), Sm.
    + cbn; rewrite (pf_cap _ _ F); apply I.
    + intros i ie Hi; destruct (ring_at e0 i) as [[p r]|] eqn:E; [destruct (decide (i ∈ K)) as [HK|HK]|].
      * now destruct (cm_none _ _ _ _ _ _ _ Cm i ie Hi (or_intror HK)).
      * destruct (Ring i p r E HK) as (r' & ie' & _ & _ & E' & L & _); congruence.
      * now destruct (cm_none _ _ _ _ _ _ _ Cm i ie Hi (or_introl E)).
  - now rewrite (fr_count _ _ Fr).
  - transitivity e1; [exact F|]; split; try apply Fr; now rewrite (fr_tso _ _ Fr).
  - unfold outs at 1; rewrite (cm_trace _ _ _ _ _ _ _ Cm); apply Sm.
  - rewrite (cm_stats _ _ _ _ _ _ _ Cm); apply Sm.
  - rewrite (cm_stats _ _ _ _ _ _ _ Cm); apply Sm.
  - intros i p r E; destruct (s_start _ _ _ _ _ _ _ Sm i p r E) as (Ok & _ & Hq).
    pose proof (flushed_le_read _ _ _ _ _ _ _ _ _ _ Sm E); rewrite length_contents.
    destruct (s_read _ _ _ _ _ _ _ Sm i p r E) as (rest & Tk & _); split; [|split; [lia|]].
    + apply (sent_of_ring _ fe i p r); [|apply Ok|done|].
      * intros te H'; apply (s_dom _ _ _ _ _ _ _ Sm); now right.
      * exists rest; rewrite Tk, length_take, <- take_take, (take_ge _ (length _)); done.
    + case_decide as D.
      * split; [|now apply Dead; right]; apply nil_length_inv.
        rewrite length_contents, (s_killed _ _ _ _ _ _ _ Sm i p r E D); done.
      * destruct (Ring i p r E D) as (r' & ie & R1 & R2 & R3 & R4 & R5); exists r'.
        split; [done|split; [done|]]; unfold seq_at at 1; now rewrite R3.
  - intros i E; apply Dead; now left.
  - intros te H; apply (s_dom _ _ _ _ _ _ _ Sm); now right.
  - eapply length_sent, Sm.
Qed.

(** *** Counting what is there *)

Definition remaining e : nat := total (ring_at e) (length (e_index e)).

Definition entries_of e (i : nat) : list (entry Z) :=
  match ring_at e i with Some (_, r) => ring_entries i r | None => [] end.

(** The entries of all the records in the rings. *)
Definition all_entries e : list (entry Z) := flat_map (entries_of e) (seq 0 (length (e_index e))).

Lemma tagged_partition n l : (forall te, te ∈ l -> (te_tag te < n)%nat) ->
  Permutation l (flat_map (fun i => tagged i l) (seq 0 n)).
Proof.
  intros H; assert (P : forall m, Permutation (filter (fun te => te_tag te < m)%nat l)
    (flat_map (fun i => tagged i l) (seq 0 m))).
  { clear H; induction m as [|m IH].
    - cbn; induction l as [|te l IH]; [done|]; rewrite filter_cons, decide_False by lia; exact IH.
    - rewrite seq_S, flat_map_app, <- IH; cbn [flat_map Nat.add]; rewrite app_nil_r; clear IH.
      induction l as [|te l IH]; [done|]; rewrite !filter_cons.
      destruct (decide (te_tag te = m)) as [E|N].
      + rewrite tagged_cons_eq by done; rewrite decide_True by lia; rewrite decide_False by lia.
        rewrite IH; apply Permutation_middle.
      + rewrite tagged_cons_ne by done; destruct (decide (te_tag te < m)%nat).
        * rewrite decide_True by lia; cbn; now rewrite IH.
        * rewrite decide_False by lia; exact IH. }
  rewrite <- P; clear P; induction l as [|te l IH]; [done|].
  rewrite filter_cons, decide_True by (apply H; constructor); rewrite <- IH; [done|].
  intros; apply H; now constructor.
Qed.

Lemma flat_map_perm {T U} (f g : T -> list U) (l : list T) : (forall t, t ∈ l -> Permutation (f t) (g t)) ->
  Permutation (flat_map f l) (flat_map g l).
Proof.
  induction l as [|t l IH]; intros H; cbn; [done|].
  apply Permutation_app; [apply H; constructor | apply IH; intros; apply H; now constructor].
Qed.

Lemma pending_tags R0 S0 K q fe e0 e te : sim R0 S0 K q fe e0 e -> te ∈ pending (e_tso e) ->
  (te_tag te < length (e_index e0))%nat.
Proof.
  intros Sm H; destruct (s_dom _ _ _ _ _ _ _ Sm te (or_introl H)) as [[p r] E].
  apply (s_bound _ _ _ _ _ _ _ Sm _ _ _ E).
Qed.

(** Everything read and nothing flushed: the buffer has the entries of all
    the records. *)
Lemma pending_all K e0 e : sim (ring_at e0) (seq_at e0) K (upto (ring_at e0) (length (e_index e0))) [] e0 e ->
  Permutation (pending (e_tso e)) (all_entries e0).
Proof.
  intros Sm; rewrite (tagged_partition (length (e_index e0)) (pending (e_tso e))).
  - apply flat_map_perm; intros i _; unfold entries_of; destruct (ring_at e0 i) as [[p r]|] eqn:E.
    + destruct (s_read _ _ _ _ _ _ _ Sm i p r E) as (rest & T & ->); cbn in T.
      unfold upto, size_of in T; rewrite decide_True, E in T by apply (s_bound _ _ _ _ _ _ _ Sm i p r E).
      rewrite T, take_ge; [done|]; rewrite length_ring_entries; lia.
    + pose proof (tagged_pending_length _ _ _ _ _ _ _ i Sm) as L; rewrite E in L.
      destruct (tagged i (pending (e_tso e))); [done|cbn in L; lia].
  - intros te; now apply (pending_tags _ _ _ _ _ _ _ _ Sm).
Qed.

Lemma size_of_contents e i p r : ring_at e i = Some (p, r) -> size_of (ring_at e) i = length (contents r).
Proof. intros E; unfold size_of; now rewrite E, length_contents. Qed.

Lemma sum_ext {T} (f g : T -> nat) (l : list T) : (forall y, y ∈ l -> f y = g y) ->
  sum_list_with f l = sum_list_with g l.
Proof.
  intros H; apply Nat.le_antisymm; apply sum_le; intros y Hy; rewrite (H y Hy); done.
Qed.

(** What is left in the buffer is what is left in the rings. *)
Lemma left_over K fe e0 e1 e' : pass_result K fe e0 e' ->
  sim (ring_at e0) (seq_at e0) K (upto (ring_at e0) (length (e_index e0))) fe e0 e1 ->
  length (pending (e_tso e1)) = remaining e'.
Proof.
  intros Pr Sm; rewrite <- (sum_tagged (length (e_index e0)) (pending (e_tso e1))).
  - unfold remaining, total; rewrite (pr_count _ _ _ _ Pr); apply sum_ext; intros i _.
    pose proof (tagged_pending_length _ _ _ _ _ _ _ i Sm) as L.
    destruct (ring_at e0 i) as [[p r]|] eqn:E.
    + unfold upto in L; rewrite decide_True in L by apply (s_bound _ _ _ _ _ _ _ Sm i p r E).
      rewrite (size_of_contents _ _ _ _ E) in L.
      destruct (pr_ring _ _ _ _ Pr i p r E) as (_ & Hf & H); case_decide.
      * destruct H as [C N]; unfold size_of; rewrite N, C in *; cbn in L; lia.
      * destruct H as (r' & E' & D & _); rewrite (size_of_contents _ _ _ _ E'), (dr_contents _ _ _ D), length_drop; lia.
    + unfold size_of; rewrite (pr_none _ _ _ _ Pr i E); lia.
  - intros te; now apply (pending_tags _ _ _ _ _ _ _ _ Sm).
Qed.

Lemma sum_add {T} (f g : T -> nat) (l : list T) :
  sum_list_with (fun y => f y + g y)%nat l = (sum_list_with f l + sum_list_with g l)%nat.
Proof. induction l as [|y l IH]; cbn; [done|]; rewrite IH; lia. Qed.

(** Nothing is lost: what is not sent remains. *)
Lemma sent_remaining K fe e e' : pass_result K fe e e' ->
  remaining e = (length fe + remaining e')%nat.
Proof.
  intros Pr; rewrite <- (sum_tagged (length (e_index e)) fe).
  - unfold remaining, total; rewrite (pr_count _ _ _ _ Pr), <- sum_add; apply sum_ext; intros i _.
    destruct (ring_at e i) as [[p r]|] eqn:E.
    + rewrite (size_of_contents _ _ _ _ E).
      destruct (pr_ring _ _ _ _ Pr i p r E) as (_ & Hf & H); unfold flushed in *; case_decide.
      * destruct H as [C N]; unfold size_of; rewrite N, C in *; cbn in *; lia.
      * destruct H as (r' & E' & D & _); rewrite (size_of_contents _ _ _ _ E'), (dr_contents _ _ _ D), length_drop; lia.
    + unfold size_of; rewrite E, (pr_none _ _ _ _ Pr i E).
      destruct (tagged i fe) as [|te l] eqn:T; [done|exfalso].
      assert (H : te ∈ tagged i fe) by (rewrite T; constructor); apply list_elem_of_filter in H as [Ht H].
      destruct (pr_fe _ _ _ _ Pr te H) as [? ?]; congruence.
  - intros te H; destruct (pr_fe _ _ _ _ Pr te H) as [[p r] E].
    destruct (ring_at_inv _ _ _ _ E) as (ie & Hi & _); eapply lookup_lt_Some, Hi.
Qed.

(** How many records a pass sends if the buffer does not fill up. *)
Definition flush_target e : Z :=
  let n := Z.of_nat (remaining e) in
  let keep := tb_capacity (e_tso e) / 8 in
  Z.max (if keep <? n then n - keep else 0) (e_leftover e).

Lemma length_all_entries e : length (all_entries e) = remaining e.
Proof.
  unfold all_entries, remaining, total; induction (seq 0 _) as [|i l IH]; cbn; [done|].
  rewrite length_app, IH; f_equal; unfold entries_of, size_of; destruct (ring_at e i) as [[p r]|]; [|done].
  apply length_ring_entries.
Qed.

Lemma tso_pass e locks : idle e -> clocks_ok e ->
  exists e' locks' K fe, process_rings_tso e locks = Some (e', locks') /\ pass_result K fe e e' /\
    e_leftover e' = Z.of_nat (remaining e') /\ Z.of_nat (remaining e') < tb_capacity (e_tso e) /\
    (Z.of_nat (remaining e) < tb_capacity (e_tso e) ->
      u64 (tso_full_cnt (e_stats e')) = u64 (tso_full_cnt (e_stats e)) /\
      exists all, Permutation all (all_entries e) /\
        StronglySorted (fun a b => te_timestamp a <= te_timestamp b) all /\
        fe = take (Z.to_nat (flush_target e)) all).
Proof.
  intros I C; pose proof (sim_start e I C) as Sm0.
  destruct (read_all_ok (ring_at e) (seq_at e) (length (e_index e)) 0 [] [] e e locks Sm0)
    as (e2 & locks2 & K & fe1 & m & E2 & Sm2 & Fu); try apply I.
  { intros k; set_solver. } { done. } { rewrite (id_tail _ I); pose proof (id_cap _ I); lia. }
  cbn [app Nat.add] in Sm2.
  assert (L2 : 0 <= e_leftover e2)
    by (rewrite (fl_leftover _ _ _ _ _ Fu); pose proof (id_left _ I); case_decide; lia).
  destruct (flush_tso_ok _ _ _ _ _ _ _ Sm2 L2) as (e3 & E3 & Sm3 & P3 & F3 & N3).
  set (e4 := with_tso _ _) in E3; set (fe := fe1 ++ _) in Sm3.
  pose proof (sim_committed _ _ _ _ _ _ e3 e4 Sm3 eq_refl eq_refl eq_refl) as Cm0.
  destruct (commit_all (ring_at e) (seq_at e) K fe (length (e_index e4)) 0 e4 e4 locks2 Cm0 eq_refl)
    as (e5 & E5 & Cm); cbn [Nat.add] in Cm.
  assert (Pr : pass_result K fe e e5).
  { eapply (committed_result K fe e e3 e5 e4); [done|exact Sm3| |reflexivity|reflexivity|lia|exact Cm].
    transitivity e2; [apply Fu|exact F3]. }
  exists e5, locks2, K, fe; unfold process_rings_tso; rewrite E2; cbn [mbind option_bind].
  rewrite E3; cbn [mbind option_bind]; split; [exact E5|]; split; [exact Pr|]; split.
  { rewrite (fr_leftover _ _ (cm_frame _ _ _ _ _ _ _ Cm)); cbn; f_equal; eapply left_over; [exact Pr|exact Sm3]. }
  split.
  { rewrite <- (left_over K fe e e3 e5 Pr Sm3), (Permutation_length P3), length_drop.
    rewrite (Permutation_length (std_sort_perm (pending (e_tso e2)))).
    pose proof (length_pending _ (s_tso _ _ _ _ _ _ _ Sm2)); pose proof (fl_head _ _ _ _ _ Fu).
    pose proof (fl_room _ _ _ _ _ Fu); pose proof (pf_cap _ _ (fl_frame _ _ _ _ _ Fu)); lia. }
  intros Room; destruct (fl_some _ _ _ _ _ Fu) as [M|M]; [|unfold remaining in Room; lia].
  split; [rewrite (cm_stats _ _ _ _ _ _ _ Cm); cbn; rewrite N3, (fl_count _ _ _ _ _ Fu), M; f_equal; lia|].
  pose proof (fl_none _ _ _ _ _ Fu M) as ->; cbn [app] in fe.
  pose proof (pending_all _ _ _ Sm2) as Pa.
  exists (std_sort te_timestamp (pending (e_tso e2))); split; [rewrite <- Pa; apply std_sort_perm|].
  split; [apply std_sort_sorted|]; unfold fe; f_equal; f_equal; unfold flush_count, flush_target.
  rewrite (Permutation_length Pa), length_all_entries, (pf_cap _ _ (fl_frame _ _ _ _ _ Fu)).
  rewrite (fl_leftover _ _ _ _ _ Fu), decide_True by done; reflexivity.
Qed.
End WholePass.

(** ** Drop accounting *)

Section Accounting.
Implicit Types (l : list record) (fl : list (nat * record)).

Lemma gap_cong s (x : record) : u64 (gap s x) = u64 (r_seqnum x - s).
Proof.
  unfold gap; destruct (Z.eqb_spec (r_seqnum x) s) as [->|_]; [f_equal; lia | apply u64_idem].
Qed.

(** What is missing in front of some records and the records are the sequence
    numbers between the first and the last expected one. *)
Lemma gaps_next l : forall s, u64 (gaps s l + Z.of_nat (length l)) = u64 (next_seq s l - s).
Proof.
  induction l as [|x l IH]; intros s; cbn [gaps length]; [cbn; f_equal; lia|].
  unfold next_seq; cbn [fold_left]; fold (next_seq (r_seqnum x +u64 1) l).
  destruct (proj1 (u64_cong _ _) (gap_cong s x)) as [k1 E1].
  destruct (proj1 (u64_cong _ _) (IH (r_seqnum x +u64 1))) as [k2 E2].
  destruct (proj1 (u64_cong _ _) (u64_idem (r_seqnum x + 1))) as [k3 E3].
  apply u64_cong; exists (k1 + k2 - k3); lia.
Qed.

Lemma replay_ext fl : forall s s', (forall j, s j = s' j) -> replay s fl = replay s' fl.
Proof.
  induction fl as [|[i x] fl IH]; intros s s' H; cbn; [done|]; rewrite H; f_equal.
  apply IH; intros j; now case_decide.
Qed.

Definition sum_Z (f : nat -> Z) (l : list nat) : Z := fold_right (fun i z => f i + z) 0 l.

Lemma sum_Z_ext f g (l : list nat) : (forall i, i ∈ l -> f i = g i) -> sum_Z f l = sum_Z g l.
Proof.
  induction l as [|i l IH]; intros H; [done|].
  change (f i + sum_Z f l = g i + sum_Z g l); rewrite (H i) by constructor; f_equal.
  apply IH; intros; apply H; now constructor.
Qed.

Lemma sum_Z_change f g i (l : list nat) : NoDup l -> i ∈ l -> (forall j, j <> i -> f j = g j) ->
  sum_Z f l = sum_Z g l + (f i - g i).
Proof.
  induction l as [|j l IH]; intros N Hi H; [set_solver|]; apply NoDup_cons in N as [Nj N].
  change (f j + sum_Z f l = g j + sum_Z g l + (f i - g i)).
  destruct (decide (j = i)) as [->|D].
  - rewrite (sum_Z_ext f g l); [lia|]; intros k Hk; apply H; congruence.
  - rewrite elem_of_cons in Hi; destruct Hi as [->|Hi]; [done|].
    rewrite (IH N Hi H), (H j D); lia.
Qed.

Definition bump (s : nat -> Z) (i : nat) (x : record) : nat -> Z :=
  fun j => if decide (j = i) then r_seqnum x +u64 1 else s j.

Lemma of_ring_cons_eq i (x : record) fl : of_ring i ((i, x) :: fl) = x :: of_ring i fl.
Proof. unfold of_ring; now rewrite filter_cons, decide_True. Qed.
Lemma of_ring_cons_ne i j (x : record) fl : j <> i -> of_ring j ((i, x) :: fl) = of_ring j fl.
Proof. intros N; unfold of_ring; rewrite filter_cons, decide_False; [done|cbn; congruence]. Qed.

(** Sent and missing records together: the numbers the rings advanced by. *)
Lemma replay_total (n : nat) fl : forall s, (forall p, p ∈ fl -> (p.1 < n)%nat) ->
  u64 (replay s fl + Z.of_nat (length fl)) =
  u64 (sum_Z (fun i => next_seq (s i) (of_ring i fl) - s i) (seq 0 n)).
Proof.
  induction fl as [|[i x] fl IH]; intros s H.
  - cbn; f_equal; symmetry; rewrite (sum_Z_ext _ (fun _ => 0)) by (intros; lia).
    induction (seq 0 n) as [|j l IHl]; [done|exact IHl].
  - cbn [replay length].
    assert (Hi : (i < n)%nat) by (apply (H (i, x)); constructor).
    specialize (IH (bump s i x) (fun p Hp => H p ltac:(now constructor))).
    fold (bump s i x).
    rewrite (sum_Z_change _ (fun j => next_seq (bump s i x j) (of_ring j fl) - bump s i x j) i);
      [|apply NoDup_seq | apply elem_of_seq; lia |].
    + cbv beta; rewrite of_ring_cons_eq.
      change (next_seq (s i) (x :: of_ring i fl)) with (next_seq (r_seqnum x +u64 1) (of_ring i fl)).
      assert (Bi : bump s i x i = r_seqnum x +u64 1) by (unfold bump; now rewrite decide_True).
      rewrite Bi.
      destruct (proj1 (u64_cong _ _) IH) as [k1 E1].
      destruct (proj1 (u64_cong _ _) (gap_cong (s i) x)) as [k2 E2].
      destruct (proj1 (u64_cong _ _) (u64_idem (r_seqnum x + 1))) as [k3 E3].
      apply u64_cong; exists (k1 + k2 - k3); lia.
    + intros j N; cbv beta; rewrite of_ring_cons_ne by done; unfold bump; rewrite decide_False; done.
Qed.
End Accounting.
