(* ===== verification/EngineTrace.v ===== *)
(** * What the engine says

    The events of the engine only name rings of its heap and itself: an
    invariant of every step, up to the passes that drain it. *)

From S2P Require Import Prelude Args Record Ring Area Timestamp Tso Post Registry Engine EngineFacts EnginePass.

(** The ring an event is printed for. *)
Definition ev_name (ev : event) : option string :=
  match ev with EvRecord n _ | EvInject n _ _ _ _ _ _ | EvSpecial n _ => Some n | EvFlush => None end.

(** The messages of the engine. *)
Definition report_formats : list string :=
  ["switching timesource from %s to %s"; "dropped %llu record(s)"; "following records may be out of order"]%string.

(** One bind of an option in a hypothesis. *)
Ltac opt_step H :=
  match type of H with
  | mbind _ ?o = Some _ =>
      let E := fresh "E" in destruct o eqn:E; cbn [mbind option_bind] in H; [|discriminate H]
  | (let '(_, _) := ?p in _) = Some _ => destruct p; cbn [mbind option_bind] in H
  | context [let '(_, _) := ?p in _] => destruct p; cbn [mbind option_bind] in H
  end.

Section Spoken.
Context `{Rx : Regex}.
Context `{SortT : StdSort (entry Z) te_timestamp}.
Context `{SortI : forall key, StdSort index_entry key}.
Implicit Type e : engine.

(** [N] holds of the names, the events come behind those of [t0], and the
    options are those of the beginning. *)
Variable N : string -> Prop.
Variable t0 : list event.
Variable o0 : options.

Definition says_ok (ev : event) : Prop :=
  (forall n, ev_name ev = Some n -> N n) /\
  match ev with EvInject _ _ _ _ fmt _ _ => fmt ∈ report_formats | EvRecord _ x => is_special x = false | _ => True end.

Lemma says_record ev n : ev_name ev = Some n -> N n ->
  match ev with EvInject _ _ _ _ fmt _ _ => fmt ∈ report_formats | EvRecord _ x => is_special x = false | _ => True end -> says_ok ev.
Proof. intros E Hn H; split; [|exact H]; intros n' En; congruence. Qed.

Ltac report := eapply says_record; [reflexivity|assumption|repeat constructor].

Record spoken_by (h : heap) (t : list event) (o : options) : Prop := {
  sp_heap : forall p r, h !! p = Some r -> N (_name r);
  sp_trace : exists l, t = t0 ++ l /\ Forall says_ok l;
  sp_opts : o = o0 }.

Definition spoken e : Prop := spoken_by (e_heap e) (e_trace e) (e_opts e).

(** Steps that touch neither. *)
Ltac same := repeat match goal with
  | |- spoken (with_stats ?e _) => change (spoken e)
  | |- spoken (with_tso ?e _) => change (spoken e)
  | |- spoken (with_leftover ?e _) => change (spoken e)
  | |- spoken (with_timesource ?e _) => change (spoken e)
  | |- spoken (with_index ?e _ _) => change (spoken e)
  | |- spoken (with_rings ?e _ _) => change (spoken e)
  | |- spoken (set_index ?e _ _) => change (spoken e)
  end.

Lemma spoken_emit e ev : says_ok ev -> spoken e -> spoken (emit e ev).
Proof.
  intros O [S1 (l & T & F) S3]; split; [exact S1| |exact S3]; exists (l ++ [ev]); cbn [emit e_trace]; rewrite T, app_assoc.
  split; [done|]; apply Forall_app; split; [done|]; now constructor.
Qed.

Lemma spoken_put e p r r' : e_heap e !! p = Some r -> _name r' = _name r -> spoken e -> spoken (put_ring e p r').
Proof.
  intros H E [S1 S2 S3]; split; [|exact S2|exact S3]; intros q rq; cbn; destruct (decide (q = p)) as [->|Ne].
  - rewrite lookup_insert_eq; intros [= <-]; rewrite E; eauto.
  - rewrite lookup_insert_ne by done; apply S1.
Qed.

Lemma spoken_heap e h : (forall p r, h !! p = Some r -> exists r0, e_heap e !! p = Some r0 /\ _name r0 = _name r) ->
  spoken e -> spoken (with_heap e h).
Proof. intros H [S1 S2 S3]; split; [|exact S2|exact S3]; intros p r Hp; destruct (H p r Hp) as (r0 & H0 & <-); eauto. Qed.

Lemma ring_at_said e i p r : spoken e -> ring_at e i = Some (p, r) -> N (_name r) /\ e_heap e !! p = Some r.
Proof. intros S H; destruct (ring_at_inv _ _ _ _ H) as (ie & _ & _ & Hr); split; [exact (sp_heap _ _ _ S p r Hr)|done]. Qed.

Lemma set_timesources_names ts m : forall h h', set_timesources h ts m = Some h' ->
  forall p r, h' !! p = Some r -> exists r0, h !! p = Some r0 /\ _name r0 = _name r.
Proof.
  induction m as [|[n q] m IH]; intros h h' E p r; cbn [set_timesources] in E; [injection E as <-; eauto|].
  opt_step E; intros Hp; destruct (IH _ _ E p r Hp) as (r1 & H1 & N1); destruct (decide (p = q)) as [->|Ne].
  - rewrite lookup_insert_eq in H1; injection H1 as <-; eauto.
  - rewrite lookup_insert_ne in H1 by done; eauto.
Qed.

Lemma switch_timesource_said e r x e' : N (_name r) -> switch_timesource e r x = Some e' -> spoken e -> spoken e'.
Proof.
  unfold switch_timesource; intros Nr E S; opt_step E; injection E as <-; apply spoken_heap.
  - intros p rp Hp; exact (set_timesources_names _ _ _ _ E0 p rp Hp).
  - same; apply spoken_emit; [|now same]; report.
Qed.

Lemma flush_record_said e i s e' : flush_record e i s = Some e' -> spoken e -> spoken e'.
Proof.
  unfold flush_record; intros E S; opt_step E; opt_step E; rename z into p, r into r; opt_step E.
  destruct (ring_at_said _ _ _ _ S E0) as [Nr Hr].
  destruct (is_special r0) eqn:Sp; cbn [mbind option_bind] in E.
  - destruct (if r_argtype r0 =? _ then _ else _) as [e1|] eqn:Es; cbn [mbind option_bind] in E; [|done].
    assert (Se : spoken e1).
    { destruct (r_argtype r0 =? _); [eapply switch_timesource_said; eauto|now injection Es as <-]. }
    destruct (ack r0) as [y|]; cbn [mbind option_bind] in E; [|done].
    destruct (e_heap e1 !! p) as [r1|] eqn:H1; cbn [mbind option_bind] in E; [|done]; injection E as <-; same; apply spoken_emit.
    + split; [|done]; intros n [= <-]; exact (sp_heap _ _ _ Se p r1 H1).
    + now apply (spoken_put e1 p r1).
  - injection E as <-; same; apply spoken_emit; [|done]; eapply says_record; [reflexivity|assumption|exact Sp].
Qed.

Lemma check_drop_said e r ie x e' : N (_name r) -> check_drop e r ie x = Some e' -> spoken e -> spoken e'.
Proof.
  unfold check_drop; intros Nr E S; destruct (_ =? _); [now injection E as <-|]; opt_step E; injection E as <-; same.
  destruct b; [|done]; apply spoken_emit; [|done]; report.
Qed.

Lemma flush_entry_said e te e' : flush_entry e te = Some e' -> spoken e -> spoken e'.
Proof.
  unfold flush_entry; intros E S; opt_step E; opt_step E; opt_step E; opt_step E; opt_step E.
  destruct (ring_at_said _ _ _ _ S E0) as [Nr _]; eapply flush_record_said; [exact E|]; same.
  eapply check_drop_said; eauto.
Qed.

Lemma pop_loop_said n : forall e e', pop_loop n e = Some e' -> spoken e -> spoken e'.
Proof.
  induction n as [|n IH]; intros e e' E S; cbn [pop_loop] in E; [now injection E as <-|].
  destruct (tso_pop (e_tso e)) as [[te b]|]; [|now injection E as <-]; opt_step E.
  eapply IH; [exact E|]; eapply flush_entry_said; [exact E0|]; now same.
Qed.

Lemma do_flush_tso_said e n e' : do_flush_tso e n = Some e' -> spoken e -> spoken e'.
Proof. intros E S; eapply pop_loop_said; [exact E|]; now same. Qed.

Hypothesis engine_named : N "ENGINE".

Lemma flush_full_tso_said e e' : flush_full_tso e = Some e' -> spoken e -> spoken e'.
Proof.
  unfold flush_full_tso; intros E S; opt_step E; destruct b; cbn [mbind option_bind] in E.
  - destruct (tso_top (e_tso e)) as [te|]; cbn [mbind option_bind] in E; [|done].
    destruct (ring_at e (te_tag te)) as [[p r]|]; cbn [mbind option_bind] in E; [|done].
    destruct (record_at r (te_rec te)) as [x|]; cbn [mbind option_bind] in E; [|done]; opt_step E.
    injection E as <-; same; eapply do_flush_tso_said; [exact E1|]; apply spoken_emit; [|done]; report.
  - opt_step E; injection E as <-; same; eapply do_flush_tso_said; eauto.
Qed.

Lemma flush_tso_said e e' : flush_tso e = Some e' -> spoken e -> spoken e'.
Proof.
  unfold flush_tso; set (n := if _ <? e_leftover e then _ else _); intros E S.
  destruct (n =? 0); cbn [mbind option_bind] in E; [injection E as <-; now same|].
  opt_step E; injection E as <-; same; eapply do_flush_tso_said; eauto.
Qed.

Lemma read_ring_said fuel : forall e i ts e', read_ring fuel e i ts = Some e' -> spoken e -> spoken e'.
Proof.
  induction fuel as [|fuel IH]; intros e i ts e' E S; cbn [read_ring] in E; [done|].
  opt_step E; opt_step E; opt_step E; destruct (it_next _ _) as [[s it]|]; [|now injection E as <-].
  opt_step E; opt_step E; cbv zeta in E; set (e1 := with_tso _ t) in E; assert (S1 : spoken e1) by (now same).
  destruct (tso_full (e_tso e1)); cbn [mbind option_bind] in E; [|eapply IH; eauto].
  opt_step E; eapply IH; [exact E|]; eapply flush_full_tso_said; eauto.
Qed.

Lemma commit_ring_said e i e' : commit_ring e i = Some e' -> spoken e -> spoken e'.
Proof.
  unfold commit_ring; intros E S; opt_step E; destruct (ix_lastrec _) as [s|]; [|now injection E as <-].
  destruct (ix_ring _) as [p|]; [|now injection E as <-]; opt_step E; injection E as <-; same.
  now apply (spoken_put e p r).
Qed.

Lemma release_at_said e p e' : release_at e p = Some e' -> spoken e -> spoken e'.
Proof.
  unfold release_at; intros E S; opt_step E; destruct (release r) as [r'| |] eqn:Rl; [| |done]; injection E as <-.
  - apply (spoken_put _ p r); [exact E0| |exact S]; revert Rl; unfold release; repeat case_match; congruence || (intros [= <-]; done).
  - apply spoken_heap; [|exact S]; intros q rq; rewrite lookup_delete_Some; intros [_ Hq]; eauto.
Qed.

Lemma kill_orphan_said e l i p e' : kill_orphan e l i p = Some e' -> spoken e -> spoken e'.
Proof.
  unfold kill_orphan; intros E S; destruct l; [|now injection E as <-]; opt_step E; opt_step E.
  eapply release_at_said; [exact E|]; now same.
Qed.

Lemma check_orphan_said e locks i e' locks' : check_orphan e locks i = Some (e', locks') -> spoken e -> spoken e'.
Proof.
  unfold check_orphan; intros E S; opt_step E; opt_step E; destruct (_ && _); [|now injection E as <- <-].
  destruct (next_lock locks) as [l ls]; opt_step E; injection E as <- <-; eapply kill_orphan_said; eauto.
Qed.

Lemma ring_turn_said e locks i e' locks' : ring_turn_tso e locks i = Some (e', locks') -> spoken e -> spoken e'.
Proof.
  unfold ring_turn_tso; intros E S; opt_step E; destruct (ix_ring _) as [p|]; [|now injection E as <- <-].
  opt_step E; opt_step E; eapply check_orphan_said; [exact E|]; eapply read_ring_said; [exact E2|]; now same.
Qed.

Lemma for_rings_said f : (forall e locks i e' locks', f e locks i = Some (e', locks') -> spoken e -> spoken e') ->
  forall n i e locks e' locks', for_rings f n i e locks = Some (e', locks') -> spoken e -> spoken e'.
Proof.
  intros Hf; induction n as [|n IH]; intros i e locks e' locks' E S; cbn [for_rings] in E; [now injection E as <- <-|].
  opt_step E; opt_step E; eapply IH; [exact E|]; eapply Hf; eauto.
Qed.

Lemma process_rings_tso_said e locks e' locks' : process_rings_tso e locks = Some (e', locks') -> spoken e -> spoken e'.
Proof.
  unfold process_rings_tso; intros E S; opt_step E; opt_step E; opt_step E.
  eapply (for_rings_said commit_turn); [|exact E|].
  - intros e2 l2 i e3 l3 H S2; unfold commit_turn in H; opt_step H; injection H as <- <-; eapply commit_ring_said; eauto.
  - eapply flush_tso_said; [exact E1|]; eapply (for_rings_said ring_turn_tso); [|exact E0|exact S]; eapply ring_turn_said.
Qed.

Lemma rebuild_said e e' : rebuild_ring_index e = Some e' -> spoken e -> spoken e'.
Proof. unfold rebuild_ring_index; intros E S; opt_step E; injection E as <-; now same. Qed.

Hypothesis tso_on : Z.land (opt_features o0) DISABLE_TSO = 0.

(** The last thing a pass does is to flush the output. *)
Lemma process_rings_said e locks e' : process_rings e locks = Some e' -> spoken e ->
  exists e1, e' = emit e1 EvFlush /\ spoken e1.
Proof.
  unfold process_rings; intros E S; set (e1 := with_stats e _) in E; assert (S1 : spoken e1) by (now same).
  set (o := if e_dirty e1 then _ else _) in E; destruct o as [[e2 l2]|] eqn:Eo; cbn [mbind option_bind] in E; [|done].
  assert (S2 : spoken e2).
  { unfold o in Eo; destruct (e_dirty e1); [|now injection Eo as <- <-]; destruct (next_lock locks) as [[|] ls]; [|now injection Eo as <- <-].
    opt_step Eo; injection Eo as <- <-; eapply rebuild_said; eauto. }
  rewrite (sp_opts _ _ _ S2), tso_on in E; change (0 =? 0) with true in E; cbn iota in E; opt_step E; opt_step E; injection E as <-.
  eexists; split; [reflexivity|]; eapply process_rings_tso_said; eauto.
Qed.

Lemma drain_said fuel : forall e locks e', drain_rings fuel e locks = Some e' -> spoken e ->
  exists l, e_trace e' = t0 ++ l ++ [EvFlush] /\ Forall says_ok (l ++ [EvFlush]).
Proof.
  induction fuel as [|fuel IH]; intros e locks e' E S; cbn [drain_rings] in E; [done|]; opt_step E.
  destruct (process_rings_said _ _ _ E0 S) as (e1 & -> & S1); destruct (negb _ && _).
  - injection E as <-; destruct (sp_trace _ _ _ S1) as (l & T & F); exists l; cbn [emit e_trace]; rewrite T, app_assoc.
    split; [done|]; apply Forall_app; split; [done|]; constructor; [done|constructor].
  - eapply IH; [exact E|]; now apply spoken_emit.
Qed.
End Spoken.
