(* ===== verification/TsoSpec.v ===== *)
(** * What a pass with timestamp ordering guarantees

    The theorems about [process_rings_tso], from the lemmas of EnginePass. *)

From S2P Require Import Prelude Args Record Ring Area Timestamp Tso Post Registry Engine.
From S2P Require Import EngineFacts Sample EngineTso EnginePass.

Section Spec.
Context `{Rx : Regex}.
Context `{SortT : StdSort (entry Z) te_timestamp}.
Implicit Type e : engine.

(** What a list of (ring, record) adds to the output. *)
Definition named e (fl : list (nat * record)) : list (string * record) :=
  map (fun '(i, x) => (name_of (ring_at e) i, x)) fl.

(** The timestamps within each ring grow; zero is the one the engine starts
    its comparison with. *)
Definition clocks_grow e : Prop := forall i p r, ring_at e i = Some (p, r) ->
  StronglySorted (fun x y => r_timestamp x < r_timestamp y) (contents r) /\
  Forall (fun x => 0 < r_timestamp x) (contents r).

Lemma pass_clocks K fe e e' : clocks_ok e -> pass_result K fe e e' -> clocks_ok e'.
Proof.
  intros C Pr i p r' E'; destruct (ring_at e i) as [[q r]|] eqn:E.
  - destruct (pr_ring _ _ _ _ Pr i q r E) as (_ & _ & H); case_decide; [destruct H; congruence|].
    destruct H as (r2 & E2 & D & _); assert (r2 = r') as -> by congruence.
    unfold ring_clock; rewrite (dr_contents _ _ _ D); apply Forall_drop, (C i q r E).
  - rewrite (pr_none _ _ _ _ Pr i E) in E'; done.
Qed.

Lemma sent_cons R0 te fe : sent R0 (te :: fe) =
  match rec_of R0 te with Some x => (te_tag te, x) :: sent R0 fe | None => sent R0 fe end.
Proof. unfold sent; cbn; destruct (rec_of R0 te); done. Qed.

Lemma of_ring_none (e : engine) (fe : list (entry Z)) i :
  (forall te, te ∈ fe -> is_Some (ring_at e (te_tag te))) ->
  ring_at e i = None -> of_ring i (sent (ring_at e) fe) = [].
Proof.
  intros Dom E; induction fe as [|te fe IH]; [done|]; rewrite sent_cons.
  assert (IH' := IH (fun t Ht => Dom t ltac:(now constructor))).
  destruct (Dom te ltac:(constructor)) as [pr Er]; destruct (rec_of _ te); [|exact IH'].
  rewrite of_ring_cons_ne by congruence; exact IH'.
Qed.

Lemma length_of_ring K fe e e' i p r : pass_result K fe e e' -> ring_at e i = Some (p, r) ->
  length (of_ring i (sent (ring_at e) fe)) = flushed fe i.
Proof.
  intros Pr E; destruct (pr_ring _ _ _ _ Pr i p r E) as (-> & L & _); rewrite length_take; lia.
Qed.

Lemma remaining_zero e i : remaining e = 0%nat -> (i < length (e_index e))%nat -> size_of (ring_at e) i = 0%nat.
Proof.
  unfold remaining, total; intros Z0 Hi.
  assert (H : i ∈ seq 0 (length (e_index e))) by (apply elem_of_seq; lia); revert Z0 H.
  induction (seq 0 _) as [|j l IH]; cbn; intros Z0 H; [set_solver|].
  rewrite elem_of_cons in H; destruct H as [->|H]; [lia|apply IH; [lia|done]].
Qed.

(** C5: A pass of an engine with ordering always succeeds, whether or not it gets
    the locks: the engine is well formed and between two passes, its buffer has
    at least two entries, and the timestamps in its rings are below 2^64 - 2^31
    but otherwise in any order ([clock_wraps] shows the others).  No read or
    write is out of bounds.  The pass sends for each ring
    a prefix of its records in their order, under the name of the ring; the
    ring keeps exactly the others, and only an empty ring is killed.  The
    counters of the statistics and the expected sequence numbers follow what
    was sent, and the engine is ready for the next pass. *)
Theorem tso_pass_correct e locks : idle e -> clocks_ok e ->
  exists e' locks' (fl : list (nat * record)),
    process_rings_tso e locks = Some (e', locks') /\ idle e' /\
    outs e' = outs e ++ named e fl /\
    u64 (recs_out (e_stats e')) = u64 (recs_out (e_stats e) + Z.of_nat (length fl)) /\
    u64 (recs_dropped (e_stats e')) = u64 (recs_dropped (e_stats e) + replay (seq_at e) fl) /\
    forall i, match ring_at e i with
      | None => of_ring i fl = [] /\ ring_at e' i = None
      | Some (p, r) =>
          let k := length (of_ring i fl) in
          of_ring i fl = take k (contents r) /\
          match ring_at e' i with
          | None => contents r = []
          | Some (p', r') =>
              p' = p /\ same_config r r' /\ _refcnt r' = _refcnt r /\ contents r' = drop k (contents r) /\
              seq_at e' i = next_seq (seq_at e i) (of_ring i fl)
          end
      end.
Proof.
  intros I C; destruct (tso_pass e locks I C) as (e' & locks' & K & fe & E & Pr & _).
  exists e', locks', (sent (ring_at e) fe); split; [exact E|]; destruct Pr as [P1 P2 P3 P4 P5 P6 P7 P8 P9 P10].
  do 4 (split; [done|]); intros i; destruct (ring_at e i) as [[p r]|] eqn:Er.
  - cbv zeta; rewrite (length_of_ring K fe e e' i p r) by done.
    destruct (P7 i p r Er) as (-> & L & H); split; [done|]; case_decide.
    + destruct H as [H ->]; done.
    + destruct H as (r' & -> & D & Sq); split; [done|]; destruct D; done.
  - split; [now apply of_ring_none|auto].
Qed.

(** Two passes in a row, with nothing new written in between, leave every
    ring empty, whatever was in them and whatever the size of the buffer: the
    first pass leaves less than a buffer full behind, and the second sends all
    that the first has left. *)
Theorem tso_two_passes_drain e locks locks' : idle e -> clocks_ok e ->
  exists e1 locks1 e2 locks2, process_rings_tso e locks = Some (e1, locks1) /\
    process_rings_tso e1 locks' = Some (e2, locks2) /\
    e_leftover e1 = Z.of_nat (remaining e1) /\ e_leftover e2 = 0 /\
    forall i p r, ring_at e2 i = Some (p, r) -> contents r = [].
Proof.
  intros I C; destruct (tso_pass e locks I C) as (e1 & l1 & K1 & f1 & E1 & P1 & L1 & B1 & _).
  pose proof (pr_idle _ _ _ _ P1) as I1; pose proof (pass_clocks _ _ _ _ C P1) as C1.
  destruct (tso_pass e1 locks' I1 C1) as (e2 & l2 & K2 & f2 & E2 & P2 & L2 & _ & Q2).
  exists e1, l1, e2, l2; do 3 (split; [done|]).
  rewrite <- (pf_cap _ _ (pr_frame _ _ _ _ P1)) in B1.
  destruct (Q2 B1) as (_ & all & Pm & _ & Ff).
  assert (Zero : remaining e2 = 0%nat).
  { pose proof (sent_remaining _ _ _ _ P2) as S; rewrite Ff, length_take, (Permutation_length Pm), length_all_entries in S.
    unfold flush_target in S; lia. }
  rewrite L2, Zero; split; [done|]; intros i p r Er.
  apply nil_length_inv; rewrite <- (size_of_contents _ _ _ _ Er).
  apply (remaining_zero _ _ Zero); destruct (ring_at_inv _ _ _ _ Er) as (ie & Hi & _); eapply lookup_lt_Some, Hi.
Qed.

(** *** Order *)

(** With growing timestamps the entries carry the timestamps of the records. *)
Lemma entries_exact i (l : list (Z * record)) : forall ts,
  StronglySorted (fun x y => r_timestamp x < r_timestamp y) (map snd l) ->
  Forall (fun x => ts < r_timestamp x) (map snd l) ->
  entries i ts l = map (fun '(s, x) => mkEntry (r_timestamp x) s i) l.
Proof.
  induction l as [|[s x] l IH]; intros ts S F; cbn; [done|].
  cbn in S, F; inversion S as [|? ? S' Fx]; inversion F as [|? ? Hx _]; subst.
  assert (A : adjusted ts x = r_timestamp x)
    by (unfold adjusted; destruct (Z.leb_spec (r_timestamp x) ts); [lia|done]).
  rewrite A, IH; done.
Qed.

Lemma entry_record e te : registry_ok e -> clocks_grow e -> te ∈ all_entries e ->
  exists p r x, ring_at e (te_tag te) = Some (p, r) /\ rec_of (ring_at e) te = Some x /\
    te_timestamp te = r_timestamp x /\ x ∈ contents r.
Proof.
  intros R G H; unfold all_entries in H; apply list_elem_of_In, in_flat_map in H as (i & _ & H).
  apply list_elem_of_In in H; unfold entries_of in H.
  destruct (ring_at e i) as [[p r]|] eqn:E; [|set_solver]; destruct (G i p r E) as [S F].
  assert (Ti : te_tag te = i).
  { apply list_elem_of_lookup in H as [k Hk]; apply (entries_lookup _ _ _ _ _ Hk). }
  rewrite <- items_snd in S, F; unfold ring_entries in H; rewrite (entries_exact i (items r) 0 S F) in H.
  apply list_elem_of_fmap in H as ([s x] & -> & H); cbn [te_tag te_timestamp] in *.
  apply list_elem_of_lookup in H as [k Hk]; apply items_lookup in Hk as [Hs Hx].
  destruct (slot_record r k s (rk_wf _ (ring_at_good _ _ _ _ R E)) Hs) as (x' & Hx' & Hr & _).
  exists p, r, x; split; [done|]; split; [unfold rec_of; cbn [te_tag te_rec]; rewrite E; cbn [mbind option_bind]; congruence|].
  split; [done|]; eapply list_elem_of_lookup_2, Hx.
Qed.

(** Every record in a ring has its entry. *)
Lemma record_entry e i p r y : clocks_grow e -> ring_at e i = Some (p, r) -> y ∈ contents r ->
  exists te, te ∈ all_entries e /\ te_tag te = i /\ te_timestamp te = r_timestamp y.
Proof.
  intros G E Hy; destruct (G i p r E) as [S F]; rewrite <- items_snd in S, F, Hy.
  apply list_elem_of_fmap in Hy as ([s x] & -> & Hi); exists (mkEntry (r_timestamp x) s i); split; [|done].
  unfold all_entries; apply list_elem_of_In, in_flat_map; exists i; split.
  - apply list_elem_of_In, elem_of_seq; destruct (ring_at_inv _ _ _ _ E) as (ie & Hx & _).
    apply lookup_lt_Some in Hx; lia.
  - apply list_elem_of_In; unfold entries_of, ring_entries; rewrite E, (entries_exact i (items r) 0 S F).
    apply list_elem_of_fmap; exists (s, x); done.
Qed.

(** What is sent is, in order, the records of the entries. *)
Lemma sent_times e fe : registry_ok e -> clocks_grow e -> (forall te, te ∈ fe -> te ∈ all_entries e) ->
  map (fun p => (p.1, r_timestamp p.2)) (sent (ring_at e) fe) = map (fun te => (te_tag te, te_timestamp te)) fe.
Proof.
  intros R G H; induction fe as [|te fe IH]; [done|]; rewrite sent_cons.
  destruct (entry_record e te R G (H te ltac:(constructor))) as (p & r & x & _ & -> & Et & _).
  cbn; rewrite Et, IH; [done|]; intros; apply H; now constructor.
Qed.

Lemma StronglySorted_map {T U} (f : T -> U) (P : U -> U -> Prop) (l : list T) :
  StronglySorted P (map f l) <-> StronglySorted (fun a b => P (f a) (f b)) l.
Proof.
  induction l as [|a l IH]; cbn; split; intros S; try constructor; inversion S as [|? ? S' F]; subst.
  - now apply IH.
  - apply (proj1 (Forall_map _ _ _) F).
  - now apply IH.
  - apply (proj2 (Forall_map _ _ _) F).
Qed.

(** Two records of a ring with the same timestamp are the same position. *)
Lemma take_drop_grow (l : list record) k x y : StronglySorted (fun x y => r_timestamp x < r_timestamp y) l ->
  x ∈ take k l -> y ∈ drop k l -> r_timestamp x < r_timestamp y.
Proof.
  intros S Hx Hy; rewrite <- (take_drop k l) in S; apply StronglySorted_app in S as (Sx & _).
  eapply Sx; eassumption.
Qed.

(** C18: As long as the records in the rings fit in the buffer, which has at
    least two entries, and the clock of each ring grows and stays below
    2^64 - 2^31, a pass sends records in the order of their timestamps,
    across all the rings, and no record that remains in a ring is older than
    one that was sent.  It holds back an eighth of the buffer's capacity, but
    sends at least as many records as the pass before it left behind. *)
Theorem tso_pass_ordered e locks : idle e -> clocks_ok e -> clocks_grow e ->
  Z.of_nat (remaining e) < tb_capacity (e_tso e) ->
  exists e' locks' fl, process_rings_tso e locks = Some (e', locks') /\
    outs e' = outs e ++ named e fl /\
    StronglySorted (fun a b => r_timestamp a.2 <= r_timestamp b.2) fl /\
    (forall a i p r y, a ∈ fl -> ring_at e' i = Some (p, r) -> y ∈ contents r ->
       r_timestamp a.2 <= r_timestamp y) /\
    Z.of_nat (length fl) = Z.min (Z.of_nat (remaining e))
      (Z.max (Z.of_nat (remaining e) - tb_capacity (e_tso e) / 8) (e_leftover e)).
Proof.
  intros I C G Room; destruct (tso_pass e locks I C) as (e' & locks' & K & fe & E & Pr & _ & _ & Q).
  destruct (Q Room) as (_ & all & Pm & So & Ff).
  pose proof (id_reg _ I) as R; pose proof (id_left _ I); pose proof (id_cap _ I).
  assert (Sub : forall te, te ∈ fe -> te ∈ all_entries e).
  { intros te H'; rewrite <- Pm; rewrite Ff in H'; eapply elem_of_take in H' as (k & Hk & _).
    eapply list_elem_of_lookup_2, Hk. }
  pose proof (sent_times e fe R G Sub) as Tm.
  exists e', locks', (sent (ring_at e) fe); split; [exact E|]; split; [apply Pr|].
  assert (So' : StronglySorted (fun a b => te_timestamp a <= te_timestamp b) (fe ++ drop (Z.to_nat (flush_target e)) all))
    by (rewrite Ff, take_drop; exact So).
  apply StronglySorted_app in So' as (Cross & Sf & _); split; [|split].
  - apply (StronglySorted_map (fun p => (p.1, r_timestamp p.2)) (fun a b : nat * Z => a.2 <= b.2)).
    rewrite Tm; apply StronglySorted_map; exact Sf.
  - intros a i p r' y Ha E' Hy.
    destruct (ring_at e i) as [[q r]|] eqn:Er; [|rewrite (pr_none _ _ _ _ Pr i Er) in E'; done].
    destruct (pr_ring _ _ _ _ Pr i q r Er) as (Pre & _ & H1); case_decide; [destruct H1; congruence|].
    destruct H1 as (r2 & E2 & D & _); assert (r2 = r') as -> by congruence; rewrite (dr_contents _ _ _ D) in Hy.
    assert (Hy' : y ∈ contents r) by (rewrite <- (take_drop (flushed fe i) (contents r)); apply elem_of_app; now right).
    destruct (record_entry e i q r y G Er Hy') as (te & Hte & Ti & Tt).
    assert (Ha' : (a.1, r_timestamp a.2) ∈ map (fun te => (te_tag te, te_timestamp te)) fe)
      by (rewrite <- Tm; apply list_elem_of_fmap; eauto).
    apply list_elem_of_fmap in Ha' as (ta & [= Ha1 Ha2] & Hta); rewrite Ha2, <- Tt.
    rewrite <- Pm, <- (take_drop (Z.to_nat (flush_target e)) all), <- Ff in Hte.
    apply elem_of_app in Hte as [Hte|Hte]; [|now apply Cross].
    exfalso.
    assert (Hz : (i, r_timestamp y) ∈ map (fun p => (p.1, r_timestamp p.2)) (sent (ring_at e) fe))
      by (rewrite Tm; apply list_elem_of_fmap; exists te; rewrite Ti, Tt; done).
    apply list_elem_of_fmap in Hz as ([j z] & [= <- Hz] & Hin); cbn in *.
    assert (Hz' : z ∈ take (flushed fe i) (contents r)).
    { rewrite <- Pre; unfold of_ring; apply list_elem_of_fmap; exists (i, z); split; [done|].
      apply list_elem_of_filter; done. }
    pose proof (take_drop_grow _ _ _ _ (proj1 (G i q r Er)) Hz' Hy); lia.
  - rewrite (pr_length _ _ _ _ Pr), Ff, length_take, (Permutation_length Pm), length_all_entries.
    unfold flush_target; destruct (Z.ltb_spec (tb_capacity (e_tso e) / 8) (Z.of_nat (remaining e))); lia.
Qed.

(** *** Accounting *)

(** How far ring [i] advanced in a pass. *)
Definition advance e e' (i : nat) : Z :=
  match ring_at e' i with Some _ => seq_at e' i - seq_at e i | None => 0 end.

(** C31: Nothing is lost without a trace: over a pass with ordering, the buffer
    having at least two entries and the timestamps being below 2^64 - 2^31, the
    records sent and the
    records reported as dropped together are as many as the sequence numbers
    by which the rings advanced. *)
Theorem tso_pass_accounting e locks : idle e -> clocks_ok e ->
  exists e' locks', process_rings_tso e locks = Some (e', locks') /\
    u64 ((recs_out (e_stats e') - recs_out (e_stats e)) + (recs_dropped (e_stats e') - recs_dropped (e_stats e))) =
    u64 (sum_Z (advance e e') (seq 0 (length (e_index e)))).
Proof.
  intros I C; destruct (tso_pass e locks I C) as (e' & locks' & K & fe & E & Pr & _).
  exists e', locks'; split; [exact E|].
  destruct (proj1 (u64_cong _ _) (pr_recs_out _ _ _ _ Pr)) as [k1 E1].
  destruct (proj1 (u64_cong _ _) (pr_dropped _ _ _ _ Pr)) as [k2 E2].
  assert (Dom : forall p, p ∈ sent (ring_at e) fe -> (p.1 < length (e_index e))%nat).
  { intros [i x] H; unfold sent in H; apply list_elem_of_omap in H as (te & Hte & H).
    destruct (pr_fe _ _ _ _ Pr te Hte) as [[q r] Eq]; destruct (rec_of _ te); [|done].
    injection H as <- _; destruct (ring_at_inv _ _ _ _ Eq) as (ie & Hi & _); eapply lookup_lt_Some, Hi. }
  destruct (proj1 (u64_cong _ _) (replay_total _ _ (seq_at e) Dom)) as [k3 E3].
  apply u64_cong; exists (k1 + k2 + k3).
  rewrite (sum_Z_ext (advance e e') (fun i => next_seq (seq_at e i) (of_ring i (sent (ring_at e) fe)) - seq_at e i)); [lia|].
  intros i _; unfold advance; destruct (ring_at e i) as [[p r]|] eqn:Er.
  - destruct (pr_ring _ _ _ _ Pr i p r Er) as (-> & _ & H); case_decide.
    + destruct H as [-> ->]; rewrite take_nil; cbn; lia.
    + destruct H as (r' & -> & _ & ->); done.
  - rewrite (pr_none _ _ _ _ Pr i Er), of_ring_none; [cbn; lia|apply Pr|done].
Qed.
End Spec.

(** ** Concrete instances *)

Lemma sample8_idle : idle sample8.
Proof.
  split; [apply sample8_registry|apply sample8_internal|apply tso_resize_ok; lia|done|done|cbn; lia|cbn; lia|].
  intros [|[|i]] ie; [intros [= <-]; done|intros [= <-]; done|done].
Qed.

Lemma sample8_ring i p r : ring_at sample8 i = Some (p, r) -> r = ring_a \/ r = ring_b.
Proof.
  destruct i as [|[|i]]; [change (ring_at sample8 0) with (Some (1, ring_a)); intros [= _ <-]; now left
    | change (ring_at sample8 1) with (Some (2, ring_b)); intros [= _ <-]; now right | done].
Qed.

Lemma sample8_clocks : clocks_ok sample8.
Proof.
  intros i p r E; destruct (sample8_ring i p r E) as [-> | ->];
    unfold ring_clock, clock_room; repeat constructor; vm_compute; congruence.
Qed.

Lemma sample8_grow : clocks_grow sample8.
Proof.
  intros i p r E; destruct (sample8_ring i p r E) as [-> | ->]; split; repeat constructor.
Qed.

(** The records of both rings merge by time; one is held back. *)
Lemma tso_pass_correct_witness :
  exists e' l' fl, process_rings_tso sample8 [] = Some (e', l') /\ idle e' /\
    outs e' = outs sample8 ++ named sample8 fl /\
    outs e' = [("a", sample_record 10 0); ("b", sample_record 20 0)]%string.
Proof.
  destruct (tso_pass_correct sample8 [] sample8_idle sample8_clocks) as (e' & l' & fl & E & I & O & _).
  exists e', l', fl; do 3 (split; [assumption|]).
  vm_compute in E; injection E as <- _; reflexivity.
Defined.

Lemma tso_two_passes_drain_witness :
  exists e1 l1 e2 l2, process_rings_tso sample8 [] = Some (e1, l1) /\ process_rings_tso e1 [] = Some (e2, l2) /\
    e_leftover e1 = 1 /\ forall i p r, ring_at e2 i = Some (p, r) -> contents r = [].
Proof.
  destruct (tso_two_passes_drain sample8 [] [] sample8_idle sample8_clocks) as (e1 & l1 & e2 & l2 & E1 & E2 & _ & _ & H).
  exists e1, l1, e2, l2; do 2 (split; [done|]); split; [vm_compute in E1; injection E1 as <- _; reflexivity|exact H].
Defined.

Lemma sample8_room : Z.of_nat (remaining sample8) < tb_capacity (e_tso sample8).
Proof. vm_compute; reflexivity. Qed.

Lemma tso_pass_ordered_witness :
  exists e' l' fl, process_rings_tso sample8 [] = Some (e', l') /\
    StronglySorted (fun a b : nat * record => r_timestamp a.2 <= r_timestamp b.2) fl /\ Z.of_nat (length fl) = 2.
Proof.
  destruct (tso_pass_ordered sample8 [] sample8_idle sample8_clocks sample8_grow sample8_room)
    as (e' & l' & fl & E & _ & S & _ & L); exists e', l', fl.
  split; [exact E|split; [exact S|]]; rewrite L; vm_compute; reflexivity.
Defined.

Lemma tso_pass_accounting_witness :
  exists e' l', process_rings_tso sample8 [] = Some (e', l') /\
    u64 ((recs_out (e_stats e') - recs_out (e_stats sample8)) + (recs_dropped (e_stats e') - recs_dropped (e_stats sample8))) =
    u64 (sum_Z (advance sample8 e') (seq 0 (length (e_index sample8)))).
Proof.
  destruct (tso_pass_accounting sample8 [] sample8_idle sample8_clocks) as (e' & l' & E & H).
  exists e', l'; split; [exact E|exact H].
Defined.

(** Behind 2^64 - 1 the timestamp that is made up for a record that is not newer
    than the one before it wraps around to zero, and the ring comes out in the
    wrong order. *)
Definition wrap_engine : engine :=
  sample_engine 64 0 (sample_ring "a" 3 2 [sample_record 18446744073709551615 0; sample_record 7 1]) ring_b.

Lemma clock_wraps :
  (e1 ← process_rings_tso wrap_engine [true; true; true; true]; e2 ← process_rings_tso e1.1 [true; true; true; true];
   Some (map (fun nx => (nx.1, r_seqnum nx.2)) (outs e2.1))) =
  Some [("a"%string, 1); ("b"%string, 0); ("a"%string, 0)].
Proof. vm_compute; reflexivity. Qed.
