(* ===== verification/EngineDrain.v ===== *)
(** * Draining the engine at the end of its life

    [drain_rings] ends and sends every record: the registry over several
    passes, each of which may rebuild the index and kill rings. *)

From S2P Require Import Prelude Args Record Ring Area Timestamp Tso Post Registry Engine.
From S2P Require Import EngineFacts RegistryFacts EngineApart Sample EngineTso EnginePass TsoSpec.

(** ** What the steps of a pass leave alone *)

Section Quiet.
Context `{Rx : Regex}.
Context `{SortT : StdSort (entry Z) te_timestamp}.
Implicit Type e : engine.

(** No ring gains a reference, and none appears. *)
Definition refs_le (h h' : heap) : Prop :=
  forall p r', h' !! p = Some r' -> exists r, h !! p = Some r /\ _refcnt r' <= _refcnt r.

#[export] Instance refs_le_preorder : PreOrder refs_le.
Proof.
  split; [intros h p r H; exists r; split; [done|lia]|]; intros a b c H1 H2 p r Hp.
  destruct (H2 p r Hp) as (r1 & E1 & L1); destruct (H1 p r1 E1) as (r2 & E2 & L2); exists r2; split; [done|lia].
Qed.

Lemma refs_le_insert (h : heap) p r r' : h !! p = Some r -> _refcnt r' <= _refcnt r -> refs_le h (<[p := r']> h).
Proof.
  intros H L q rq; destruct (decide (q = p)) as [->|N].
  - rewrite lookup_insert_eq; intros [= <-]; eauto.
  - rewrite lookup_insert_ne by done; intros E; exists rq; split; [done|lia].
Qed.

(** Flushing records touches neither the map of rings nor which ring an entry
    of the index is for. *)
Record quiet e e' : Prop := {
  qt_rings : e_rings e' = e_rings e; qt_dirty : e_dirty e' = e_dirty e;
  qt_index : map ix_ring (e_index e') = map ix_ring (e_index e);
  qt_refs : refs_le (e_heap e) (e_heap e') }.

#[export] Instance quiet_preorder : PreOrder quiet.
Proof.
  split; [intros e; split; reflexivity|]; intros a b c [R1 D1 I1 F1] [R2 D2 I2 F2].
  split; [congruence..|now transitivity (e_heap b)].
Qed.

Lemma quiet_same e e' : e_rings e' = e_rings e -> e_dirty e' = e_dirty e -> e_index e' = e_index e ->
  e_heap e' = e_heap e -> quiet e e'.
Proof. intros R D I H; split; [done|done|now rewrite I|rewrite H; reflexivity]. Qed.

Lemma quiet_set_index e i ie ie' : e_index e !! i = Some ie -> ix_ring ie' = ix_ring ie -> quiet e (set_index e i ie').
Proof.
  intros Hi Hr; split; [done|done| |reflexivity]; cbn [set_index with_index e_index].
  rewrite list_fmap_insert, Hr; apply list_insert_id; now rewrite list_lookup_fmap, Hi.
Qed.

Lemma quiet_put_ring e p r r' : e_heap e !! p = Some r -> _refcnt r' <= _refcnt r -> quiet e (put_ring e p r').
Proof. intros H L; split; try done; now apply refs_le_insert with r. Qed.

Lemma set_timesources_refs ts m : forall h h', set_timesources h ts m = Some h' -> refs_le h h'.
Proof.
  induction m as [|[n p] m IH]; intros h h' E; cbn [set_timesources] in E; [injection E as <-; reflexivity|].
  destruct (h !! p) as [r|] eqn:Hp; [|done]; cbn [mbind option_bind] in E.
  transitivity (<[p := set_timesource r ts]> h); [|now apply IH]; apply (refs_le_insert h p r); [done|cbn; lia].
Qed.

Lemma switch_timesource_quiet e r x e' : switch_timesource e r x = Some e' -> quiet e e'.
Proof.
  unfold switch_timesource; destruct (set_timesources _ _ _) as [h|] eqn:E; [|done]; cbn [mbind option_bind]; intros [= <-].
  apply set_timesources_refs in E; split; done.
Qed.

Lemma flush_record_quiet e i s e' : flush_record e i s = Some e' -> quiet e e'.
Proof.
  unfold flush_record; destruct (ring_at e i) as [[p r]|]; [|done]; cbn [mbind option_bind].
  destruct (record_at r s) as [x|]; [|done]; cbn [mbind option_bind]; destruct (is_special x).
  - destruct (r_argtype x =? SPR_TIMESOURCE_CHANGE).
    + destruct (switch_timesource e r x) as [e1|] eqn:E1; [|done]; cbn [mbind option_bind].
      destruct (ack x) as [y|]; [|done]; cbn [mbind option_bind]; destruct (e_heap e1 !! p) as [r1|] eqn:Hp; [|done].
      intros [= <-]; transitivity e1; [eapply switch_timesource_quiet, E1|].
      transitivity (put_ring e1 p (write_slot r1 s y)); [apply (quiet_put_ring e1 p r1); [done|cbn; lia]|now apply quiet_same].
    + cbn [mbind option_bind]; destruct (ack x) as [y|]; [|done]; cbn [mbind option_bind].
      destruct (e_heap e !! p) as [r1|] eqn:Hp; [|done]; intros [= <-].
      transitivity (put_ring e p (write_slot r1 s y)); [apply (quiet_put_ring e p r1); [done|cbn; lia]|now apply quiet_same].
  - intros [= <-]; now apply quiet_same.
Qed.

Lemma check_drop_quiet e r ie x e' : check_drop e r ie x = Some e' -> quiet e e'.
Proof.
  unfold check_drop; destruct (_ =? _); [intros [= <-]; reflexivity|]; destruct (reports _ _) as [on|]; [|done].
  intros [= <-]; destruct on; now apply quiet_same.
Qed.

Lemma flush_entry_quiet e te e' : flush_entry e te = Some e' -> quiet e e'.
Proof.
  unfold flush_entry; destruct (ring_at e (te_tag te)) as [[p r]|]; [|done]; cbn [mbind option_bind].
  destruct (index_at e (te_tag te)) as [ie|] eqn:Hi; [|done]; cbn [mbind option_bind].
  destruct (record_at r (te_rec te)) as [x|]; [|done]; cbn [mbind option_bind].
  destruct (check_drop e r ie x) as [e1|] eqn:E1; [|done]; cbn [mbind option_bind]; intros E2.
  pose proof (check_drop_quiet _ _ _ _ _ E1) as Q1; apply flush_record_quiet in E2; transitivity e1; [done|].
  eapply transitivity; [|exact E2].
  assert (Q : map ix_ring (e_index e1) !! te_tag te = Some (ix_ring ie))
    by (rewrite (qt_index _ _ Q1), list_lookup_fmap; unfold index_at in Hi; now rewrite Hi).
  rewrite list_lookup_fmap in Q; destruct (e_index e1 !! te_tag te) as [ie1|] eqn:H1; [|done]; injection Q as Q.
  now apply (quiet_set_index e1 _ ie1).
Qed.

Lemma pop_loop_quiet n : forall e e', pop_loop n e = Some e' -> quiet e e'.
Proof.
  induction n as [|n IH]; intros e e'; cbn [pop_loop]; [intros [= <-]; reflexivity|].
  destruct (tso_pop (e_tso e)) as [[te b]|]; [|intros [= <-]; reflexivity].
  destruct (flush_entry (with_tso e b) te) as [e1|] eqn:E1; [|done]; cbn [mbind option_bind]; intros E2.
  transitivity (with_tso e b); [now apply quiet_same|]; transitivity e1; [eapply flush_entry_quiet, E1|now apply IH].
Qed.

Lemma do_flush_tso_quiet e n e' : do_flush_tso e n = Some e' -> quiet e e'.
Proof. intros E; apply pop_loop_quiet in E; eapply transitivity; [|exact E]; now apply quiet_same. Qed.

Lemma flush_full_tso_quiet e e' : flush_full_tso e = Some e' -> quiet e e'.
Proof.
  unfold flush_full_tso; destruct (reports e I_TSOFULLMARK) as [on|]; [|done]; cbn [mbind option_bind].
  assert (Q : forall e1, quiet e e1 -> (e ← do_flush_tso e1 (tso_size (e_tso e) / 2);
    let e := with_tso (with_leftover e 0) (tso_flip (e_tso e)) in Some (with_stats e (bump_tso_full (e_stats e)))) = Some e' -> quiet e e').
  { intros e1 Q1; destruct (do_flush_tso e1 _) as [e2|] eqn:E2; [|done]; cbn [mbind option_bind]; intros [= <-].
    transitivity e1; [done|]; transitivity e2; [eapply do_flush_tso_quiet, E2|now apply quiet_same]. }
  destruct on; [|cbn [mbind option_bind]; apply Q; reflexivity].
  destruct (tso_top (e_tso e)) as [te|]; [|done]; cbn [mbind option_bind]; destruct (ring_at e (te_tag te)) as [[p r]|]; [|done].
  cbn [mbind option_bind]; destruct (record_at r (te_rec te)); [|done]; cbn [mbind option_bind]; apply Q; now apply quiet_same.
Qed.

Lemma flush_tso_quiet e e' : flush_tso e = Some e' -> quiet e e'.
Proof.
  unfold flush_tso; set (n := if _ <? e_leftover e then _ else _).
  destruct (if n =? 0 then Some e else do_flush_tso e n) as [e1|] eqn:E1; [|done]; cbn [mbind option_bind]; intros [= <-].
  transitivity e1; [|now apply quiet_same]; destruct (n =? 0); [injection E1 as <-; reflexivity|eapply do_flush_tso_quiet, E1].
Qed.

Lemma read_ring_quiet fuel : forall e i ts e', read_ring fuel e i ts = Some e' -> quiet e e'.
Proof.
  induction fuel as [|fuel IH]; intros e i ts e'; cbn [read_ring]; [done|].
  destruct (ring_at e i) as [[p r]|]; [|done]; cbn [mbind option_bind].
  destruct (index_at e i) as [ie|] eqn:Hi; [|done]; cbn [mbind option_bind].
  destruct (it_next r (ix_pit ie)) as [[s it]|]; [|intros [= <-]; reflexivity].
  destruct (record_at r s) as [x|]; [|done]; cbn [mbind option_bind].
  destruct (tso_push _ _) as [b|]; [|done]; cbn [mbind option_bind]; set (e1 := with_tso _ b).
  destruct (if tso_full (e_tso e1) then flush_full_tso e1 else Some e1) as [e2|] eqn:E2; [|done]; cbn [mbind option_bind]; intros E3.
  transitivity (set_index e i (mkIx (ix_ring ie) it (ix_lastrec ie) (ix_seqnum ie))); [now apply (quiet_set_index e i ie)|].
  transitivity e1; [now apply quiet_same|]; transitivity e2; [|eapply IH, E3].
  destruct (tso_full _); [eapply flush_full_tso_quiet, E2|injection E2 as <-; reflexivity].
Qed.

Lemma commit_ring_quiet e i e' : commit_ring e i = Some e' -> quiet e e'.
Proof.
  unfold commit_ring; destruct (index_at e i) as [ie|] eqn:Hi; [|done]; cbn [mbind option_bind].
  destruct (ix_lastrec ie) as [s|]; [|intros [= <-]; reflexivity]; destruct (ix_ring ie) as [p|] eqn:Hp; [|intros [= <-]; reflexivity].
  destruct (e_heap e !! p) as [r|] eqn:Hr; [|done]; cbn [mbind option_bind]; intros [= <-].
  match goal with |- quiet e (set_index (put_ring e p ?r') i ?ie') => transitivity (put_ring e p r') end;
    [apply (quiet_put_ring e p r); [done|cbn; lia]|].
  apply (quiet_set_index _ i ie); [exact Hi|now rewrite Hp].
Qed.

Lemma commit_all_quiet n : forall i e locks e' locks', for_rings commit_turn n i e locks = Some (e', locks') -> quiet e e'.
Proof.
  induction n as [|n IH]; intros i e locks e' locks'; cbn [for_rings]; [intros [= <- <-]; reflexivity|].
  assert (Et : commit_turn e locks i = (e ← commit_ring e i; Some (e, locks))) by reflexivity; rewrite Et.
  destruct (commit_ring e i) as [e1|] eqn:E1; cbn [mbind option_bind]; [|done]; intros E2.
  transitivity e1; [eapply commit_ring_quiet, E1|eapply IH, E2].
Qed.
End Quiet.

(** ** What a pass leaves of the registry *)

Section Keeps.
Context `{Rx : Regex}.
Context `{SortT : StdSort (entry Z) te_timestamp}.
Implicit Type e : engine.

(** Nobody holds a reference to the ring any more. *)
Definition dead e (p : Z) : Prop := forall r, e_heap e !! p = Some r -> _refcnt r < 1.

(** An entry of the index keeps its ring, or the ring was killed. *)
Record keeps e e' : Prop := {
  kp_rings : forall kv, kv ∈ e_rings e' -> kv ∈ e_rings e;
  kp_dirty : e_dirty e = true -> e_dirty e' = true;
  kp_count : length (e_index e') = length (e_index e);
  kp_index : forall i ie, e_index e !! i = Some ie -> exists ie', e_index e' !! i = Some ie' /\
    (ix_ring ie' = ix_ring ie \/ (e_dirty e' = true /\ ix_ring ie' = None /\ forall p, ix_ring ie = Some p -> dead e' p));
  kp_refs : refs_le (e_heap e) (e_heap e') }.

Lemma refs_dead e e' p : refs_le (e_heap e) (e_heap e') -> dead e p -> dead e' p.
Proof. intros R D r' H; destruct (R p r' H) as (r & E & L); pose proof (D r E); lia. Qed.

#[export] Instance keeps_preorder : PreOrder keeps.
Proof.
  split; [intros e; split; try done; intros i ie H; exists ie; split; [done|now left]|].
  intros a b c [R1 D1 C1 I1 F1] [R2 D2 C2 I2 F2]; split; [auto|auto|congruence| |now transitivity (e_heap b)].
  intros i ie Hi; destruct (I1 i ie Hi) as (ie1 & H1 & K1); destruct (I2 i ie1 H1) as (ie2 & H2 & K2); exists ie2; split; [done|].
  destruct K1 as [K1|(K1 & N1 & G1)]; [rewrite K1 in K2; exact K2|right].
  split; [auto|]; split; [destruct K2 as [K2|(_ & K2 & _)]; congruence|]; intros p Hp; apply (refs_dead b c); auto.
Qed.

Lemma quiet_keeps e e' : quiet e e' -> keeps e e'.
Proof.
  intros [R D I F]; split; [now rewrite R|now rewrite D|apply (f_equal length) in I; now rewrite !length_map in I| |done].
  intros i ie Hi; assert (H : map ix_ring (e_index e') !! i = Some (ix_ring ie)) by (rewrite I, list_lookup_fmap, Hi; done).
  rewrite list_lookup_fmap in H; destruct (e_index e' !! i) as [ie'|]; [|done]; injection H as H; exists ie'; split; [done|now left].
Qed.

Lemma kill_orphan_keeps e l i p r ie e' : kill_orphan e l i p = Some e' -> e_heap e !! p = Some r -> orphan r = true ->
  e_index e !! i = Some ie -> ix_ring ie = Some p -> keeps e e'.
Proof.
  unfold kill_orphan; destruct l; [|intros [= <-]; reflexivity]; intros E Hr Or Hi Hp; apply Z.eqb_eq in Or.
  rewrite Hr in E; cbn [mbind option_bind] in E; rewrite Hi in E; cbn [mbind option_bind] in E; unfold release_at in E.
  cbn [e_heap with_index with_rings] in E; rewrite Hr in E; cbn [mbind option_bind] in E.
  assert (Rel : refs_le (e_heap e) (e_heap e') /\ dead e' p /\ e_rings e' = smap_erase (_name r) (e_rings e) /\ e_dirty e' = true /\
    e_index e' = <[i := mkIx None dead_iterator (ix_lastrec ie) (ix_seqnum ie)]> (e_index e)).
  { rewrite (release_new r Or) in E; destruct (immortal r); injection E as <-.
    - split; [apply (refs_le_insert _ p r); [done|cbn; lia]|]; split; [|done].
      intros q; cbn; rewrite lookup_insert_eq; intros [= <-]; cbn; lia.
    - split; [|split; [intros q; cbn; now rewrite lookup_delete_eq|done]].
      intros q rq; cbn; destruct (decide (q = p)) as [->|N]; [now rewrite lookup_delete_eq|].
      rewrite lookup_delete_ne by done; intros Hq; exists rq; split; [done|lia]. }
  destruct Rel as (Rf & Dd & Er & Ed & Ei); split; [| |now rewrite Ei, length_insert| |done].
  - intros [n q]; rewrite Er; apply smap_erase_sub.
  - done.
  - intros j je Hj; rewrite Ei; destruct (decide (j = i)) as [->|N].
    + rewrite list_lookup_insert_eq by (eapply lookup_lt_Some, Hi); eexists; split; [done|]; right; cbn.
      split; [done|]; split; [done|]; intros q Hq; assert (q = p) as -> by congruence; exact Dd.
    + rewrite list_lookup_insert_ne by done; exists je; split; [done|now left].
Qed.

Lemma check_orphan_keeps e locks i e' locks' : check_orphan e locks i = Some (e', locks') -> keeps e e'.
Proof.
  unfold check_orphan; destruct (ring_at e i) as [[p r]|] eqn:At; [|done]; cbn [mbind option_bind].
  destruct (orphan r) eqn:Or; [|intros [= <- <-]; reflexivity]; destruct (empty r); [|intros [= <- <-]; reflexivity].
  cbn [andb]; destruct (next_lock locks) as [l ls]; destruct (kill_orphan e l i p) as [e1|] eqn:E1; [|done].
  cbn [mbind option_bind]; intros [= <- <-]; destruct (ring_at_inv _ _ _ _ At) as (ie & Hi & Hp & Hr).
  now apply (kill_orphan_keeps e l i p r ie).
Qed.

Lemma ring_turn_keeps e locks i e' locks' : ring_turn_tso e locks i = Some (e', locks') -> keeps e e'.
Proof.
  unfold ring_turn_tso; destruct (index_at e i) as [ie|] eqn:Hi; [|done]; cbn [mbind option_bind].
  destruct (ix_ring ie) as [p|] eqn:Hp; [|intros [= <- <-]; reflexivity]; destruct (e_heap e !! p) as [r|]; [|done].
  cbn [mbind option_bind]; destruct (read_ring _ _ i 0) as [e1|] eqn:E1; [|done]; cbn [mbind option_bind]; intros E2.
  transitivity e1; [apply quiet_keeps|eapply check_orphan_keeps, E2].
  apply read_ring_quiet in E1; eapply transitivity; [|exact E1]; now apply (quiet_set_index e i ie).
Qed.

Lemma for_rings_keeps n : forall i e locks e' locks', for_rings ring_turn_tso n i e locks = Some (e', locks') -> keeps e e'.
Proof.
  induction n as [|n IH]; intros i e locks e' locks'; cbn [for_rings]; [intros [= <- <-]; reflexivity|].
  destruct (ring_turn_tso e locks i) as [[e1 l1]|] eqn:E1; [|done]; cbn [mbind option_bind]; intros E2.
  transitivity e1; [eapply ring_turn_keeps, E1|eapply IH, E2].
Qed.

(** The part of a pass after the rings were read. *)
Lemma pass_end_quiet e locks e' locks' :
  (e ← flush_tso e; for_rings commit_turn (length (e_index e)) 0 e locks) = Some (e', locks') -> quiet e e'.
Proof.
  destruct (flush_tso e) as [e1|] eqn:E1; [|done]; cbn [mbind option_bind]; intros E2.
  transitivity e1; [eapply flush_tso_quiet, E1|eapply commit_all_quiet, E2].
Qed.

Lemma pass_keeps e locks e' locks' : process_rings_tso e locks = Some (e', locks') -> keeps e e'.
Proof.
  unfold process_rings_tso; destruct (for_rings _ _ _ _ _) as [[e1 l1]|] eqn:E1; [|done]; cbn [mbind option_bind]; intros E2.
  transitivity e1; [eapply for_rings_keeps, E1|apply quiet_keeps; eapply pass_end_quiet, E2].
Qed.
End Keeps.

(** ** Registered rings and the index *)

Section Registered.
Context `{Rx : Regex}.
Context `{SortT : StdSort (entry Z) te_timestamp}.
Implicit Type e : engine.

(** Every registered ring has an entry. *)
Definition indexed e : Prop := forall n p, (n, p) ∈ e_rings e -> exists i ie, e_index e !! i = Some ie /\ ix_ring ie = Some p.

(** The number of records of a ring, by address. *)
Definition held_at (h : heap) (p : Z) : nat := match h !! p with Some r => length (contents r) | None => 0 end.

(** The number of records in the registered rings. *)
Definition stored e : nat := sum_list_with (fun kv => held_at (e_heap e) kv.2) (e_rings e).

Lemma sum_list_perm {T} (f : T -> nat) l l' : Permutation l l' -> sum_list_with f l = sum_list_with f l'.
Proof. induction 1; cbn; lia. Qed.

Lemma sum_list_map {T U} (f : U -> nat) (g : T -> U) l : sum_list_with f (map g l) = sum_list_with (fun x => f (g x)) l.
Proof. induction l; cbn; congruence. Qed.

Lemma sum_seq_lookup {T} (g : option T -> nat) (l : list T) :
  sum_list_with (fun i => g (l !! i)) (seq 0 (length l)) = sum_list_with (fun y => g (Some y)) l.
Proof.
  induction l as [|y l IH]; [done|]; cbn [length seq sum_list_with]; rewrite <- seq_shift, sum_list_map; f_equal; exact IH.
Qed.

Lemma omap_index_NoDup l : (forall i j ie je p, l !! i = Some ie -> l !! j = Some je -> ix_ring ie = Some p -> ix_ring je = Some p -> i = j) ->
  NoDup (omap ix_ring l).
Proof.
  induction l as [|a l IH]; intros D; [constructor|]; cbn.
  assert (N : NoDup (omap ix_ring l)) by (apply IH; intros i j ie je p Hi Hj Pi Pj; pose proof (D (S i) (S j) ie je p Hi Hj Pi Pj); lia).
  destruct (ix_ring a) as [p|] eqn:Hp; [|exact N]; apply NoDup_cons; split; [|exact N]; intros H.
  apply list_elem_of_omap in H as (ie & Hi & Hq); apply list_elem_of_lookup in Hi as [j Hj].
  pose proof (D 0%nat (S j) a ie p eq_refl Hj Hp Hq); lia.
Qed.

Lemma rings_NoDup e : registry_ok e -> NoDup (map snd (e_rings e)).
Proof.
  intros R; apply NoDup_alt; intros i j p Hi Hj; rewrite list_lookup_fmap in Hi, Hj.
  destruct (e_rings e !! i) as [[n q]|] eqn:Ei; [|done]; destruct (e_rings e !! j) as [[n' q']|] eqn:Ej; [|done].
  cbn in Hi, Hj; injection Hi as ->; injection Hj as ->; apply (NoDup_lookup (map fst (e_rings e)) i j n);
    [apply ro_keys, R|rewrite list_lookup_fmap, Ei; done|rewrite list_lookup_fmap, Ej; cbn; f_equal].
  destruct (ro_rings _ R n p ltac:(eapply list_elem_of_lookup_2, Ei)) as (r & Hr & <- & _).
  destruct (ro_rings _ R n' p ltac:(eapply list_elem_of_lookup_2, Ej)) as (r' & Hr' & <- & _); congruence.
Qed.

Lemma indexed_perm e : registry_ok e -> indexed e -> Permutation (omap ix_ring (e_index e)) (map snd (e_rings e)).
Proof.
  intros R X; apply NoDup_Permutation; [apply omap_index_NoDup, R|now apply rings_NoDup|]; intros p; split; intros H.
  - apply list_elem_of_omap in H as (ie & Hi & Hp); apply list_elem_of_lookup in Hi as [i Hi].
    destruct (ro_index _ R i ie p Hi Hp) as [n Hn]; apply list_elem_of_fmap; exists (n, p); done.
  - apply list_elem_of_fmap in H as ([n q] & -> & Hn); destruct (X n q Hn) as (i & ie & Hi & Hp).
    apply list_elem_of_omap; exists ie; split; [eapply list_elem_of_lookup_2, Hi|done].
Qed.

Lemma remaining_index e : remaining e = sum_list_with (held_at (e_heap e)) (omap ix_ring (e_index e)).
Proof.
  unfold remaining, total; rewrite (sum_ext _ (fun i => match e_index e !! i with
    | Some ie => match ix_ring ie with Some p => held_at (e_heap e) p | None => 0%nat end | None => 0%nat end)).
  - rewrite (sum_seq_lookup (fun o => match o with Some ie => _ | None => _ end)).
    induction (e_index e) as [|ie l IH]; [done|]; cbn [sum_list_with omap list_omap]; rewrite IH; now destruct (ix_ring ie).
  - intros i _; unfold size_of, ring_at, index_at, held_at; destruct (e_index e !! i) as [ie|]; [|done]; cbn [mbind option_bind].
    destruct (ix_ring ie) as [p|]; [|done]; cbn [mbind option_bind]; destruct (e_heap e !! p) as [r|]; [|done]; cbn [mbind option_bind].
    now rewrite length_contents.
Qed.

Lemma remaining_stored e : registry_ok e -> indexed e -> remaining e = stored e.
Proof.
  intros R X; rewrite remaining_index, (sum_list_perm _ _ _ (indexed_perm e R X)), sum_list_map; done.
Qed.

(** ** Records by the name of their ring *)

Definition of_name (n : string) (fl : list (string * record)) : list record := map snd (filter (fun p => p.1 = n) fl).

Lemma of_name_app n fl fl' : of_name n (fl ++ fl') = of_name n fl ++ of_name n fl'.
Proof. unfold of_name; now rewrite filter_app, map_app. Qed.

Lemma of_name_none n fl : (forall nx, nx ∈ fl -> nx.1 <> n) -> of_name n fl = [].
Proof.
  intros H; unfold of_name; induction fl as [|nx fl IH]; [done|]; rewrite filter_cons, decide_False by (apply H; constructor).
  apply IH; intros; apply H; now constructor.
Qed.

Lemma ring_at_unique e i j p q r rq : registry_ok e -> ring_at e i = Some (p, r) -> ring_at e j = Some (q, rq) ->
  _name r = _name rq -> i = j.
Proof.
  intros R Ei Ej Nm; destruct (ring_at_inv _ _ _ _ Ei) as (ie & Hi & Pi & Hr); destruct (ring_at_inv _ _ _ _ Ej) as (je & Hj & Pj & Hrq).
  destruct (ro_index _ R i ie p Hi Pi) as [n Hn]; destruct (ro_index _ R j je q Hj Pj) as [n' Hn'].
  destruct (ro_rings _ R n p Hn) as (r1 & E1 & N1 & _); destruct (ro_rings _ R n' q Hn') as (r2 & E2 & N2 & _).
  assert (n' = n) as -> by congruence; pose proof (registered_unique e n p q R Hn Hn') as ->.
  apply (ro_distinct _ R _ _ _ _ _ Hi Hj Pi Pj).
Qed.

Lemma of_name_named e i p r fl : registry_ok e -> ring_at e i = Some (p, r) ->
  (forall ix, ix ∈ fl -> is_Some (ring_at e ix.1)) -> of_name (_name r) (named e fl) = of_ring i fl.
Proof.
  intros R E D; induction fl as [|[j x] fl IH]; [done|].
  cbn [named map]; unfold of_name, of_ring; rewrite !filter_cons; cbn [fst].
  assert (IH' := IH (fun ix H => D ix ltac:(now constructor))); unfold of_name, of_ring, named in IH'.
  destruct (D (j, x) ltac:(constructor)) as [[q rq] Ej]; cbn [fst] in Ej; unfold name_of; rewrite Ej.
  destruct (decide (_name rq = _name r)) as [Nm|Nm].
  - pose proof (ring_at_unique e j i q p rq r R Ej E Nm) as ->; rewrite decide_True by done; cbn [map snd]; f_equal; exact IH'.
  - rewrite decide_False by (intros ->; congruence); exact IH'.
Qed.
End Registered.

(** ** One pass over the registered rings *)

Section Passes.
Context `{Rx : Regex}.
Context `{SortT : StdSort (entry Z) te_timestamp}.
Context `{SortI : forall key, StdSort index_entry key}.
Implicit Type e : engine.

Definition alive e : Prop := forall i ie, e_index e !! i = Some ie -> ix_ring ie <> None.

(** The time stamps of the records in its rings have room for the adjustments. *)
Definition clocked e : Prop := forall n p r, (n, p) ∈ e_rings e -> e_heap e !! p = Some r -> ring_clock r.

(** Only the engine refers to its rings: nobody posts any more. *)
Definition abandoned e : Prop :=
  forall n p r, (n, p) ∈ e_rings e -> e_heap e !! p = Some r -> _refcnt r = 1 /\ ring_clock r.

Lemma abandoned_clocked e : abandoned e -> clocked e.
Proof. intros A n p r Hn Hr; apply (A n p r Hn Hr). Qed.

(** What was sent between two states: of each registered ring the front of its
    records, in order; a ring that is gone was sent whole. *)
Record sends e e' (fl : list (string * record)) : Prop := {
  sd_outs : outs e' = outs e ++ fl;
  sd_names : forall nx, nx ∈ fl -> exists p, (nx.1, p) ∈ e_rings e;
  sd_rings : forall kv, kv ∈ e_rings e' -> kv ∈ e_rings e;
  sd_ring : forall n p r, (n, p) ∈ e_rings e -> e_heap e !! p = Some r ->
    (of_name n fl = contents r /\ (n, p) ∉ e_rings e') \/
    ((n, p) ∈ e_rings e' /\ exists r', e_heap e' !! p = Some r' /\ _refcnt r' = _refcnt r /\
       contents r = of_name n fl ++ contents r') }.

Lemma sends_same e e' : outs e' = outs e -> e_rings e' = e_rings e -> e_heap e' = e_heap e -> sends e e' [].
Proof.
  intros O R H; split; rewrite ?R, ?H; [now rewrite O, app_nil_r|intros nx Hx; now apply not_elem_of_nil in Hx|done|].
  intros n p r Hn Hr; right; split; [done|]; exists r; done.
Qed.

Lemma sends_trans e1 e2 e3 f1 f2 : registry_ok e1 -> sends e1 e2 f1 -> sends e2 e3 f2 -> sends e1 e3 (f1 ++ f2).
Proof.
  intros R [O1 N1 R1 S1] [O2 N2 R2 S2]; split.
  - now rewrite O2, O1, app_assoc.
  - intros nx H; apply elem_of_app in H as [H|H]; [auto|]; destruct (N2 nx H) as [p Hp]; exists p; auto.
  - auto.
  - intros n p r Hn Hr; rewrite of_name_app; destruct (S1 n p r Hn Hr) as [[C D]|(Hn2 & r2 & Hr2 & F2 & C)].
    + left; rewrite C; split; [|auto]; rewrite (of_name_none n f2), app_nil_r; [done|]; intros nx Hx <-.
      destruct (N2 nx Hx) as [q Hq]; apply D; pose proof (registered_unique e1 nx.1 p q R Hn (R1 _ Hq)) as <-; exact Hq.
    + destruct (S2 n p r2 Hn2 Hr2) as [[C2 D2]|(Hn3 & r3 & Hr3 & F3 & C3)]; [left; split; [congruence|done]|right].
      split; [done|]; exists r3; split; [done|]; split; [congruence|]; rewrite C, C3; apply app_assoc.
Qed.

Lemma clocked_sends e e' fl : clocked e -> registry_ok e -> sends e e' fl -> clocked e'.
Proof.
  intros A R [_ _ Rs S] n p r' Hn Hr'; destruct (ro_rings _ R n p (Rs _ Hn)) as (r & Hr & _).
  pose proof (A n p r (Rs _ Hn) Hr) as A2; destruct (S n p r (Rs _ Hn) Hr) as [[_ D]|(_ & r2 & Hr2 & _ & C)]; [done|].
  assert (r2 = r') as -> by congruence; unfold ring_clock in *; rewrite C in A2; now apply Forall_app in A2.
Qed.

Lemma abandoned_sends e e' fl : abandoned e -> registry_ok e -> sends e e' fl -> abandoned e'.
Proof.
  intros A R Sd n p r' Hn Hr'; split; [|exact (clocked_sends e e' fl (abandoned_clocked e A) R Sd n p r' Hn Hr')].
  destruct Sd as [_ _ Rs S]; destruct (ro_rings _ R n p (Rs _ Hn)) as (r & Hr & _).
  destruct (A n p r (Rs _ Hn) Hr) as [A1 _]; destruct (S n p r (Rs _ Hn) Hr) as [[_ D]|(_ & r2 & Hr2 & F & _)]; [done|congruence].
Qed.

Lemma clocks_of e : registry_ok e -> clocked e -> clocks_ok e.
Proof.
  intros R A i p r E; destruct (ring_at_inv _ _ _ _ E) as (ie & Hi & Hp & Hr); destruct (ro_index _ R i ie p Hi Hp) as [n Hn].
  apply (A n p r Hn Hr).
Qed.

Lemma registered_alive e n p : registry_ok e -> (n, p) ∈ e_rings e -> ~ dead e p.
Proof. intros R Hn D; destruct (ro_rings _ R n p Hn) as (r & Hr & _ & [_ _ F]); pose proof (D r Hr); lia. Qed.

Lemma pass_indexed e e' : registry_ok e' -> keeps e e' -> indexed e -> indexed e'.
Proof.
  intros R' Kp X n p Hn; destruct (X n p (kp_rings _ _ Kp _ Hn)) as (i & ie & Hi & Hp).
  destruct (kp_index _ _ Kp i ie Hi) as (ie' & Hi' & [E|(_ & _ & D)]); [exists i, ie'; split; congruence|].
  exfalso; exact (registered_alive e' n p R' Hn (D p Hp)).
Qed.

Lemma pass_alive e e' : keeps e e' -> alive e -> e_dirty e' = true \/ alive e'.
Proof.
  intros Kp A; destruct (e_dirty e') eqn:D; [now left|right]; intros i ie' Hi'.
  destruct (lookup_lt_is_Some_2 (e_index e) i) as [ie Hi]; [rewrite <- (kp_count _ _ Kp); eapply lookup_lt_Some, Hi'|].
  destruct (kp_index _ _ Kp i ie Hi) as (ie2 & Hi2 & [E|(E & _)]); [|congruence].
  assert (ie2 = ie') as -> by congruence; rewrite E; eapply A, Hi.
Qed.

(** The records of a ring with an entry in the index. *)
Lemma pass_sends_known K fe e e' n p r : pass_result K fe e e' -> keeps e e' -> registry_ok e ->
  (forall ix, ix ∈ sent (ring_at e) fe -> is_Some (ring_at e ix.1)) ->
  known e p -> (n, p) ∈ e_rings e -> e_heap e !! p = Some r -> let fl := named e (sent (ring_at e) fe) in
  (of_name n fl = contents r /\ (n, p) ∉ e_rings e') \/
  ((n, p) ∈ e_rings e' /\ exists r', e_heap e' !! p = Some r' /\ _refcnt r' = _refcnt r /\
     contents r = of_name n fl ++ contents r').
Proof.
  intros Pr Kp R D (i & ie & Hi & Hp) Hn Hr fl; pose proof (id_reg _ (pr_idle _ _ _ _ Pr)) as R'.
  destruct (ro_rings _ R n p Hn) as (r2 & Hr2 & Nm & _); assert (r2 = r) as -> by congruence.
  assert (At : ring_at e i = Some (p, r)) by (unfold ring_at, index_at; rewrite Hi; cbn; rewrite Hp; cbn; now rewrite Hr).
  pose proof (of_name_named e i p r _ R At D) as On; rewrite Nm in On; unfold fl; rewrite On; clear On.
  destruct (pr_ring _ _ _ _ Pr i p r At) as (-> & L & H); case_decide as Dk.
  - destruct H as [C N]; left; rewrite C, take_nil; split; [done|]; intros Hn'.
    destruct (kp_index _ _ Kp i ie Hi) as (ie' & Hi' & [E|(_ & _ & Dd)]); [|exact (registered_alive e' n p R' Hn' (Dd p Hp))].
    rewrite (ring_at_none e' i ie' R' Hi' N) in E; congruence.
  - destruct H as (r' & At' & Dr & _); right; destruct (ring_at_inv _ _ _ _ At') as (ie' & Hi' & Hp' & Hr').
    destruct (ro_index _ R' i ie' p Hi' Hp') as [n' Hn']; destruct (ro_rings _ R n' p (kp_rings _ _ Kp _ Hn')) as (r3 & Hr3 & Nm' & _).
    assert (n' = n) as -> by congruence; split; [done|]; exists r'; split; [done|]; split; [apply Dr|].
    rewrite (dr_contents _ _ _ Dr); symmetry; apply take_drop.
Qed.

Lemma named_registered e fl nx : registry_ok e -> (forall ix, ix ∈ fl -> is_Some (ring_at e ix.1)) -> nx ∈ named e fl ->
  exists p, (nx.1, p) ∈ e_rings e /\ known e p.
Proof.
  intros R D H; apply list_elem_of_fmap in H as ([i x] & -> & H); destruct (D (i, x) H) as [[p r] E]; cbn [fst] in *.
  unfold name_of; rewrite E; destruct (ring_at_inv _ _ _ _ E) as (ie & Hi & Hp & Hr).
  destruct (ro_index _ R i ie p Hi Hp) as [n Hn]; destruct (ro_rings _ R n p Hn) as (r2 & Hr2 & <- & _).
  assert (r2 = r) as -> by congruence; exists p; split; [done|now exists i, ie].
Qed.

(** A pass sends from the rings of the index; whether the index is up to date
    does not matter. *)
Lemma pass_sends K fe e e' : pass_result K fe e e' -> keeps e e' -> apart e e' -> idle e ->
  sends e e' (named e (sent (ring_at e) fe)).
Proof.
  intros Pr Kp Ap I; pose proof (id_reg _ I) as R.
  assert (D : forall ix, ix ∈ sent (ring_at e) fe -> is_Some (ring_at e ix.1)).
  { intros [i x] H; unfold sent in H; apply list_elem_of_omap in H as (te & Hte & H).
    destruct (rec_of _ te) in H; [|done]; injection H as <- _; apply (pr_fe _ _ _ _ Pr te Hte). }
  split; [apply Pr| |apply Kp|].
  - intros nx H; destruct (named_registered e _ nx R D H) as (p & Hp & _); now exists p.
  - intros n p r Hn Hr; destruct (known_or_not e p) as [Kn|Kn]; [now apply (pass_sends_known K fe)|right].
    destruct (ap_heap _ _ Ap p r Hr Kn) as (r' & Hr' & (C & Hh & Ht & _ & _ & Rc) & Rf); split.
    + destruct (ap_rings _ _ Ap _ Hn) as [?|(q & rq & Kq & Hq & Nq)]; [done|exfalso; cbn in Nq].
      destruct Kq as (i & ie & Hi & Pq); destruct (ro_index _ R i ie q Hi Pq) as [m Hm].
      destruct (ro_rings _ R m q Hm) as (r2 & Hr2 & Nm & _); assert (m = n) as -> by congruence.
      pose proof (registered_unique e n p q R Hn Hm) as ->; apply Kn; now exists i, ie.
    + exists r'; split; [done|]; split; [done|]; rewrite of_name_none.
      * cbn; destruct C as (_ & _ & _ & _ & _ & C & _); unfold contents, slots, size, capacity; now rewrite Hh, Ht, Rc, C.
      * intros nx Hx <-; destruct (named_registered e _ nx R D Hx) as (q & Hq & Kq).
        pose proof (registered_unique e nx.1 p q R Hn Hq) as ->; exact (Kn Kq).
Qed.

(** *** Empty rings nobody refers to are killed *)

(** Before the turn of ring [c]. *)
Record killing (c : nat) e : Prop := {
  kl_reg : registry_ok e;
  kl_rings : forall i ie, e_index e !! i = Some ie -> (c <= i)%nat -> exists p r,
    ix_ring ie = Some p /\ e_heap e !! p = Some r /\ contents r = [] /\ _refcnt r = 1;
  kl_cover : forall n p, (n, p) ∈ e_rings e -> exists i ie, (c <= i)%nat /\ e_index e !! i = Some ie /\ ix_ring ie = Some p }.

Lemma empty_contents (r : ring) : ring_wf r -> contents r = [] -> empty r = true /\ it_next r (it_reset r) = None.
Proof.
  intros W C; destruct (ring_wf_facts r W) as (n & _ & F); apply (f_equal length) in C; rewrite length_contents in C; cbn in C.
  pose proof (size_range _ _ F); assert (Z0 : size r = 0) by lia; split.
  - unfold empty; rewrite (next_head_eq r n F); apply Z.eqb_eq, (empty_iff r n F), Z0.
  - rewrite (it_reset_at r W), (it_next_at r 0 W) by lia; rewrite lookup_ge_None_2; [done|rewrite length_slot_list; lia].
Qed.

Lemma kill_turn c e locks : killing c e -> (c < length (e_index e))%nat ->
  exists e', ring_turn_tso e (true :: locks) c = Some (e', locks) /\ killing (S c) e' /\ length (e_index e') = length (e_index e).
Proof.
  intros [R Rg Cv] Hc; destruct (lookup_lt_is_Some_2 _ _ Hc) as [ie Hi]; destruct (Rg c ie Hi ltac:(lia)) as (p & r & Hp & Hr & Ct & Rf).
  destruct (ring_at_ok e c ie p R Hi Hp) as (r' & _ & Hr' & Ok); assert (r' = r) as -> by congruence.
  destruct (empty_contents r (rk_wf _ Ok) Ct) as [Em Nx].
  unfold ring_turn_tso, index_at; rewrite Hi; cbn [mbind option_bind]; rewrite Hp, Hr; cbn [mbind option_bind].
  set (ie1 := mkIx (Some p) (it_reset r) (ix_lastrec ie) (ix_seqnum ie)); set (e1 := set_index e c ie1).
  assert (R1 : registry_ok e1) by (apply (registry_ok_set_index e c ie); [done|done|cbn; congruence]).
  assert (Hi1 : e_index e1 !! c = Some ie1) by (cbn; now apply list_lookup_insert_eq).
  assert (At : ring_at e1 c = Some (p, r)) by (unfold ring_at, index_at; rewrite Hi1; cbn; now rewrite Hr).
  assert (E2 : read_ring (S (Z.to_nat (capacity r))) e1 c 0 = Some e1).
  { cbn [read_ring]; rewrite At; cbn [mbind option_bind]; unfold index_at; rewrite Hi1; cbn [mbind option_bind ix_pit ie1]; now rewrite Nx. }
  rewrite E2; cbn [mbind option_bind]; unfold check_orphan; rewrite At; cbn [mbind option_bind].
  assert (Or : orphan r = true) by (unfold orphan; rewrite Rf; done); rewrite Or, Em; cbn [andb next_lock].
  destruct (kill_orphan_ok e1 c ie1 p r R1 Hi1 eq_refl Hr Or) as (e' & -> & R' & I' & M' & _ & _ & _ & _ & _ & _ & _ & _ & _ & Hq').
  cbn [mbind option_bind]; exists e'; split; [done|]; split; [|rewrite I'; cbn; now rewrite !length_insert].
  split; [done| |].
  - intros i je Hj Lc; rewrite I' in Hj; cbn in Hj; rewrite list_lookup_insert_ne, list_lookup_insert_ne in Hj by lia.
    destruct (Rg i je Hj ltac:(lia)) as (q & rq & Pq & Hq & Cq & Fq); exists q, rq; split; [done|]; split; [|done].
    rewrite Hq'; [done|]; intros ->; pose proof (ro_distinct _ R _ _ _ _ _ Hj Hi Pq Hp); lia.
  - intros n q Hn; rewrite M' in Hn; apply (smap_erase_elem _ _ _ _ (ro_keys _ R1)) in Hn as [Hn Ne]; destruct (Cv n q Hn) as (i & je & Lc & Hj & Pj).
    assert (Ni : i <> c).
    { intros ->; assert (q = p) as -> by congruence; destruct (ro_rings _ R n p Hn) as (r2 & Hr2 & <- & _); congruence. }
    exists i, je; split; [lia|]; split; [|done]; rewrite I'; cbn; now rewrite !list_lookup_insert_ne by done.
Qed.

Lemma kill_all n : forall c e locks, killing c e -> (c + n = length (e_index e))%nat -> (n <= length locks)%nat ->
  Forall (eq true) locks -> exists e' locks', for_rings ring_turn_tso n c e locks = Some (e', locks') /\ e_rings e' = [].
Proof.
  induction n as [|n IH]; intros c e locks Kl Hc Hl Tr; cbn [for_rings].
  - exists e, locks; split; [done|]; destruct (e_rings e) as [|[m p] l] eqn:E; [done|exfalso].
    destruct (kl_cover _ _ Kl m p) as (i & ie & Lc & Hi & _); [rewrite E; constructor|]; apply lookup_lt_Some in Hi; lia.
  - destruct locks as [|l locks]; [cbn in Hl; lia|]; apply Forall_cons in Tr as [<- Tr].
    destruct (kill_turn c e locks Kl ltac:(lia)) as (e1 & E1 & Kl1 & L1); rewrite E1; cbn [mbind option_bind].
    apply (IH (S c)); [done|lia|cbn in Hl; lia|done].
Qed.

Lemma empty_pass e locks e' locks' : registry_ok e -> indexed e -> alive e -> abandoned e -> stored e = 0%nat ->
  (length (e_index e) <= length locks)%nat -> Forall (eq true) locks -> process_rings_tso e locks = Some (e', locks') -> e_rings e' = [].
Proof.
  intros R X Al A S0 Hl Tr; assert (Empty : forall n p r, (n, p) ∈ e_rings e -> e_heap e !! p = Some r -> contents r = []).
  { intros n p r Hn Hr; unfold stored in S0; apply nil_length_inv; revert S0 Hn; induction (e_rings e) as [|[m q] l IH]; cbn; [set_solver|].
    intros S0 H; apply elem_of_cons in H as [[= -> ->]|H]; [unfold held_at in S0; rewrite Hr in S0; lia|apply IH; [lia|done]]. }
  assert (Kl : killing 0 e).
  { split; [done| |intros n p Hn; destruct (X n p Hn) as (i & ie & Hi & Hp); exists i, ie; split; [lia|done]].
    intros i ie Hi _; destruct (ix_ring ie) as [p|] eqn:Hp; [|exfalso; exact (Al i ie Hi Hp)].
    destruct (ro_index _ R i ie p Hi Hp) as [n Hn]; destruct (ro_rings _ R n p Hn) as (r & Hr & _); exists p, r.
    split; [done|]; split; [done|]; split; [now apply (Empty n p)|apply (A n p r Hn Hr)]. }
  destruct (kill_all (length (e_index e)) 0 e locks Kl eq_refl Hl Tr) as (e1 & l1 & E1 & N1); unfold process_rings_tso.
  rewrite E1; cbn [mbind option_bind]; intros E2; apply pass_end_quiet in E2; rewrite (qt_rings _ _ E2); exact N1.
Qed.

(** *** A pass at the end of the engine's life *)

Record closing e : Prop := {
  cl_idle : idle e;
  cl_tso : Z.land (opt_features (e_opts e)) DISABLE_TSO = 0;
  cl_rings : abandoned e;
  cl_cover : e_dirty e = true \/ (indexed e /\ alive e) }.

(** Nobody else takes the engine's mutexes, for at least [n] attempts. *)
Definition free (n : nat) (locks : list bool) : Prop := Forall (eq true) locks /\ (n <= length locks)%nat.

(** The engine with an index that is up to date. *)
Record fresh e e1 : Prop := {
  fs_idle : idle e1; fs_indexed : indexed e1; fs_alive : alive e1; fs_dirty : e_dirty e1 = false;
  fs_rings : e_rings e1 = e_rings e; fs_heap : e_heap e1 = e_heap e; fs_outs : outs e1 = outs e;
  fs_left : e_leftover e1 = e_leftover e; fs_tso : e_tso e1 = e_tso e; fs_opts : e_opts e1 = e_opts e }.

Definition refresh e (locks : list bool) : option (engine * list bool) :=
  if e_dirty e then
    let '(l, locks) := next_lock locks in
    if (l : bool) then e ← rebuild_ring_index e; Some (e, locks) else Some (e, locks)
  else Some (e, locks).

Lemma rebuild_fresh e : idle e -> exists e1, rebuild_ring_index e = Some e1 /\ fresh e e1.
Proof.
  intros I; destruct (rebuild_ok e (id_reg _ I)) as (e1 & E1 & R1 & D1 & Rg & Hp & Ar & Mk & Ts & Lo & Op & Tc & _ & X & Sp).
  exists e1; split; [exact E1|]; destruct I as [I1 I2 I3 I4 I5 I6 I7 I8]; split; try done.
  - split; rewrite ?Ts, ?Lo; try done; [unfold internal_ok, internal_area; now rewrite Ar|].
    intros i ie Hi; destruct (Sp i ie Hi) as (m & p & r & _ & _ & ->); done.
  - intros m p Hn; rewrite Rg in Hn; destruct (X m p Hn) as (i & ie & Hi & Pi); exists i, ie; done.
  - intros i ie Hi; destruct (Sp i ie Hi) as (m & p & r & _ & _ & ->); done.
  - unfold outs; now rewrite Tc.
Qed.

Lemma refresh_ok e locks n : closing e -> free (S n) locks ->
  exists e1 locks1, refresh e locks = Some (e1, locks1) /\ fresh e e1 /\ free n locks1.
Proof.
  intros [I _ _ Cv] [Tr Ln]; unfold refresh; destruct (e_dirty e) eqn:D.
  - destruct locks as [|l locks]; [cbn in Ln; lia|]; apply Forall_cons in Tr as [<- Tr]; cbn [next_lock].
    destruct (rebuild_fresh e I) as (e1 & E1 & F); rewrite E1; cbn [mbind option_bind]; exists e1, locks.
    split; [done|]; split; [exact F|split; [done|cbn in Ln; lia]].
  - destruct Cv as [Cv|[X Al]]; [done|]; exists e, locks; split; [done|]; split; [|split; [done|lia]].
    split; done.
Qed.

Lemma fresh_count e e1 : fresh e e1 -> length (e_index e1) = length (e_rings e).
Proof.
  intros F; pose proof (indexed_perm e1 (id_reg _ (fs_idle _ _ F)) (fs_indexed _ _ F)) as P; apply Permutation_length in P.
  rewrite length_map, (fs_rings _ _ F) in P; rewrite <- P; pose proof (fs_alive _ _ F) as A; revert A; unfold alive; clear.
  induction (e_index e1) as [|ie l IH]; intros A; [done|]; cbn [length omap list_omap].
  destruct (ix_ring ie) eqn:E; [|exfalso; exact (A 0%nat ie eq_refl E)]; cbn [length]; f_equal.
  apply IH; intros i je Hi; exact (A (S i) je Hi).
Qed.

(** States that differ in statistics and events only. *)
Lemma idle_same e e' : e_heap e' = e_heap e -> e_rings e' = e_rings e -> e_index e' = e_index e -> e_areas e' = e_areas e ->
  e_tso e' = e_tso e -> e_leftover e' = e_leftover e -> idle e -> idle e'.
Proof.
  intros H R X A T L [[K1 K2 K3 K4] I2 I3 I4 I5 I6 I7 I8]; split; rewrite ?T, ?L, ?X; try done.
  - split; rewrite ?R, ?H, ?X; done.
  - unfold internal_ok, internal_area; now rewrite A.
Qed.

(** What a pass does for an engine that is closing: [fl] was sent. *)
Record closing_pass e e' (fl : list (string * record)) : Prop := {
  cp_closing : closing e';
  cp_sends : sends e e' fl;
  cp_cap : tb_capacity (e_tso e') = tb_capacity (e_tso e);
  cp_left : e_leftover e' = Z.of_nat (stored e') /\ Z.of_nat (stored e') < tb_capacity (e_tso e');
  cp_second : Z.of_nat (stored e) < tb_capacity (e_tso e) -> e_leftover e = Z.of_nat (stored e) -> stored e' = 0%nat;
  cp_third : stored e = 0%nat -> e_rings e' = [];
  cp_fourth : e_rings e = [] -> e_dirty e' = false /\ e_index e' = [] }.

Lemma tso_pass_flushes K fe e e' : pass_result K fe e e' ->
  (Z.of_nat (remaining e) < tb_capacity (e_tso e) ->
      u64 (tso_full_cnt (e_stats e')) = u64 (tso_full_cnt (e_stats e)) /\
      exists all, Permutation all (all_entries e) /\
        StronglySorted (fun a b => te_timestamp a <= te_timestamp b) all /\
        fe = take (Z.to_nat (flush_target e)) all) ->
  Z.of_nat (remaining e) < tb_capacity (e_tso e) -> e_leftover e = Z.of_nat (remaining e) -> remaining e' = 0%nat.
Proof.
  intros Pr Q Room Lo; destruct (Q Room) as (_ & all & Pm & _ & ->); pose proof (sent_remaining _ _ _ _ Pr) as S.
  rewrite length_take, (Permutation_length Pm), length_all_entries in S; unfold flush_target in S; lia.
Qed.

Lemma closing_pass_ok e locks : closing e -> free (S (length (e_rings e))) locks ->
  exists e' fl, process_rings e locks = Some e' /\ closing_pass e e' fl.
Proof.
  intros Cl Fr; set (e0 := with_stats e (bump_loops (e_stats e))).
  assert (Cl0 : closing e0) by (destruct Cl; split; [now apply (idle_same e)|done..]).
  destruct (refresh_ok e0 locks (length (e_rings e)) Cl0 Fr) as (e1 & l1 & E1 & F & [Tr Ln]); pose proof (fresh_count _ _ F) as Fc.
  destruct F as [I X Al D Rg Hp Ou Lo Ts Op]; cbn in Rg, Hp, Ou, Lo, Ts, Op, Fc.
  assert (A : abandoned e1) by (intros n p r; rewrite Rg, Hp; apply (cl_rings _ Cl)).
  pose proof (id_reg _ I) as R; pose proof (clocks_of e1 R (abandoned_clocked e1 A)) as C.
  destruct (tso_pass e1 l1 I C) as (e2 & l2 & K & fe & E2 & Pr & L2 & B2 & Q2); pose proof (pass_keeps _ _ _ _ E2) as Kp.
  pose proof (pr_idle _ _ _ _ Pr) as I2; pose proof (pass_indexed _ _ (id_reg _ I2) Kp X) as X2.
  pose proof (pass_sends K fe e1 e2 Pr Kp (rel_pass apart _ _ _ _ E2) I) as Sd; set (fl := named e1 _) in Sd.
  assert (Sd' : sends e (emit e2 EvFlush) fl).
  { destruct Sd as [S1 S2 S3 S4]; split; rewrite <- ?Rg, <- ?Hp; try done.
    rewrite outs_emit, S1, Ou; cbn; apply app_nil_r. }
  assert (St : remaining e1 = stored e) by (rewrite (remaining_stored e1 R X); unfold stored; now rewrite Rg, Hp).
  assert (St2 : remaining e2 = stored (emit e2 EvFlush)) by (rewrite (remaining_stored e2 (id_reg _ I2) X2); done).
  assert (Cap : tb_capacity (e_tso e2) = tb_capacity (e_tso e1)) by apply (pf_cap _ _ (pr_frame _ _ _ _ Pr)).
  exists (emit e2 EvFlush), fl; split.
  - unfold process_rings; fold e0; unfold refresh in E1; rewrite E1; cbn [mbind option_bind].
    rewrite Op, (cl_tso _ Cl); change (0 =? 0) with true; cbn iota; now rewrite E2.
  - split; [|exact Sd'|cbn; now rewrite Cap, Ts| | | |].
    + split; [now apply (idle_same e2)|cbn; rewrite (pf_opts _ _ (pr_frame _ _ _ _ Pr)), Op; apply Cl| |].
      * exact (abandoned_sends e (emit e2 EvFlush) fl (cl_rings _ Cl) (id_reg _ (cl_idle _ Cl)) Sd').
      * destruct (pass_alive e1 e2 Kp Al) as [?|?]; [now left|right; done].
    + cbn [e_leftover e_tso emit]; rewrite <- St2, L2, Cap; done.
    + intros Room Le; rewrite <- St2; apply (tso_pass_flushes K fe e1 e2 Pr Q2); rewrite St, ?Ts, ?Lo; done.
    + intros S0; apply (empty_pass e1 l1 e2 l2 R X Al A); [unfold stored; now rewrite Rg, Hp|rewrite Fc; exact Ln|done|exact E2].
    + intros N; rewrite N in Fc; cbn in Fc; assert (Ei : e_index e1 = []) by (destruct (e_index e1); done).
      unfold process_rings_tso in E2; rewrite Ei in E2; cbn [length for_rings mbind option_bind] in E2.
      apply pass_end_quiet in E2; cbn; rewrite (qt_dirty _ _ E2); split; [done|].
      pose proof (qt_index _ _ E2) as Qi; rewrite Ei in Qi; destruct (e_index e2); done.
Qed.

(** *** Until no ring is left *)

(** How many passes before the last one are still needed. *)
Definition phase (k : nat) e : Prop :=
  match k with
  | O => e_rings e = []
  | S O => stored e = 0%nat
  | S (S O) => e_leftover e = Z.of_nat (stored e) /\ Z.of_nat (stored e) < tb_capacity (e_tso e)
  | _ => True
  end.

Lemma phase_next k e e' fl : closing_pass e e' fl -> phase (S k) e -> phase k e'.
Proof.
  intros Cp; destruct k as [|[|[|k]]]; cbn [phase]; [apply Cp| |intros _; apply Cp|done].
  intros [L R]; now apply (cp_second _ _ _ Cp).
Qed.

Lemma rings_shrink e e' fl : registry_ok e' -> sends e e' fl -> (length (e_rings e') <= length (e_rings e))%nat.
Proof.
  intros R' Sd; apply submseteq_length, NoDup_submseteq; [|apply Sd].
  apply (NoDup_fmap_1 fst), ro_keys, R'.
Qed.

Lemma free_le n m locks : (n <= m)%nat -> free m locks -> free n locks.
Proof. intros H [T L]; split; [done|lia]. Qed.

Lemma drained_stop e : closing e -> negb (e_dirty e) && Nat.eqb (length (e_index e)) 0 = true -> e_rings e = [] /\ e_index e = [].
Proof.
  intros [_ _ _ Cv] H; apply andb_true_iff in H as [D L]; apply Nat.eqb_eq, nil_length_inv in L; split; [|done].
  destruct Cv as [Cv|[X _]]; [rewrite Cv in D; done|]; destruct (e_rings e) as [|[n p] l] eqn:E; [done|exfalso].
  destruct (X n p) as (i & ie & Hi & _); [rewrite E; constructor|]; now rewrite L in Hi.
Qed.

Lemma drain_phase (locks : nat -> list bool) k : forall e fuel, closing e -> phase k e -> (k < fuel)%nat ->
  (forall j, free (S (length (e_rings e))) (locks j)) ->
  exists e' fl, drain_rings fuel e locks = Some e' /\ e_rings e' = [] /\ e_index e' = [] /\ sends e e' fl.
Proof.
  induction k as [|k IH]; intros e [|fuel] Cl Ph Lt Fr; try lia; cbn [drain_rings];
    destruct (closing_pass_ok e (locks fuel) Cl (Fr fuel)) as (e1 & f1 & E1 & Cp); rewrite E1; cbn [mbind option_bind].
  - destruct (cp_fourth _ _ _ Cp Ph) as [D X]; rewrite D, X; cbn [negb andb length Nat.eqb]; exists e1, f1.
    split; [done|]; split; [|split; [done|apply Cp]]; apply (drained_stop e1 (cp_closing _ _ _ Cp)); now rewrite D, X.
  - destruct (negb (e_dirty e1) && _) eqn:St.
    + destruct (drained_stop e1 (cp_closing _ _ _ Cp) St) as [N X]; exists e1, f1; do 3 (split; [done|]); apply Cp.
    + pose proof (id_reg _ (cl_idle _ (cp_closing _ _ _ Cp))) as R1; pose proof (rings_shrink e e1 f1 R1 (cp_sends _ _ _ Cp)) as Ls.
      destruct (IH e1 fuel (cp_closing _ _ _ Cp) (phase_next k e e1 f1 Cp Ph)) as (e2 & f2 & E2 & N2 & X2 & S2); [lia| |].
      { intros j; apply (free_le (S (length (e_rings e1))) (S (length (e_rings e)))); [lia|apply Fr]. }
      exists e2, (f1 ++ f2); do 3 (split; [done|]).
      apply (sends_trans e e1 e2); [apply Cl|apply Cp|exact S2].
Qed.

(** C22: Nothing posted is lost when the engine ends: once its rings have no
    other owner and no thread holds its mutexes, draining with ordering on ends
    after at most four passes, whatever the rings hold with timestamps below 2^64 - 2^31, with an
    ordering buffer of any size from two entries on, and whether or not the index
    was up to date; every record of every ring was sent, each ring's in its
    order and nothing else, and no ring is left registered. *)
Theorem drain_complete e (locks : nat -> list bool) fuel : closing e -> (4 <= fuel)%nat ->
  (forall j, free (S (length (e_rings e))) (locks j)) ->
  exists e' fl, drain_rings fuel e locks = Some e' /\ e_rings e' = [] /\ e_index e' = [] /\ outs e' = outs e ++ fl /\
    (forall nx, nx ∈ fl -> exists p, (nx.1, p) ∈ e_rings e) /\
    forall n p r, (n, p) ∈ e_rings e -> e_heap e !! p = Some r -> of_name n fl = contents r.
Proof.
  intros Cl Lt Fr; destruct (drain_phase locks 3 e fuel Cl I ltac:(lia) Fr) as (e' & fl & E & N & X & [S1 S2 S3 S4]).
  exists e', fl; do 5 (split; [done|]); intros n p r Hn Hr; destruct (S4 n p r Hn Hr) as [[C _]|[Hn' _]]; [done|].
  rewrite N in Hn'; set_solver.
Qed.
End Passes.

(** ** A full engine that ends *)

Definition sample_closing : engine :=
  sample_engine 8 0 (sample_ring "a" 3 1 [sample_record 10 0; sample_record 30 1; sample_record 40 2])
    (sample_ring "b" 1 1 [sample_record 20 0]).

Lemma sample_closing_ok : closing sample_closing.
Proof.
  assert (R : registry_ok sample_closing) by (apply registry_check_ok; vm_compute; reflexivity).
  split; [|reflexivity| |right].
  - split; [exact R|apply sample8_internal|apply tso_resize_ok; lia|done|done|cbn; lia|cbn; lia|].
    intros [|[|i]] ie; [intros [= <-]; done|intros [= <-]; done|done].
  - intros n p r H Hr; apply list_elem_of_In in H as [[= <- <-]|[[= <- <-]|[]]]; vm_compute in Hr; injection Hr as <-;
      (split; [reflexivity|unfold ring_clock, clock_room; repeat constructor; vm_compute; congruence]).
  - split; [|intros [|[|i]] ie; [intros [= <-]; done|intros [= <-]; done|done]].
    intros n p H; apply list_elem_of_In in H as [[= <- <-]|[[= <- <-]|[]]]; [exists 0%nat|exists 1%nat]; eexists; split; reflexivity.
Qed.

Lemma drain_complete_witness :
  exists e' fl, drain_rings 4 sample_closing (fun _ => [true; true; true]) = Some e' /\ e_rings e' = [] /\
    outs e' = fl /\ of_name "a" fl = [sample_record 10 0; sample_record 30 1; sample_record 40 2].
Proof.
  destruct (drain_complete sample_closing (fun _ => [true; true; true]) 4 sample_closing_ok ltac:(lia)) as (e' & fl & E & N & _ & O & _ & S).
  - intros j; split; [repeat constructor|cbn; lia].
  - exists e', fl; split; [exact E|]; split; [exact N|]; split; [exact O|].
    rewrite (S "a"%string 1 (sample_ring "a" 3 1 [sample_record 10 0; sample_record 30 1; sample_record 40 2])).
    + vm_compute; reflexivity.
    + apply list_elem_of_In; left; reflexivity.
    + vm_compute; reflexivity.
Defined.
