(* ===== verification/EngineNotso.v ===== *)
(** * A pass without timestamp ordering

    Rings are drained one after the other, in the order of the index: the
    lemmas about [drain_ring] and [ring_turn_notso], and the theorem about
    [process_rings_notso]. *)

From S2P Require Import Prelude Args Record Ring Area Timestamp Tso Post Registry Engine.
From S2P Require Import EngineFacts Sample EngineTso EnginePass.

Section Notso.
Context `{Rx : Regex}.
Implicit Type e : engine.

(** Another ring of the engine: only its time source may have changed. *)
Abbreviation untouched := (ring_rel (fun _ => False)).

Lemma untouched_contents r r' : ring_wf r -> untouched r r' -> contents r' = contents r.
Proof.
  intros W Rel; apply (contents_behind 0 r r' W), (ring_rel_weaken (fun _ => False)); [done|exact Rel].
Qed.

(** Which steps a turn may take on the rest of the engine. *)
Record turn_frame e e' : Prop := {
  tf_areas : e_areas e' = e_areas e; tf_mask : e_mask e' = e_mask e; tf_opts : e_opts e' = e_opts e;
  tf_tso : e_tso e' = e_tso e; tf_leftover : e_leftover e' = e_leftover e;
  tf_count : length (e_index e') = length (e_index e);
  tf_dropped : recs_dropped (e_stats e') = recs_dropped (e_stats e) }.

#[export] Instance turn_frame_preorder : PreOrder turn_frame.
Proof. split; [split; done|]; intros a b c [] []; split; congruence. Qed.

Definition set_pit e (i : nat) (it : pop_iterator) : engine :=
  match e_index e !! i with
  | Some ie => set_index e i (mkIx (ix_ring ie) it (ix_lastrec ie) (ix_seqnum ie))
  | None => e
  end.

Lemma set_pit_ok e i ie it : registry_ok e -> e_index e !! i = Some ie ->
  registry_ok (set_pit e i it) /\ turn_frame e (set_pit e i it) /\
  e_index (set_pit e i it) !! i = Some (mkIx (ix_ring ie) it (ix_lastrec ie) (ix_seqnum ie)) /\
  e_heap (set_pit e i it) = e_heap e /\
  forall j, ring_at (set_pit e i it) j = ring_at e j.
Proof.
  intros R Hi; unfold set_pit; rewrite Hi; split; [now apply (registry_ok_set_index e i ie)|].
  split; [split; try done; cbn; now rewrite length_insert|].
  pose proof (lookup_lt_Some _ _ _ Hi); split; [cbn; now apply list_lookup_insert_eq|]; split; [done|].
  intros j; unfold ring_at, index_at; cbn; destruct (decide (j = i)) as [->|N].
  - rewrite list_lookup_insert_eq, Hi by done; done.
  - rewrite list_lookup_insert_ne by done; done.
Qed.

(** The loop over one ring: the records from position [k] on are sent. *)
Lemma drain_ring_ok i p r fuel : forall k e ie r',
  registry_ok e -> e_index e !! i = Some ie -> ix_ring ie = Some p -> ix_pit ie = it_at r k ->
  e_heap e !! p = Some r' -> ring_ok r -> ring_rel (fun s => s ∈ take k (slot_list r)) r r' ->
  (k <= Z.to_nat (size r))%nat -> (Z.to_nat (size r) - k < fuel)%nat ->
  exists e' ie' r'', drain_ring fuel e i = Some e' /\ registry_ok e' /\ turn_frame e e' /\
    e_index e' !! i = Some ie' /\ ix_ring ie' = Some p /\ ix_pit ie' = it_at r (Z.to_nat (size r)) /\
    e_heap e' !! p = Some r'' /\ ring_rel (fun s => s ∈ slot_list r) r r'' /\
    (forall j, j <> i -> e_index e' !! j = e_index e !! j) /\
    (forall q rq, q <> p -> e_heap e !! q = Some rq -> exists rq', e_heap e' !! q = Some rq' /\ untouched rq rq') /\
    outs e' = outs e ++ map (fun x => (_name r, x)) (drop k (contents r)) /\
    u64 (recs_out (e_stats e')) = u64 (recs_out (e_stats e) + Z.of_nat (length (drop k (contents r)))).
Proof.
  induction fuel as [|fuel IH]; intros k e ie r' R Hi Hp Hit Hr Ok Rel Hk Hf; [lia|].
  cbn [drain_ring]; assert (At : ring_at e i = Some (p, r'))
    by (unfold ring_at, index_at; rewrite Hi; cbn; rewrite Hp; cbn; now rewrite Hr).
  rewrite At; cbn [mbind option_bind]; unfold index_at at 1; rewrite Hi; cbn [mbind option_bind].
  rewrite (it_next_config r r' _ (rr_config _ _ _ Rel)), Hit, (it_next_at r k (rk_wf _ Ok) Hk).
  destruct (slot_list r !! k) as [s|] eqn:Hs.
  - destruct (slot_record r k s (rk_wf _ Ok) Hs) as (x & Hx & Hrec & Hpos).
    destruct (set_pit_ok e i ie (it_at r (S k)) R Hi) as (R1 & F1 & I1 & H1 & A1).
    unfold set_pit in R1, F1, I1, H1, A1; rewrite Hi in R1, F1, I1, H1, A1; set (e1 := set_index e i _) in *.
    assert (Hrec' : record_at r' s = Some x).
    { unfold record_at; rewrite (rr_slots _ _ _ Rel); [done|done|]; intros Hin.
      apply list_elem_of_lookup in Hin as [m Hm]; apply lookup_take_Some in Hm as [Hm Lt].
      pose proof (NoDup_lookup _ _ _ _ (slot_list_NoDup r (rk_wf _ Ok)) Hm Hs); lia. }
    destruct (flush_record_ok e1 i p r' s x R1) as (e2 & E2 & R2 & F2 & I2 & H2 & O2 & S2 & D2 & _); [now rewrite A1|done|done|].
    rewrite E2; cbn [mbind option_bind]; destruct (H2 p r' ltac:(now rewrite H1)) as (r2 & Hr2 & Rel2).
    assert (Rel' : ring_rel (fun s => s ∈ take (S k) (slot_list r)) r r2).
    { apply (ring_rel_trans _ r r').
      - eapply ring_rel_weaken; [|exact Rel]; intros s' Hs'; eapply elem_of_take_le; [|exact Hs']; lia.
      - eapply ring_rel_weaken; [|exact Rel2]; intros s' [_ ->]; rewrite (take_S_r _ _ _ Hs); set_solver. }
    pose proof (lookup_lt_Some _ _ _ Hs) as Lt; rewrite length_slot_list in Lt.
    destruct (IH (S k) e2 (mkIx (ix_ring ie) (it_at r (S k)) (ix_lastrec ie) (ix_seqnum ie)) r2)
      as (e3 & ie3 & r3 & E3 & R3 & F3 & I3 & P3 & T3 & Hr3 & Rel3 & J3 & Q3 & O3 & S3); try done;
      [rewrite I2; exact I1|lia|].
    exists e3, ie3, r3; split; [exact E3|]; split; [exact R3|]; split.
    { transitivity e1; [exact F1|]; transitivity e2; [|exact F3].
      destruct F2; split; try done. }
    do 5 (split; [done|]); split.
    { intros j N; rewrite J3, I2 by done; cbn; now apply list_lookup_insert_ne. }
    split.
    { intros q rq N Hq; destruct (H2 q rq ltac:(now rewrite H1)) as (rq2 & Hq2 & Relq).
      destruct (Q3 q rq2 N Hq2) as (rq3 & Hq3 & Relq3); exists rq3; split; [done|].
      apply (ring_rel_trans _ rq rq2); [|exact Relq3]; eapply ring_rel_weaken; [|exact Relq]; intros ? [? _]; done. }
    rewrite O3, O2, (drop_S _ _ _ Hx); cbn [map length]; split.
    { rewrite <- app_assoc; cbn; destruct (rr_config _ _ _ Rel) as (-> & _); done. }
    rewrite S3, S2, <- u64_add_l, u64_idem, u64_add_l; f_equal; cbn; lia.
  - apply lookup_ge_None in Hs; rewrite length_slot_list in Hs; assert (k = Z.to_nat (size r)) as -> by lia.
    exists e, ie, r'; rewrite drop_ge by (rewrite length_contents; lia); cbn [map length].
    split; [done|]; split; [done|]; split; [reflexivity|]; do 4 (split; [done|]); split.
    { now rewrite take_ge in Rel by (rewrite length_slot_list; lia). }
    split; [done|]; split; [intros q rq _ Hq; exists rq; split; [done|apply ring_rel_refl]|].
    rewrite app_nil_r; split; [done|f_equal; cbn; lia].
Qed.

(** The ring is committed: it is empty. *)
Lemma commit_drained r r' : ring_ok r -> ring_rel (fun s => s ∈ slot_list r) r r' ->
  ring_drained (length (contents r)) r (set_block_active (it_commit r' (it_at r (Z.to_nat (size r)))) false).
Proof.
  intros Ok Rel; pose proof (rr_ok _ _ _ Rel Ok) as Ok'; destruct (ring_wf_facts r' (rk_wf _ Ok')) as (n & _ & F).
  destruct (slot_list_rel _ _ _ Rel) as [_ Es]; pose proof (size_range _ _ F).
  assert (Cap : capacity r = n).
  { rewrite <- (rf_cap _ _ F); unfold capacity; destruct (rr_config _ _ _ Rel) as (_ & _ & _ & _ & _ & -> & _); done. }
  unfold it_commit, it_at; cbn [it_head]; rewrite Cap, Z2Nat.id by lia.
  destruct (commit_head_contents r' n (size r) (rk_wf _ Ok') F ltac:(lia)) as (W & C & _).
  rewrite (rr_head _ _ _ Rel) in W, C; destruct Ok' as [_ [Rz Ro] Rf]; split.
  - destruct (rr_config _ _ _ Rel) as (? & ? & ? & ? & ? & ? & ?); repeat split; done.
  - apply (rr_refcnt _ _ _ Rel).
  - split; [|split; [exact Rz|exact Ro]|exact Rf].
    apply (ring_wf_config _ _ W); [repeat split|apply W|apply W].
  - transitivity (drop (Z.to_nat (size r)) (contents r')); [exact C|].
    rewrite !drop_ge; rewrite ?length_contents; (done || lia).
Qed.

(** What a turn of ring [i] does to the rings. *)
Definition turn_rings e e' (i : nat) : Prop := forall j,
  match ring_at e j with
  | None => ring_at e' j = None
  | Some (p, r) =>
      if decide (j = i) then
        (ring_at e' j = None /\ _refcnt r = 1) \/
        exists r', ring_at e' j = Some (p, r') /\ ring_drained (length (contents r)) r r'
      else exists r', ring_at e' j = Some (p, r') /\ untouched r r'
  end.

(** The end of the turn. *)
Lemma check_orphan_notso e locks i p r r0 : registry_ok e -> ring_at e i = Some (p, r) ->
  ring_drained (length (contents r0)) r0 r ->
  exists e' locks', check_orphan e locks i = Some (e', locks') /\ registry_ok e' /\ turn_frame e e' /\
    e_trace e' = e_trace e /\ e_stats e' = e_stats e /\
    ((ring_at e' i = None /\ _refcnt r0 = 1) \/ ring_at e' i = Some (p, r)) /\
    (forall j, j <> i -> ring_at e' j = ring_at e j).
Proof.
  intros R At D; unfold check_orphan; rewrite At; cbn [mbind option_bind].
  destruct (orphan r && empty r) eqn:Oe;
    [|exists e, locks; split; [done|]; split; [done|]; split; [reflexivity|]; do 2 (split; [done|]); split; [now right|done]].
  apply andb_true_iff in Oe as [Or _]; destruct (next_lock locks) as [[|] l'].
  - destruct (ring_at_inv _ _ _ _ At) as (ie & Hi & Hp & Hr).
    destruct (kill_orphan_ok e i ie p r R Hi Hp Hr Or)
      as (e' & -> & R' & I' & M' & _ & A' & K' & T' & L' & S' & Tr' & Op' & Hp' & Hq').
    cbn [mbind option_bind]; exists e', l'; split; [done|]; split; [done|]; split.
    { split; try done; [now rewrite I', length_insert|now rewrite S']. }
    do 2 (split; [done|]); split.
    + left; split; [|rewrite <- (dr_refcnt _ _ _ D); now apply Z.eqb_eq].
      unfold ring_at, index_at; rewrite I', list_lookup_insert_eq by (eapply lookup_lt_Some, Hi); done.
    + intros j N; unfold ring_at, index_at; rewrite I', list_lookup_insert_ne by congruence.
      destruct (e_index e !! j) as [je|] eqn:Hj; [|done]; cbn; destruct (ix_ring je) as [q|] eqn:Hq; [|done]; cbn.
      rewrite Hq'; [done|]; intros ->; apply N, (ro_distinct _ R _ _ _ _ _ Hj Hi Hq Hp).
  - cbn; exists e, l'; split; [done|]; split; [done|]; split; [reflexivity|]; do 2 (split; [done|]).
    split; [now right|done].
Qed.

(** What a turn of ring [i] sends. *)
Definition turn_sends e (i : nat) : list (string * record) :=
  match ring_at e i with Some (_, r) => map (fun x => (_name r, x)) (contents r) | None => [] end.

Lemma put_ring_at e e' p r r' j : registry_ok e -> e_heap e !! p = Some r ->
  e_index e' = e_index e -> e_heap e' = <[p := r']> (e_heap e) ->
  ring_at e' j = match ring_at e j with Some (q, rq) => Some (q, if decide (q = p) then r' else rq) | None => None end.
Proof.
  intros R Hr Ei Eh; unfold ring_at, index_at; rewrite Ei, Eh.
  destruct (e_index e !! j) as [je|]; [|done]; cbn; destruct (ix_ring je) as [q|]; [|done]; cbn.
  destruct (decide (q = p)) as [->|N].
  - rewrite lookup_insert_eq, Hr; cbn; now rewrite decide_True.
  - rewrite lookup_insert_ne by done; destruct (e_heap e !! q); [|done]; cbn; now rewrite decide_False.
Qed.

Lemma registry_ok_heap e e' p r r' : registry_ok e -> e_heap e !! p = Some r -> _name r' = _name r -> ring_ok r' ->
  e_index e' = e_index e -> e_rings e' = e_rings e -> e_heap e' = <[p := r']> (e_heap e) -> registry_ok e'.
Proof.
  intros [Ky Rg I D] Hr Hn Ok Ei Er Eh; split; rewrite ?Ei, ?Er, ?Eh; auto; intros n q Hq.
  destruct (decide (q = p)) as [->|N].
  - rewrite lookup_insert_eq; exists r'; destruct (Rg n p Hq) as (r2 & E2 & N2 & _).
    assert (r2 = r) as -> by congruence; repeat split; congruence || apply Ok.
  - rewrite lookup_insert_ne by done; now apply Rg.
Qed.

Lemma ring_turn_notso_ok e locks i ie : registry_ok e -> e_index e !! i = Some ie ->
  exists e' locks', ring_turn_notso e locks i = Some (e', locks') /\ registry_ok e' /\ turn_frame e e' /\
    turn_rings e e' i /\ outs e' = outs e ++ turn_sends e i /\
    u64 (recs_out (e_stats e')) = u64 (recs_out (e_stats e) + Z.of_nat (length (turn_sends e i))).
Proof.
  intros R Hi; unfold ring_turn_notso; change (index_at e i) with (e_index e !! i); rewrite Hi; cbn [mbind option_bind].
  destruct (ix_ring ie) as [p|] eqn:Hp.
  2:{ assert (At : ring_at e i = None) by (unfold ring_at, index_at; rewrite Hi; cbn; now rewrite Hp).
      exists e, locks; split; [done|]; split; [done|]; split; [reflexivity|]; unfold turn_sends; rewrite At, app_nil_r.
      split; [|split; [done|f_equal; cbn; lia]]; intros j; destruct (ring_at e j) as [[q r]|] eqn:Ej; [|done].
      rewrite decide_False by congruence; exists r; split; [done|apply ring_rel_refl]. }
  destruct (ring_at_ok e i ie p R Hi Hp) as (r & At & Hr & Ok); rewrite Hr; cbn [mbind option_bind].
  destruct (set_pit_ok e i ie (it_reset r) R Hi) as (R1 & F1 & I1 & H1 & A1).
  unfold set_pit in R1, F1, I1, H1, A1; rewrite Hi, Hp in R1, F1, I1, H1, A1; set (e1 := set_index e i _) in *.
  destruct (drain_ring_ok i p r (S (Z.to_nat (capacity r))) 0 e1 _ r R1 I1 eq_refl (it_reset_at r (rk_wf _ Ok)))
    as (e2 & ie2 & r2 & E2 & R2 & F2 & I2 & P2 & T2 & Hr2 & Rel2 & J2 & Q2 & O2 & S2);
    [now rewrite H1|done|apply ring_rel_refl|lia|pose proof (size_capacity r (rk_wf _ Ok)); lia|].
  rewrite E2; cbn [mbind option_bind]; rewrite Hr2; cbn [mbind option_bind].
  change (index_at e2 i) with (e_index e2 !! i); rewrite I2; cbn [mbind option_bind]; rewrite T2.
  set (r3 := set_block_active _ _); set (e3 := put_ring e2 p r3).
  assert (D : ring_drained (length (contents r)) r r3) by now apply commit_drained.
  assert (R3 : registry_ok e3).
  { apply (registry_ok_heap e2 e3 p r2 r3); try done; apply D. }
  assert (Rings2 : forall j, match ring_at e j with
    | None => ring_at e2 j = None
    | Some (q, rq) => exists rq', ring_at e2 j = Some (q, rq') /\ (j <> i -> q <> p /\ untouched rq rq') end).
  { intros j; destruct (decide (j = i)) as [->|N].
    - rewrite At; exists r2; split; [|done]; unfold ring_at, index_at; rewrite I2; cbn; rewrite P2; cbn; now rewrite Hr2.
    - rewrite <- A1; unfold ring_at, index_at; rewrite (J2 j N).
      destruct (e_index e1 !! j) as [je|] eqn:Hj; [|done]; cbn [mbind option_bind].
      destruct (ix_ring je) as [q|] eqn:Hq; [|done]; cbn [mbind option_bind].
      assert (q <> p) by (intros ->; apply N, (ro_distinct _ R1 _ _ _ _ _ Hj I1 Hq eq_refl)).
      destruct (ro_index _ R1 j je q Hj Hq) as [n Hn]; destruct (ro_rings _ R1 n q Hn) as (rq & Eq & _); rewrite Eq; cbn [mbind option_bind].
      destruct (Q2 q rq) as (rq' & -> & Rq); [done|done|]; cbn; eauto. }
  assert (At3 : ring_at e3 i = Some (p, r3)).
  { rewrite (put_ring_at e2 e3 p r2 r3 i R2 Hr2 eq_refl eq_refl); specialize (Rings2 i); rewrite At in Rings2.
    destruct Rings2 as (? & -> & _); now rewrite decide_True. }
  destruct (check_orphan_notso e3 locks i p r3 r R3 At3 D) as (e4 & l4 & E4 & R4 & F4 & T4 & S4 & K4 & J4).
  exists e4, l4; split; [exact E4|]; split; [exact R4|]; split.
  { transitivity e1; [done|]; transitivity e2; [done|]; transitivity e3; [split; done|done]. }
  unfold turn_sends; rewrite At; split; [|split].
  - intros j; specialize (Rings2 j); destruct (decide (j = i)) as [->|N].
    + rewrite At; destruct K4 as [K4|K4]; [now left|right; eauto].
    + destruct (ring_at e j) as [[q rq]|]; [destruct Rings2 as (rq' & Eq & H); destruct (H N) as [Nq Rq]; exists rq'|];
        rewrite (J4 j N), (put_ring_at e2 e3 p r2 r3 j R2 Hr2 eq_refl eq_refl).
      * rewrite Eq, decide_False by done; done.
      * now rewrite Rings2.
  - unfold outs; rewrite T4; exact O2.
  - rewrite S4, length_map; exact S2.
Qed.

(** The engine after the turns of the rings below [c]. *)
Record drained (c : nat) e0 e : Prop := {
  dn_reg : registry_ok e;
  dn_frame : turn_frame e0 e;
  dn_outs : outs e = outs e0 ++ flat_map (turn_sends e0) (seq 0 c);
  dn_recs : u64 (recs_out (e_stats e)) =
    u64 (recs_out (e_stats e0) + Z.of_nat (length (flat_map (turn_sends e0) (seq 0 c))));
  dn_rings : forall j, match ring_at e0 j with
    | None => ring_at e j = None
    | Some (p, r) =>
        if decide (j < c)%nat then
          (ring_at e j = None /\ _refcnt r = 1) \/
          exists r', ring_at e j = Some (p, r') /\ ring_drained (length (contents r)) r r'
        else exists r', ring_at e j = Some (p, r') /\ untouched r r'
    end }.

Lemma drained_start e : registry_ok e -> drained 0 e e.
Proof.
  intros R; split; [done|reflexivity|cbn; now rewrite app_nil_r|f_equal; cbn; lia|].
  intros j; destruct (ring_at e j) as [[p r]|]; [|done]; exists r; split; [done|apply ring_rel_refl].
Qed.

Lemma ring_drained_untouched f r r1 r2 : ring_drained f r r1 -> untouched r1 r2 -> ring_drained f r r2.
Proof.
  intros [C F Ok E] Rel; split.
  - transitivity r1; [exact C|apply Rel].
  - rewrite <- F; apply Rel.
  - now apply (rr_ok _ _ _ Rel).
  - rewrite <- E; apply untouched_contents; [apply Ok|exact Rel].
Qed.

Lemma untouched_drained r r1 r2 : ring_ok r -> untouched r r1 ->
  ring_drained (length (contents r1)) r1 r2 -> ring_drained (length (contents r)) r r2.
Proof.
  intros Ok Rel [C F Ok2 E]; rewrite (untouched_contents r r1 (rk_wf _ Ok) Rel) in E; split; [| |done|done].
  - transitivity r1; [apply Rel|exact C].
  - rewrite F; apply Rel.
Qed.

Lemma drained_step c e0 e locks : registry_ok e0 -> drained c e0 e -> (c < length (e_index e0))%nat ->
  exists e' locks', ring_turn_notso e locks c = Some (e', locks') /\ drained (S c) e0 e'.
Proof.
  intros R0 [B1 B2 B3 B4 B5] Hc.
  destruct (lookup_lt_is_Some_2 (e_index e) c) as [ie Hi]; [rewrite (tf_count _ _ B2); lia|].
  destruct (ring_turn_notso_ok e locks c ie B1 Hi) as (e' & l' & E & R' & F' & T' & O' & S').
  assert (Ts : turn_sends e c = turn_sends e0 c).
  { specialize (B5 c); unfold turn_sends; destruct (ring_at e0 c) as [[p r]|] eqn:Er.
    - rewrite decide_False in B5 by lia; destruct B5 as (r' & -> & Rel).
      rewrite (untouched_contents r r' (rk_wf _ (ring_at_good _ _ _ _ R0 Er)) Rel).
      destruct (rr_config _ _ _ Rel) as (-> & _); done.
    - now rewrite B5. }
  exists e', l'; split; [exact E|]; split; [done|now transitivity e| | |].
  - rewrite O', B3, Ts, seq_S, flat_map_app, <- app_assoc; cbn; now rewrite app_nil_r.
  - rewrite S', Ts, <- u64_add_l, B4, u64_add_l, seq_S, flat_map_app, length_app; cbn.
    rewrite app_nil_r; f_equal; lia.
  - intros j; specialize (B5 j); specialize (T' j); destruct (ring_at e0 j) as [[p r]|] eqn:Er.
    + pose proof (ring_at_good _ _ _ _ R0 Er) as Ok.
      destruct (decide (j < S c)%nat) as [L|L]; [destruct (decide (j = c)) as [->|N]|].
      * rewrite decide_False in B5 by lia; destruct B5 as (r1 & E1 & Rel1); rewrite E1 in T'.
        destruct T' as [[T' F1]|(r2 & E2 & D2)].
        -- left; split; [done|]; rewrite <- F1; symmetry; apply Rel1.
        -- right; exists r2; split; [done|]; now apply (untouched_drained r r1).
      * rewrite decide_True in B5 by lia; destruct B5 as [[B5 F1]|(r1 & E1 & D1)].
        -- rewrite B5 in T'; now left.
        -- rewrite E1 in T'; destruct T' as (r2 & E2 & Rel2).
           right; exists r2; split; [done|]; now apply (ring_drained_untouched _ r r1).
      * rewrite decide_False in B5 by lia; destruct B5 as (r1 & E1 & Rel1).
        rewrite E1 in T'; cbv iota beta in T'; rewrite decide_False in T' by lia; destruct T' as (r2 & E2 & Rel2).
        exists r2; split; [done|]; now apply (ring_rel_trans _ r r1).
    + now rewrite B5 in T'.
Qed.

Lemma drain_all n : forall c e0 e locks, registry_ok e0 -> drained c e0 e ->
  (c + n = length (e_index e0))%nat ->
  exists e' locks', for_rings ring_turn_notso n c e locks = Some (e', locks') /\ drained (c + n) e0 e'.
Proof.
  induction n as [|n IH]; intros c e0 e locks R Dn Hn; cbn [for_rings].
  - exists e, locks; rewrite Nat.add_0_r; done.
  - destruct (drained_step c e0 e locks R Dn ltac:(lia)) as (e1 & l1 & -> & Dn1); cbn [mbind option_bind].
    destruct (IH (S c) e0 e1 l1 R Dn1 ltac:(lia)) as (e2 & l2 & E2 & Dn2); exists e2, l2.
    split; [exact E2|]; replace (c + S n)%nat with (S c + n)%nat by lia; exact Dn2.
Qed.

Lemma notso_pass e locks : registry_ok e ->
  exists e' locks', process_rings_notso e locks = Some (e', locks') /\ drained (length (e_index e)) e e'.
Proof.
  intros R; destruct (drain_all (length (e_index e)) 0 e e locks R (drained_start e R) eq_refl)
    as (e' & l' & E & Dn); eauto.
Qed.

(** C7: Without timestamp ordering a pass always succeeds and sends every record
    of every ring: ring after ring in the order of the index (by priority),
    each ring's records in their order.  Afterwards every ring is empty, or it
    was an orphan the engine held the last reference to and is gone. *)
Theorem notso_pass_correct e locks : registry_ok e ->
  exists e' locks', process_rings_notso e locks = Some (e', locks') /\ registry_ok e' /\
    outs e' = outs e ++ flat_map (turn_sends e) (seq 0 (length (e_index e))) /\
    recs_dropped (e_stats e') = recs_dropped (e_stats e) /\
    forall i, match ring_at e i with
      | None => ring_at e' i = None
      | Some (p, r) =>
          (ring_at e' i = None /\ _refcnt r = 1) \/
          exists r', ring_at e' i = Some (p, r') /\ same_config r r' /\ contents r' = []
      end.
Proof.
  intros R; destruct (notso_pass e locks R) as (e' & l' & E & [B1 B2 B3 B4 B5]).
  exists e', l'; do 3 (split; [done|]); split; [apply B2|].
  intros i; specialize (B5 i); destruct (ring_at e i) as [[p r]|] eqn:Er; [|done].
  destruct (ring_at_inv _ _ _ _ Er) as (ie & Hi & _); apply lookup_lt_Some in Hi.
  rewrite decide_True in B5 by done; destruct B5 as [B5|(r' & E' & [C F Ok Ct])]; [now left|right].
  exists r'; split; [done|]; split; [done|]; rewrite Ct; apply drop_ge; done.
Qed.
End Notso.

Lemma notso_pass_correct_witness :
  exists e' l', process_rings_notso sample_orphan [true] = Some (e', l') /\ registry_ok e' /\
    outs e' = [("a", sample_record 10 0); ("a", sample_record 30 1)]%string /\ ring_at e' 1 = None.
Proof.
  destruct (notso_pass_correct sample_orphan [true] sample_orphan_registry) as (e' & l' & E & R & O & _).
  exists e', l'; do 2 (split; [done|]); split; [exact O|].
  vm_compute in E; injection E as <- _; reflexivity.
Defined.
