(* ===== verification/Ntos.v ===== *)
(** * Numbers to text (detail/ntos.hpp)

    The two converters write into a byte array at an index that they advance;
    [None] is an access outside an array. *)

From S2P Require Import Prelude.

(** ** The converters *)

(** The scratch array of both. *)
Definition digit_size : Z := 32.

Definition char0 : Z := 48.

(** The digits in reverse order, the least significant first. *)
Fixpoint dec_digits (fuel : nat) (v : Z) : bytes :=
  match fuel with
  | O => []
  | S fuel =>
      let c := v mod 10 + char0 in
      let v := v / 10 in
      if v =? 0 then [c] else c :: dec_digits fuel v
  end.

Definition hexmap : bytes := str "0123456789abcdef".

Fixpoint hex_digits (fuel : nat) (v : Z) : bytes :=
  match fuel with
  | O => []
  | S fuel =>
      let c := hexmap !!! Z.to_nat (Z.land v 15) in
      let v := Z.shiftr v 4 in
      if v =? 0 then [c] else c :: hex_digits fuel v
  end.

Definition padded (digit : bytes) (width pad : Z) : bytes :=
  digit ++ replicate (Z.to_nat width - length digit) pad.

(* src: include/hogl/detail/ntos.hpp 60-78 u64tod *)
Definition u64tod (v : Z) (b : bytes) (i width pad : Z) : option (bytes * Z) :=
  let width := if digit_size <? width then digit_size else width in
  let digit := padded (dec_digits 20 v) width pad in
  b ← memcpy b i (rev digit);
  Some (b, i + Z.of_nat (length digit)).

(** Here the padding is not clamped to the scratch array. *)
(* src: include/hogl/detail/ntos.hpp 40-56 u64tox *)
Definition u64tox (v : Z) (b : bytes) (i width pad : Z) : option (bytes * Z) :=
  let digit := padded (hex_digits 16 v) width pad in
  if digit_size <? Z.of_nat (length digit) then None
  else b ← memcpy b i (rev digit); Some (b, i + Z.of_nat (length digit)).

(** ** Numerals *)

(** The number a numeral denotes, given what its characters are worth. *)
Definition numeral (base : Z) (worth : Z -> Z) (b : bytes) : Z :=
  fold_left (fun a c => a * base + worth c) b 0.

Lemma numeral_snoc base worth b c : numeral base worth (b ++ [c]) = numeral base worth b * base + worth c.
Proof. unfold numeral; now rewrite fold_left_app. Qed.

Definition dec_worth (c : Z) : Z := c - char0.
Definition hex_worth (c : Z) : Z := if c <? 97 then c - 48 else c - 87.

Definition is_digit (c : Z) : Prop := 48 <= c <= 57.
Definition is_hex_digit (c : Z) : Prop := 48 <= c <= 57 \/ 97 <= c <= 102.

(** A list of digits is the shortest numeral of a number. *)
Record numeral_of (base : Z) (worth : Z -> Z) (digit_ok : Z -> Prop) (v : Z) (b : bytes) : Prop := {
  nm_value : numeral base worth b = v;
  nm_digits : Forall digit_ok b;
  nm_nonempty : b <> [];
  nm_short : v < base ^ Z.of_nat (length b);
  nm_shortest : v = 0 /\ length b = 1%nat \/ base ^ (Z.of_nat (length b) - 1) <= v }.

Abbreviation decimal := (numeral_of 10 dec_worth is_digit).
Abbreviation hexadecimal := (numeral_of 16 hex_worth is_hex_digit).

(** One more digit at the end. *)
Lemma numeral_of_snoc base worth ok v b c : 2 <= base -> 0 < v / base ->
  numeral_of base worth ok (v / base) b -> worth c = v mod base -> ok c ->
  numeral_of base worth ok v (b ++ [c]).
Proof.
  intros Hb Hv [V D N S L] Hc Ok; pose proof (Z.div_mod v base ltac:(lia)); pose proof (Z.mod_pos_bound v base ltac:(lia)).
  split.
  - rewrite numeral_snoc, V, Hc; lia.
  - apply Forall_app; auto.
  - destruct b; done.
  - rewrite length_app; cbn; replace (Z.of_nat (length b + 1)) with (Z.of_nat (length b) + 1) by lia.
    rewrite Z.pow_add_r, Z.pow_1_r by lia; nia.
  - right; rewrite length_app; cbn; replace (Z.of_nat (length b + 1) - 1) with (Z.of_nat (length b) - 1 + 1) by lia.
    destruct L as [[L _]|L]; [lia|].
    assert (1 <= Z.of_nat (length b)) by (destruct b; [done|cbn; lia]).
    rewrite Z.pow_add_r, Z.pow_1_r by lia; nia.
Qed.

Lemma numeral_of_one base worth ok v c : 2 <= base -> 0 <= v -> v / base = 0 -> worth c = v mod base -> ok c ->
  numeral_of base worth ok v [c].
Proof.
  intros Hb Hv H0 Hc Ok; pose proof (Z.div_mod v base ltac:(lia)); pose proof (Z.mod_pos_bound v base ltac:(lia)).
  split; cbn [numeral fold_left length Z.of_nat].
  - unfold numeral; cbn; lia.
  - now constructor.
  - done.
  - rewrite Z.pow_1_r; lia.
  - destruct (Z.eq_dec v 0); [now left|right]; cbn; lia.
Qed.

Lemma dec_digits_ok fuel : forall v, 0 <= v < 10 ^ Z.of_nat fuel -> (0 < fuel)%nat ->
  decimal v (rev (dec_digits fuel v)).
Proof.
  induction fuel as [|fuel IH]; intros v Hv Hf; [lia|]; cbn [dec_digits].
  pose proof (Z.mod_pos_bound v 10 eq_refl); pose proof (Z.div_pos v 10 ltac:(lia) eq_refl).
  assert (W : dec_worth (v mod 10 + char0) = v mod 10) by (unfold dec_worth; lia).
  assert (O : is_digit (v mod 10 + char0)) by (unfold is_digit, char0; lia).
  destruct (Z.eqb_spec (v / 10) 0) as [E|N].
  - apply numeral_of_one; auto; lia.
  - cbn [rev]; apply numeral_of_snoc; auto; [lia|lia|].
    assert (Hv' : v / 10 < 10 ^ Z.of_nat fuel).
    { apply Z.div_lt_upper_bound; [lia|]; replace (Z.of_nat (S fuel)) with (Z.of_nat fuel + 1) in Hv by lia.
      rewrite Z.pow_add_r, Z.pow_1_r in Hv by lia; lia. }
    apply IH; [lia|]; destruct fuel; [cbn in Hv'; lia|lia].
Qed.

Lemma hexmap_digit d : 0 <= d < 16 -> hex_worth (hexmap !!! Z.to_nat d) = d /\ is_hex_digit (hexmap !!! Z.to_nat d).
Proof.
  intros H; assert (E : exists n : nat, (n < 16)%nat /\ d = Z.of_nat n) by (exists (Z.to_nat d); lia).
  destruct E as (n & L & ->); rewrite Nat2Z.id.
  do 16 (destruct n as [|n]; [split; [reflexivity|unfold is_hex_digit; cbn; lia]|]); lia.
Qed.

Lemma hex_digits_ok fuel : forall v, 0 <= v < 16 ^ Z.of_nat fuel -> (0 < fuel)%nat ->
  hexadecimal v (rev (hex_digits fuel v)).
Proof.
  induction fuel as [|fuel IH]; intros v Hv Hf; [lia|]; cbn [hex_digits].
  change 15 with (Z.ones 4); rewrite Z.land_ones, Z.shiftr_div_pow2 by lia; change (2 ^ 4) with 16.
  pose proof (Z.mod_pos_bound v 16 eq_refl); pose proof (Z.div_pos v 16 ltac:(lia) eq_refl).
  destruct (hexmap_digit (v mod 16)) as [W O]; [done|].
  destruct (Z.eqb_spec (v / 16) 0) as [E|N].
  - apply numeral_of_one; auto; lia.
  - cbn [rev]; apply numeral_of_snoc; auto; [lia|lia|].
    assert (Hv' : v / 16 < 16 ^ Z.of_nat fuel).
    { apply Z.div_lt_upper_bound; [lia|]; replace (Z.of_nat (S fuel)) with (Z.of_nat fuel + 1) in Hv by lia.
      rewrite Z.pow_add_r, Z.pow_1_r in Hv by lia; lia. }
    apply IH; [lia|]; destruct fuel; [cbn in Hv'; lia|lia].
Qed.

(** The numeral of a 64-bit number. *)
Definition dec (v : Z) : bytes := rev (dec_digits 20 v).

Lemma dec_decimal v : is_u64 v -> decimal v (dec v).
Proof. intros H; apply dec_digits_ok; [words; lia|lia]. Qed.

Lemma decimal_length v b n : decimal v b -> 0 <= n -> v < 10 ^ n -> 0 < n -> Z.of_nat (length b) <= n.
Proof.
  intros [_ _ _ _ [[_ L]|L]] Hn Hv H0; [lia|].
  destruct (Z.lt_ge_cases n (Z.of_nat (length b))) as [G|G]; [|lia].
  assert (10 ^ n <= 10 ^ (Z.of_nat (length b) - 1)) by (apply Z.pow_le_mono_r; lia); lia.
Qed.

Lemma dec_length v : is_u64 v -> 1 <= Z.of_nat (length (dec v)) <= 20.
Proof.
  intros H; pose proof (dec_decimal v H) as D; split.
  - destruct D as [_ _ N _ _]; destruct (dec v); [done|cbn; lia].
  - apply (decimal_length v); [exact D|lia|words; lia|lia].
Qed.

(** What the decimal converter writes. *)
Definition dec_padded (v width pad : Z) : bytes := replicate (Z.to_nat width - length (dec v)) pad ++ dec v.

Lemma rev_padded l width pad : rev (padded l width pad) = replicate (Z.to_nat width - length l) pad ++ rev l.
Proof.
  unfold padded; rewrite rev_app_distr; f_equal.
  rewrite rev_alt; apply reverse_replicate.
Qed.

Lemma u64tod_ok v b i width pad : width <= 32 ->
  u64tod v b i width pad =
    (b ← memcpy b i (dec_padded v width pad); Some (b, i + Z.of_nat (length (dec_padded v width pad)))).
Proof.
  intros Hw; unfold u64tod; change digit_size with 32; destruct (Z.ltb_spec 32 width); [lia|].
  rewrite rev_padded; unfold dec_padded, dec; rewrite length_rev.
  destruct (memcpy b i _); cbn; [|done]; do 2 f_equal; f_equal; f_equal.
  unfold padded; rewrite !length_app, !length_replicate, length_rev; lia.
Qed.

Lemma rev_hex_padded v width pad : rev (padded (hex_digits 16 v) width pad) =
  replicate (Z.to_nat width - length (rev (hex_digits 16 v))) pad ++ rev (hex_digits 16 v).
Proof. now rewrite rev_padded, length_rev. Qed.

(** Both converters write the shortest numeral of any 64-bit number, after
    the padding that fills it up to the width, and advance the index by what
    they wrote: nothing is lost and the text denotes the number again. *)
Theorem converters_correct v b i width pad : is_u64 v -> 0 <= i -> 0 <= width <= 32 ->
  i + Z.max width 20 <= Z.of_nat (length b) ->
  (exists b' d, decimal v d /\
     u64tod v b i width pad = Some (b', i + Z.max width (Z.of_nat (length d))) /\
     peek b' i (Z.max width (Z.of_nat (length d))) = replicate (Z.to_nat width - length d) pad ++ d) /\
  (exists b' d, hexadecimal v d /\
     u64tox v b i width pad = Some (b', i + Z.max width (Z.of_nat (length d))) /\
     peek b' i (Z.max width (Z.of_nat (length d))) = replicate (Z.to_nat width - length d) pad ++ d).
Proof.
  intros Hv Hi Hw Hb.
  assert (Len : forall d, Z.of_nat (length (replicate (Z.to_nat width - length d) pad ++ d)) = Z.max width (Z.of_nat (length d)))
    by (intros; rewrite length_app, length_replicate; lia).
  split.
  - pose proof (dec_length v Hv); rewrite (u64tod_ok v b i width pad) by lia; unfold dec_padded.
    destruct (memcpy_some b i (replicate (Z.to_nat width - length (dec v)) pad ++ dec v)) as [b' E]; [lia|rewrite Len; lia|].
    exists b', (dec v); rewrite E, <- Len; split; [now apply dec_decimal|]; split; [done|exact (memcpy_peek _ _ _ _ E)].
  - set (d := rev (hex_digits 16 v)).
    assert (D : hexadecimal v d) by (apply hex_digits_ok; [words; lia|lia]).
    assert (L : Z.of_nat (length d) <= 16).
    { destruct D as [_ _ _ _ [[_ L]|L]]; [lia|].
      destruct (Z.lt_ge_cases 16 (Z.of_nat (length d))) as [G|G]; [|lia].
      assert (16 ^ 16 <= 16 ^ (Z.of_nat (length d) - 1)) by (apply Z.pow_le_mono_r; lia); words; lia. }
    unfold u64tox; rewrite rev_hex_padded; fold d.
    assert (Lp : length (padded (hex_digits 16 v) width pad) = length (replicate (Z.to_nat width - length d) pad ++ d)).
    { rewrite <- (length_rev (padded _ _ _)), rev_hex_padded; done. }
    rewrite Lp, Len; change digit_size with 32; destruct (Z.ltb_spec 32 (Z.max width (Z.of_nat (length d)))); [lia|].
    destruct (memcpy_some b i (replicate (Z.to_nat width - length d) pad ++ d)) as [b' E]; [lia|rewrite Len; lia|].
    exists b', d; rewrite E; split; [done|]; split; [done|]; rewrite <- Len; exact (memcpy_peek _ _ _ _ E).
Qed.

Lemma converters_correct_witness :
  exists b', u64tod 1234 (replicate 40 0) 2 9 char0 = Some (b', 11) /\ peek b' 2 9 = str "000001234".
Proof.
  destruct (converters_correct 1234 (replicate 40 0) 2 9 char0) as [(b' & d & _ & E & _) _];
    [words; lia|lia|lia|cbn; lia|].
  vm_compute in E; injection E as <- _; eexists; split; vm_compute; reflexivity.
Defined.
