(* ===== verification/Ostrbuf.v ===== *)
(** * Output buffers (detail/ostrbuf.hpp, detail/ostrbuf-fd.hpp, -stdio, -tee, -null)

    Formats append to a buffer that is flushed to a stream when it is full.
    The streams are an interface: what [do_flush] of the base class promises,
    and the implementations over a file descriptor, a stdio file, two other
    buffers and nothing. *)

From S2P Require Import Prelude.

(** ** The base class *)

(* src: include/hogl/detail/ostrbuf.hpp 51-57 ostrbuf *)
Record ostrbuf := mkOstrbuf {
  ob_data : bytes;                   (* the first _size bytes of _data *)
  ob_capacity : Z;
  ob_failed : bool;
  ob_error : string }.

Definition ob_size (o : ostrbuf) : Z := Z.of_nat (length (ob_data o)).

(* src: include/hogl/detail/ostrbuf.hpp 63-64 ostrbuf::room *)
Definition ob_room (o : ostrbuf) : Z := ob_capacity o -u32 ob_size o.

(** The error message is cut to 63 characters. *)
(* src: src/ostrbuf.cc 37-42 ostrbuf::failure *)
Definition failure (o : ostrbuf) (err : string) : ostrbuf :=
  mkOstrbuf (ob_data o) (ob_capacity o) true (String.substring 0 63 err).

(** [malloc] is the allocation of the buffer. *)
(* src: src/ostrbuf.cc 48-64 ostrbuf::ostrbuf *)
Definition ostrbuf_new (malloc : Z -> bool) (capacity : Z) : ostrbuf :=
  let o := mkOstrbuf [] 0 false "" in
  if capacity =? 0 then o
  else if malloc capacity then mkOstrbuf [] (u32 capacity) false ""
  else failure o "failed to allocate data buffer - no memory".

(* src: include/hogl/detail/ostrbuf.hpp 112-114 ostrbuf::reset *)
Definition ob_reset (o : ostrbuf) : ostrbuf := mkOstrbuf [] (ob_capacity o) (ob_failed o) (ob_error o).

(* src: include/hogl/detail/ostrbuf.hpp 66-72 ostrbuf::do_copy *)
Definition do_copy (o : ostrbuf) (data : bytes) : ostrbuf :=
  mkOstrbuf (ob_data o ++ data) (ob_capacity o) (ob_failed o) (ob_error o).

(** The size is an [unsigned int] within the capacity. *)
Record ostrbuf_ok (o : ostrbuf) : Prop := {
  obk_cap : is_u32 (ob_capacity o); obk_size : ob_size o <= ob_capacity o }.

(** A stream below the buffer: [do_flush] is the virtual function.  Its laws are
    those the comment on the class states: [written] is what reached the
    stream, and as long as the stream is [good] a flush writes what was
    buffered and the new data, in this order and completely. *)
Class Stream (U : Type) := {
  do_flush : ostrbuf -> U -> bytes -> ostrbuf * U;
  stream_failed : ostrbuf -> U -> bool;
  written : U -> bytes;
  good : U -> Prop;
  flush_good o u data : stream_failed o u = false -> good u -> ostrbuf_ok o ->
    let '(o', u') := do_flush o u data in
    good u' /\ stream_failed o' u' = false /\ ostrbuf_ok o' /\ ob_data o' = [] /\
    ob_capacity o' = ob_capacity o /\ written u' = written u ++ ob_data o ++ data;
  failed_copy o u data : stream_failed (do_copy o data) u = stream_failed o u }.

Section Base.
Context `{Stream U}.

(* src: include/hogl/detail/ostrbuf.hpp 116-120 ostrbuf::flush *)
Definition ob_flush (ou : ostrbuf * U) (data : bytes) : ostrbuf * U := do_flush ou.1 ou.2 data.

(** Appending data; the other overloads pass the bytes of their argument. *)
(* src: include/hogl/detail/ostrbuf.hpp 122-152 ostrbuf::push_back *)
Definition push_back (ou : ostrbuf * U) (data : bytes) : ostrbuf * U :=
  let '(o, u) := ou in
  if ob_room o <? Z.of_nat (length data) then do_flush o u data else (do_copy o data, u).

(** *** What a sequence of appends and flushes does *)

Definition ready (ou : ostrbuf * U) : Prop :=
  ostrbuf_ok ou.1 /\ stream_failed ou.1 ou.2 = false /\ good ou.2.

(** Everything accepted so far: what the stream has and what is buffered. *)
Definition text (ou : ostrbuf * U) : bytes := written ou.2 ++ ob_data ou.1.

Lemma ob_room_eq o : ostrbuf_ok o -> ob_room o = ob_capacity o - ob_size o.
Proof. intros [C S]; unfold ob_room; apply u32_small; unfold ob_size in *; words; lia. Qed.

Lemma push_back_ok ou data : ready ou ->
  ready (push_back ou data) /\ text (push_back ou data) = text ou ++ data.
Proof.
  destruct ou as [o u]; intros (Ok & Nf & G); unfold push_back; rewrite ob_room_eq by exact Ok.
  destruct (Z.ltb_spec (ob_capacity o - ob_size o) (Z.of_nat (length data))) as [L|L].
  - pose proof (flush_good o u data Nf G Ok) as F; cbn in F; destruct (do_flush o u data) as [o' u'].
    destruct F as (G' & Nf' & Ok' & D' & _ & W'); split; [done|]; unfold text; cbn.
    now rewrite D', W', app_nil_r, app_assoc.
  - split; [|unfold text; cbn; now rewrite app_assoc]; split; [|split; [|exact G]]; cbn.
    + destruct Ok as [C S]; split; [exact C|]; unfold ob_size in *; cbn in *; rewrite length_app; lia.
    + now rewrite failed_copy.
Qed.

Lemma flush_ok ou data : ready ou ->
  ready (ob_flush ou data) /\ written (ob_flush ou data).2 = text ou ++ data /\ ob_data (ob_flush ou data).1 = [].
Proof.
  destruct ou as [o u]; intros (Ok & Nf & G); unfold ob_flush; cbn.
  pose proof (flush_good o u data Nf G Ok) as F; cbn in F; destruct (do_flush o u data) as [o' u'].
  destruct F as (G' & Nf' & Ok' & D' & _ & W'); split; [done|]; unfold text; cbn; now rewrite W', app_assoc.
Qed.

Lemma fold_push_back ou out : ready ou ->
  ready (fold_left push_back out ou) /\ text (fold_left push_back out ou) = text ou ++ concat out.
Proof.
  revert ou; induction out as [|b out IH]; intros ou R; cbn [fold_left concat]; [now rewrite app_nil_r|].
  destruct (push_back_ok ou b R) as [R' T]; destruct (IH _ R') as [R'' T']; split; [exact R''|]; now rewrite T', T, app_assoc.
Qed.

Inductive ob_op := Push (data : bytes) | Flush (data : bytes).

Definition ob_step (ou : ostrbuf * U) (op : ob_op) : ostrbuf * U :=
  match op with Push data => push_back ou data | Flush data => ob_flush ou data end.

Definition op_data (op : ob_op) : bytes := match op with Push data | Flush data => data end.

(** C33: Whatever the capacity of the buffer, none included, a healthy stream gets
    every byte that is appended, in order: after any appends and flushes the
    stream's text and the buffered rest together are what was appended, and
    after a flush nothing is left in the buffer. *)
Theorem ostrbuf_stream ou ops data : ready ou ->
  text (fold_left ob_step ops ou) = text ou ++ concat (map op_data ops) /\
  written (ob_flush (fold_left ob_step ops ou) data).2 = text ou ++ concat (map op_data ops) ++ data.
Proof.
  intros R; assert (S : ready (fold_left ob_step ops ou) /\
    text (fold_left ob_step ops ou) = text ou ++ concat (map op_data ops)).
  { revert ou R; induction ops as [|op ops IH]; intros ou R; cbn [fold_left map concat].
    - now rewrite app_nil_r.
    - assert (St : ready (ob_step ou op) /\ text (ob_step ou op) = text ou ++ op_data op).
      { destruct op as [d|d]; cbn [ob_step op_data]; [now apply push_back_ok|].
        destruct (flush_ok ou d R) as (R' & W & D); split; [exact R'|]; unfold text at 1; now rewrite W, D, app_nil_r. }
      destruct St as [R' E]; destruct (IH _ R') as [R'' E']; split; [exact R''|]; now rewrite E', E, app_assoc. }
  destruct S as [R' E]; split; [exact E|]; destruct (flush_ok _ data R') as (_ & -> & _); now rewrite E, app_assoc.
Qed.
End Base.

(** ** A file descriptor *)

(** The outcomes of writes, in the order they will happen; a write beyond the
    list is complete. *)
Inductive outcome := WroteAll | Wrote (n : Z) | WriteError (msg : string).

(* src: include/hogl/detail/ostrbuf-fd.hpp 44-50 ostrbuf_fd *)
Record fd_state := mkFd { fd_flags : Z; fd_out : bytes; fd_next : list outcome }.

(** [writev] on the concatenation of the two pieces; the number of bytes it
    wrote is not looked at. *)
(* src: src/ostrbuf-fd.cc 43-72 ostrbuf_fd::do_flush *)
Definition fd_flush (o : ostrbuf) (u : fd_state) (data : bytes) : ostrbuf * fd_state :=
  if ob_failed o then (o, u)
  else
    let iov := ob_data o ++ data in
    if (ob_size o =? 0) && (Z.of_nat (length data) =? 0) then (ob_reset o, u)
    else
      let next := tail (fd_next u) in
      match head (fd_next u) with
      | None | Some WroteAll => (ob_reset o, mkFd (fd_flags u) (fd_out u ++ iov) next)
      | Some (Wrote n) => (ob_reset o, mkFd (fd_flags u) (fd_out u ++ take (Z.to_nat n) iov) next)
      | Some (WriteError msg) => (ob_reset (failure o msg), mkFd (fd_flags u) (fd_out u) next)
      end.

Definition writes_all (l : list outcome) : Prop := Forall (fun r => r = WroteAll) l.

#[export] Program Instance fd_stream : Stream fd_state := {
  do_flush := fd_flush; stream_failed o u := ob_failed o;
  written := fd_out; good u := writes_all (fd_next u) }.
Next Obligation.
  intros o u data Nf G Ok; unfold fd_flush; rewrite Nf; destruct Ok as [C S].
  assert (Ok' : ostrbuf_ok (ob_reset o)).
  { split; [exact C|]; unfold ob_size; cbn; unfold is_u32 in C; lia. }
  destruct ((ob_size o =? 0) && (Z.of_nat (length data) =? 0)) eqn:E.
  - apply andb_true_iff in E as [E1 E2]; apply Z.eqb_eq in E1, E2; unfold ob_size in E1.
    assert (ob_data o = []) as -> by (destruct (ob_data o); [done|cbn in E1; lia]).
    assert (data = []) as -> by (destruct data; [done|cbn in E2; lia]); rewrite !app_nil_r; done.
  - unfold writes_all in *; destruct (fd_next u) as [|r l]; cbn; [done|].
    apply Forall_cons in G as [-> G]; done.
Qed.
Next Obligation. done. Qed.

(** A short write loses data: when [writev] on a descriptor accepts only
    part of what it is given, the rest is dropped, the stream does not count as
    failed, and what is written later follows the gap. *)
Theorem fd_short_write o flags out n data more : ob_failed o = false -> 0 <= n ->
  n < ob_size o + Z.of_nat (length data) -> data <> [] -> more <> [] ->
  let '(o1, u1) := fd_flush o (mkFd flags out [Wrote n]) data in
  let '(o2, u2) := fd_flush o1 u1 more in
  ob_failed o2 = false /\ fd_out u2 = out ++ take (Z.to_nat n) (ob_data o ++ data) ++ more /\
  (length (fd_out u2) < length (out ++ (ob_data o ++ data) ++ more))%nat.
Proof.
  intros Nf Hn Hs Hd Hm; unfold fd_flush at 1; rewrite Nf.
  assert (Ld : Z.of_nat (length data) <> 0) by (destruct data; [done|cbn; lia]).
  rewrite (proj2 (Z.eqb_neq _ _) Ld), andb_false_r; cbn [head tail fd_next fd_flags fd_out].
  unfold fd_flush; cbn [ob_failed ob_reset]; rewrite Nf.
  assert (Lm : Z.of_nat (length more) <> 0) by (destruct more; [done|cbn; lia]).
  rewrite (proj2 (Z.eqb_neq _ _) Lm), andb_false_r; cbn.
  split; [exact Nf|]; split; [now rewrite app_assoc|].
  unfold ob_size in Hs; rewrite !length_app, length_take, length_app; lia.
Qed.

(** ** A stdio file *)

(* src: include/hogl/detail/ostrbuf-stdio.hpp 46-52 ostrbuf_stdio *)
Record stdio_state := mkStdio {
  sf_flags : Z; sf_out : bytes; sf_error : option string; sf_next : list outcome }.

(** [fwrite]; a short count sets the error indicator, which stays set. *)
Definition fwrite (u : stdio_state) (data : bytes) : stdio_state :=
  let next := tail (sf_next u) in
  match head (sf_next u) with
  | None | Some WroteAll => mkStdio (sf_flags u) (sf_out u ++ data) (sf_error u) next
  | Some (Wrote n) => mkStdio (sf_flags u) (sf_out u ++ take (Z.to_nat n) data) (Some "") next
  | Some (WriteError msg) => mkStdio (sf_flags u) (sf_out u) (Some msg) next
  end.

(* src: src/ostrbuf-stdio.cc 41-58 ostrbuf_stdio::do_flush *)
Definition stdio_flush (o : ostrbuf) (u : stdio_state) (data : bytes) : ostrbuf * stdio_state :=
  if ob_failed o then (o, u)
  else
    let u := if ob_size o =? 0 then u else fwrite u (ob_data o) in
    let u := if Z.of_nat (length data) =? 0 then u else fwrite u data in
    let o := match sf_error u with Some msg => failure o msg | None => o end in
    (ob_reset o, u).

Definition stdio_good (u : stdio_state) : Prop := sf_error u = None /\ writes_all (sf_next u).

Lemma fwrite_good u data : stdio_good u -> stdio_good (fwrite u data) /\ sf_out (fwrite u data) = sf_out u ++ data.
Proof.
  intros [E G]; unfold fwrite, stdio_good, writes_all in *; destruct (sf_next u) as [|r l]; cbn; [done|].
  apply Forall_cons in G as [-> G]; done.
Qed.

Lemma fwrite_if u data : stdio_good u ->
  let u' := if Z.of_nat (length data) =? 0 then u else fwrite u data in
  stdio_good u' /\ sf_out u' = sf_out u ++ data.
Proof.
  intros G u'; unfold u'; destruct (Z.eqb_spec (Z.of_nat (length data)) 0) as [E|_]; [|now apply fwrite_good].
  destruct data; [now rewrite app_nil_r|cbn in E; lia].
Qed.

#[export] Program Instance stdio_stream : Stream stdio_state := {
  do_flush := stdio_flush; stream_failed o u := ob_failed o; written := sf_out; good := stdio_good }.
Next Obligation.
  intros o u data Nf G Ok; unfold stdio_flush; rewrite Nf; destruct Ok as [C S].
  destruct (fwrite_if u (ob_data o) G) as [G1 W1]; fold (ob_size o) in G1, W1; cbv zeta in G1, W1.
  destruct (fwrite_if _ data G1) as [G2 W2]; cbv zeta in G2, W2.
  set (u2 := if Z.of_nat (length data) =? 0 then _ else _) in *; destruct (proj1 G2).
  rewrite (proj1 G2); split; [exact G2|]; split; [exact Nf|]; split.
  - split; [exact C|]; unfold ob_size; cbn; unfold is_u32 in C; lia.
  - do 2 (split; [done|]); now rewrite W2, W1, app_assoc.
Qed.
Next Obligation. done. Qed.

(** ** Two other buffers *)

Section Tee.
Context `{S0 : Stream U0} `{S1 : Stream U1}.

(* src: include/hogl/detail/ostrbuf-tee.hpp 43-48 ostrbuf_tee *)
Definition tee_state : Type := (ostrbuf * U0) * (ostrbuf * U1).

(* src: src/ostrbuf-tee.cc 40-43 ostrbuf_tee::failed *)
Definition tee_failed (o : ostrbuf) (t : tee_state) : bool :=
  stream_failed t.1.1 t.1.2 || stream_failed t.2.1 t.2.2.

(* src: src/ostrbuf-tee.cc 45-48 ostrbuf_tee::error *)
Definition tee_error (t : tee_state) : string :=
  if stream_failed t.1.1 t.1.2 then ob_error t.1.1 else ob_error t.2.1.

Definition tee_both (t : tee_state) (data : bytes) : tee_state := (ob_flush t.1 data, ob_flush t.2 data).

(* src: src/ostrbuf-tee.cc 50-68 ostrbuf_tee::do_flush *)
Definition tee_flush (o : ostrbuf) (t : tee_state) (data : bytes) : ostrbuf * tee_state :=
  if tee_failed o t then (o, t)
  else
    let t := if ob_size o =? 0 then t else tee_both t (ob_data o) in
    let t := if Z.of_nat (length data) =? 0 then t else tee_both t data in
    (ob_reset o, t).

(** Both have the same text. *)
Definition tee_good (t : tee_state) : Prop := ready t.1 /\ ready t.2 /\ text t.1 = text t.2.

Lemma tee_both_good t data : tee_good t -> tee_good (tee_both t data) /\ text (tee_both t data).1 = text t.1 ++ data.
Proof.
  intros (R0 & R1 & E); destruct (flush_ok t.1 data R0) as (R0' & W0 & D0), (flush_ok t.2 data R1) as (R1' & W1 & D1).
  unfold tee_both, tee_good; cbn [fst snd]; unfold text at 1 2 3; rewrite W0, D0, W1, D1, E, !app_nil_r; done.
Qed.

Lemma tee_if t data : tee_good t ->
  let t' := if Z.of_nat (length data) =? 0 then t else tee_both t data in
  tee_good t' /\ text t'.1 = text t.1 ++ data.
Proof.
  intros G t'; unfold t'; destruct (Z.eqb_spec (Z.of_nat (length data)) 0) as [E|_]; [|now apply tee_both_good].
  destruct data; [now rewrite app_nil_r|cbn in E; lia].
Qed.

#[export] Program Instance tee_stream : Stream tee_state := {
  do_flush := tee_flush; stream_failed := tee_failed; written t := text t.1; good := tee_good }.
Next Obligation.
  intros o t data Nf G Ok; unfold tee_flush; rewrite Nf; destruct Ok as [C S].
  destruct (tee_if t (ob_data o) G) as [G1 W1]; fold (ob_size o) in G1, W1; cbv zeta in G1, W1.
  destruct (tee_if _ data G1) as [G2 W2]; cbv zeta in G2, W2.
  set (t2 := if Z.of_nat (length data) =? 0 then _ else _) in *.
  split; [exact G2|]; split; [|split].
  - destruct G2 as ((_ & F0 & _) & (_ & F1 & _) & _); unfold tee_failed; now rewrite F0, F1.
  - split; [exact C|]; unfold ob_size; cbn; unfold is_u32 in C; lia.
  - do 2 (split; [done|]); now rewrite W2, W1, app_assoc.
Qed.
Next Obligation. done. Qed.
End Tee.

(** ** Nothing *)

(** [None] is the exception the failed stream throws. *)
(* src: include/hogl/detail/ostrbuf-null.hpp 48-56 ostrbuf_null::do_flush *)
Definition null_flush (o : ostrbuf) (data : bytes) : option ostrbuf :=
  if ob_failed o then None else Some (ob_reset o).

(* src: include/hogl/detail/ostrbuf-null.hpp 58-69 ostrbuf_null::ostrbuf_null *)
Definition null_new (malloc : Z -> bool) (err : option string) (buffer_capacity : Z) : ostrbuf :=
  match err with
  | None => ostrbuf_new malloc buffer_capacity
  | Some err => failure (ostrbuf_new malloc 0) err
  end.

(** ** Concrete instances *)

(** Four bytes of buffer over a descriptor and over both a descriptor and a
    file. *)
Definition small_buffer : ostrbuf := ostrbuf_new (fun _ => true) 4.
Definition fd0 : fd_state := mkFd 0 [] [].
Definition tee0 : @tee_state fd_state stdio_state :=
  ((small_buffer, fd0), (ostrbuf_new (fun _ => true) 0, mkStdio 0 [] None [])).

Lemma new_ok capacity : is_u32 capacity -> ostrbuf_ok (ostrbuf_new (fun _ => true) capacity).
Proof.
  intros C; assert (E : ob_capacity (ostrbuf_new (fun _ => true) capacity) = capacity /\ ob_data (ostrbuf_new (fun _ => true) capacity) = []).
  { unfold ostrbuf_new; cbv zeta; destruct (Z.eqb_spec capacity 0) as [->|_]; cbn [ob_capacity ob_data]; [done|].
    now rewrite (u32_small _ C). }
  destruct E as [E1 E2]; split; unfold ob_size; rewrite E1, ?E2; [exact C|]; unfold is_u32 in C; cbn; lia.
Qed.

Lemma small_ready : ready (small_buffer, tee0).
Proof.
  assert (O4 : ostrbuf_ok small_buffer) by (apply (new_ok 4); words; lia).
  assert (O0 : ostrbuf_ok (ostrbuf_new (fun _ => true) 0)) by (apply (new_ok 0); words; lia).
  assert (R0 : ready (small_buffer, fd0)) by (split; [exact O4|]; split; [reflexivity|constructor]).
  assert (R1 : ready tee0.2) by (split; [exact O0|]; split; [reflexivity|]; split; [reflexivity|constructor]).
  split; [exact O4|]; split; [reflexivity|]; split; [exact R0|]; split; [exact R1|reflexivity].
Qed.

Lemma ostrbuf_stream_witness :
  let ops := [Push (str "abc"); Push (str "defgh"); Push (str "i"); Flush []; Push (str "jk")] in
  written (ob_flush (fold_left ob_step ops (small_buffer, tee0)) (str "l")).2 = str "abcdefghijkl".
Proof.
  cbv zeta; rewrite (proj2 (ostrbuf_stream (small_buffer, tee0) _ (str "l") small_ready)); reflexivity.
Defined.

Lemma fd_short_write_witness :
  let '(o1, u1) := fd_flush small_buffer (mkFd 0 [] [Wrote 2]) (str "abcde") in
  let '(o2, u2) := fd_flush o1 u1 (str "fg") in
  ob_failed o2 = false /\ fd_out u2 = str "abfg".
Proof.
  destruct (fd_short_write small_buffer 0 [] 2 (str "abcde") (str "fg") eq_refl ltac:(lia) ltac:(vm_compute; reflexivity)
    ltac:(discriminate) ltac:(discriminate)) as (F & E & _); split; [exact F|exact E].
Defined.
