(* ===== verification/Format.v ===== *)
(** * The basic text format (format-basic.hpp, format-basic.cc)

    A record becomes a line of text: a header and its arguments.  The functions
    yield the list of pieces in the order they are appended to the output
    buffer, [None] being an access outside an array or a null string that is
    read.  Parameters: the libc conversions of times and floating point numbers,
    the engine that expands format strings, and the process memory behind
    string pointers. *)

From S2P Require Import Prelude Args Record Area Timestamp Ntos Ostrbuf.

Abbreviation output := (list bytes).

(** ** Fields of the header *)

(* src: include/hogl/format-basic.hpp 48-48 format_basic::TIMESPEC *)
Definition TIMESPEC : Z := Z.shiftl 1 0.
(* src: include/hogl/format-basic.hpp 49-49 format_basic::TIMESTAMP *)
Definition TIMESTAMP : Z := Z.shiftl 1 1.
(* src: include/hogl/format-basic.hpp 50-50 format_basic::TIMEDELTA *)
Definition TIMEDELTA : Z := Z.shiftl 1 2.
(* src: include/hogl/format-basic.hpp 51-51 format_basic::RING *)
Definition RING : Z := Z.shiftl 1 3.
(* src: include/hogl/format-basic.hpp 52-52 format_basic::SEQNUM *)
Definition SEQNUM : Z := Z.shiftl 1 4.
(* src: include/hogl/format-basic.hpp 53-53 format_basic::AREA *)
Definition AREA : Z := Z.shiftl 1 5.
(* src: include/hogl/format-basic.hpp 54-54 format_basic::SECTION *)
Definition SECTION : Z := Z.shiftl 1 6.

Definition fields_or (l : list Z) : Z := fold_left Z.lor l 0.

(* src: include/hogl/format-basic.hpp 55-55 format_basic::DEFAULT *)
Definition DEFAULT : Z := fields_or [TIMESTAMP; RING; SEQNUM; AREA; SECTION].
(* src: include/hogl/format-basic.hpp 56-56 format_basic::FAST0 *)
Definition FAST0 : Z := fields_or [TIMESPEC; RING; SEQNUM; AREA; SECTION].
(* src: include/hogl/format-basic.hpp 57-57 format_basic::FAST1 *)
Definition FAST1 : Z := fields_or [TIMESPEC; TIMEDELTA; RING; SEQNUM; AREA; SECTION].

(** One name of the list; names it does not know are skipped. *)
Definition field_step (f : Z) (s : string) : Z :=
  if String.eqb s "timestamp" then Z.lor f TIMESTAMP
  else if String.eqb s "timedelta" then Z.lor f TIMEDELTA
  else if String.eqb s "timespec" then Z.lor f TIMESPEC
  else if String.eqb s "ring" then Z.lor f RING
  else if String.eqb s "seqnum" then Z.lor f SEQNUM
  else if String.eqb s "area" then Z.lor f AREA
  else if String.eqb s "section" then Z.lor f SECTION
  else if String.eqb s "default" then DEFAULT
  else if String.eqb s "fast0" then FAST0
  else if String.eqb s "fast1" then FAST1
  else f.

Fixpoint has_char (d : Ascii.ascii) (s : string) : bool :=
  match s with
  | EmptyString => false
  | String c s => Ascii.eqb c d || has_char d s
  end.

(** The pieces [std::getline] yields, the first being [acc] and what follows. *)
Fixpoint getlines (d : Ascii.ascii) (acc s : string) : list string :=
  match s with
  | EmptyString => if String.eqb acc "" then [] else [acc]
  | String c s => if Ascii.eqb c d then acc :: getlines d "" s else getlines d (acc ++ String c "") s
  end.

(* src: src/format-basic.cc 43-67 format_basic::format_basic *)
Definition parse_fields (fields : option string) : Z :=
  match fields with
  | None => DEFAULT
  | Some s =>
      let comma := Ascii.ascii_of_nat 44 in
      let d := if has_char comma s then comma else Ascii.ascii_of_nat 124 in
      fold_left field_step (getlines d "" s) 0
  end.

(** ** Conversions of the printf family *)

Definition fill (w : Z) (b : bytes) : bytes := replicate (Z.to_nat w - length b) char0 ++ b.
Definition p_u (v : Z) : bytes := dec v.
Definition p_x (v : Z) : bytes := rev (hex_digits 16 v).
Definition p_d (v : Z) : bytes := if v <? 0 then str "-" ++ dec (- v) else dec v.
Definition p_d0 (w v : Z) : bytes := if v <? 0 then str "-" ++ fill (w - 1) (dec (- v)) else fill w (dec v).
Definition p_ptr (v : Z) : bytes := if v =? 0 then str "(nil)" else str "0x" ++ p_x v.
Definition p_s (s : option bytes) : bytes := match s with Some b => b | None => str "(null)" end.

(** A [w]-bit value read as a signed one. *)
Definition signed (w v : Z) : Z := if v <? 2 ^ (w - 1) then v else v - 2 ^ w.

(** Appending in one piece, and character by character. *)
Definition puts (b : bytes) : output := [b].
Definition printf (b : bytes) : output := map (fun c => [c]) b.

Definition newline : bytes := [10].

(** A bounded read, and a string read up to its terminator. *)
Definition read (b : bytes) (o n : Z) : option bytes :=
  if (0 <=? o) && (o + n <=? Z.of_nat (length b)) then Some (peek b o n) else None.

Fixpoint c_string (b : bytes) : option bytes :=
  match b with
  | [] => None
  | c :: b => if c =? 0 then Some [] else s ← c_string b; Some (c :: s)
  end.

(** ** The timestamp cache *)

(* src: include/hogl/format-basic.hpp 67-81 format_basic::tscache *)
Record tscache := mkTscache { tc_sec : Z; tc_nsec_hi : Z; tc_str : bytes }.

Definition NSEC_SPLIT : Z := 10000.
Definition NSEC_HI_LEN : Z := 5.
Definition NSEC_LEN : Z := 9.
Definition NSEC_LO_LEN : Z := NSEC_LEN - NSEC_HI_LEN.
Definition SEC_LEN : Z := 11.
Definition TS_LEN : Z := SEC_LEN + 1 + NSEC_LEN.
Definition NSEC_HI_OFFSET : Z := SEC_LEN + 1.
Definition NSEC_LO_OFFSET : Z := NSEC_HI_OFFSET + NSEC_HI_LEN.

(* src: include/hogl/format-basic.hpp 83-87 format_basic::tscache::tscache *)
Definition tscache_new : tscache :=
  mkTscache 0 0 (<[Z.to_nat SEC_LEN := 46]> (replicate (Z.to_nat TS_LEN) char0)).

Record tm := mkTm { tm_mon : Z; tm_mday : Z; tm_year : Z; tm_hour : Z; tm_min : Z; tm_sec : Z }.

(** A formatted argument of [output_fmt]. *)
Inductive fmt_arg :=
  | FStr (b : bytes) | FPtr (v : Z) | FInt (v : Z) | FUint (v : Z)
  | FInt64 (v : Z) | FUint64 (v : Z) | FDouble (bits : Z).

(** The state of the object, and what it is given. *)
Record format_state := mkFormat { f_fields : Z; f_last : Z; f_tscache : tscache }.

(* src: include/hogl/detail/format.hpp 49-52 format::data *)
Record format_data := mkData {
  fd_ring_name : bytes;
  fd_record : record;
  fd_argval : Z                      (* address of the record's argument buffer *)
}.

(** The names are the characters up to the terminator. *)
(* src: include/hogl/format-basic.hpp 95-102 format_basic::record_data *)
Record record_data := mkRecordData {
  rd_record : record; rd_argval : Z;
  rd_area_name : bytes; rd_sect_name : bytes; rd_ring_name : bytes;
  rd_arg_str : list (option bytes); rd_next_arg : Z }.

(* src: src/format-basic.cc 39-41 format_basic::format_basic *)
Definition format_basic (fields : Z) : format_state := mkFormat fields 0 tscache_new.

(** ** Dumps *)

(* src: include/hogl/detail/args.hpp 72-80 arg_xdump::format *)
Record xdump_format := mkXf { xf_type : Z; xf_byte_width : Z; xf_precision : Z; xf_line_width : Z; xf_delim : Z }.

Definition get_xf (b : bytes) : xdump_format :=
  let v i := b !!! Z.to_nat i in
  mkXf (v 0) (v 1 mod 16) (v 1 / 16) (v 2) (v 3).

Definition isprint (c : Z) : bool := (32 <=? c) && (c <=? 126).

(** The two inner loops: the hexadecimal column, and the characters. *)
Fixpoint hex_column (k : nat) (b : bytes) (o offset i n : Z) : option output :=
  match k with
  | O => Some []
  | S k =>
      out ← (if i +u32 offset <? n
             then d ← read b (o + (offset +u32 i)) 1; Some (printf (fill 2 (p_x (le_val d)) ++ str " "))
             else Some (puts (str "   ")));
      rest ← hex_column k b o offset (i + 1) n;
      Some (out ++ rest)
  end.

Fixpoint char_column (k : nat) (b : bytes) (o offset i n : Z) : option output :=
  match k with
  | O => Some []
  | S k =>
      if i +u32 offset <? n then
        d ← read b (o + (offset +u32 i)) 1;
        let c := le_val d in
        rest ← char_column k b o offset (i + 1) n;
        Some (puts [if isprint c then c else 46] ++ rest)
      else Some []
  end.

(** [b] is the record's argument buffer and [o] the place of the data in it;
    the loop does not end when the fuel does not suffice. *)
(* src: src/format-basic.cc 69-88 do_hexdump *)
Fixpoint do_hexdump (fuel : nat) (b : bytes) (o offset n : Z) (xf : xdump_format) : option output :=
  match fuel with
  | O => None
  | S fuel =>
      if offset <? n then
        let lw := Z.to_nat (xf_line_width xf) in
        hex ← hex_column lw b o offset 0 n;
        chars ← char_column lw b o offset 0 n;
        rest ← do_hexdump fuel b o (offset +u32 xf_line_width xf) n xf;
        Some (printf (str (String (Ascii.ascii_of_nat 10) (String (Ascii.ascii_of_nat 9) "")) ++ p_d0 3 (s32 offset) ++ str ": ")
              ++ hex ++ puts (str "  ") ++ chars ++ rest)
      else Some []
  end.

Section Elements.
Variable show : Z -> bytes.          (* the conversion of one value *)
Variable width : Z.                  (* its size in bytes *)
Variables (b : bytes) (o : Z).

(** The bits of value [i]. *)
Definition element (i : Z) : option Z := d ← read b (o + i * width) width; Some (le_val d).

Definition show_element (i : Z) : option output := v ← element i; Some (printf (show v)).

Fixpoint single_rest (k : nat) (i n delim : Z) : option output :=
  match k with
  | O => Some []
  | S k =>
      if i <? n then
        out ← show_element i;
        rest ← single_rest k (i + 1) n delim;
        Some (puts [delim] ++ out ++ rest)
      else Some []
  end.

(* src: src/format-basic.cc 90-103 xdump_single *)
Definition xdump_single (n : Z) (xf : xdump_format) : option output :=
  out ← show_element 0;
  rest ← single_rest (Z.to_nat n) 1 n (xf_delim xf);
  Some (out ++ rest).

(** The rest of a line, with the index it stops at. *)
Fixpoint multi_row (k : nat) (i lw n line_width delim : Z) : option (output * Z) :=
  match k with
  | O => Some ([], i)
  | S k =>
      if (i <? n) && (lw <? line_width) then
        out ← show_element i;
        '(rest, i) ← multi_row k (i + 1) (lw + 1) n line_width delim;
        Some (puts [delim] ++ out ++ rest, i)
      else Some ([], i)
  end.

Fixpoint multi_rows (fuel : nat) (i n line_width delim : Z) : option output :=
  match fuel with
  | O => None
  | S fuel =>
      if i <? n then
        out ← show_element i;
        '(row, i) ← multi_row (Z.to_nat line_width) (i + 1) 1 n line_width delim;
        rest ← multi_rows fuel i n line_width delim;
        Some (puts [10; 9] ++ out ++ row ++ rest)
      else Some []
  end.

(* src: src/format-basic.cc 105-124 xdump_multi *)
Definition xdump_multi (n : Z) (xf : xdump_format) : option output :=
  if n =? 0 then Some []
  else if xf_line_width xf =? 0 then xdump_single n xf
  else multi_rows (S (Z.to_nat n)) 0 n (xf_line_width xf) (xf_delim xf).
End Elements.

Section Format.
Variable tsf : ts_format.
Variable localtime : Z -> tm.                                  (* localtime_r *)
Variable print_flt : string -> Z -> Z -> bytes.                (* conversion, size in bytes, bits *)
Variable gstr : Z -> bytes.                                    (* the string at an address *)
Variable area_at : Z -> area.                                  (* the area at an address *)
Variable vprintf : bytes -> list fmt_arg -> bytes * option bytes.
  (* the text of a format string, and the message of the exception that stopped it *)

(* src: src/format-basic.cc 126-135 __flt_fmt *)
Definition flt_fmt (pr : Z) : string :=
  match pr with
  | 1 => "%.1f" | 2 => "%.2f" | 3 => "%.3f" | 4 => "%.4f" | 5 => "%.5f" | _ => "%f"
  end.

(* src: src/format-basic.cc 137-146 __dbl_fmt *)
Definition dbl_fmt (pr : Z) : string :=
  match pr with
  | 1 => "%.1lf" | 2 => "%.2lf" | 3 => "%.3lf" | 4 => "%.4lf" | 5 => "%.5lf" | _ => "%f"
  end.

(** The conversion of a value by the type and the width of a dump; [None] when
    there is none. *)
Definition xdump_conv (xf : xdump_format) : option (Z -> bytes) :=
  let w := xf_byte_width xf in
  let integer := (w =? 1) || (w =? 2) || (w =? 4) || (w =? 8) in
  match xf_type xf with
  | 120 => if integer then Some p_x else None
  | 100 => if integer then Some (fun v => p_d (signed (8 * w) v)) else None
  | 117 => if integer then Some p_u else None
  | 102 => if w =? 4 then Some (print_flt (flt_fmt (xf_precision xf)) 4)
           else if w =? 8 then Some (print_flt (dbl_fmt (xf_precision xf)) 8) else None
  | _ => None
  end.

(** [b] holds the dump at offset [o]: its format and the data.  The division of
    the length is one of 64 bits; a zero width traps. *)
(* src: src/format-basic.cc 148-191 do_xdump *)
Definition do_xdump (b : bytes) (o len : Z) : option output :=
  h ← read b o 4;
  let xf := get_xf h in
  let p := o + 4 in
  if xf_byte_width xf =? 0 then None
  else
    let len := u32 ((len -u64 4) / xf_byte_width xf) in
    if xf_type xf =? 72 then do_hexdump (S (Z.to_nat len)) b p 0 len xf
    else match xdump_conv xf with
         | Some show => xdump_multi show (xf_byte_width xf) b p len xf
         | None => Some (printf (str "xdump conversion type " ++ [xf_type xf] ++ str " not supported"))
         end.

(* src: src/format-basic.cc 193-196 do_raw *)
Definition do_raw (addr len : Z) : output :=
  printf (str "rawdata " ++ p_u len ++ str " bytes @ " ++ p_ptr addr).

(** ** Arguments *)

(** The string of an argument: [Some None] is a null pointer. *)
(* src: src/format-basic.cc 504-520 get_arg_str *)
Definition get_arg_str (r : record) (type i : Z) : option (option bytes) :=
  if type =? CSTR then
    let '(offset, len) := get_arg_data r i in
    if len =? 0 then Some (Some (str "null"))
    else s ← c_string (drop (Z.to_nat offset) (r_argval r)); Some (Some s)
  else
    let ptr := if is_32bit type then get_arg_val32 r i else get_arg_val64 r i in
    Some (if ptr =? 0 then None else Some (gstr ptr)).

Definition arg_string (d : record_data) (i : Z) : option bytes := default None (rd_arg_str d !! Z.to_nat i).

Definition arg_value (r : record) (i type : Z) : Z :=
  if is_32bit type then get_arg_val32 r i else get_arg_val64 r i.

(** The text of one argument, the switch of [output_plain]. *)
(* src: src/format-basic.cc 208-254 format_basic::output_plain *)
Definition plain_arg (d : record_data) (i type : Z) : option output :=
  let r := rd_record d in
  let v := arg_value r i type in
  if (type =? GSTR) || (type =? CSTR) then Some (printf (p_s (arg_string d i)))
  else if type =? POINTER then Some (printf (p_ptr v))
  else if type =? INT32 then Some (printf (p_d (signed 32 (u32 v))))
  else if type =? UINT32 then Some (printf (p_u (u32 v)))
  else if type =? INT64 then Some (printf (p_d (signed 64 v)))
  else if type =? UINT64 then Some (printf (p_u v))
  else if type =? DOUBLE then Some (printf (print_flt "%lf" 8 v))
  else if type =? XDUMP then
    let '(offset, len) := get_arg_data r i in do_xdump (r_argval r) offset len
  else if type =? RAW then
    let '(offset, len) := get_arg_data r i in Some (do_raw (rd_argval d + offset) len)
  else Some (printf (p_u v)).

Fixpoint plain_args (k : nat) (d : record_data) (i : Z) : option output :=
  match k with
  | O => Some []
  | S k =>
      let type := get_arg_type (rd_record d) i in
      if type =? NONE then Some []
      else
        out ← plain_arg d i type;
        rest ← plain_args k d (i + 1);
        Some ((if 0 <? i then puts (str " ") else []) ++ out ++ rest)
  end.

(* src: src/format-basic.cc 198-258 format_basic::output_plain *)
Definition output_plain (d : record_data) : option output :=
  out ← plain_args (Z.to_nat (NARGS - rd_next_arg d)) d (rd_next_arg d);
  Some (out ++ puts newline).

(** A null string cannot be copied into the argument store. *)
(* src: src/format-basic.cc 275-313 format_basic::output_fmt *)
Definition store_arg (d : record_data) (i type : Z) : option fmt_arg :=
  let v := arg_value (rd_record d) i type in
  if (type =? CSTR) || (type =? GSTR) then s ← arg_string d i; Some (FStr s)
  else if type =? POINTER then Some (FPtr v)
  else if type =? INT32 then Some (FInt (signed 32 (u32 v)))
  else if type =? UINT32 then Some (FUint (u32 v))
  else if type =? INT64 then Some (FInt64 (signed 64 v))
  else if type =? UINT64 then Some (FUint64 v)
  else if type =? DOUBLE then Some (FDouble v)
  else if type =? XDUMP then Some (FStr (str "xdump not supported with format strings"))
  else if type =? RAW then Some (FStr (str "rawdata data not supported with format strings"))
  else Some (FUint64 v).

Fixpoint store_args (k : nat) (d : record_data) (i : Z) : option (list fmt_arg) :=
  match k with
  | O => Some []
  | S k =>
      let type := get_arg_type (rd_record d) i in
      if type =? NONE then Some []
      else a ← store_arg d i type; rest ← store_args k d (i + 1); Some (a :: rest)
  end.

(* src: src/format-basic.cc 260-323 format_basic::output_fmt *)
Definition output_fmt (d : record_data) : option output :=
  let first := rd_next_arg d + 1 in
  args ← store_args (Z.to_nat (NARGS - first)) d first;
  fmt ← arg_string d (rd_next_arg d);
  let '(out, err) := vprintf fmt args in
  Some (printf out ++ match err with Some what => puts what | None => [] end ++ puts newline).

(* src: src/format-basic.cc 325-331 format_basic::output_raw *)
Definition output_raw (d : record_data) : output :=
  let '(offset, len) := get_arg_data (rd_record d) 0 in
  do_raw (rd_argval d + offset) len ++ puts newline.

(** ** Headers *)

(* src: src/format-basic.cc 333-354 format_basic::tscache::update *)
Definition tscache_update (c : tscache) (t : Z) : option tscache :=
  let '(sec, nsec) := to_timespec tsf t in
  let nhi := u32 (nsec / NSEC_SPLIT) in
  let nlo := u32 (nsec mod NSEC_SPLIT) in
  b ← (if tc_sec c =? sec then Some (tc_str c)
       else '(b, _) ← u64tod sec (tc_str c) 0 SEC_LEN char0; Some b);
  b ← (if tc_nsec_hi c =? nhi then Some b
       else '(b, _) ← u64tod nhi b NSEC_HI_OFFSET NSEC_HI_LEN char0; Some b);
  '(b, _) ← u64tod nlo b NSEC_LO_OFFSET NSEC_LO_LEN char0;
  Some (mkTscache sec nhi b).

(** The date and time of a header. *)
Definition date_time (t : Z) : bytes :=
  let '(sec, nsec) := to_timespec tsf t in
  let tm := localtime sec in
  let u w v := fill w (p_u (u32 v)) in
  u 2 (tm_mon tm + 1) ++ u 2 (tm_mday tm) ++ u 4 (1900 + tm_year tm) ++ str " " ++
  u 2 (tm_hour tm) ++ str ":" ++ u 2 (tm_min tm) ++ str ":" ++ u 2 (tm_sec tm) ++ str "." ++ fill 9 (p_u nsec).

(* src: src/format-basic.cc 356-370 format_basic::default_header *)
Definition default_header (d : record_data) : output :=
  let r := rd_record d in
  printf (date_time (r_timestamp r) ++ str " " ++ rd_ring_name d ++ str ":" ++ p_u (r_seqnum r) ++ str " " ++
          rd_area_name d ++ str ":" ++ rd_sect_name d ++ str " ").

(** Writing at the index of a local array. *)
Definition put (bi : bytes * Z) (data : bytes) : option (bytes * Z) :=
  let '(b, i) := bi in b ← memcpy b i data; Some (b, i + Z.of_nat (length data)).

Definition put_u64 (bi : bytes * Z) (v : Z) : option (bytes * Z) := u64tod v bi.1 bi.2 0 char0.

Definition name_len (b : bytes) : Z := u32 (Z.of_nat (length b)).

(** What the local array holds before it is written is not specified. *)
Definition local_array (junk : Z -> Z) (n : Z) : bytes := map junk (seqZ 0 n).

(* src: src/format-basic.cc 372-404 format_basic::fast0_header *)
Definition fast0_header (junk : Z -> Z) (f : format_state) (d : record_data) : option (format_state * output) :=
  let r := rd_record d in
  let hlen := name_len (rd_area_name d) +u32 name_len (rd_sect_name d) +u32 name_len (rd_ring_name d)
              +u32 6 +u32 3 * 20 in
  c ← tscache_update (f_tscache f) (r_timestamp r);
  s ← put (local_array junk hlen, 0) (tc_str c);
  s ← put s (str " ");
  s ← put s (rd_ring_name d);
  s ← put s (str ":");
  s ← put_u64 s (r_seqnum r);
  s ← put s (str " ");
  s ← put s (rd_area_name d);
  s ← put s (str ":");
  s ← put s (rd_sect_name d);
  '(b, i) ← put s (str " ");
  Some (mkFormat (f_fields f) (f_last f) c, puts (take (Z.to_nat i) b)).

(** The time since the record before, zero for the first one. *)
Definition time_delta (f : format_state) (t : Z) : Z :=
  if f_last f =? from_nsec tsf 0 then from_nsec tsf 0 else ts_sub tsf t (to_nsec tsf (f_last f)).

(* src: src/format-basic.cc 406-447 format_basic::fast1_header *)
Definition fast1_header (junk : Z -> Z) (f : format_state) (d : record_data) : option (format_state * output) :=
  let r := rd_record d in
  let delta := time_delta f (r_timestamp r) in
  let hlen := name_len (rd_area_name d) +u32 name_len (rd_sect_name d) +u32 name_len (rd_ring_name d)
              +u32 9 +u32 4 * 20 in
  c ← tscache_update (f_tscache f) (r_timestamp r);
  s ← put (local_array junk hlen, 0) (tc_str c);
  s ← put s (str " ");
  s ← put s (str "(");
  s ← put_u64 s (to_nsec tsf delta);
  s ← put s (str ")");
  s ← put s (str " ");
  s ← put s (rd_ring_name d);
  s ← put s (str ":");
  s ← put_u64 s (r_seqnum r);
  s ← put s (str " ");
  s ← put s (rd_area_name d);
  s ← put s (str ":");
  s ← put s (rd_sect_name d);
  '(b, i) ← put s (str " ");
  Some (mkFormat (f_fields f) (r_timestamp r) c, puts (take (Z.to_nat i) b)).

Definition has (f : format_state) (field : Z) : bool := negb (Z.land (f_fields f) field =? 0).

(* src: src/format-basic.cc 449-502 format_basic::flexi_header *)
Definition flexi_header (f : format_state) (d : record_data) : option (format_state * output) :=
  let r := rd_record d in
  let t := r_timestamp r in
  '(f, out1) ←
    (if has f TIMESPEC then
       c ← tscache_update (f_tscache f) t;
       Some (mkFormat (f_fields f) (f_last f) c, puts (tc_str c) ++ puts (str " "))
     else Some (f, []));
  let out2 := if has f TIMESTAMP then printf (date_time t ++ str " ") else [] in
  let '(f, out3) :=
    if has f TIMEDELTA then
      (mkFormat (f_fields f) t (f_tscache f),
       printf (str "(" ++ p_u (to_nsec tsf (time_delta f t)) ++ str ") "))
    else (f, []) in
  let out4 :=
    match has f RING, has f SEQNUM with
    | true, true => printf (rd_ring_name d ++ str ":" ++ p_u (r_seqnum r) ++ str " ")
    | true, false => printf (rd_ring_name d ++ str " ")
    | false, true => printf (p_u (r_seqnum r) ++ str " ")
    | false, false => []
    end in
  let out5 :=
    match has f AREA, has f SECTION with
    | true, true => printf (rd_area_name d ++ str ":" ++ rd_sect_name d ++ str " ")
    | true, false => printf (rd_area_name d ++ str " ")
    | false, true => printf (rd_sect_name d ++ str " ")
    | false, false => []
    end in
  Some (f, out1 ++ out2 ++ out3 ++ out4 ++ out5).

(** ** A record *)

(** The strings of the arguments up to the first that is not there. *)
Fixpoint arg_strings (k : nat) (r : record) (i : Z) : option (list (option bytes)) :=
  match k with
  | O => Some []
  | S k =>
      let type := get_arg_type r i in
      if type =? NONE then Some []
      else
        s ← (if (type =? CSTR) || (type =? GSTR) then get_arg_str r type i else Some None);
        rest ← arg_strings k r (i + 1);
        Some (s :: rest)
  end.

Definition record_names (r : record) : bytes * bytes :=
  match r_area r with
  | Some a => (str (a_name (area_at a)), str (section_name (area_at a) (r_section r)))
  | None => (str "INVALID", str "INVALID")
  end.

(* src: src/format-basic.cc 524-548 format_basic::process *)
Definition expand (d : format_data) : option record_data :=
  let r := fd_record d in
  let '(area_name, sect_name) := record_names r in
  strs ← arg_strings (Z.to_nat NARGS) r 0;
  Some (mkRecordData r (fd_argval d) area_name sect_name (fd_ring_name d) strs 0).

Definition header (junk : Z -> Z) (f : format_state) (rd : record_data) : option (format_state * output) :=
  if f_fields f =? DEFAULT then Some (f, default_header rd)
  else if f_fields f =? FAST0 then fast0_header junk f rd
  else if f_fields f =? FAST1 then fast1_header junk f rd
  else flexi_header f rd.

(* src: src/format-basic.cc 559-573 format_basic::process *)
Definition body (rd : record_data) : option output :=
  let t0 := get_arg_type (rd_record rd) 0 in
  let t1 := get_arg_type (rd_record rd) 1 in
  if t0 =? RAW then Some (output_raw rd)
  else if ((t0 =? CSTR) || (t0 =? GSTR)) && negb (t1 =? NONE) && negb (t1 =? XDUMP) && negb (t1 =? RAW)
  then output_fmt rd
  else output_plain rd.

(** The pieces of a record, and the record appended to an output buffer. *)
Definition process_out (junk : Z -> Z) (f : format_state) (d : format_data) : option (format_state * output) :=
  rd ← expand d;
  '(f, head) ← header junk f rd;
  text ← body rd;
  Some (f, head ++ text).

(* src: src/format-basic.cc 522-574 format_basic::process *)
Definition process `{Stream U} (junk : Z -> Z) (f : format_state) (ou : ostrbuf * U) (d : format_data)
  : option (format_state * (ostrbuf * U)) :=
  '(f, out) ← process_out junk f d;
  Some (f, fold_left push_back out ou).
End Format.
