(* ===== verification/Platform.v ===== *)
(** * The platform layer (platform.cc, timesource.cc, output.cc)

    Messages of functions that may run before there is an engine, the filter for
    core dumps, and the objects that only carry a name.  What the system says is
    given. *)

From S2P Require Import Prelude Args Record Ring Area Timestamp Tso Post Registry Format.

Section Early.
Context `{Rx : Regex}.
Variables (fuel : nat) (m : memory) (junk_arg : arg).
(** The strings behind addresses, and the expansion of a format string. *)
Variable cstr : Z -> bytes.
Variable vprintf : bytes -> list fmt_arg -> bytes * option bytes.

(** The second argument is a string or a number. *)
Inductive early_arg := EarlyStr (p : Z) | EarlyInt (i : Z).

Definition early_value (a : early_arg) : cxx_value := match a with EarlyStr p => Vchars p | EarlyInt i => Vint i end.
Definition early_fmt (a : early_arg) : fmt_arg := match a with EarlyStr p => FStr (cstr p) | EarlyInt i => FInt (s32 i) end.

(** With an engine the message is posted to the ring of the thread, without one
    it is printed. *)
Inductive early := EarlyPosted (res : post_result) | EarlyPrinted (text : bytes) | EarlyThrew (text what : bytes).

Definition section_prefix (section : Z) : bytes :=
  if section =? internal_id I_INFO then str "info:"
  else if section =? internal_id I_ERROR then str "error:"
  else if section =? internal_id I_WARN then str "warn:"
  else [].

(** [default_engine] has the ring of the thread, the internal area of the engine
    and its address. *)
(* src: src/platform.cc 49-85 __post_early, post_early *)
Definition post_early (default_engine : option (ring * area * Z)) (ap0 : argpack) (now section fmt arg0 : Z) (arg1 : early_arg)
  : option early :=
  match default_engine with
  | Some (r, ar, a) =>
      args ← mapM (arg_of fuel m junk_arg) [Vchars fmt; Vchars arg0; early_value arg1];
      res ← post m ap0 r ar now a section args; Some (EarlyPosted res)
  | None =>
      let '(out, what) := vprintf (cstr fmt) [FStr (cstr arg0); early_fmt arg1] in
      Some (match what with
            | None => EarlyPrinted (section_prefix section ++ out ++ newline)
            | Some what => EarlyThrew (section_prefix section ++ out) what
            end)
  end.

(** The message, if there is one, and the result.  [opened] tells that the file
    of the filter could be opened; [written] and [errno] are what [fprintf]
    leaves. *)
Record early_message := mkEarly { em_section : internal_section; em_fmt : string; em_arg0 : option Z; em_arg1 : Z }.

(* src: src/platform.cc 91-108 enable_verbose_coredump *)
Definition enable_verbose_coredump (opened : bool) (written errno : Z) : bool * option early_message :=
  if opened then
    if written <? 0 then (false, Some (mkEarly I_ERROR "could not enable verbose coredump. %s(%d)" (Some errno) errno))
    else (true, None)
  else (false, Some (mkEarly I_WARN "verbose coredump is not supported" None 0)).

Lemma chars_ok p : is_u64 p -> is_Some (strlen fuel m p) -> exists a, arg_of fuel m junk_arg (Vchars p) = Some a /\ arg_wf a.
Proof.
  intros Hp [n Hn]; cbn [arg_of]; rewrite Hn; destruct (p =? 0); cbn [mbind option_bind]; (eexists; split; [reflexivity|]);
    (split; [cbn [a_type]; vm_compute; intuition discriminate|apply u64_range|cbn [a_len]; apply u32_range || (words; lia)]).
Qed.

Lemma early_value_ok a : is_u32 (a_len junk_arg) -> (forall p, a = EarlyStr p -> is_u64 p /\ is_Some (strlen fuel m p)) ->
  exists x, arg_of fuel m junk_arg (early_value a) = Some x /\ arg_wf x.
Proof.
  intros Hj Hs; destruct a as [p|i]; [destruct (Hs p eq_refl); now apply chars_ok|].
  eexists; split; [reflexivity|]; split; [cbn [a_type]; vm_compute; intuition discriminate|apply u64_range|exact Hj].
Qed.

(** Without an engine the text is that of the format string behind the name of
    the section; with one the message is a posting to the ring of the thread,
    which happens unless the section of the internal area is disabled.  With
    strings that end and a format string that suits there is always an
    outcome. *)
Theorem post_early_total default_engine ap0 now section fmt arg0 arg1 : mem_ok m -> pack_wf ap0 -> is_u32 (a_len junk_arg) ->
  (forall p, p = fmt \/ p = arg0 \/ arg1 = EarlyStr p -> is_u64 p /\ is_Some (strlen fuel m p)) ->
  (forall r ar a, default_engine = Some (r, ar, a) -> ring_wf r /\ recs_ok r /\ area_ok ar /\ 0 <= section < area_count ar) ->
  (vprintf (cstr fmt) [FStr (cstr arg0); early_fmt arg1]).2 = None ->
  match default_engine, post_early default_engine ap0 now section fmt arg0 arg1 with
  | Some (r, ar, _), Some (EarlyPosted res) => res = Skipped <-> area_test ar section = Some false
  | None, Some (EarlyPrinted text) =>
      text = section_prefix section ++ (vprintf (cstr fmt) [FStr (cstr arg0); early_fmt arg1]).1 ++ newline
  | _, _ => False
  end.
Proof.
  intros Hm Hap Hj Hs He Hf; destruct default_engine as [[[r ar] a]|]; unfold post_early.
  - destruct (He r ar a eq_refl) as (W & O & Oa & Hc); destruct (chars_ok fmt) as (x0 & E0 & W0); [apply Hs; auto..|].
    destruct (chars_ok arg0) as (x1 & E1 & W1); [apply Hs; auto..|]; destruct (early_value_ok arg1 Hj (fun p H => Hs p (or_intror (or_intror H)))) as (x2 & E2 & W2).
    cbn [mapM]; rewrite E0, E1, E2; cbn [mbind option_bind mret option_ret]; unfold post; rewrite (area_test_bit ar section Oa Hc).
    cbn [mbind option_bind]; destruct (bm_bit (a_bitmap ar) section); [|cbn [mbind option_bind]; done].
    destruct (push_args_eq m ap0 r now a section [x0; x1; x2] Hm ltac:(cbn; lia) ltac:(repeat (apply Forall_cons; split; [assumption|]); apply Forall_nil; exact I) Hap W O) as (x & _ & _ & _ & _ & _ & _ & ->).
    cbn [mbind option_bind]; split; [done|intros [=]].
  - destruct (vprintf _ _) as [out what]; cbn [snd fst] in *; now subst.
Qed.
End Early.

(** ** Time sources *)

(** The callback returns a time stamp; the name is a copy, [None] when there was
    no memory for it. *)
(* src: include/hogl/detail/timesource.hpp 46-78 timesource *)
Record timesource := mkTimesource { ts_callback : Z * Z -> Z; ts_label : option string }.

Definition strdup (memory_left : bool) (s : option string) : option string := if memory_left then s else None.

(* src: src/timesource.cc 39-41 timesource::timesource *)
Definition timesource_new (memory_left : bool) (name : string) (cb : Z * Z -> Z) : timesource :=
  mkTimesource cb (strdup memory_left (Some name)).
(* src: src/timesource.cc 43-45 timesource::timesource *)
Definition timesource_copy (memory_left : bool) (ts : timesource) : timesource :=
  mkTimesource (ts_callback ts) (strdup memory_left (ts_label ts)).

(** The clocks of the system as seconds and nanoseconds. *)
(* src: src/default-timesource.cc 41-46 clock_realtime *)
Definition clock_realtime (tsf : ts_format) (clock : Z * Z) : Z := from_timespec tsf clock.1 clock.2.
(* src: src/default-timesource.cc 48-48 realtime_timesource *)
Definition realtime_timesource (tsf : ts_format) : timesource := timesource_new true "clock_realtime" (clock_realtime tsf).
(* src: src/default-timesource.cc 51-56 clock_monotonic *)
Definition clock_monotonic (tsf : ts_format) (clock : Z * Z) : Z := from_timespec tsf clock.1 clock.2.

(** In the nanosecond format a time source that follows a clock follows its
    order, and so do its copies. *)
Lemma clocks_ordered left s1 n1 s2 n2 : clock_ok s1 n1 -> clock_ok s2 n2 ->
  let ts := timesource_copy left (realtime_timesource Nsec) in
  s1 * nsec_per_sec + n1 <= s2 * nsec_per_sec + n2 <-> ts_callback ts (s1, n1) <= ts_callback ts (s2, n2).
Proof.
  intros O1 O2; cbn [ts_callback timesource_copy realtime_timesource timesource_new]; unfold clock_realtime; cbn [fst snd].
  now rewrite !from_timespec_nsec.
Qed.

(** ** Messages, concretely *)

(** Three letters behind the address 100. *)
Definition early_mem : memory := fun a => if a =? 103 then 0 else 65.

Lemma early_mem_ok : mem_ok early_mem.
Proof. intros a; unfold early_mem; destruct (a =? 103); words; lia. Qed.

Definition early_cstr (p : Z) : bytes := if p =? 100 then str "AAA" else [].
Definition early_vprintf (fmt : bytes) (args : list fmt_arg) : bytes * option bytes := (fmt, None).

Lemma post_early_total_witness :
  post_early 8 early_mem (mkArg 0 0 0) early_cstr early_vprintf None demo_pack 42 1 100 0 (EarlyInt 7) =
    Some (EarlyPrinted (str "warn:AAA" ++ newline)) /\
  exists res, post_early 8 early_mem (mkArg 0 0 0) early_cstr early_vprintf (Some (demo_ring 0 0, demo_enabled, 9)) demo_pack 42 1 100 100 (EarlyStr 100) =
    Some (EarlyPosted res) /\ res <> Skipped.
Proof.
  split; [vm_compute; reflexivity|].
  assert (Hs : forall p, p = 100 \/ p = 100 \/ EarlyStr 100 = EarlyStr p -> is_u64 p /\ is_Some (strlen 8 early_mem p))
    by (intros p [->|[->|[= <-]]]; (split; [words; lia|vm_compute; eauto])).
  assert (He : forall r ar a, Some (demo_ring 0 0, demo_enabled, 9) = Some (r, ar, a) -> ring_wf r /\ recs_ok r /\ area_ok ar /\ 0 <= 1 < area_count ar).
  { intros r ar a [= <- <- <-]; split; [apply demo_ring_wf; lia|]; split; [apply demo_ring_ok|]; split; [apply demo_enabled_ok|vm_compute; intuition discriminate]. }
  pose proof (post_early_total 8 early_mem (mkArg 0 0 0) early_cstr early_vprintf (Some (demo_ring 0 0, demo_enabled, 9)) demo_pack 42 1 100 100
    (EarlyStr 100) early_mem_ok demo_pack_wf ltac:(words; cbn; lia) Hs He eq_refl) as T.
  cbv iota beta in T; revert T; generalize (post_early 8 early_mem (mkArg 0 0 0) early_cstr early_vprintf (Some (demo_ring 0 0, demo_enabled, 9)) demo_pack 42 1 100 100 (EarlyStr 100)).
  intros o T; destruct o as [[res|text|text what]|]; [|exfalso; exact T..].
  exists res; split; [reflexivity|]; intros ->; destruct T as [T _]; specialize (T eq_refl); vm_compute in T; discriminate T.
Defined.
