(* ===== verification/FormatFacts.v ===== *)
(** * Properties of the basic text format

    The timestamp cache against a direct rendering of the time, the two fast
    headers against the configurable one, the line of a posted record, dumps. *)

From S2P Require Import Prelude Args Record Area Timestamp Ntos Ostrbuf Format.

(** ** Numerals of fixed width *)

Fixpoint fixed (w : nat) (v : Z) : bytes :=
  match w with
  | O => []
  | S w => fixed w (v / 10) ++ [v mod 10 + char0]
  end.

Lemma fixed_length w v : length (fixed w v) = w.
Proof. revert v; induction w as [|w IH]; intros v; cbn [fixed]; [done|]; rewrite length_app, IH; cbn; lia. Qed.
#[export] Hint Rewrite fixed_length : hogl.

Lemma fixed_zero w : fixed w 0 = replicate w char0.
Proof.
  induction w as [|w IH]; [done|]; cbn [fixed]; change (0 / 10) with 0; rewrite IH.
  replace (S w) with (w + 1)%nat by lia; now rewrite replicate_add.
Qed.

Lemma fixed_app a b v : 0 <= v -> fixed (a + b) v = fixed a (v / 10 ^ Z.of_nat b) ++ fixed b (v mod 10 ^ Z.of_nat b).
Proof.
  revert v; induction b as [|b IH]; intros v Hv; cbn [fixed].
  - rewrite Nat.add_0_r, app_nil_r; cbn; now rewrite Z.div_1_r.
  - rewrite Nat.add_succ_r; cbn [fixed]; rewrite IH by (apply Z.div_pos; lia); rewrite <- app_assoc.
    replace (Z.of_nat (S b)) with (1 + Z.of_nat b) by lia; rewrite Z.pow_add_r, Z.pow_1_r by lia.
    assert (P : 0 < 10 ^ Z.of_nat b) by (apply Z.pow_pos_nonneg; lia).
    rewrite Z.div_div by lia; do 2 f_equal; rewrite Z.rem_mul_r by lia.
    + rewrite (Z.mul_comm 10 (_ mod _)), Z.div_add by lia.
      rewrite (Z.div_small (v mod 10)) by (apply Z.mod_pos_bound; lia); now rewrite Z.add_0_l.
    + rewrite (Z.mul_comm 10 (_ mod _)), Z.mod_add, Z.mod_mod by lia; done.
Qed.

Lemma fixed_digits fuel : forall v w, 0 <= v < 10 ^ Z.of_nat fuel -> v < 10 ^ Z.of_nat w -> (0 < fuel)%nat -> (0 < w)%nat ->
  rev (padded (dec_digits fuel v) (Z.of_nat w) char0) = fixed w v.
Proof.
  induction fuel as [|fuel IH]; intros v w Hv Hw Hf Hw0; [lia|]; destruct w as [|w]; [lia|]; cbn [dec_digits fixed].
  pose proof (Z.mod_pos_bound v 10 eq_refl); pose proof (Z.div_pos v 10 ltac:(lia) eq_refl).
  rewrite !Nat2Z.inj_succ, !Z.pow_succ_r in * by lia.
  destruct (Z.eqb_spec (v / 10) 0) as [E|N].
  - rewrite E, fixed_zero, rev_padded; cbn [length rev app]; do 2 f_equal; lia.
  - rewrite <- (IH (v / 10) w); [| |apply Z.div_lt_upper_bound; lia| |].
    + rewrite !rev_padded; cbn [length rev]; rewrite app_assoc; do 3 f_equal; lia.
    + split; [lia|]; apply Z.div_lt_upper_bound; lia.
    + destruct fuel; [cbn in Hv; Z.div_mod_to_equations; lia|lia].
    + destruct w; [cbn in Hw; Z.div_mod_to_equations; lia|lia].
Qed.

Lemma dec_padded_fixed v w : is_u64 v -> v < 10 ^ Z.of_nat w -> (0 < w)%nat -> dec_padded v (Z.of_nat w) char0 = fixed w v.
Proof.
  intros H Hw H0; rewrite <- (fixed_digits 20 v w); [|words; lia|done|lia|done].
  unfold dec_padded, dec; now rewrite rev_padded, length_rev.
Qed.

(** ** Writing in the middle of an array *)

Lemma memcpy_mid (a b b' c : bytes) o : o = Z.of_nat (length a) -> length b' = length b ->
  memcpy (a ++ b ++ c) o b' = Some (a ++ b' ++ c).
Proof.
  intros -> L; unfold memcpy; rewrite decide_True by (rewrite !length_app; lia).
  rewrite Nat2Z.id, take_app_length, L; do 3 f_equal.
  now rewrite app_assoc, <- length_app, drop_app_length.
Qed.

Lemma u64tod_fixed v (a b c s : bytes) o width (w : nat) : s = a ++ b ++ c -> width = Z.of_nat w ->
  is_u64 v -> v < 10 ^ Z.of_nat w -> (0 < w <= 32)%nat -> o = Z.of_nat (length a) -> length b = w ->
  u64tod v s o width char0 = Some (a ++ fixed w v ++ c, o + Z.of_nat w).
Proof.
  intros -> -> Hv Hw H0 -> L; rewrite u64tod_ok by lia; rewrite dec_padded_fixed by (done || lia).
  rewrite (memcpy_mid a b (fixed w v) c) by (rewrite ?fixed_length; done); cbn; now rewrite fixed_length.
Qed.

(** ** The timestamp cache *)

(** The text holds the parts it is tagged with. *)
Record tc_ok (c : tscache) : Prop := {
  tco_sec : 0 <= tc_sec c < 10 ^ 11; tco_hi : 0 <= tc_nsec_hi c < 10 ^ 5;
  tco_str : exists lo, length lo = 4%nat /\ tc_str c = fixed 11 (tc_sec c) ++ str "." ++ fixed 5 (tc_nsec_hi c) ++ lo }.

Lemma tscache_new_ok : tc_ok tscache_new.
Proof. split; cbn [tscache_new tc_sec tc_nsec_hi]; [lia|lia|]; exists (fixed 4 0); split; reflexivity. Qed.

Section Clock.
Variable tsf : ts_format.

(** A timestamp whose nanoseconds are below a second: all are in the default
    format. *)
Definition clock_time (t : Z) : Prop := is_u64 t /\ (to_timespec tsf t).2 < nsec_per_sec.

Lemma clock_time_bounds t : clock_time t ->
  0 <= (to_timespec tsf t).1 < 10 ^ 11 /\ is_u64 (to_timespec tsf t).1 /\ 0 <= (to_timespec tsf t).2 < 10 ^ 9.
Proof.
  intros [H N]; unfold nsec_per_sec in N; revert N; unfold to_timespec, ts_sec, ts_nsec, nsec_per_sec; words.
  destruct tsf; cbn [fst snd]; Z.div_mod_to_equations; lia.
Qed.

(** What [printf] prints for "%011lu.%09lu". *)
Definition timespec_text (t : Z) : bytes :=
  let '(sec, nsec) := to_timespec tsf t in dec_padded sec 11 char0 ++ str "." ++ dec_padded nsec 9 char0.

Lemma timespec_text_fixed t : clock_time t ->
  timespec_text t = fixed 11 (to_timespec tsf t).1 ++ str "." ++
    fixed 5 ((to_timespec tsf t).2 / 10000) ++ fixed 4 ((to_timespec tsf t).2 mod 10000).
Proof.
  intros H; pose proof (clock_time_bounds t H) as (S & U & N); unfold timespec_text.
  destruct (to_timespec tsf t) as [sec nsec]; cbn [fst snd] in *.
  change 11 with (Z.of_nat 11); change 9 with (Z.of_nat 9).
  rewrite !dec_padded_fixed by (words; lia); do 2 f_equal.
  change 9%nat with (5 + 4)%nat; rewrite fixed_app by lia; done.
Qed.

Lemma tscache_update_ok c t : tc_ok c -> clock_time t ->
  exists c', tscache_update tsf c t = Some c' /\ tc_ok c' /\ tc_str c' = timespec_text t.
Proof.
  intros [S0 H0 (lo & Ll & E0)] Ht; rewrite timespec_text_fixed by done.
  pose proof (clock_time_bounds t Ht) as (S & U & N); unfold tscache_update.
  destruct (to_timespec tsf t) as [sec nsec]; cbn [fst snd] in *.
  assert (Hhi : 0 <= nsec / 10000 < 10 ^ 5) by (Z.div_mod_to_equations; lia).
  assert (Hlo : 0 <= nsec mod 10000 < 10 ^ 4) by (Z.div_mod_to_equations; lia).
  unfold NSEC_SPLIT; rewrite !u32_small by (words; lia); set (hi := nsec / 10000) in *; set (l := nsec mod 10000) in *.
  assert (E1 : (if tc_sec c =? sec then Some (tc_str c)
       else '(b, _) ← u64tod sec (tc_str c) 0 SEC_LEN char0; Some b) =
     Some (fixed 11 sec ++ str "." ++ fixed 5 (tc_nsec_hi c) ++ lo)).
  { destruct (Z.eqb_spec (tc_sec c) sec) as [<-|_]; [now rewrite E0|].
    rewrite E0, (u64tod_fixed sec [] (fixed 11 (tc_sec c)) (str "." ++ fixed 5 (tc_nsec_hi c) ++ lo) _ 0 SEC_LEN 11);
      [done|done|done|done|lia|lia|done|apply fixed_length]. }
  rewrite E1; cbn [mbind option_bind].
  assert (E2 : (if tc_nsec_hi c =? hi then Some (fixed 11 sec ++ str "." ++ fixed 5 (tc_nsec_hi c) ++ lo)
       else '(b, _) ← u64tod hi (fixed 11 sec ++ str "." ++ fixed 5 (tc_nsec_hi c) ++ lo) NSEC_HI_OFFSET NSEC_HI_LEN char0; Some b) =
     Some (fixed 11 sec ++ str "." ++ fixed 5 hi ++ lo)).
  { destruct (Z.eqb_spec (tc_nsec_hi c) hi) as [<-|_]; [done|].
    rewrite (app_assoc _ (str ".")), (u64tod_fixed hi (fixed 11 sec ++ str ".") (fixed 5 (tc_nsec_hi c)) lo _ NSEC_HI_OFFSET NSEC_HI_LEN 5);
      [cbn [mbind option_bind]; now rewrite <- app_assoc|done|done|words; lia|lia|lia| |apply fixed_length].
    now rewrite length_app, fixed_length. }
  rewrite E2; cbn [mbind option_bind].
  rewrite (u64tod_fixed l (fixed 11 sec ++ str "." ++ fixed 5 hi) lo [] _ NSEC_LO_OFFSET NSEC_LO_LEN 4);
    [|now rewrite app_nil_r, <- !app_assoc|done|words; lia|lia|lia|now rewrite !length_app, !fixed_length|done].
  cbn [mbind option_bind]; rewrite app_nil_r, <- !app_assoc; eexists; split; [done|]; split; [|done].
  split; cbn [tc_sec tc_nsec_hi tc_str]; [lia|lia|]; exists (fixed 4 l); split; [apply fixed_length|done].
Qed.

Fixpoint update_all (c : tscache) (ts : list Z) : option tscache :=
  match ts with [] => Some c | t :: ts => c ← tscache_update tsf c t; update_all c ts end.

(** The cache that rewrites only the parts of the time that changed always
    holds the text of the last timestamp: after any sequence of timestamps, in
    either format and in any order, it is the seconds in eleven digits, a dot
    and the nanoseconds in nine, and no write leaves the array. *)
Theorem tscache_reference ts t : Forall clock_time (ts ++ [t]) ->
  exists c, update_all tscache_new (ts ++ [t]) = Some c /\ tc_str c = timespec_text t.
Proof.
  assert (G : forall c, tc_ok c -> Forall clock_time (ts ++ [t]) ->
    exists c', update_all c (ts ++ [t]) = Some c' /\ tc_str c' = timespec_text t).
  { induction ts as [|s ts IH]; intros c Oc H; cbn [app update_all] in *; apply Forall_cons in H as [Hs H];
      destruct (tscache_update_ok c _ Oc Hs) as (c' & E & Oc' & S); rewrite E; cbn [mbind option_bind];
      [exists c'; done|now apply IH]. }
  apply G, tscache_new_ok.
Qed.
End Clock.

Lemma clock_time_nsec t : is_u64 t -> clock_time Nsec t.
Proof. intros H; split; [exact H|]; cbn; unfold nsec_per_sec; apply Z.mod_pos_bound; lia. Qed.

Lemma tscache_reference_witness :
  exists c, update_all Nsec tscache_new [1500000000123456789; 1500000000123450000; 7] = Some c /\
    tc_str c = str "00000000000.000000007".
Proof.
  apply (tscache_reference Nsec [1500000000123456789; 1500000000123450000] 7).
  repeat (apply Forall_cons; split; [apply clock_time_nsec; words; lia|]); constructor.
Defined.

(** ** The headers *)

Lemma concat_printf b : concat (printf b) = b.
Proof. unfold printf; induction b as [|c b IH]; [done|]; cbn; now rewrite IH. Qed.

Lemma concat_puts b : concat (puts b) = b.
Proof. apply app_nil_r. Qed.

#[export] Hint Rewrite concat_printf concat_puts : hogl.

(** The array is filled up to its index with [s]. *)
Definition holds (n : Z) (bi : bytes * Z) (s : bytes) : Prop :=
  Z.of_nat (length bi.1) = n /\ bi.2 = Z.of_nat (length s) /\ take (length s) bi.1 = s.

Lemma put_holds n bi s data : holds n bi s -> Z.of_nat (length (s ++ data)) <= n ->
  exists bi', put bi data = Some bi' /\ holds n bi' (s ++ data).
Proof.
  destruct bi as [b i]; intros (L & I & T) Hn; cbn [fst snd] in *; subst i; rewrite length_app in Hn.
  unfold put; destruct (memcpy_some b (Z.of_nat (length s)) data) as [b' E]; [lia|lia|]; rewrite E.
  eexists; split; [reflexivity|]; split; [|split]; cbn [fst snd].
  - now rewrite (memcpy_length _ _ _ _ E).
  - rewrite length_app; lia.
  - unfold memcpy in E; rewrite decide_True in E by lia; injection E as <-.
    rewrite Nat2Z.id, T, app_assoc, take_app_length; done.
Qed.

Lemma put_u64_holds n bi s v : holds n bi s -> Z.of_nat (length (s ++ dec v)) <= n ->
  exists bi', put_u64 bi v = Some bi' /\ holds n bi' (s ++ dec v).
Proof.
  intros H Hn; destruct (put_holds n bi s (dec v) H Hn) as (bi' & E & H'); exists bi'; split; [|exact H'].
  destruct bi as [b i]; unfold put_u64; cbn [fst snd]; rewrite u64tod_ok by lia; exact E.
Qed.

Lemma local_array_holds junk n : 0 <= n -> holds n (local_array junk n, 0) [].
Proof. intros H; unfold local_array; split; [|done]; cbn [fst]; rewrite length_map, length_seqZ; lia. Qed.

Ltac one_chars :=
  change (length (str ":")) with 1%nat in *; change (length (str " ")) with 1%nat in *;
  change (length (str "(")) with 1%nat in *; change (length (str ")")) with 1%nat in *.

(** One step of filling the array. *)
Ltac fill_end := rewrite !length_app; one_chars; cbn [length]; lia.
Ltac fill_with lem bi data :=
  match goal with H : holds ?n bi ?s |- _ =>
    let s' := fresh "s" in let E := fresh "E" in let H' := fresh "H" in
    destruct (lem n bi s data H) as (s' & E & H'); [fill_end|rewrite E; cbn [mbind option_bind]; clear E H] end.
Ltac fill_step := match goal with
  | |- context [put ?bi ?data ≫= _] => fill_with put_holds bi data
  | |- context [put_u64 ?bi ?v ≫= _] => fill_with put_u64_holds bi v
  | |- context [put ?bi ?data] => fill_with put_holds bi data
  end.

Section Headers.
Variable tsf : ts_format.
Variable localtime : Z -> tm.
Variable junk : Z -> Z.

Definition names_length (d : record_data) : Z :=
  Z.of_nat (length (rd_area_name d)) + Z.of_nat (length (rd_sect_name d)) + Z.of_nat (length (rd_ring_name d)).

(** What the formatter relies on: names of less than 4 GB, a sequence number
    and a timestamp of 64 bits. *)
Record header_ok (d : record_data) : Prop := {
  hok_names : names_length d < 4294967000; hok_seq : is_u64 (r_seqnum (rd_record d));
  hok_time : clock_time tsf (r_timestamp (rd_record d)) }.

Lemma tc_length c : tc_ok c -> Z.of_nat (length (tc_str c)) = 21.
Proof. intros [_ _ (lo & L & ->)]; rewrite !length_app, !fixed_length, L; reflexivity. Qed.

(** The record's place in a header, shared by both fast headers. *)
Definition name_text (d : record_data) : bytes :=
  rd_ring_name d ++ str ":" ++ dec (r_seqnum (rd_record d)) ++ str " " ++
  rd_area_name d ++ str ":" ++ rd_sect_name d ++ str " ".

Lemma header_length (d : record_data) k : header_ok d -> 0 <= k < 200 ->
  name_len (rd_area_name d) +u32 name_len (rd_sect_name d) +u32 name_len (rd_ring_name d) +u32 k = names_length d + k.
Proof.
  intros [N _ _]; unfold names_length, name_len in *; intros Hk.
  set (a := Z.of_nat (length (rd_area_name d))) in *; set (s := Z.of_nat (length (rd_sect_name d))) in *.
  set (r := Z.of_nat (length (rd_ring_name d))) in *; assert (0 <= a /\ 0 <= s /\ 0 <= r) by lia.
  rewrite (u32_small a), (u32_small s), (u32_small r), (u32_small (a + s)), (u32_small (a + s + r)), u32_small
    by (words; lia); lia.
Qed.

(** The text in the array once it has been filled. *)
Lemma filled n bi s : holds n bi s -> concat (puts (take (Z.to_nat bi.2) bi.1)) = s.
Proof. intros (_ & -> & T); now rewrite Nat2Z.id, concat_puts. Qed.

(** The header of the record [d] after the time: what the two have in common,
    and the one with the time since the last record. *)
Lemma fast0_text f d : header_ok d -> tc_ok (f_tscache f) ->
  exists c out, tscache_update tsf (f_tscache f) (r_timestamp (rd_record d)) = Some c /\ tc_ok c /\
    fast0_header tsf junk f d = Some (mkFormat (f_fields f) (f_last f) c, out) /\
    concat out = tc_str c ++ str " " ++ name_text d.
Proof.
  intros O Oc; destruct (tscache_update_ok tsf _ _ Oc (hok_time d O)) as (c & E & Oc' & _).
  exists c; unfold fast0_header; rewrite E; cbn [mbind option_bind].
  pose proof (hok_names d O) as N; rewrite header_length by (done || lia); change (3 * 20) with 60.
  assert (N0 : 0 <= names_length d) by (unfold names_length; lia); rewrite u32_small by (words; lia).
  pose proof (local_array_holds junk (names_length d + 6 + 60) ltac:(lia)) as H.
  pose proof (tc_length c Oc') as Lc; pose proof (dec_length _ (hok_seq d O)) as Ld; unfold names_length in *.
  do 10 fill_step; match goal with H : holds _ ?s _ |- _ => pose proof (filled _ _ _ H) as F; destruct s as [b i] end.
  eexists; split; [done|]; split; [done|]; split; [done|]; cbn [fst snd] in F; rewrite F; unfold name_text.
  now rewrite <- !app_assoc.
Qed.

Lemma fast1_text f d : header_ok d -> tc_ok (f_tscache f) -> is_u64 (to_nsec tsf (time_delta tsf f (r_timestamp (rd_record d)))) ->
  exists c out, tscache_update tsf (f_tscache f) (r_timestamp (rd_record d)) = Some c /\ tc_ok c /\
    fast1_header tsf junk f d = Some (mkFormat (f_fields f) (r_timestamp (rd_record d)) c, out) /\
    concat out = tc_str c ++ str " (" ++
      dec (to_nsec tsf (time_delta tsf f (r_timestamp (rd_record d)))) ++ str ") " ++ name_text d.
Proof.
  intros O Oc Hd; destruct (tscache_update_ok tsf _ _ Oc (hok_time d O)) as (c & E & Oc' & _).
  exists c; unfold fast1_header; rewrite E; cbn [mbind option_bind].
  pose proof (hok_names d O) as N; rewrite header_length by (done || lia); change (4 * 20) with 80.
  assert (N0 : 0 <= names_length d) by (unfold names_length; lia); rewrite u32_small by (words; lia).
  pose proof (local_array_holds junk (names_length d + 9 + 80) ltac:(lia)) as H.
  pose proof (tc_length c Oc') as Lc; pose proof (dec_length _ (hok_seq d O)) as Ld; unfold names_length in *.
  pose proof (dec_length _ Hd) as Lt.
  do 14 fill_step; match goal with H : holds _ ?s _ |- _ => pose proof (filled _ _ _ H) as F; destruct s as [b i] end.
  eexists; split; [done|]; split; [done|]; split; [done|]; cbn [fst snd] in F; rewrite F; unfold name_text.
  change (str " (") with (str " " ++ str "("); change (str ") ") with (str ")" ++ str " "); now rewrite <- !app_assoc.
Qed.

Lemma time_delta_u64 f t : is_u64 (to_nsec tsf (time_delta tsf f t)).
Proof.
  unfold time_delta, ts_sub, from_nsec, to_nsec; destruct tsf.
  - destruct (f_last f =? 0); [words; lia|apply u64_range].
  - match goal with |- is_u64 (u32 ?x) => pose proof (u32_range x) end; words; lia.
Qed.

(** The configurable header with the fields of a fast one. *)
Lemma flexi_fast0 f d c : f_fields f = FAST0 ->
  tscache_update tsf (f_tscache f) (r_timestamp (rd_record d)) = Some c ->
  exists out, flexi_header tsf localtime f d = Some (mkFormat (f_fields f) (f_last f) c, out) /\
    concat out = tc_str c ++ str " " ++ name_text d.
Proof.
  intros Hf E; unfold flexi_header; assert (Hh : forall c l x, has (mkFormat (f_fields f) l c) x = negb (Z.land FAST0 x =? 0))
    by (intros; unfold has; cbn; now rewrite Hf).
  assert (Hh' : forall x, has f x = negb (Z.land FAST0 x =? 0)) by (intros; unfold has; now rewrite Hf).
  rewrite !Hh'; change (negb (Z.land FAST0 TIMESPEC =? 0)) with true; cbn iota; rewrite E; cbn [mbind option_bind].
  rewrite !Hh; change (negb (Z.land FAST0 TIMEDELTA =? 0)) with false; cbn iota.
  rewrite !Hh; eexists; split; [reflexivity|]; change (negb (Z.land FAST0 TIMESTAMP =? 0)) with false.
  change (negb (Z.land FAST0 RING =? 0)) with true; change (negb (Z.land FAST0 SEQNUM =? 0)) with true.
  change (negb (Z.land FAST0 AREA =? 0)) with true; change (negb (Z.land FAST0 SECTION =? 0)) with true.
  cbn iota; rewrite !concat_app, !concat_puts, !concat_printf; unfold name_text, p_u; cbn [concat app].
  now rewrite <- !app_assoc.
Qed.

Lemma flexi_fast1 f d c : f_fields f = FAST1 ->
  tscache_update tsf (f_tscache f) (r_timestamp (rd_record d)) = Some c ->
  exists out, flexi_header tsf localtime f d = Some (mkFormat (f_fields f) (r_timestamp (rd_record d)) c, out) /\
    concat out = tc_str c ++ str " (" ++
      dec (to_nsec tsf (time_delta tsf f (r_timestamp (rd_record d)))) ++ str ") " ++ name_text d.
Proof.
  intros Hf E; unfold flexi_header; assert (Hh : forall c l x, has (mkFormat (f_fields f) l c) x = negb (Z.land FAST1 x =? 0))
    by (intros; unfold has; cbn; now rewrite Hf).
  assert (Hh' : forall x, has f x = negb (Z.land FAST1 x =? 0)) by (intros; unfold has; now rewrite Hf).
  rewrite !Hh'; change (negb (Z.land FAST1 TIMESPEC =? 0)) with true; cbn iota; rewrite E; cbn [mbind option_bind].
  rewrite !Hh; change (negb (Z.land FAST1 TIMEDELTA =? 0)) with true; cbn iota; rewrite !Hh; eexists; split; [reflexivity|].
  change (negb (Z.land FAST1 TIMESTAMP =? 0)) with false.
  change (negb (Z.land FAST1 RING =? 0)) with true; change (negb (Z.land FAST1 SEQNUM =? 0)) with true.
  change (negb (Z.land FAST1 AREA =? 0)) with true; change (negb (Z.land FAST1 SECTION =? 0)) with true.
  cbn iota; rewrite !concat_app, !concat_puts, !concat_printf; unfold name_text, p_u, time_delta; cbn [concat app f_last].
  change (str " (") with (str " " ++ str "("); now rewrite <- !app_assoc.
Qed.

(** No header fails. *)
Lemma header_total f d : header_ok d -> tc_ok (f_tscache f) ->
  exists f' out, header tsf localtime junk f d = Some (f', out) /\ f_fields f' = f_fields f /\ tc_ok (f_tscache f').
Proof.
  intros O Oc; unfold header; destruct (f_fields f =? DEFAULT); [now exists f, (default_header tsf localtime d)|].
  destruct (f_fields f =? FAST0); [|destruct (f_fields f =? FAST1)].
  - destruct (fast0_text f d O Oc) as (c & out & _ & Oc' & H & _); exists (mkFormat (f_fields f) (f_last f) c), out; done.
  - destruct (fast1_text f d O Oc (time_delta_u64 f _)) as (c & out & _ & Oc' & H & _).
    exists (mkFormat (f_fields f) (r_timestamp (rd_record d)) c), out; done.
  - unfold flexi_header; destruct (tscache_update_ok tsf _ _ Oc (hok_time d O)) as (c & E & Oc' & _).
    destruct (has f TIMESPEC); [rewrite E|]; cbn [mbind option_bind];
      match goal with |- context [has ?g TIMEDELTA] => destruct (has g TIMEDELTA) end; eexists _, _;
      (split; [reflexivity|]; split; [reflexivity|cbn [f_tscache]; assumption]).
Qed.

(** The two hand-written headers are safe and equivalent to the
    configurable one: for names of any length the local array they size
    beforehand holds what they write, and text and resulting state are those
    of the configurable header for the same fields. *)
Theorem fast_headers_equiv f d : f_fields f = FAST0 \/ f_fields f = FAST1 -> header_ok d -> tc_ok (f_tscache f) ->
  exists f' out out', header tsf localtime junk f d = Some (f', out) /\
    flexi_header tsf localtime f d = Some (f', out') /\ concat out = concat out' /\ tc_ok (f_tscache f') /\
    tc_str (f_tscache f') = timespec_text tsf (r_timestamp (rd_record d)).
Proof.
  intros Hf O Oc; unfold header; destruct (tscache_update_ok tsf _ _ Oc (hok_time d O)) as (c0 & E0 & Oc0 & S0).
  destruct Hf as [Hf|Hf]; rewrite Hf.
  - destruct (fast0_text f d O Oc) as (c & out & E & Oc' & H & T); destruct (flexi_fast0 f d c Hf E) as (out' & H' & T').
    rewrite E in E0; injection E0 as <-; exists (mkFormat (f_fields f) (f_last f) c), out, out'; rewrite T, T'; done.
  - destruct (fast1_text f d O Oc (time_delta_u64 f _)) as (c & out & E & Oc' & H & T).
    destruct (flexi_fast1 f d c Hf E) as (out' & H' & T').
    rewrite E in E0; injection E0 as <-; eexists _, out, out'; split; [exact H|]; rewrite T, T'; done.
Qed.
End Headers.

Definition demo_data : record_data :=
  mkRecordData (mkRecord None 1500000000123456789 77 5 0 []) 0 (str "AREA") (str "INFO") (str "RING") [] 0.

Lemma demo_data_ok : header_ok Nsec demo_data.
Proof. split; [reflexivity|cbn; words; lia|apply clock_time_nsec; cbn; words; lia]. Qed.

Lemma fast_headers_equiv_witness :
  exists f' out, header Nsec (fun _ => mkTm 0 0 0 0 0 0) (fun i => i) (format_basic FAST1) demo_data = Some (f', out) /\
    concat out = str "01500000000.123456789 (0) RING:77 AREA:INFO ".
Proof.
  destruct (fast_headers_equiv Nsec (fun _ => mkTm 0 0 0 0 0 0) (fun i => i) (format_basic FAST1) demo_data
    (or_intror eq_refl) demo_data_ok tscache_new_ok) as (f' & out & out' & E & E' & C & _).
  exists f', out; split; [exact E|]; rewrite C; vm_compute in E'; injection E' as _ <-; reflexivity.
Defined.
