(* ===== verification/FormatArgs.v ===== *)
(** * The arguments in the basic text format

    The line that is printed for a posted record, and the dumps of memory
    blocks, against reference renderings. *)

From S2P Require Import Prelude Args Record Posted Area Timestamp Ntos Ostrbuf Format FormatFacts.

(** ** Strings in the record *)

Lemma c_string_ok d rest : nul_free d -> c_string (d ++ 0 :: rest) = Some d.
Proof.
  unfold nul_free; induction d as [|c d IH]; intros H; [done|]; cbn [app c_string].
  rewrite not_elem_of_cons in H; destruct H as [N H]; rewrite (proj2 (Z.eqb_neq c 0)) by done; now rewrite IH.
Qed.

Lemma drop_peek (b d : bytes) o : peek b o (Z.of_nat (length d)) = d -> drop (Z.to_nat o) b = d ++ drop (Z.to_nat o + length d) b.
Proof.
  unfold peek; rewrite Nat2Z.id; intros E; rewrite <- (take_drop (length d) (drop (Z.to_nat o) b)) at 1.
  now rewrite E, drop_drop.
Qed.

Lemma stored_string r n off j d : data_ok r n off j d [0] -> d <> [] -> nul_free d ->
  c_string (drop (Z.to_nat (fst (get_arg_data r j))) (r_argval r)) = Some d.
Proof.
  intros [_ H] Hd Nf; destruct (H Hd) as (_ & _ & P); rewrite (drop_peek _ _ _ P), <- app_assoc; now apply c_string_ok.
Qed.

Section Line.
Variable tsf : ts_format.
Variable print_flt : string -> Z -> Z -> bytes.
Variable gstr : Z -> bytes.
Variable area_at : Z -> area.

(** What is printed for an argument, given its type and the value that was
    posted; a blob has no text here. *)
Definition view_text (type : Z) (v : arg_view) : bytes :=
  match v with
  | View32 x => if type =? INT32 then p_d (signed 32 x) else p_u x
  | View64 x =>
      if type =? GSTR then if x =? 0 then str "(null)" else gstr x
      else if type =? POINTER then p_ptr x
      else if type =? INT64 then p_d (signed 64 x)
      else if type =? DOUBLE then print_flt "%lf" 8 x
      else p_u x
  | ViewStr d => match d with [] => str "null" | _ => d end
  | ViewData _ => []
  end.

(** An argument in the record that has such a text. *)
Record printable (r : record) (n off j type : Z) (v : arg_view) : Prop := {
  pr_type : get_arg_type r j = type; pr_some : type <> NONE;
  pr_nodata : type <> XDUMP; pr_noraw : type <> RAW;
  pr_view : view r j = Some v; pr_slot : slot_ok r n off j (Some v);
  pr_word : match v with View32 x => is_u32 x | ViewStr d => nul_free d | _ => True end }.

(** The entry of the string table. *)
Definition view_string (type : Z) (v : arg_view) : option bytes :=
  match v with
  | ViewStr d => Some (match d with [] => str "null" | _ => d end)
  | View64 x => if type =? GSTR then if x =? 0 then None else Some (gstr x) else None
  | _ => None
  end.

Lemma arg_string_ok r n off j type v : printable r n off j type v ->
  (if (type =? CSTR) || (type =? GSTR) then get_arg_str gstr r type j else Some None) = Some (view_string type v).
Proof.
  intros [T N Nx Nr V S W]; unfold get_arg_str; revert V; unfold view; rewrite T, (proj2 (Z.eqb_neq type NONE) N).
  destruct (Z.eqb_spec type CSTR) as [->|Nc].
  - cbn [orb is_complex is_simple negb]; unfold view_complex; change (is_complex CSTR) with true; change (CSTR =? CSTR) with true.
    cbn iota; intros [= <-]; cbn [slot_ok view_string] in *; destruct (get_arg_data r j) as [o l] eqn:E.
    pose proof (proj1 S) as L; rewrite E in L; cbn [snd] in L.
    destruct (Z.eqb_spec l 0) as [->|Hl]; [destruct (arg_data r j); [done|cbn in L; lia]|].
    assert (Hd : arg_data r j <> []) by (intros Hd; rewrite Hd in L; cbn in L; lia).
    rewrite (stored_string r n off j _ S Hd W) || (pose proof (stored_string r n off j _ S Hd W) as C; rewrite E in C; cbn [fst] in C; rewrite C).
    destruct (arg_data r j); done.
  - cbn [orb]; destruct (Z.eqb_spec type GSTR) as [->|Ng].
    + change (is_complex GSTR) with false; change (is_32bit GSTR) with false; cbn iota; intros [= <-]; done.
    + intros V; destruct v as [x|x|d|d]; cbn [view_string]; [done|now rewrite (proj2 (Z.eqb_neq type GSTR) Ng)| |done].
      exfalso; revert V; destruct (is_complex type); [|destruct (is_32bit type); discriminate].
      unfold view_complex; rewrite (proj2 (Z.eqb_neq type CSTR) Nc); discriminate.
Qed.

Lemma plain_arg_ok d r n off j type v : printable r n off j type v -> rd_record d = r -> 0 <= j ->
  arg_string d j = view_string type v ->
  exists out, plain_arg print_flt d j type = Some out /\ concat out = view_text type v.
Proof.
  intros [T N Nx Nr V S W] Hr Hj Hs; unfold plain_arg, arg_value; rewrite Hr, Hs; revert V; unfold view.
  rewrite T, (proj2 (Z.eqb_neq type NONE) N).
  destruct (Z.eqb_spec type GSTR) as [->|Ng].
  { change (is_complex GSTR) with false; change (is_32bit GSTR) with false; cbn iota; intros [= <-]; cbn [orb].
    eexists; split; [reflexivity|]; rewrite concat_printf; cbn [view_string view_text].
    change (GSTR =? GSTR) with true; cbn iota; now destruct (_ =? 0). }
  destruct (Z.eqb_spec type CSTR) as [->|Nc].
  { change (is_complex CSTR) with true; unfold view_complex; change (CSTR =? CSTR) with true; cbn iota; intros [= <-]; cbn [orb].
    eexists; split; [reflexivity|]; now rewrite concat_printf. }
  cbn [orb]; destruct (is_complex type) eqn:C.
  { unfold is_complex, is_simple in C; rewrite (proj2 (Z.eqb_neq _ _) Nc), (proj2 (Z.eqb_neq _ _) Nx), (proj2 (Z.eqb_neq _ _) Nr) in C; done. }
  unfold is_32bit; destruct (Z.eqb_spec type UINT32) as [->|Nu]; [|destruct (Z.eqb_spec type INT32) as [->|Ni]]; cbn [orb];
    intros [= <-]; cbn [view_text] in *.
  - eexists; split; [reflexivity|]; rewrite concat_printf, u32_small by done; done.
  - eexists; split; [reflexivity|]; rewrite concat_printf, u32_small by done; done.
  - rewrite (proj2 (Z.eqb_neq type GSTR) Ng), (proj2 (Z.eqb_neq type XDUMP) Nx), (proj2 (Z.eqb_neq type RAW) Nr).
    destruct (Z.eqb_spec type UINT64) as [->|_]; [eexists; split; [reflexivity|]; now rewrite concat_printf|].
    repeat case_match; eexists; (split; [reflexivity|]); now rewrite concat_printf.
Qed.

Fixpoint join (sep : bytes) (l : list bytes) : bytes :=
  match l with
  | [] => []
  | [b] => b
  | b :: l => b ++ sep ++ join sep l
  end.

(** The arguments of a record from index [i] on: those of the list, and no
    more. *)
Definition arguments (r : record) (n off : Z) (i : nat) (l : list (Z * arg_view)) : Prop :=
  (forall j t v, l !! j = Some (t, v) -> printable r n off (Z.of_nat (i + j)) t v) /\
  (i + length l <= 16)%nat /\
  ((i + length l < 16)%nat -> get_arg_type r (Z.of_nat (i + length l)) = NONE).

Lemma arguments_tail r n off i a l : arguments r n off i (a :: l) -> arguments r n off (S i) l.
Proof.
  intros (P & L & E); cbn [length] in *; split; [|split].
  - intros j t v H; replace (S i + j)%nat with (i + S j)%nat by lia; now apply P.
  - lia.
  - replace (S i + length l)%nat with (i + S (length l))%nat by lia; intros; apply E; lia.
Qed.

Lemma arg_strings_ok r n off l : forall i, arguments r n off i l ->
  arg_strings gstr (16 - i) r (Z.of_nat i) = Some (map (fun tv => view_string tv.1 tv.2) l).
Proof.
  induction l as [|[t v] l IH]; intros i A; pose proof A as (P & L & E); cbn [length] in *.
  - destruct (16 - i)%nat eqn:K; [done|]; cbn [arg_strings].
    rewrite Nat.add_0_r in E; rewrite E by lia; done.
  - destruct (16 - i)%nat as [|k] eqn:K; [lia|]; cbn [arg_strings].
    assert (Pr := P 0%nat t v eq_refl); rewrite Nat.add_0_r in Pr.
    rewrite (pr_type _ _ _ _ _ _ Pr), (proj2 (Z.eqb_neq t NONE) (pr_some _ _ _ _ _ _ Pr)), (arg_string_ok _ _ _ _ _ _ Pr).
    cbn [mbind option_bind]; replace (Z.of_nat i + 1) with (Z.of_nat (S i)) by lia.
    replace k with (16 - S i)%nat by lia; now rewrite (IH (S i) (arguments_tail _ _ _ _ _ _ A)).
Qed.

Definition texts (l : list (Z * arg_view)) : list bytes := map (fun tv => view_text tv.1 tv.2) l.

Lemma plain_args_ok d n off l : forall i, arguments (rd_record d) n off i l ->
  (forall j t v, l !! j = Some (t, v) -> arg_string d (Z.of_nat (i + j)) = view_string t v) ->
  exists out, plain_args print_flt (16 - i) d (Z.of_nat i) = Some out /\
    concat out = concat (imap (fun j b => (if decide (0 < i + j)%nat then str " " else []) ++ b) (texts l)).
Proof.
  induction l as [|[t v] l IH]; intros i A Hs; pose proof A as (P & L & E); cbn [length] in *.
  - exists []; split; [|done]; destruct (16 - i)%nat eqn:K; [done|]; cbn [plain_args].
    rewrite Nat.add_0_r in E; rewrite E by lia; done.
  - destruct (16 - i)%nat as [|k] eqn:K; [lia|]; cbn [plain_args].
    assert (Pr := P 0%nat t v eq_refl); rewrite Nat.add_0_r in Pr.
    assert (H0 := Hs 0%nat t v eq_refl); rewrite Nat.add_0_r in H0.
    rewrite (pr_type _ _ _ _ _ _ Pr), (proj2 (Z.eqb_neq t NONE) (pr_some _ _ _ _ _ _ Pr)).
    destruct (plain_arg_ok d _ _ _ _ _ _ Pr eq_refl ltac:(lia) H0) as (o1 & E1 & C1); rewrite E1; cbn [mbind option_bind].
    replace (Z.of_nat i + 1) with (Z.of_nat (S i)) by lia; replace k with (16 - S i)%nat by lia.
    destruct (IH (S i) (arguments_tail _ _ _ _ _ _ A)) as (o2 & E2 & C2).
    { intros j t' v' Hj; replace (S i + j)%nat with (i + S j)%nat by lia; now apply Hs. }
    rewrite E2; cbn [mbind option_bind]; eexists; split; [reflexivity|].
    rewrite !concat_app, C1, C2; cbn [texts map imap concat]; rewrite app_assoc; f_equal.
    + f_equal; destruct (Z.ltb_spec 0 (Z.of_nat i)); destruct (decide (0 < i + 0)%nat); try lia; done.
    + f_equal; apply imap_ext; intros j b _; cbn; do 2 case_decide; try lia; done.
Qed.

Lemma imap_positive (l : list bytes) : forall k, (0 < k)%nat ->
  imap (fun j b => (if decide (0 < k + j)%nat then str " " else []) ++ b) l = map (fun b => str " " ++ b) l.
Proof.
  induction l as [|b l IH]; intros k Hk; [done|]; cbn [imap map]; rewrite decide_True by lia; f_equal.
  rewrite <- (IH (S k)) by lia; apply imap_ext; intros j c _; unfold compose; repeat case_decide; lia || done.
Qed.

Lemma join_cons b l : join (str " ") (b :: l) = b ++ concat (map (fun c => str " " ++ c) l).
Proof.
  revert b; induction l as [|c l IH]; intros b; cbn [map concat join]; [now rewrite app_nil_r|].
  cbn [join] in IH; rewrite <- app_assoc; f_equal; f_equal; apply IH.
Qed.

Lemma join_imap l : concat (imap (fun j b => (if decide (0 < 0 + j)%nat then str " " else []) ++ b) l) = join (str " ") l.
Proof.
  destruct l as [|b l]; [done|]; rewrite join_cons; cbn [imap concat]; rewrite decide_False by lia; cbn [app].
  do 2 f_equal; rewrite <- (imap_positive l 1) by lia; apply imap_ext; intros j c _; unfold compose; repeat case_decide; lia || done.
Qed.

(** *** What was posted *)

(** Arguments with a text of their own. *)
Definition texted (m : memory) (a : arg) : Prop :=
  a_type a <> NONE /\ a_type a <> XDUMP /\ a_type a <> RAW /\
  (a_type a = CSTR -> nul_free (mread m (a_val a) (a_len a))).

(** The texts of posted arguments. *)
Definition arg_texts (m : memory) (tailroom : Z) (args : list arg) : list bytes :=
  zip_with (fun a v => match v with Some v => view_text (a_type a) v | None => [] end)
    args (args_spec m tailroom (arg_span args * 8) args).

Lemma texts_eq m tailroom args l : map fst l = map a_type args ->
  map (fun tv => Some tv.2) l = args_spec m tailroom (arg_span args * 8) args -> texts l = arg_texts m tailroom args.
Proof.
  unfold texts, arg_texts; intros Ty <-; revert args Ty; induction l as [|[t v] l IH]; intros [|a args]; cbn [map]; try done.
  intros [= -> Ty]; cbn [zip_with]; f_equal; now apply IH.
Qed.

(** What sets printable arguments apart from the others. *)
Definition plain_view (tv : Z * arg_view) : Prop :=
  tv.1 <> XDUMP /\ tv.1 <> RAW /\ match tv.2 with ViewStr d => nul_free d | _ => True end.

Lemma held_printable r n off i l : held_args r n off i l -> Forall plain_view l -> arguments r n off i l.
Proof.
  intros (H & L & E) P; split; [|done]; intros j t v Hj; destruct (H j t v Hj) as [H1 H2 H3 H4 H5].
  rewrite Forall_lookup in P; destruct (P j _ Hj) as (P1 & P2 & P3); split; try done; now destruct v.
Qed.

(** Posted texts are plain. *)
Lemma posted_plain m r n tailroom args l : mem_ok m -> (length args <= 16)%nat -> Forall arg_wf args -> 128 <= tailroom ->
  held_args r n tailroom 0 l -> map fst l = map a_type args ->
  map (fun tv => Some tv.2) l = args_spec m tailroom (arg_span args * 8) args -> Forall (texted m) args -> Forall plain_view l.
Proof.
  intros Hm Hn Hw Ht H Ty Sp Tx; apply Forall_lookup; intros j [t v] Hj; cbn [fst snd].
  assert (Tj : exists a, args !! j = Some a /\ t = a_type a).
  { assert (M : map fst l !! j = Some t) by (rewrite list_lookup_fmap, Hj; done).
    rewrite Ty, list_lookup_fmap in M; destruct (args !! j) as [a|]; [|done]; injection M as <-; now exists a. }
  destruct Tj as (a & Ha & ->); rewrite Forall_lookup in Tx; destruct (Tx j a Ha) as (_ & Nx & Nr & Nf).
  split; [done|]; split; [done|]; destruct v as [x|x|d|d]; try done.
  pose proof (proj1 H j _ _ Hj) as Hh; pose proof (view_kind _ _ _ _ (hd_type _ _ _ _ _ _ Hh) (hd_view _ _ _ _ _ _ Hh)) as Hc.
  assert (Sj : args_spec m tailroom (arg_span args * 8) args !! j = Some (Some (ViewStr d))) by (rewrite <- Sp, list_lookup_fmap, Hj; done).
  pose proof (arg_span_bounds args).
  destruct (args_spec_complex m tailroom args (arg_span args * 8) j a (Some (ViewStr d))) as (room & _ & Ev); auto; [lia|].
  injection Ev as ->; apply cstr_stored_nul_free, Nf, Hc.
Qed.

(** A posted record holds printable arguments, those of the specification. *)
Lemma posted_arguments m r tailroom ap0 args :
  mem_ok m -> (length args <= 16)%nat -> Forall arg_wf args -> pack_wf ap0 ->
  128 <= tailroom < 4294967296 -> Z.of_nat (length (r_argval r)) = tailroom -> Forall (texted m) args ->
  exists r' l, set_args_pack m r tailroom (fst (populate ap0 args)) = Some r' /\
    r' = with_argval (with_argtype r (r_argtype r')) (r_argval r') /\ map fst l = map a_type args /\
    arguments r' (arg_span args) tailroom 0 l /\ texts l = arg_texts m tailroom args.
Proof.
  intros Hm Hn Hw Hp Ht Hl Tx; assert (N : Forall (fun a => a_type a <> NONE) args) by (eapply Forall_impl; [exact Tx|]; now intros a []).
  destruct (posted_held m r tailroom ap0 args) as (r' & l & E & F & _ & Ty & Sp & H & _); auto.
  exists r', l; split; [done|]; split; [done|]; split; [done|]; split; [|now apply texts_eq].
  apply held_printable; [exact H|]; apply (posted_plain m r' (arg_span args) tailroom args); auto; lia.
Qed.

(** The line is printed in the plain way. *)
Definition plain_types (ts : list Z) : Prop :=
  (length ts <= 1)%nat \/ forall t : Z, ts !! 0%nat = Some t -> t <> (CSTR : Z) /\ t <> (GSTR : Z).

Definition plain_line (args : list arg) : Prop := plain_types (map a_type args).

Lemma body_plain vprintf d n off l : arguments (rd_record d) n off 0 l -> plain_types (map fst l) ->
  body print_flt vprintf d = output_plain print_flt d.
Proof.
  intros (P & L & E) H; unfold body; destruct l as [|[t v] l].
  - assert (E0 : get_arg_type (rd_record d) 0 = NONE) by (apply E; cbn; lia); now rewrite E0.
  - assert (P0 := P 0%nat _ v eq_refl); change (Z.of_nat (0 + 0)) with 0 in P0.
    rewrite (pr_type _ _ _ _ _ _ P0), (proj2 (Z.eqb_neq _ RAW) (pr_noraw _ _ _ _ _ _ P0)); destruct H as [H|H].
    + destruct l; [|cbn in H; lia].
      assert (E1 : get_arg_type (rd_record d) 1 = NONE) by (apply E; cbn; lia); rewrite E1; change (NONE =? NONE) with true.
      now rewrite !andb_false_r.
    + destruct (H t eq_refl) as [N1 N2]; now rewrite (proj2 (Z.eqb_neq _ CSTR) N1), (proj2 (Z.eqb_neq _ GSTR) N2).
Qed.

End Line.

(** The global strings of a posted record are those of the call. *)
Lemma held_global m tailroom args l j v : map fst l = map a_type args ->
  map (fun tv => Some tv.2) l = args_spec m tailroom (arg_span args * 8) args -> l !! j = Some (GSTR : Z, v) ->
  exists a, args !! j = Some a /\ a_type a = GSTR /\ v = View64 (u64 (a_val a)).
Proof.
  intros Ty Sp Hj; assert (M : map fst l !! j = Some (GSTR : Z)) by (rewrite list_lookup_fmap, Hj; done).
  rewrite Ty, list_lookup_fmap in M; destruct (args !! j) as [a|] eqn:Ha; [|done]; injection M as Ea; exists a; split; [done|].
  split; [done|]; destruct (args_spec_lookup m tailroom args (arg_span args * 8) j a Ha) as [room Hr].
  rewrite <- Sp, list_lookup_fmap, Hj in Hr; unfold arg_spec in Hr; rewrite Ea in Hr; now injection Hr as ->.
Qed.

(** ** The arguments of a record as text *)

Section Body.
Variable print_flt : string -> Z -> Z -> bytes.
Variable gstr : Z -> bytes.
Variable vprintf : bytes -> list fmt_arg -> bytes * option bytes.

(** What the format string is given for an argument. *)
Definition view_arg (type : Z) (v : arg_view) : option fmt_arg :=
  match v with
  | View32 x => Some (if type =? INT32 then FInt (signed 32 x) else FUint x)
  | View64 x =>
      if type =? GSTR then s ← view_string gstr type v; Some (FStr s)
      else Some (if type =? POINTER then FPtr x
                 else if type =? INT64 then FInt64 (signed 64 x)
                 else if type =? DOUBLE then FDouble x
                 else FUint64 x)
  | ViewStr _ => s ← view_string gstr type v; Some (FStr s)
  | ViewData _ => None
  end.

Fixpoint view_args (l : list (Z * arg_view)) : option (list fmt_arg) :=
  match l with
  | [] => Some []
  | (t, v) :: l => a ← view_arg t v; rest ← view_args l; Some (a :: rest)
  end.

(** A string with an argument behind it is a format. *)
Definition body_text (l : list (Z * arg_view)) : option bytes :=
  match l with
  | (t, v) :: (_ :: _) as rest =>
      if (t =? CSTR) || (t =? GSTR) then
        args ← view_args (tail l);
        fmt ← view_string gstr t v;
        let '(out, err) := vprintf fmt args in
        Some (out ++ match err with Some what => what | None => [] end ++ newline)
      else Some (join (str " ") (texts print_flt gstr l) ++ newline)
  | _ => Some (join (str " ") (texts print_flt gstr l) ++ newline)
  end.

Definition table (d : record_data) (i : nat) (l : list (Z * arg_view)) : Prop :=
  forall j t v, l !! j = Some (t, v) -> arg_string d (Z.of_nat (i + j)) = view_string gstr t v.

Lemma table_tail d i a l : table d i (a :: l) -> table d (S i) l.
Proof. intros T j t v H; replace (S i + j)%nat with (i + S j)%nat by lia; now apply T. Qed.

Lemma store_arg_ok d n off j t v : printable (rd_record d) n off j t v -> arg_string d j = view_string gstr t v ->
  store_arg d j t = view_arg t v.
Proof.
  intros [T N Nx Nr V S W] Hs; pose proof (view_kind _ _ _ _ T V) as K; unfold store_arg, arg_value; rewrite Hs.
  destruct v as [x|x|d'|d']; cbn [slot_ok view_arg] in *.
  - destruct K as [->| ->]; cbn; rewrite S, u32_small by done; done.
  - destruct K as (K1 & K2 & K3 & K4 & K5); unfold is_32bit.
    rewrite (proj2 (Z.eqb_neq t CSTR) K3), (proj2 (Z.eqb_neq t INT32) K2), (proj2 (Z.eqb_neq t UINT32) K1).
    rewrite (proj2 (Z.eqb_neq t XDUMP) K4), (proj2 (Z.eqb_neq t RAW) K5); cbn [orb]; rewrite S.
    destruct (t =? GSTR); [done|]; destruct (t =? POINTER); [done|]; destruct (t =? INT64); [done|].
    destruct (Z.eqb_spec t UINT64) as [->|_]; [done|]; now destruct (t =? DOUBLE).
  - rewrite K; done.
  - destruct K; contradiction.
Qed.

Lemma store_args_ok d n off l : forall i, arguments (rd_record d) n off i l -> table d i l ->
  store_args (16 - i) d (Z.of_nat i) = view_args l.
Proof.
  induction l as [|[t v] l IH]; intros i A Tb; pose proof A as (P & L & E); cbn [length] in *.
  - destruct (16 - i)%nat eqn:K; [done|]; cbn [store_args]; rewrite Nat.add_0_r in E; rewrite E by lia; done.
  - destruct (16 - i)%nat as [|k] eqn:K; [lia|]; cbn [store_args view_args].
    assert (Pr := P 0%nat t v eq_refl); assert (Ts := Tb 0%nat t v eq_refl); rewrite Nat.add_0_r in Pr, Ts.
    rewrite (pr_type _ _ _ _ _ _ Pr), (proj2 (Z.eqb_neq t NONE) (pr_some _ _ _ _ _ _ Pr)), (store_arg_ok _ _ _ _ _ _ Pr Ts).
    replace (Z.of_nat i + 1) with (Z.of_nat (S i)) by lia; replace k with (16 - S i)%nat by lia.
    now rewrite (IH (S i) (arguments_tail _ _ _ _ _ _ A) (table_tail _ _ _ _ Tb)).
Qed.

Lemma body_format d n off t v t1 v1 l : let l := (t, v) :: (t1, v1) :: l in
  arguments (rd_record d) n off 0 l -> table d 0 l -> rd_next_arg d = 0 -> t = CSTR \/ t = GSTR ->
  option_map (@concat Z) (body print_flt vprintf d) = body_text l.
Proof.
  intros ls A Tb Na Ht; pose proof (proj1 A 0%nat t v eq_refl) as P0; pose proof (proj1 A 1%nat t1 v1 eq_refl) as P1.
  change (Z.of_nat (0 + 0)) with 0 in P0; change (Z.of_nat (0 + 1)) with 1 in P1.
  assert (E : (t =? CSTR) || (t =? GSTR) = true) by (destruct Ht as [->| ->]; done).
  unfold body; rewrite (pr_type _ _ _ _ _ _ P0), (pr_type _ _ _ _ _ _ P1), (proj2 (Z.eqb_neq t RAW) (pr_noraw _ _ _ _ _ _ P0)), E.
  rewrite (proj2 (Z.eqb_neq t1 NONE) (pr_some _ _ _ _ _ _ P1)), (proj2 (Z.eqb_neq t1 XDUMP) (pr_nodata _ _ _ _ _ _ P1)),
    (proj2 (Z.eqb_neq t1 RAW) (pr_noraw _ _ _ _ _ _ P1)); cbn [negb andb].
  pose proof (store_args_ok d _ _ _ 1 (arguments_tail _ _ _ _ _ _ A) (table_tail _ _ _ _ Tb)) as Sa.
  pose proof (Tb 0%nat t v eq_refl) as Ts; change (Z.of_nat (0 + 0)) with 0 in Ts; change (Z.of_nat 1) with 1 in Sa.
  unfold output_fmt, ls; cbn [body_text tail]; rewrite E, Na; change (Z.to_nat (NARGS - (0 + 1))) with (16 - 1)%nat.
  change (0 + 1) with 1; rewrite Sa, Ts; destruct (view_args _); [|done]; cbn [mbind option_bind].
  destruct (view_string gstr t v); [|done]; cbn [mbind option_bind]; destruct (vprintf _ _) as [o [w|]]; cbn [option_map];
    now rewrite !concat_app, concat_printf, ?concat_puts.
Qed.

(** A single argument, or one that is no string first, is printed in the plain
    way; otherwise the format is expanded. *)
Lemma body_ok d n off l : arguments (rd_record d) n off 0 l -> table d 0 l -> rd_next_arg d = 0 ->
  option_map (@concat Z) (body print_flt vprintf d) = body_text l.
Proof.
  intros A Tb Na; assert (Pl : plain_types (map fst l) -> option_map (@concat Z) (body print_flt vprintf d) =
    Some (join (str " ") (texts print_flt gstr l) ++ newline)).
  { intros H; rewrite (body_plain print_flt vprintf d _ _ _ A H); unfold output_plain; rewrite Na.
    destruct (plain_args_ok print_flt gstr d _ _ l 0 A Tb) as (out & E & C); rewrite join_imap in C.
    change (Z.to_nat (NARGS - 0)) with (16 - 0)%nat; change 0 with (Z.of_nat 0) at 1; rewrite E; cbn [mbind option_bind option_map].
    now rewrite concat_app, C, concat_puts. }
  destruct l as [|[t v] [|[t1 v1] l]]; [apply Pl; left; cbn; lia..|].
  destruct (decide (t = (CSTR : Z) \/ t = (GSTR : Z))) as [Ht|Ht]; [now apply (body_format d n off)|].
  assert (Hn : t <> (CSTR : Z) /\ t <> (GSTR : Z)) by tauto; rewrite Pl by (right; intros t' [= <-]; exact Hn).
  cbn [body_text]; now rewrite (proj2 (Z.eqb_neq t CSTR) (proj1 Hn)), (proj2 (Z.eqb_neq t GSTR) (proj2 Hn)).
Qed.

Definition same_kind (tv : Z * arg_view) : Prop := tv.1 = CSTR -> exists d, tv.2 = ViewStr d.

(** Global strings that are there. *)
Definition global_there (tv : Z * arg_view) : Prop := tv.1 = GSTR -> exists x, tv.2 = View64 x /\ x <> 0.

Lemma view_args_some l : Forall global_there l -> Forall (fun tv => match tv.2 with ViewData _ => False | _ => True end) l ->
  is_Some (view_args l).
Proof.
  intros G D; induction l as [|[t v] l IH]; [now eexists|]; apply Forall_cons in G as [G1 G], D as [D1 D]; cbn [view_args].
  destruct (IH G D) as [rest ->]; unfold global_there in G1; cbn [fst snd] in *; destruct v as [x|x|d|d]; cbn [view_arg view_string]; try contradiction; try (now eexists).
  destruct (Z.eqb_spec t GSTR) as [->|_]; [|now eexists]; destruct (G1 eq_refl) as (y & [= ->] & N).
  rewrite (proj2 (Z.eqb_neq y 0) N); now eexists.
Qed.

Lemma body_text_some l : Forall global_there l -> Forall same_kind l ->
  Forall (fun tv => match tv.2 with ViewData _ => False | _ => True end) l ->
  is_Some (body_text l).
Proof.
  intros G K D; destruct l as [|[t v] [|[t1 v1] l]]; [now eexists..|]; cbn [body_text tail].
  destruct ((t =? CSTR) || (t =? GSTR)) eqn:E; [|now eexists].
  apply Forall_cons in G as [G1 G], D as [_ D], K as [K1 _]; destruct (view_args_some _ G D) as [args ->]; cbn [mbind option_bind].
  assert (S : is_Some (view_string gstr t v)).
  { unfold global_there, same_kind in G1, K1; cbn [fst snd] in *; apply orb_prop in E as [E|E]; apply Z.eqb_eq in E.
    - destruct (K1 E) as [d ->]; now eexists.
    - destruct (G1 E) as (x & -> & N); cbn [view_string]; rewrite E, (proj2 (Z.eqb_neq x 0) N); now eexists. }
  destruct S as [fmt ->]; cbn [mbind option_bind]; destruct (vprintf fmt args); now eexists.
Qed.
(** The text of a record whose arguments are printable. *)
Lemma record_text area_at r n off l ring addr : arguments r n off 0 l ->
  exists rd, expand gstr area_at (mkData ring r addr) = Some rd /\ rd_record rd = r /\ rd_ring_name rd = ring /\
    (rd_area_name rd, rd_sect_name rd) = record_names area_at r /\
    option_map (@concat Z) (body print_flt vprintf rd) = body_text l.
Proof.
  intros A; pose proof (arg_strings_ok gstr r n off l 0 A) as S; change (16 - 0)%nat with 16%nat in S; change (Z.of_nat 0) with 0 in S.
  unfold expand; cbn [fd_record fd_argval fd_ring_name]; destruct (record_names area_at r) as [an sn]; change (Z.to_nat NARGS) with 16%nat.
  rewrite S; eexists; split; [reflexivity|]; do 3 (split; [done|]); apply (body_ok _ n off); [done| |done].
  intros j t v Hj; unfold arg_string; cbn [rd_arg_str Nat.add]; now rewrite Nat2Z.id, list_lookup_fmap, Hj.
Qed.

(** What was posted, as types and views. *)
Definition posted_views (m : memory) (tailroom : Z) (args : list arg) : list (Z * arg_view) :=
  zip (map a_type args) (omap id (args_spec m tailroom (arg_span args * 8) args)).

Lemma posted_views_eq m tailroom args l : map fst l = map a_type args ->
  map (fun tv => Some tv.2) l = args_spec m tailroom (arg_span args * 8) args -> posted_views m tailroom args = l.
Proof.
  unfold posted_views; intros <- <-; induction l as [|[t v] l IH]; [done|]; cbn; f_equal; exact IH.
Qed.

(** The text behind the header: the arguments, or the expansion of the first
    one; [None] when a null string goes into that. *)
Definition posted_text (m : memory) (tailroom : Z) (args : list arg) : option bytes := body_text (posted_views m tailroom args).

Lemma posted_text_plain m tailroom args l : map fst l = map a_type args ->
  map (fun tv => Some tv.2) l = args_spec m tailroom (arg_span args * 8) args -> plain_line args ->
  posted_text m tailroom args = Some (join (str " ") (arg_texts print_flt gstr m tailroom args) ++ newline).
Proof.
  unfold plain_line, posted_text; intros Ty Sp; rewrite (posted_views_eq _ _ _ l Ty Sp), <- (texts_eq print_flt gstr m tailroom args l Ty Sp), <- Ty.
  intros [Pl|Pl]; destruct l as [|[t v] [|[t1 v1] l]]; try done; [cbn in Pl; lia|].
  destruct (Pl t eq_refl) as [N1 N2]; cbn [body_text]; now rewrite (proj2 (Z.eqb_neq t CSTR) N1), (proj2 (Z.eqb_neq t GSTR) N2).
Qed.

(** A global string that is posted is at an address. *)
Definition global_given (a : arg) : Prop := a_type a = GSTR -> u64 (a_val a) <> 0.

End Body.

Lemma held_kinds m r n tailroom args l : map fst l = map a_type args ->
  map (fun tv => Some tv.2) l = args_spec m tailroom (arg_span args * 8) args -> held_args r n tailroom 0 l ->
  Forall (texted m) args ->
  Forall same_kind l /\ Forall (fun tv => match tv.2 with ViewData _ => False | _ => True end) l /\
  (Forall global_given args -> Forall global_there l).
Proof.
  intros Ty Sp (P & _) Tx; rewrite Forall_lookup in Tx.
  assert (K : forall j t v, l !! j = Some (t, v) -> same_kind (t, v) /\ match v with ViewData _ => False | _ => True end).
  { intros j t v Hj; pose proof (P j t v Hj) as [T N V _ _]; pose proof (view_kind _ _ _ _ T V) as K.
    assert (Ha : exists a, args !! j = Some a /\ a_type a = t).
    { assert (M : map fst l !! j = Some t) by (rewrite list_lookup_fmap, Hj; done).
      rewrite Ty, list_lookup_fmap in M; destruct (args !! j) as [a|]; [|done]; injection M as <-; now exists a. }
    destruct Ha as (a & Ha & Ea); destruct (Tx j a Ha) as (_ & Nx & Nr & _); split.
    - intros Ec; cbn [fst snd] in *; destruct v as [x|x|d|d]; [|tauto|now exists d|]; rewrite Ec in K; destruct K; discriminate.
    - destruct v as [| | |d]; try done; rewrite <- Ea in K; tauto. }
  split; [apply Forall_lookup; intros j [t v] Hj; apply (K j t v Hj)|]; split; [apply Forall_lookup; intros j [t v] Hj; apply (K j t v Hj)|].
  intros G; rewrite Forall_lookup in G; apply Forall_lookup; intros j [t v] Hj Eg; cbn [fst snd] in *; rewrite Eg in Hj.
  destruct (held_global m tailroom args l j v Ty Sp Hj) as (a & Ha & Ea & ->); exists (u64 (a_val a)); split; [done|now apply (G j a Ha)].
Qed.


Section Posted.
Variable tsf : ts_format.
Variable print_flt : string -> Z -> Z -> bytes.
Variable gstr : Z -> bytes.
Variable area_at : Z -> area.
Variable localtime : Z -> tm.
Variable vprintf : bytes -> list fmt_arg -> bytes * option bytes.
Variable junk : Z -> Z.

(** C10: From the call to the text: a record posted with any mix of numbers,
    pointers and strings, in a ring slot with room for 128 bytes or more, with a
    time and names the header can show, is printed as its header and one line.  When no string comes first with arguments behind it, the line
    has the arguments as they were posted, at their width and sign, a string cut
    at most where the slot ended, an empty one as "null" and a global one at
    address zero as "(null)", with a space between two.  Otherwise it is what the
    formatter makes of that string and of the other arguments, followed by its
    message when it fails.  All of it reaches the output buffer, and nothing is
    read or written outside the record; only a global string at address zero
    that goes to the formatter has no text. *)
Theorem posted_line `{Stream U} m r tailroom ap0 args f ring addr (ou : ostrbuf * U) :
  mem_ok m -> (length args <= 16)%nat -> Forall arg_wf args -> pack_wf ap0 ->
  128 <= tailroom < 4294967296 -> Z.of_nat (length (r_argval r)) = tailroom ->
  Forall (texted m) args -> tc_ok (f_tscache f) ->
  header_ok tsf (mkRecordData r addr (record_names area_at r).1 (record_names area_at r).2 ring [] 0) -> ready ou ->
  exists r' rd f' head, set_args_pack m r tailroom (fst (populate ap0 args)) = Some r' /\
    expand gstr area_at (mkData ring r' addr) = Some rd /\
    header tsf localtime junk f rd = Some (f', head) /\ tc_ok (f_tscache f') /\
    let printed := process tsf localtime print_flt gstr area_at vprintf junk f ou (mkData ring r' addr) in
    let line := posted_text print_flt gstr vprintf m tailroom args in
    match line with
    | Some t => exists ou', printed = Some (f', ou') /\ ready ou' /\ text ou' = text ou ++ concat head ++ t
    | None => printed = None
    end /\
    (plain_line args -> line = Some (join (str " ") (arg_texts print_flt gstr m tailroom args) ++ newline)) /\
    (Forall global_given args -> is_Some line).
Proof.
  intros Hm Hn Hw Hp Ht Hl Tx Oc Ok R.
  assert (N : Forall (fun a => a_type a <> NONE) args) by (eapply Forall_impl; [exact Tx|]; now intros a []).
  destruct (posted_held m r tailroom ap0 args) as (r' & l & E & F & _ & Ty & Sp & A & _); auto.
  assert (Nm : record_names area_at r' = record_names area_at r) by (rewrite F; done).
  pose proof (posted_plain m r' (arg_span args) tailroom args l Hm Hn Hw (proj1 Ht) A Ty Sp Tx) as Pv.
  destruct (record_text print_flt gstr vprintf area_at r' _ _ l ring addr (held_printable _ _ _ _ _ A Pv)) as (rd & Ex & Rr & Rn & Nd & Bt).
  assert (Ok' : header_ok tsf rd).
  { rewrite Nm in Nd; destruct Ok as [O1 O2 O3]; unfold names_length in O1;
      cbn [rd_area_name rd_sect_name rd_ring_name rd_record] in O1, O2, O3; rewrite <- Nd in O1; cbn [fst snd] in O1.
    split; [unfold names_length; rewrite Rn; exact O1|rewrite Rr, F; exact O2|rewrite Rr, F; exact O3]. }
  destruct (header_total tsf localtime junk f rd Ok' Oc) as (f' & head & Hh & _ & Oc').
  exists r', rd, f', head; do 4 (split; [done|]); cbv zeta; split; [|split].
  - unfold posted_text; rewrite (posted_views_eq _ _ _ l Ty Sp), <- Bt; unfold process, process_out; rewrite Ex; cbn [mbind option_bind].
    rewrite Hh; cbn [mbind option_bind]; destruct (body _ _ rd) as [out|]; [|done]; cbn [mbind option_bind option_map].
    destruct (fold_push_back ou (head ++ out) R) as [R' T']; eexists; split; [reflexivity|]; split; [exact R'|].
    now rewrite T', concat_app.
  - now apply (posted_text_plain _ _ _ m tailroom args l).
  - intros G; unfold posted_text; rewrite (posted_views_eq _ _ _ l Ty Sp).
    destruct (held_kinds m r' _ tailroom args l Ty Sp A Tx) as (K1 & K2 & K3); apply body_text_some; auto.
Qed.
End Posted.

(** ** A posted record, concretely *)

Definition line_args : list arg := [mkArg INT32 4294967291 0; mkArg CSTR 64 6].

Lemma line_args_wf : Forall arg_wf line_args.
Proof. repeat (apply Forall_cons; split; [split; vm_compute; intuition congruence|]); constructor. Qed.

Lemma demo_mem_nul_free p n : nul_free (mread demo_mem p n).
Proof.
  unfold nul_free, mread; intros H; apply list_elem_of_In, in_map_iff in H as (k & E & _).
  unfold demo_mem in E; pose proof (Z.mod_pos_bound (p + Z.of_nat k) 255 eq_refl); lia.
Qed.

Lemma line_args_texted : Forall (texted demo_mem) line_args.
Proof. repeat (apply Forall_cons; split; [repeat split; try discriminate; intros; apply demo_mem_nul_free|]); constructor. Qed.

Lemma line_header_ok : header_ok Nsec
  (mkRecordData (demo_record 224) 0 (record_names (fun _ => demo_area) (demo_record 224)).1
     (record_names (fun _ => demo_area) (demo_record 224)).2 (str "R") [] 0).
Proof. split; [reflexivity|cbn; words; lia|apply clock_time_nsec; cbn; words; lia]. Qed.

(** A format engine that shows its format and the count of its arguments. *)
Definition line_vprintf (fmt : bytes) (args : list fmt_arg) : bytes * option bytes :=
  (fmt ++ str "/" ++ p_u (Z.of_nat (length args)), None).

Definition format_args : list arg := [mkArg CSTR 64 6; mkArg INT32 4294967291 0].

Lemma format_args_texted : Forall (texted demo_mem) format_args.
Proof. repeat (apply Forall_cons; split; [repeat split; try discriminate; intros; apply demo_mem_nul_free|]); constructor. Qed.

Definition line_process (r : record) : option (format_state * (ostrbuf * tee_state)) :=
  process Nsec (fun _ => mkTm 0 0 0 0 0 0) (fun _ _ _ => []) (fun _ => []) (fun _ => demo_area) line_vprintf
    (fun i => i) (format_basic FAST0) (small_buffer, tee0) (mkData (str "R") r 0).

Lemma posted_line_witness :
  (exists r' fou, set_args_pack demo_mem (demo_record 224) 224 (fst (populate demo_pack line_args)) = Some r' /\
     line_process r' = Some fou /\ text fou.2 = str "00000000000.000000007 R:3 A:Z -5 ABCDEF" ++ newline) /\
  (exists r' fou, set_args_pack demo_mem (demo_record 224) 224 (fst (populate demo_pack format_args)) = Some r' /\
     line_process r' = Some fou /\ text fou.2 = str "00000000000.000000007 R:3 A:Z ABCDEF/1" ++ newline).
Proof.
  split.
  - destruct (posted_line Nsec (fun _ _ _ => []) (fun _ => []) (fun _ => demo_area) (fun _ => mkTm 0 0 0 0 0 0)
      line_vprintf (fun i => i) demo_mem (demo_record 224) 224 demo_pack line_args (format_basic FAST0) (str "R") 0
      (small_buffer, tee0)) as (r' & rd & f' & head & E & X & Hh & _ & P & Pl & _);
      [apply demo_mem_ok|cbn; lia|apply line_args_wf|apply demo_pack_wf|lia|reflexivity|apply line_args_texted|
       apply tscache_new_ok|apply line_header_ok|apply small_ready|].
    cbv zeta in P; rewrite Pl in P by (right; intros t [= <-]; split; discriminate); destruct P as (ou' & P & _ & T).
    exists r', (f', ou'); split; [exact E|]; split; [exact P|]; cbn [snd]; rewrite T.
    vm_compute in E; injection E as <-; vm_compute in X; injection X as <-; vm_compute in Hh; injection Hh as _ <-; reflexivity.
  - destruct (posted_line Nsec (fun _ _ _ => []) (fun _ => []) (fun _ => demo_area) (fun _ => mkTm 0 0 0 0 0 0)
      line_vprintf (fun i => i) demo_mem (demo_record 224) 224 demo_pack format_args (format_basic FAST0) (str "R") 0
      (small_buffer, tee0)) as (r' & rd & f' & head & E & X & Hh & _ & P & _ & _);
      [apply demo_mem_ok|cbn; lia|repeat (apply Forall_cons; split; [split; vm_compute; intuition congruence|]); constructor|
       apply demo_pack_wf|lia|reflexivity|apply format_args_texted|apply tscache_new_ok|apply line_header_ok|apply small_ready|].
    change (posted_text (fun _ _ _ => []) (fun _ => []) line_vprintf demo_mem 224 format_args) with (Some (str "ABCDEF/1" ++ newline)) in P.
    destruct P as (ou' & P & _ & T); exists r', (f', ou'); split; [exact E|]; split; [exact P|]; cbn [snd]; rewrite T.
    vm_compute in E; injection E as <-; vm_compute in X; injection X as <-; vm_compute in Hh; injection Hh as _ <-; reflexivity.
Defined.
