(* ===== verification/FormatDump.v ===== *)
(** * Dumps of memory blocks in the basic text format

    The loops of the hexadecimal dump and of the dump of numbers against
    renderings of the list of bytes and of the list of values; the inputs on
    which they do not end or trap. *)

From S2P Require Import Prelude Args Record Area Timestamp Ntos Ostrbuf Format FormatFacts FormatArgs.

(** ** Reference renderings *)

Definition hex_cell (c : Z) : bytes := fill 2 (p_x c) ++ str " ".
Definition shown (c : Z) : Z := if isprint c then c else 46.

(** The [k] cells of a line, blank where the data has ended. *)
Fixpoint hex_cells (k : nat) (d : bytes) : bytes :=
  match k with
  | O => []
  | S k => match d with
           | [] => str "   " ++ hex_cells k []
           | c :: d => hex_cell c ++ hex_cells k d
           end
  end.

Definition hexdump_line (lw : nat) (offset : Z) (d : bytes) : bytes :=
  [10; 9] ++ p_d0 3 offset ++ str ": " ++ hex_cells lw d ++ str "  " ++ map shown (take lw d).

Fixpoint hexdump_text (fuel lw : nat) (offset : Z) (d : bytes) : bytes :=
  match fuel, d with
  | S fuel, _ :: _ => hexdump_line lw offset d ++ hexdump_text fuel lw (offset + Z.of_nat lw) (drop lw d)
  | _, _ => []
  end.

(** Values in one line, and in lines of [lw]. *)
Definition single_text (show : Z -> bytes) (delim : Z) (vs : list Z) : bytes :=
  match vs with
  | [] => []
  | v :: vs => show v ++ concat (map (fun v => delim :: show v) vs)
  end.

Fixpoint multi_text (fuel : nat) (show : Z -> bytes) (lw : nat) (delim : Z) (vs : list Z) : bytes :=
  match fuel, vs with
  | S fuel, _ :: _ => [10; 9] ++ single_text show delim (take lw vs) ++ multi_text fuel show lw delim (drop lw vs)
  | _, _ => []
  end.

(** ** The loops *)

Lemma peek_cons b o n : 0 <= o -> 0 < n -> o + n <= Z.of_nat (length b) ->
  exists c, read b o 1 = Some [c] /\ peek b o n = c :: peek b (o + 1) (n - 1).
Proof.
  intros Ho Hn Hb; destruct (lookup_lt_is_Some_2 b (Z.to_nat o)) as [c Hc]; [lia|]; exists c.
  assert (D : drop (Z.to_nat o) b = c :: drop (Z.to_nat (o + 1)) b).
  { rewrite (drop_S _ _ _ Hc); do 2 f_equal; lia. }
  unfold read; rewrite (proj2 (Z.leb_le 0 o)), (proj2 (Z.leb_le (o + 1) _)) by lia; cbn [andb]; unfold peek.
  rewrite D; split; [done|]; replace (Z.to_nat n) with (S (Z.to_nat (n - 1))) by lia; done.
Qed.

Section Hex.
Variables (b : bytes) (o n : Z).
Hypothesis Ho : 0 <= o.
Hypothesis Hn : 0 <= n <= 2147483648.
Hypothesis Hb : o + n <= Z.of_nat (length b).

(** The data from an offset on. *)
Definition from (k : Z) : bytes := peek b (o + k) (n - k).

Lemma from_end k : n <= k -> from k = [].
Proof. intros H; unfold from, peek; now replace (Z.to_nat (n - k)) with 0%nat by lia. Qed.

Lemma from_next k : 0 <= k < n -> exists c, read b (o + k) 1 = Some [c] /\ from k = c :: from (k + 1).
Proof.
  intros H; destruct (peek_cons b (o + k) (n - k)) as (c & R & P); [lia|lia|lia|]; exists c; split; [exact R|].
  unfold from; rewrite P; do 2 f_equal; lia.
Qed.

Lemma drop_from k j : 0 <= k -> drop j (from k) = from (k + Z.of_nat j).
Proof.
  intros Hk; unfold from, peek; rewrite skipn_firstn_comm, drop_drop; f_equal; [lia|f_equal; lia].
Qed.

Lemma hex_column_ok k : forall offset i, 0 <= i -> 0 <= offset < n -> i + offset + Z.of_nat k < 4294967296 ->
  exists out, hex_column k b o offset i n = Some out /\ concat out = hex_cells k (from (offset + i)).
Proof.
  induction k as [|k IH]; intros offset i Hi Ho' Hk; cbn [hex_column hex_cells]; [now exists []|].
  rewrite !u32_small by (words; lia).
  destruct (IH offset (i + 1)) as (rest & E & C); [lia|lia|lia|].
  destruct (Z.ltb_spec (i + offset) n) as [L|L].
  - destruct (from_next (offset + i)) as (c & R & F); [lia|]; rewrite R, E, F; cbn [mbind option_bind].
    eexists; split; [reflexivity|]; rewrite concat_app, concat_printf, C; unfold hex_cell; cbn [le_val].
    rewrite Z.mul_0_r, Z.add_0_r; do 3 f_equal; lia.
  - rewrite from_end, E by lia; cbn [mbind option_bind]; eexists; split; [reflexivity|].
    rewrite concat_app, concat_puts, C, from_end by lia; done.
Qed.

Lemma char_column_ok k : forall offset i, 0 <= i -> 0 <= offset < n -> i + offset + Z.of_nat k < 4294967296 ->
  exists out, char_column k b o offset i n = Some out /\ concat out = map shown (take k (from (offset + i))).
Proof.
  induction k as [|k IH]; intros offset i Hi Ho' Hk; cbn [char_column take]; [now exists []|].
  rewrite !u32_small by (words; lia); destruct (Z.ltb_spec (i + offset) n) as [L|L].
  - destruct (IH offset (i + 1)) as (rest & E & C); [lia|lia|lia|].
    destruct (from_next (offset + i)) as (c & R & F); [lia|]; rewrite R, E, F; cbn [mbind option_bind le_val].
    eexists; split; [reflexivity|]; rewrite concat_app, concat_puts, C, Z.mul_0_r, Z.add_0_r; cbn [map app].
    replace (offset + i + 1) with (offset + (i + 1)) by lia; done.
  - rewrite from_end by lia; now exists [].
Qed.

Lemma hexdump_ok fuel xf : forall offset, 1 <= xf_line_width xf < 256 -> 0 <= offset ->
  (0 < fuel)%nat -> n - offset < Z.of_nat fuel ->
  exists out, do_hexdump fuel b o offset n xf = Some out /\
    concat out = hexdump_text fuel (Z.to_nat (xf_line_width xf)) offset (from offset).
Proof.
  induction fuel as [|fuel IH]; intros offset Hl Hof H0 Hf; [lia|].
  cbn [do_hexdump hexdump_text]; destruct (Z.ltb_spec offset n) as [L|L]; [|rewrite from_end by lia; now exists []].
  assert (Hw : Z.of_nat (Z.to_nat (xf_line_width xf)) = xf_line_width xf) by lia.
  set (lw := Z.to_nat (xf_line_width xf)) in *.
  destruct (hex_column_ok lw offset 0) as (o1 & E1 & C1); [lia|lia|lia|].
  destruct (char_column_ok lw offset 0) as (o2 & E2 & C2); [lia|lia|lia|].
  rewrite E1, E2; cbn [mbind option_bind]; rewrite u32_small by (words; lia).
  destruct (IH (offset + xf_line_width xf)) as (o3 & E3 & C3); [lia|lia|lia|lia|]; rewrite E3; cbn [mbind option_bind].
  eexists; split; [reflexivity|]; rewrite !concat_app, concat_printf, concat_puts, C1, C2, C3, Z.add_0_r.
  replace (s32 offset) with offset by (unfold s32; rewrite Z.mod_small by lia; lia).
  pose proof (drop_from offset lw Hof) as D; rewrite Hw in D; rewrite <- D.
  destruct (from_next offset) as (c & _ & F); [lia|]; destruct (from offset); [done|].
  unfold hexdump_line; now rewrite Hw, <- !app_assoc.
Qed.

(** With no bytes per line it never ends. *)
Lemma hexdump_endless fuel xf offset : xf_line_width xf = 0 -> 0 <= offset < n -> do_hexdump fuel b o offset n xf = None.
Proof.
  intros Hl L; induction fuel as [|fuel IH]; cbn [do_hexdump]; [done|]; rewrite (proj2 (Z.ltb_lt offset n)) by lia.
  rewrite Hl; cbn [Z.to_nat hex_column char_column mbind option_bind]; rewrite Z.add_0_r, u32_small, IH by (words; lia); done.
Qed.
End Hex.

Section Values.
Variable show : Z -> bytes.
Variables (width : Z) (b : bytes) (o : Z).
Hypothesis Hw : 0 < width.
Hypothesis Ho : 0 <= o.

(** The [n] values of the dump. *)
Definition values (i n : Z) : list Z := map (fun k => le_val (peek b (o + k * width) width)) (seqZ i (n - i)).

Lemma values_end i n : n <= i -> values i n = [].
Proof. intros H; unfold values; now rewrite seqZ_nil by lia. Qed.

Lemma values_next i n : i < n -> values i n = le_val (peek b (o + i * width) width) :: values (i + 1) n.
Proof. intros H; unfold values; rewrite seqZ_cons by lia; cbn [map]; f_equal; f_equal; f_equal; lia. Qed.

Lemma drop_values k : forall i n, drop k (values i n) = values (i + Z.of_nat k) n.
Proof.
  induction k as [|k IH]; intros i n; [now rewrite Z.add_0_r|]; destruct (Z.lt_ge_cases i n) as [L|L].
  - rewrite values_next by lia; cbn [drop]; rewrite IH; f_equal; lia.
  - now rewrite !values_end by lia.
Qed.

Variable n : Z.
Hypothesis Hb : o + n * width <= Z.of_nat (length b).

Lemma show_element_ok i : 0 <= i < n ->
  exists out, show_element show width b o i = Some out /\ concat out = show (le_val (peek b (o + i * width) width)).
Proof.
  intros H; unfold show_element, element, read.
  rewrite (proj2 (Z.leb_le 0 _)), (proj2 (Z.leb_le _ (Z.of_nat (length b)))) by nia; cbn [andb mbind option_bind].
  eexists; split; [reflexivity|apply concat_printf].
Qed.

Definition tail_text (delim : Z) (vs : list Z) : bytes := concat (map (fun v => delim :: show v) vs).

Lemma single_rest_ok k delim : forall i, 0 <= i -> n - i <= Z.of_nat k ->
  exists out, single_rest show width b o k i n delim = Some out /\ concat out = tail_text delim (values i n).
Proof.
  induction k as [|k IH]; intros i Hi Hk; cbn [single_rest].
  - rewrite values_end by lia; now exists [].
  - destruct (Z.ltb_spec i n) as [L|L]; [|rewrite values_end by lia; now exists []].
    destruct (show_element_ok i) as (o1 & E1 & C1); [lia|]; destruct (IH (i + 1)) as (o2 & E2 & C2); [lia|lia|].
    rewrite E1, E2; cbn [mbind option_bind]; eexists; split; [reflexivity|]; rewrite !concat_app, concat_puts, C1, C2.
    rewrite (values_next i) by lia; done.
Qed.

Lemma multi_row_ok k delim line_width : forall i lw, 0 <= i -> 0 <= lw <= line_width -> line_width - lw <= Z.of_nat k ->
  exists out, multi_row show width b o k i lw n line_width delim =
      Some (out, Z.max i (Z.min n (i + (line_width - lw)))) /\
    concat out = tail_text delim (take (Z.to_nat (line_width - lw)) (values i n)).
Proof.
  induction k as [|k IH]; intros i lw Hi Hl Hk; cbn [multi_row].
  - replace (line_width - lw) with 0 by lia; exists []; split; [do 2 f_equal; lia|done].
  - destruct (Z.ltb_spec i n) as [L|L]; cbn [andb].
    2: { rewrite values_end, take_nil by lia; exists []; split; [do 2 f_equal; lia|done]. }
    destruct (Z.ltb_spec lw line_width) as [L'|L'].
    2: { replace (line_width - lw) with 0 by lia; exists []; split; [do 2 f_equal; lia|done]. }
    destruct (show_element_ok i) as (o1 & E1 & C1); [lia|]; destruct (IH (i + 1) (lw + 1)) as (o2 & E2 & C2); [lia|lia|lia|].
    rewrite E1, E2; cbn [mbind option_bind]; eexists; split; [do 2 f_equal; lia|].
    rewrite !concat_app, concat_puts, C1, C2, (values_next i) by lia.
    replace (Z.to_nat (line_width - lw)) with (S (Z.to_nat (line_width - (lw + 1)))) by lia; done.
Qed.

Lemma multi_rows_ok fuel delim line_width : forall i, 0 <= i -> 1 <= line_width -> (0 < fuel)%nat -> n - i < Z.of_nat fuel ->
  exists out, multi_rows show width b o fuel i n line_width delim = Some out /\
    concat out = multi_text fuel show (Z.to_nat line_width) delim (values i n).
Proof.
  induction fuel as [|fuel IH]; intros i Hi Hl H0 Hf; [lia|]; cbn [multi_rows multi_text].
  destruct (Z.ltb_spec i n) as [L|L]; [|rewrite values_end by lia; now exists []].
  destruct (show_element_ok i) as (o1 & E1 & C1); [lia|].
  destruct (multi_row_ok (Z.to_nat line_width) delim line_width (i + 1) 1) as (o2 & E2 & C2); [lia|lia|lia|].
  rewrite E1, E2; cbn [mbind option_bind]; set (i' := Z.max _ _) in *.
  destruct (IH i') as (o3 & E3 & C3); [lia|lia|lia|lia|]; rewrite E3; cbn [mbind option_bind].
  eexists; split; [reflexivity|]; rewrite !concat_app, concat_puts, C1, C2, C3, (values_next i) by lia; cbn [app].
  replace (Z.to_nat line_width) with (S (Z.to_nat (line_width - 1))) by lia; cbn [take drop single_text].
  rewrite drop_values; do 2 f_equal; rewrite <- app_assoc; do 3 f_equal.
  destruct (Z.le_gt_cases n (i + 1 + (line_width - 1))).
  - rewrite !values_end by lia; done.
  - f_equal; lia.
Qed.
End Values.

(** ** The dump argument *)

Lemma read_some b o n : 0 <= o -> o + n <= Z.of_nat (length b) -> read b o n = Some (peek b o n).
Proof. intros; unfold read; now rewrite (proj2 (Z.leb_le 0 o)), (proj2 (Z.leb_le (o + n) _)) by lia. Qed.

Lemma get_xf_line_width h : bytes_ok h -> length h = 4%nat -> 0 <= xf_line_width (get_xf h) < 256.
Proof.
  intros B L; unfold get_xf; cbn [xf_line_width]; unfold bytes_ok in B; rewrite Forall_lookup in B.
  eapply B, list_lookup_lookup_total_lt; rewrite L; vm_compute; lia.
Qed.

(** C34: What a dump prints, for a dump argument that lies within the record and
    has at least the four bytes of its format, whatever that format is, and at
    most 2 GiB.  The values are as many as fit in the rest of the data.  A hexadecimal dump is
    the lines of the bytes with their offsets and characters; with no bytes per
    line it never ends, unless it is empty.  With a conversion that is known the
    dump is the values, on one line or in lines of the width; with any other a
    message is printed in their place.  A format that gives the values no width
    divides by zero, so nothing comes out.  (A record without room for a dump
    keeps none of these bytes, see [dump_without_room].) *)
Theorem dump_renders print_flt b o len : bytes_ok b -> 0 <= o -> 4 <= len <= 2147483648 ->
  o + len <= Z.of_nat (length b) ->
  let xf := get_xf (peek b o 4) in
  let n := (len - 4) / xf_byte_width xf in
  let lw := Z.to_nat (xf_line_width xf) in
  (xf_byte_width xf = 0 -> do_xdump print_flt b o len = None) /\
  (1 <= xf_byte_width xf ->
  (xf_type xf = 72 -> 1 <= xf_line_width xf -> exists out, do_xdump print_flt b o len = Some out /\
     concat out = hexdump_text (S (Z.to_nat n)) lw 0 (peek b (o + 4) n)) /\
  (xf_type xf = 72 -> xf_line_width xf = 0 ->
     if 0 <? n then do_xdump print_flt b o len = None /\ forall fuel, do_hexdump fuel b (o + 4) 0 n xf = None
     else do_xdump print_flt b o len = Some []) /\
  (forall show, xf_type xf <> 72 -> xdump_conv print_flt xf = Some show -> exists out, do_xdump print_flt b o len = Some out /\
     concat out = let vs := values (xf_byte_width xf) b (o + 4) 0 n in
       if xf_line_width xf =? 0 then single_text show (xf_delim xf) vs
       else multi_text (S (Z.to_nat n)) show lw (xf_delim xf) vs) /\
  (xf_type xf <> 72 -> xdump_conv print_flt xf = None -> exists out, do_xdump print_flt b o len = Some out /\
     concat out = str "xdump conversion type " ++ [xf_type xf] ++ str " not supported")).
Proof.
  intros B Ho Hl Hb xf n lw; split; [intros W0; unfold do_xdump; rewrite read_some by lia; cbn [mbind option_bind]; fold xf; now rewrite W0|].
  intros Hw.
  assert (Hx : 0 <= xf_line_width xf < 256).
  { apply get_xf_line_width; [unfold bytes_ok, peek in *; auto using Forall_take, Forall_drop|].
    apply Nat2Z.inj; rewrite peek_length by lia; done. }
  assert (Hn : 0 <= n <= len - 4) by (unfold n; split; [apply Z.div_pos; lia|apply Z.div_le_upper_bound; nia]).
  assert (Hnw : n * xf_byte_width xf <= len - 4) by (unfold n; rewrite Z.mul_comm; apply Z.mul_div_le; lia).
  assert (E : do_xdump print_flt b o len =
    (if xf_type xf =? 72 then do_hexdump (S (Z.to_nat n)) b (o + 4) 0 n xf
     else match xdump_conv print_flt xf with
          | Some show => xdump_multi show (xf_byte_width xf) b (o + 4) n xf
          | None => Some (printf (str "xdump conversion type " ++ [xf_type xf] ++ str " not supported"))
          end)).
  { unfold do_xdump; rewrite read_some by lia; cbn [mbind option_bind]; fold xf.
    rewrite (proj2 (Z.eqb_neq (xf_byte_width xf) 0)) by lia; rewrite (u64_small (len - 4)) by (words; lia).
    fold n; now rewrite u32_small by (words; lia). }
  rewrite E; split; [|split; [|split]].
  - intros -> L1; change (72 =? 72) with true; cbn iota.
    destruct (hexdump_ok b (o + 4) n ltac:(lia) ltac:(lia) ltac:(lia) (S (Z.to_nat n)) xf 0) as (out & E' & C);
      [lia|lia|lia|lia|]; exists out; split; [exact E'|]; rewrite C; unfold from; now rewrite Z.add_0_r, Z.sub_0_r.
  - intros -> L0; change (72 =? 72) with true; cbn iota; destruct (Z.ltb_spec 0 n) as [Hp|Hp].
    + assert (En : forall fuel, do_hexdump fuel b (o + 4) 0 n xf = None) by (intros fuel; apply hexdump_endless; (done || lia)).
      split; [apply En|exact En].
    + cbn [do_hexdump]; now rewrite (proj2 (Z.ltb_ge 0 n)) by lia.
  - intros show N Hs; rewrite (proj2 (Z.eqb_neq _ _) N), Hs; unfold xdump_multi.
    destruct (Z.eqb_spec n 0) as [->|Hn0].
    { exists []; split; [done|]; cbv zeta; rewrite values_end by lia; now destruct (_ =? 0). }
    destruct (Z.eqb_spec (xf_line_width xf) 0) as [Hz|Hz].
    + unfold xdump_single; destruct (show_element_ok show (xf_byte_width xf) b (o + 4)) with (n := n) (i := 0)
        as (o1 & E1 & C1); [lia|lia|lia|lia|].
      destruct (single_rest_ok show (xf_byte_width xf) b (o + 4)) with (n := n) (i := 1) (k := Z.to_nat n) (delim := xf_delim xf)
        as (o2 & E2 & C2); [lia|lia|lia|lia|lia|].
      rewrite E1, E2; cbn [mbind option_bind]; eexists; split; [reflexivity|].
      rewrite concat_app, C1, C2, (values_next _ _ _ 0) by lia; done.
    + destruct (multi_rows_ok show (xf_byte_width xf) b (o + 4)) with (n := n) (i := 0) (fuel := S (Z.to_nat n))
        (line_width := xf_line_width xf) (delim := xf_delim xf) as (out & E' & C); [lia..|]; now exists out.
  - intros N Hs; rewrite (proj2 (Z.eqb_neq _ _) N), Hs; eexists; split; [reflexivity|]; now rewrite concat_printf.
Qed.

(** ** A dump for which the record has no room *)

Lemma set_arg_data_bytes r i o l r' : bytes_ok (r_argval r) -> set_arg_data r i o l = Some r' -> bytes_ok (r_argval r').
Proof.
  unfold set_arg_data; intros B; destruct (memcpy _ _ _) as [b|] eqn:E; [|done]; intros [= <-]; cbn.
  eapply memcpy_bytes_ok; [exact B| |exact E]; apply Forall_app; split; apply le_bytes_ok.
Qed.

Lemma copy_cstr_bytes m r i p len tailroom offset r' used : mem_ok m -> bytes_ok (r_argval r) ->
  copy_cstr m r i p len tailroom offset = Some (r', used) -> bytes_ok (r_argval r').
Proof.
  intros Hm B; unfold copy_cstr; set (room := tailroom -u32 offset); destruct (_ || _).
  - destruct (set_arg_data r i 0 0) as [r1|] eqn:E; [|done]; intros [= <- _]; eapply set_arg_data_bytes; eauto.
  - assert (Bm : bytes_ok (str ">>>")) by (change (str ">>>") with [62; 62; 62]; repeat (apply Forall_cons; split; [words; lia|]); constructor).
    set (choice := if (room -u32 1) <? len then _ else _).
    assert (Hc : forall b n l, choice = Some (b, n, l) -> bytes_ok b).
    { unfold choice; intros b n l; destruct (_ <? len); [|now intros [= <- _ _]].
      destruct (3 <? _); [|now intros [= <- _ _]].
      destruct (memcpy _ _ (str ">>>")) as [b'|] eqn:E; [|done]; intros [= <- _ _]; exact (memcpy_bytes_ok _ _ _ _ B Bm E). }
    destruct choice as [[[b n] l]|]; [|done]; specialize (Hc b n l eq_refl); cbn [mbind option_bind].
    destruct (memcpy b offset (mread m p n)) as [b1|] eqn:E1; [|done]; cbn [mbind option_bind].
    assert (B1 : bytes_ok b1) by (eapply memcpy_bytes_ok; [exact Hc|now apply mread_ok|exact E1]).
    destruct (memcpy b1 (offset + l) [0]) as [b2|] eqn:E2; [|done]; cbn [mbind option_bind].
    assert (B2 : bytes_ok b2) by (refine (memcpy_bytes_ok _ _ _ _ B1 _ E2); apply Forall_cons; split; [words; lia|constructor]).
    destruct (set_arg_data _ _ _ _) as [r1|] eqn:E3; [|done]; intros [= <- _].
    eapply set_arg_data_bytes; [|exact E3]; exact B2.
Qed.

Lemma cstr_stored_full data room : 1 < room -> room - 1 <= Z.of_nat (length data) ->
  snd (cstr_stored data room) = room /\ fst (cstr_stored data room) <> [].
Proof.
  intros Hr Hd; unfold cstr_stored; destruct (Z.eqb_spec (Z.of_nat (length data)) 0); [lia|]; destruct (Z.eqb_spec room 0); [lia|].
  cbn [orb]; destruct (Z.leb_spec (Z.of_nat (length data)) (room - 1)); cbn [fst snd].
  - split; [lia|]; intros ->; cbn in *; lia.
  - destruct (3 <? room - 1); cbn [fst snd]; (split; [done|]).
    + now destruct (take _ _).
    + intros H'; apply (f_equal length) in H'; rewrite length_take in H'; cbn in H'; lia.
Qed.

(** What posting a string that fills the slot and a dump leaves behind. *)
Lemma posted_no_room m r tailroom ap0 s x :
  mem_ok m -> pack_wf ap0 -> arg_wf s -> arg_wf x -> a_type s = CSTR -> a_type x = XDUMP ->
  128 <= tailroom < 4294967296 -> Z.of_nat (length (r_argval r)) = tailroom -> bytes_ok (r_argval r) ->
  tailroom - 17 <= a_len s ->
  exists r', set_args_pack m r tailroom (fst (populate ap0 [s; x])) = Some r' /\
    r_argtype r' = p_argtype (fst (populate ap0 [s; x])) /\ get_arg_type r' 0 = CSTR /\ get_arg_type r' 1 = XDUMP /\
    get_arg_data r' 1 = (0, 0) /\ peek (r_argval r') 0 4 = [16; 0; 0; 0] /\ Z.of_nat (length (r_argval r')) = tailroom.
Proof.
  intros Hm Hp Hs Hx Ts Tx Ht Hl B Hlen.
  destruct (populate_spec ap0 [s; x]) as (W & Na & P); [cbn; lia|done|auto|].
  set (ap := fst (populate ap0 [s; x])) in *.
  assert (Sp : arg_span [s; x] = 2) by (cbn [arg_span]; rewrite Tx, Ts; reflexivity).
  destruct (P 0%nat s eq_refl) as [T0 V0], (P 1%nat x eq_refl) as [T1 V1].
  rewrite Ts in T0, V0; rewrite Tx in T1, V1; change (Z.of_nat 0) with 0 in *; change (Z.of_nat 1) with 1 in *.
  destruct (V0 ltac:(discriminate)) as (_ & P0 & L0); specialize (P0 eq_refl); specialize (L0 eq_refl).
  assert (Hr0 : has_room (with_argtype r (p_argtype ap)) 0 tailroom 16) by (unfold has_room; cbn; lia).
  destruct (copy_cstr_placed m _ 0 (a_val s) (a_len s) tailroom 16 Hr0 (awf_len _ Hs)) as [r1 H1].
  destruct (cstr_stored_full (mread m (a_val s) (a_len s)) (tailroom - 16)) as [Hu Hd];
    [lia|rewrite length_mread; destruct (awf_len _ Hs); lia|].
  destruct (cstr_stored _ _) as [d used]; cbn [fst snd] in *; subst used; destruct H1 as [E1 Pl].
  assert (B1 : bytes_ok (r_argval r1)) by exact (copy_cstr_bytes m (with_argtype r (p_argtype ap)) _ _ _ _ _ _ _ Hm B E1).
  assert (L1 : Z.of_nat (length (r_argval r1)) = tailroom) by (destruct (pl_touches _ _ _ _ _ _ _ Pl) as [L _]; cbn in L; lia).
  destruct (set_arg_data_spec r1 1 0 0) as (b2 & E2 & Tb & O2 & Z2); [lia|lia|words; lia|words; lia|].
  assert (F1 : r_argtype r1 = p_argtype ap) by (rewrite (pl_frame _ _ _ _ _ _ _ Pl); done).
  exists (with_argval r1 b2); split; [|split; [|split; [|split; [|split; [|split]]]]]; cbn [r_argtype with_argval r_argval].
  - unfold set_args_pack; rewrite Na, Sp; change (2 *u32 8) with 16; change (Z.to_nat 2) with 2%nat; cbn [set_packed_args].
    unfold set_packed_arg, pack_data; change (0 + 1) with 1; rewrite T0, T1, P0.
    change (p_arglen ap !!! Z.to_nat 0) with (snd (pack_data ap 0)); rewrite L0.
    change (CSTR =? RAW) with false; change (CSTR =? XDUMP) with false; change (CSTR =? CSTR) with true; cbn iota; rewrite E1.
    cbn [mbind option_bind]; replace (16 + (tailroom - 16)) with tailroom by lia; rewrite u32_small by (words; lia).
    change (XDUMP =? RAW) with false; change (XDUMP =? XDUMP) with true; cbn iota.
    unfold copy_xdump; rewrite Z.sub_diag; change (u32 0) with 0; set (want := u32 _); pose proof (u32_range (sizeof_xdump_format + xd_len m (pack_val64 ap 1))) as Rw; fold want in Rw.
    replace (if 0 <? want then 0 else want) with 0 by (destruct (Z.ltb_spec 0 want); words; lia).
    change (0 <? sizeof_xdump_format) with true; cbn iota; rewrite E2; done.
  - exact F1.
  - unfold get_arg_type; cbn; now rewrite F1.
  - unfold get_arg_type; cbn; now rewrite F1.
  - unfold get_arg_data; cbn [r_argval with_argval]; now rewrite O2, Z2.
  - destruct (Tb 8 8) as [_ Same]; rewrite Same by lia.
    destruct (pl_data _ _ _ _ _ _ _ Pl Hd) as [O1 _]; unfold get_arg_data in O1; cbn [fst] in O1; change (0 * 8) with 0 in O1.
    assert (Bp : bytes_ok (peek (r_argval r1) 0 4)) by (unfold bytes_ok, peek in *; auto using Forall_take, Forall_drop).
    assert (Lp : length (peek (r_argval r1) 0 4) = 4%nat) by (apply Nat2Z.inj; rewrite peek_length by lia; done).
    rewrite <- (le_bytes_val _ Bp), Lp, O1; reflexivity.
  - destruct (Tb 8 8) as [L _]; lia.
Qed.

(** A dump that finds no room left kills the program: when the string before
    it fills the ring slot, the record keeps no data for the dump, the
    formatter takes the dump's format from the argument slots, its width there
    is zero, and it divides by it.  No line is printed. *)
Theorem dump_without_room m r tailroom ap0 s x :
  mem_ok m -> pack_wf ap0 -> arg_wf s -> arg_wf x -> a_type s = CSTR -> a_type x = XDUMP ->
  128 <= tailroom < 4294967296 -> Z.of_nat (length (r_argval r)) = tailroom -> bytes_ok (r_argval r) ->
  tailroom - 17 <= a_len s ->
  exists r', set_args_pack m r tailroom (fst (populate ap0 [s; x])) = Some r' /\ get_arg_data r' 1 = (0, 0) /\
    xf_byte_width (get_xf (peek (r_argval r') 0 4)) = 0 /\
    forall print_flt vprintf d, rd_record d = r' -> rd_next_arg d = 0 ->
      do_xdump print_flt (r_argval r') 0 0 = None /\ body print_flt vprintf d = None.
Proof.
  intros Hm Hp Hs Hx Ts Tx Ht Hl B Hlen.
  destruct (posted_no_room m r tailroom ap0 s x) as (r' & E & _ & T0 & T1 & D1 & P4 & L); auto.
  exists r'; split; [exact E|]; split; [exact D1|]; split; [now rewrite P4|]; intros print_flt vprintf d Hd Hn.
  assert (X : do_xdump print_flt (r_argval r') 0 0 = None) by (unfold do_xdump; rewrite read_some by lia; rewrite P4; done).
  split; [exact X|]; unfold body, output_plain; rewrite Hn, Hd, T0, T1.
  change (Z.to_nat (NARGS - 0)) with 16%nat; change (CSTR =? RAW) with false; cbn iota.
  change (((CSTR =? CSTR) || (CSTR =? GSTR)) && negb (XDUMP =? NONE) && negb (XDUMP =? XDUMP) && negb (XDUMP =? RAW)) with false.
  cbn [plain_args]; rewrite Hd, T0; change (0 + 1) with 1; rewrite T1.
  change (CSTR =? NONE) with false; change (XDUMP =? NONE) with false; cbn iota.
  destruct (plain_arg print_flt d 0 CSTR); [|done]; cbn [mbind option_bind].
  assert (PX : plain_arg print_flt d 1 XDUMP =
    let '(offset, len) := get_arg_data (rd_record d) 1 in do_xdump print_flt (r_argval (rd_record d)) offset len) by reflexivity.
  rewrite PX, Hd, D1, X; done.
Qed.

(** ** Concrete dumps *)

(** Three 16-bit numbers and a hexadecimal dump, after one byte. *)
Definition number_dump : bytes := [0] ++ [100; 2; 2; 44] ++ [1; 0; 255; 255; 6; 1].
Definition byte_dump : bytes := [0] ++ [72; 1; 4; 32] ++ str "abcdef".

Lemma dump_renders_witness :
  (exists out, do_xdump (fun _ _ _ => []) number_dump 1 10 = Some out /\
     concat out = [10; 9] ++ str "1,-1" ++ [10; 9] ++ str "262") /\
  (exists out, do_xdump (fun _ _ _ => []) byte_dump 1 10 = Some out /\
     concat out = [10; 9] ++ str "000: 61 62 63 64   abcd" ++ [10; 9] ++ str "004: 65 66         ef").
Proof.
  split.
  - destruct (dump_renders (fun _ _ _ => []) number_dump 1 10) as (_ & T); [|lia|lia|vm_compute; discriminate|].
    { unfold bytes_ok, number_dump; repeat (apply Forall_cons; split; [words; lia|]); constructor. }
    destruct (T ltac:(vm_compute; discriminate)) as (_ & _ & H & _); destruct (H (fun v => p_d (signed 16 v)) ltac:(vm_compute; discriminate) eq_refl) as (out & E & C).
    exists out; split; [exact E|]; rewrite C; reflexivity.
  - destruct (dump_renders (fun _ _ _ => []) byte_dump 1 10) as (_ & T); [|lia|lia|vm_compute; discriminate|].
    { unfold bytes_ok, byte_dump; repeat (apply Forall_cons; split; [words; vm_compute; split; discriminate || reflexivity|]); constructor. }
    destruct (T ltac:(vm_compute; discriminate)) as (H & _); destruct (H eq_refl ltac:(vm_compute; discriminate)) as (out & E & C); exists out; split; [exact E|]; rewrite C; reflexivity.
Defined.

Lemma dump_without_room_witness :
  exists r', set_args_pack demo_mem (demo_record 224) 224 (fst (populate demo_pack [mkArg CSTR 64 300; mkArg XDUMP 4096 0])) = Some r' /\
    forall d, rd_record d = r' -> rd_next_arg d = 0 -> body (fun _ _ _ => []) (fun _ _ => ([], None)) d = None.
Proof.
  destruct (dump_without_room demo_mem (demo_record 224) 224 demo_pack (mkArg CSTR 64 300) (mkArg XDUMP 4096 0))
    as (r' & E & _ & _ & T).
  - apply demo_mem_ok.
  - apply demo_pack_wf.
  - split; vm_compute; intuition congruence.
  - split; vm_compute; intuition congruence.
  - reflexivity.
  - reflexivity.
  - lia.
  - reflexivity.
  - apply (Forall_replicate is_u8 224 0); words; lia.
  - cbn; lia.
  - exists r'; split; [exact E|]; intros d Hd Hn; now apply T.
Defined.
