(* ===== verification/Raw.v ===== *)
(** * The raw format (format-raw.cc) and its parser (tools/raw-parser, tools/rdbuf)

    A record is written as numbers in little-endian order and strings and blobs
    behind their lengths; the parser rebuilds a record from the bytes of a
    buffered reader.  What the parser needs of a reader is an interface. *)

From S2P Require Import Prelude Args Record Area Timestamp Ostrbuf Format.

(** ** The packer *)

Section Packer.
Variable tsf : ts_format.
Variable gstr : Z -> bytes.
Variable area_at : Z -> area.

(** The bytes of an integer of [n] bytes. *)
(* src: src/format-raw.cc 40-44 raw_packer::add_uint *)
Definition add_uint (n : nat) (v : Z) : output := puts (le_bytes n v).

(** A blob behind its length, cut to what the length of [n] bytes can say. *)
(* src: src/format-raw.cc 46-52 raw_packer::add_blob *)
Definition add_blob (n : nat) (data : bytes) : output :=
  let len := Z.min (Z.of_nat (length data)) (256 ^ Z.of_nat n - 1) in
  add_uint n len ++ puts (take (Z.to_nat len) data).

(* src: src/format-raw.cc 54-64 raw_packer::add_str *)
Definition add_str (n : nat) (data : bytes) : output := add_blob n data.

(** The bytes of an argument's data; no byte is read when there is none. *)
Definition read_data (r : record) (i : Z) : option bytes :=
  let '(offset, len) := get_arg_data r i in
  if len =? 0 then Some [] else read (r_argval r) offset len.

(** One argument; a null global string cannot be measured. *)
(* src: src/format-raw.cc 71-102 raw_packer::add_args *)
Definition add_arg (r : record) (i type : Z) : option output :=
  if (type =? XDUMP) || (type =? RAW) then
    data ← read_data r i; Some (add_blob 4 data)
  else if type =? CSTR then
    data ← read_data r i; Some (add_str 2 data)
  else if type =? GSTR then
    let p := if is_32bit GSTR then get_arg_val32 r i else get_arg_val64 r i in
    if p =? 0 then None else Some (add_str 2 (gstr p))
  else if (type =? INT32) || (type =? UINT32) then Some (add_uint 4 (get_arg_val32 r i))
  else Some (add_uint 8 (get_arg_val64 r i)).

Fixpoint add_args_from (k : nat) (r : record) (i : Z) : option output :=
  match k with
  | O => Some []
  | S k =>
      let type := get_arg_type r i in
      if type =? NONE then Some []
      else out ← add_arg r i type; rest ← add_args_from k r (i + 1); Some (out ++ rest)
  end.

(* src: src/format-raw.cc 66-104 raw_packer::add_args *)
Definition add_args (r : record) : option output :=
  rest ← add_args_from (Z.to_nat NARGS) r 0; Some (add_uint 8 (r_argtype r) ++ rest).

(* src: src/format-raw.cc 109-129 raw_packer::pack *)
Definition pack (d : format_data) : option output :=
  let r := fd_record d in
  let '(area_name, sect_name) := record_names area_at r in
  args ← add_args r;
  Some (add_uint 8 (to_nsec tsf (r_timestamp r)) ++ add_uint 8 (r_seqnum r) ++
        add_str 1 (fd_ring_name d) ++ add_str 1 area_name ++ add_str 1 sect_name ++ args).

(* src: src/format-raw.cc 135-139 format_raw::process *)
Definition raw_process `{Stream U} (ou : ostrbuf * U) (d : format_data) : option (ostrbuf * U) :=
  out ← pack d; Some (fold_left push_back out ou).
End Packer.

(** ** Readers

    [rd_read u n] tells whether all [n] bytes could be read, and yields the bytes
    that were; [None] is a read that waits for ever.  [rd_rest] is what is still
    to be read of a reader that is [sound]. *)
(* src: tools/rdbuf.hpp 38-62 rdbuf *)
Class Reader (U : Type) := {
  rd_read : U -> Z -> option (bool * bytes * U);
  rd_rest : U -> bytes;
  rd_sound : U -> Prop;
  rd_read_ok u n : rd_sound u -> 0 <= n ->
    exists u', rd_sound u' /\
      if n <=? Z.of_nat (length (rd_rest u))
      then rd_read u n = Some (true, take (Z.to_nat n) (rd_rest u), u') /\ rd_rest u' = drop (Z.to_nat n) (rd_rest u)
      else rd_read u n = Some (false, rd_rest u, u') /\ rd_rest u' = [] }.

(** *** A file *)

(** What the calls to [read] on the descriptor will return. *)
Inductive chunk := Data (b : bytes) | Zero | ReadError (errno : Z).

(** The data between head and head + size, the count of bytes handed out, the
    mode and the last error. *)
(* src: tools/rdbuf.hpp 68-113 file_rdbuf *)
Record file_rdbuf := mkRdbuf {
  fr_data : bytes; fr_count : Z; fr_tailf : bool; fr_errno : Z; fr_next : list chunk }.

(* src: tools/rdbuf.hpp 102-107 file_rdbuf::reset *)
Definition rdbuf_reset (f : file_rdbuf) : file_rdbuf := mkRdbuf [] 0 (fr_tailf f) 0 (fr_next f).

(** A file that could be opened: what the calls to [read] return that begin at
    its start, and those that begin at its end, which is where it ends when it
    is opened; and whether it has a position at all, as pipes have none. *)
Record opened := mkOpened { op_start : list chunk; op_end : list chunk; op_seekable : bool }.

(** A reader that follows the file begins at its end.  There is memory for the
    buffer, and the file can be watched. *)
(* src: tools/rdbuf.cc 43-76 file_rdbuf::file_rdbuf *)
Definition file_rdbuf_new (o : opened) (tailf : bool) : file_rdbuf :=
  rdbuf_reset (mkRdbuf [] 0 tailf 0 (if tailf && op_seekable o then op_end o else op_start o)).

(** In the mode that follows a growing file an end of file waits for the next
    change and tries again. *)
(* src: tools/rdbuf.cc 98-122 file_rdbuf::read_in *)
Fixpoint read_in (tailf : bool) (count errno : Z) (next : list chunk) : option (bool * file_rdbuf) :=
  match next with
  | [] => if tailf then None else Some (false, mkRdbuf [] count tailf errno [])
  | Data b :: next => Some (true, mkRdbuf b count tailf errno next)
  | Zero :: next => if tailf then read_in tailf count errno next else Some (false, mkRdbuf [] count tailf errno next)
  | ReadError e :: next => Some (false, mkRdbuf [] count tailf e next)
  end.

(* src: tools/rdbuf.cc 88-96 file_rdbuf::copy_out *)
Definition copy_out (f : file_rdbuf) (len : Z) : bytes * file_rdbuf * Z :=
  let n := Z.min (Z.of_nat (length (fr_data f))) len in
  (take (Z.to_nat n) (fr_data f),
   mkRdbuf (drop (Z.to_nat n) (fr_data f)) (fr_count f + n) (fr_tailf f) (fr_errno f) (fr_next f), len - n).

(* src: tools/rdbuf.cc 124-133 file_rdbuf::read *)
Fixpoint rdbuf_read (fuel : nat) (f : file_rdbuf) (dst : bytes) (len : Z) : option (bool * bytes * file_rdbuf) :=
  match fuel with
  | O => None
  | S fuel =>
      if len =? 0 then Some (true, dst, f)
      else
        '(ok, f) ← (match fr_data f with
                    | [] => read_in (fr_tailf f) (fr_count f) (fr_errno f) (fr_next f)
                    | _ => Some (true, f)
                    end);
        if (ok : bool) then
          let '(b, f, len) := copy_out f len in rdbuf_read fuel f (dst ++ b) len
        else Some (false, dst, f)
  end.

(** ** The parser *)

(* src: tools/raw-parser.hpp 51-51 raw_area::MAX_NAME_LEN *)
Definition MAX_NAME_LEN : Z := 256.

Inductive version := V1 | V1_1.

(** The reader, the failure flag, the text of the error stream, the record being
    rebuilt and the three arrays for names. *)
(* src: tools/raw-parser.hpp 61-72 raw_parser *)
Record raw_parser (U : Type) := mkParser {
  p_in : U; p_failed : bool; p_error : string; p_record : record;
  p_ring_name : bytes; p_area_name : bytes; p_sect_name : bytes; p_ver : version }.
Arguments mkParser {_}.
Arguments p_in {_}. Arguments p_failed {_}. Arguments p_error {_}. Arguments p_record {_}.
Arguments p_ring_name {_}. Arguments p_area_name {_}. Arguments p_sect_name {_}. Arguments p_ver {_}.

Section Parser.
Context `{Reader U}.
Abbreviation parser := (raw_parser U).

Definition with_in (p : parser) (u : U) : parser :=
  mkParser u (p_failed p) (p_error p) (p_record p) (p_ring_name p) (p_area_name p) (p_sect_name p) (p_ver p).
Definition with_record (p : parser) (r : record) : parser :=
  mkParser (p_in p) (p_failed p) (p_error p) r (p_ring_name p) (p_area_name p) (p_sect_name p) (p_ver p).
Definition fail (p : parser) (msg : string) : parser :=
  mkParser (p_in p) true (p_error p ++ msg) (p_record p) (p_ring_name p) (p_area_name p) (p_sect_name p) (p_ver p).

(** [_error.clear()] resets the state flags of the stream and keeps its text. *)
(* src: tools/raw-parser.cc 150-154 raw_parser::reset *)
Definition parser_reset (p : parser) : parser :=
  mkParser (p_in p) false (p_error p) (p_record p) (p_ring_name p) (p_area_name p) (p_sect_name p) (p_ver p).

(* src: tools/raw-parser.hpp 74-85 raw_parser::read_uint *)
Definition read_uint (n : nat) (stage : string) (p : parser) : option (Z * parser) :=
  if p_failed p then Some (0, p)
  else
    '(ok, b, u) ← rd_read (p_in p) (Z.of_nat n);
    let p := with_in p u in
    let v := le_val b in
    if (ok : bool) then Some (v, p) else Some (v, fail p ("input: failed to read uint @ " ++ stage)).

(** A blob read to offset [o] of the array [a]: the length, the array and the
    parser.  The array's size is not looked at. *)
(* src: tools/raw-parser.hpp 87-103 raw_parser::read_blob *)
Definition read_blob (n : nat) (a : bytes) (o : Z) (stage : string) (p : parser) : option (Z * bytes * parser) :=
  if p_failed p then Some (0, a, p)
  else
    '(len, p) ← read_uint n stage p;
    if p_failed p || (len =? 0) then Some (0, a, p)
    else
      '(ok, b, u) ← rd_read (p_in p) len;
      a ← memcpy a o b;
      let p := with_in p u in
      if (ok : bool) then Some (len, a, p) else Some (0, a, fail p ("input: failed to read blob @ " ++ stage)).

(* src: tools/raw-parser.hpp 105-119 raw_parser::read_str *)
Definition read_str (n : nat) (a : bytes) (o : Z) (stage : string) (p : parser) : option (Z * bytes * parser) :=
  if p_failed p then Some (0, a, p)
  else
    '(len, a, p) ← read_blob n a o stage p;
    if p_failed p then Some (0, a, p)
    else a ← memcpy a (o + len) [0]; Some (len + 1, a, p).

(* src: tools/raw-parser.cc 156-170 valid_name *)
Definition valid_name (a : bytes) : option bool :=
  s ← c_string a;
  Some (forallb isprint s && (2 <=? Z.of_nat (length s)) && (Z.of_nat (length s) <=? 128)).

(* src: tools/raw-parser.cc 172-182 raw_parser::read_name *)
Definition read_name (a : bytes) (stage : string) (p : parser) : option (bytes * parser) :=
  '(_, a, p) ← read_str 1 a 0 stage p;
  if p_failed p then Some (a, p)
  else
    ok ← valid_name a;
    if (ok : bool) then Some (a, p) else Some (a, fail p ("format: failed to validate name @" ++ stage)).

(** A string or a blob of the record, and the offset behind it. *)
Definition arg_buffer (p : parser) : bytes := r_argval (p_record p).

Definition with_buffer (p : parser) (a : bytes) : parser := with_record p (with_argval (p_record p) a).

(** One argument of type [type]. *)
(* src: tools/raw-parser.cc 80-113 raw_parser::read_args *)
Definition read_arg (i type offset : Z) (p : parser) : option (Z * parser) :=
  if (type =? GSTR) || (type =? CSTR) then
    let p := if type =? GSTR
             then with_record p (set_arg_type (clear_arg_type (p_record p) i) i CSTR) else p in
    '(n, a, p) ← read_str 2 (arg_buffer p) offset "cstr-arg" p;
    r ← set_arg_data (with_argval (p_record p) a) i offset (n - 1);
    Some (offset + n, with_record p r)
  else if (type =? XDUMP) || (type =? RAW) then
    '(n, a, p) ← read_blob (match p_ver p with V1 => 2 | V1_1 => 4 end) (arg_buffer p) offset "raw-arg" p;
    r ← set_arg_data (with_argval (p_record p) a) i offset n;
    Some (offset + n, with_record p r)
  else if (type =? INT32) || (type =? UINT32) then
    '(v, p) ← read_uint 4 "uint32-arg" p;
    r ← set_arg_val32 (p_record p) i v; Some (offset, with_record p r)
  else
    '(v, p) ← read_uint 8 "uint64-arg" p;
    r ← set_arg_val64 (p_record p) i v; Some (offset, with_record p r).

Fixpoint read_args_from (k : nat) (i offset : Z) (p : parser) : option parser :=
  match k with
  | O => Some p
  | S k =>
      if p_failed p then Some p
      else
        let type := get_arg_type (p_record p) i in
        if type =? NONE then Some p
        else '(offset, p) ← read_arg i type offset p; read_args_from k (i + 1) offset p
  end.

(* src: tools/raw-parser.cc 66-115 raw_parser::read_args *)
Definition read_args (p : parser) : option parser :=
  if p_failed p then Some p
  else
    '(t, p) ← read_uint 8 "argtype" p;
    read_args_from (Z.to_nat NARGS) 0 (16 * 8) (with_record p (with_argtype (p_record p) t)).

(** The record buffer is what is left of [max_record_size] after the header, the
    names are arrays of 256 bytes; nothing is initialised. *)
(* src: tools/raw-parser.cc 117-142 raw_parser::raw_parser *)
Definition parser_new (junk : Z -> Z) (u : U) (ver : version) (max_record_size : Z) : parser :=
  let array n := map junk (seqZ 0 n) in
  mkParser u false "" (mkRecord None 0 0 0 0 (array (max_record_size - header_size)))
    (array MAX_NAME_LEN) (array MAX_NAME_LEN) (array MAX_NAME_LEN) ver.

(** The names are read into the buffers of the parser's own area, which has one
    section; bytes behind a terminator are not looked at. *)
Definition unstr (b : bytes) : string :=
  String.string_of_list_ascii (map (fun c => Ascii.ascii_of_N (Z.to_N c)) b).

(* src: tools/raw-parser.cc 49-64 raw_area::raw_area *)
Definition raw_area (junk : Z -> Z) (p : parser) : option area :=
  name ← c_string (p_area_name p);
  section ← c_string (p_sect_name p);
  Some (mkArea (unstr name) [unstr section] (bm_resize junk 1)).

(** A record that was parsed: [area] is the address of the parser's own area,
    whose names are in the parser. *)
(* src: tools/raw-parser.cc 184-208 raw_parser::next *)
Definition next (tsf : ts_format) (area : Z) (p : parser) : option (bool * parser) :=
  let r := clear (p_record p) in
  let p := with_record p (mkRecord (Some area) (r_timestamp r) (r_seqnum r) (r_section r) (r_argtype r) (r_argval r)) in
  '(t, p) ← read_uint 8 "timestamp" p;
  let r := p_record p in
  let p := with_record p (mkRecord (r_area r) (from_nsec tsf t) (r_seqnum r) (r_section r) (r_argtype r) (r_argval r)) in
  if p_failed p then Some (false, parser_reset p)
  else
    '(s, p) ← read_uint 8 "seqnum" p;
    let p := with_record p (with_seqnum (p_record p) s) in
    '(a, p) ← read_name (p_ring_name p) "ring-name" p;
    let p := mkParser (p_in p) (p_failed p) (p_error p) (p_record p) a (p_area_name p) (p_sect_name p) (p_ver p) in
    '(a, p) ← read_name (p_area_name p) "area-name" p;
    let p := mkParser (p_in p) (p_failed p) (p_error p) (p_record p) (p_ring_name p) a (p_sect_name p) (p_ver p) in
    '(a, p) ← read_name (p_sect_name p) "section-name" p;
    let p := mkParser (p_in p) (p_failed p) (p_error p) (p_record p) (p_ring_name p) (p_area_name p) a (p_ver p) in
    p ← read_args p;
    Some (negb (p_failed p), p).
End Parser.
