(* ===== verification/RawFacts.v ===== *)
(** * The raw format is read back

    What the packer writes the parser rebuilds, from any reader, up to what the
    format does not keep: global strings come back as strings of the record. *)

From S2P Require Import Prelude Args Record Posted Area Timestamp Ostrbuf Format FormatFacts FormatArgs Raw.

(** ** What is written for an argument *)

Definition blob (n : nat) (d : bytes) : bytes := le_bytes n (Z.of_nat (length d)) ++ d.

Lemma concat_add_blob n d : Z.of_nat (length d) < 256 ^ Z.of_nat n -> concat (add_blob n d) = blob n d.
Proof.
  intros H; unfold add_blob, blob, add_uint; rewrite Z.min_l by lia; rewrite concat_app, !concat_puts; f_equal.
  rewrite Nat2Z.id; apply take_ge; lia.
Qed.

Section Written.
Variable gstr : Z -> bytes.

(** The argument as it is read back. *)
Definition raw_type (t : Z) : Z := if t =? GSTR then CSTR else t.
Definition raw_view (t : Z) (v : arg_view) : arg_view :=
  match v with View64 x => if t =? GSTR then ViewStr (gstr x) else v | _ => v end.

Definition raw_bytes (t : Z) (v : arg_view) : bytes :=
  match raw_view t v with
  | View32 x => le_bytes 4 x
  | View64 x => le_bytes 8 x
  | ViewStr d => blob 2 d
  | ViewData d => blob 4 d
  end.

(** The room it takes in the record that is read. *)
Definition raw_size (t : Z) (v : arg_view) : Z :=
  match raw_view t v with
  | View32 _ | View64 _ => 0
  | ViewStr d => Z.of_nat (length d) + 1
  | ViewData d => Z.of_nat (length d)
  end.

(** Strings whose length fits into sixteen bits, global ones that are there. *)
Definition carried (tv : Z * arg_view) : Prop :=
  (tv.1 = GSTR -> tv.2 <> View64 0) /\
  match raw_view tv.1 tv.2 with
  | ViewStr d => Z.of_nat (length d) < 65536
  | ViewData d => Z.of_nat (length d) < 4294967296
  | _ => True
  end.

Lemma read_data_ok r n off j d tl : data_ok r n off j d tl -> 0 <= n -> off <= Z.of_nat (length (r_argval r)) ->
  read_data r j = Some d.
Proof.
  intros Ok Hn Ho; pose proof (data_ok_arg_data _ _ _ _ _ _ Ok) as A; destruct Ok as [L D]; unfold arg_data in A; unfold read_data.
  destruct (get_arg_data r j) as [o l]; cbn [fst snd] in *; destruct (Z.eqb_spec l 0) as [->|Hl].
  - destruct d; [done|cbn in L; lia].
  - destruct D as (D1 & D2 & _); [intros ->; cbn in L; lia|]; rewrite length_app in D2.
    unfold read; rewrite (proj2 (Z.leb_le 0 o)), (proj2 (Z.leb_le (o + l) _)) by lia; cbn [andb]; now rewrite A.
Qed.

Lemma add_arg_ok r n off j t v : held r n off j t v -> carried (t, v) -> 0 <= n -> off <= Z.of_nat (length (r_argval r)) ->
  exists out, add_arg gstr r j t = Some out /\ concat out = raw_bytes t v.
Proof.
  intros [T N V S W] [G C] Hn Ho; pose proof (view_kind _ _ _ _ T V) as K; cbn [fst snd] in *.
  unfold add_arg, raw_bytes; destruct v as [x|x|d|d]; cbn [raw_view slot_ok] in *.
  - assert (E : add_arg gstr r j t = Some (add_uint 4 x)) by (unfold add_arg; destruct K as [->| ->]; cbn; now rewrite S).
    unfold add_arg in E; rewrite E; eexists; split; [done|apply concat_puts].
  - destruct K as (K1 & K2 & K3 & K4 & K5).
    rewrite (proj2 (Z.eqb_neq t XDUMP) K4), (proj2 (Z.eqb_neq t RAW) K5), (proj2 (Z.eqb_neq t CSTR) K3); cbn [orb].
    destruct (Z.eqb_spec t GSTR) as [->|Ng].
    + change (is_32bit GSTR) with false; cbn iota; rewrite S; rewrite (proj2 (Z.eqb_neq x 0)) by (intros ->; now apply G).
      eexists; split; [done|apply concat_add_blob; exact C].
    + rewrite (proj2 (Z.eqb_neq t INT32) K2), (proj2 (Z.eqb_neq t UINT32) K1); cbn [orb]; rewrite S.
      eexists; split; [done|apply concat_puts].
  - subst t; rewrite K; change (CSTR =? XDUMP) with false; change (CSTR =? RAW) with false; change (CSTR =? CSTR) with true; cbn [orb].
    rewrite (read_data_ok _ _ _ _ _ _ S Hn Ho); cbn [mbind option_bind]; eexists; split; [done|apply concat_add_blob; exact C].
  - assert (E : (t =? XDUMP) || (t =? RAW) = true) by (destruct K as [->| ->]; reflexivity); rewrite E.
    rewrite (read_data_ok _ _ _ _ _ _ S Hn Ho); cbn [mbind option_bind]; eexists; split; [done|apply concat_add_blob; exact C].
Qed.

Definition raw_args (l : list (Z * arg_view)) : bytes := concat (map (fun tv => raw_bytes tv.1 tv.2) l).

Lemma add_args_ok r n off l : forall i, held_args r n off i l -> Forall carried l -> 0 <= n ->
  off <= Z.of_nat (length (r_argval r)) ->
  exists out, add_args_from gstr (16 - i) r (Z.of_nat i) = Some out /\ concat out = raw_args l.
Proof.
  induction l as [|[t v] l IH]; intros i A C Hn Ho; pose proof A as (P & L & E); cbn [length] in *.
  - exists []; split; [|done]; destruct (16 - i)%nat eqn:K; [done|]; cbn [add_args_from].
    rewrite Nat.add_0_r in E; rewrite E by lia; done.
  - destruct (16 - i)%nat as [|k] eqn:K; [lia|]; cbn [add_args_from]; apply Forall_cons in C as [C1 C].
    assert (Pr := P 0%nat t v eq_refl); rewrite Nat.add_0_r in Pr.
    rewrite (hd_type _ _ _ _ _ _ Pr), (proj2 (Z.eqb_neq t NONE) (hd_some _ _ _ _ _ _ Pr)).
    destruct (add_arg_ok _ _ _ _ _ _ Pr C1 Hn Ho) as (o1 & E1 & C1'); rewrite E1; cbn [mbind option_bind].
    replace (Z.of_nat i + 1) with (Z.of_nat (S i)) by lia; replace k with (16 - S i)%nat by lia.
    destruct (IH (S i) (held_tail _ _ _ _ _ _ A) C Hn Ho) as (o2 & E2 & C2); rewrite E2; cbn [mbind option_bind].
    eexists; split; [done|]; rewrite concat_app, C1', C2; done.
Qed.
End Written.

(** ** Reading *)

Lemma memcpy_snoc a o d c a' : 0 <= o -> memcpy a o (d ++ [c]) = Some a' ->
  exists a1, memcpy a o d = Some a1 /\ memcpy a1 (o + Z.of_nat (length d)) [c] = Some a'.
Proof.
  intros Ho; unfold memcpy at 1; case_decide as H; [intros [= <-]|done]; rewrite length_app in H; cbn [length] in H.
  destruct (memcpy_some a o d) as [a1 E]; [lia|lia|]; exists a1; split; [exact E|].
  unfold memcpy in E; rewrite decide_True in E by lia; injection E as <-.
  unfold memcpy; cbn [length]; rewrite decide_True; [|rewrite !length_app, length_take, length_drop; lia].
  f_equal; rewrite Z2Nat.inj_add, Nat2Z.id by lia; set (k := Z.to_nat o).
  assert (Lk : length (take k a) = k) by (rewrite length_take; lia).
  assert (Ld : length (take k a ++ d) = (k + length d)%nat) by (rewrite length_app; lia).
  rewrite (app_assoc (take k a) d (drop _ a)), take_app_length' by lia.
  rewrite drop_app_ge, drop_drop by (cbn [length]; lia); rewrite <- !app_assoc; do 4 f_equal.
  rewrite Ld, length_app; cbn [length]; lia.
Qed.

Section Read.
Context `{Reader U}.
Abbreviation parser := (raw_parser U).

(** A parser that has not failed, and the bytes it has still to read. *)
Definition feeds (p : parser) (s : bytes) : Prop := p_failed p = false /\ rd_sound (p_in p) /\ rd_rest (p_in p) = s.

(** A reader that goes on with [s]. *)
Definition at_rest (u : U) (s : bytes) : Prop := rd_sound u /\ rd_rest u = s.

Lemma feeds_with_in p u s : p_failed p = false -> at_rest u s -> feeds (with_in p u) s.
Proof. intros F [S R]; done. Qed.

Lemma rd_read_app u d s : at_rest u (d ++ s) -> exists u', rd_read u (Z.of_nat (length d)) = Some (true, d, u') /\ at_rest u' s.
Proof.
  intros [S R]; destruct (rd_read_ok u (Z.of_nat (length d)) S ltac:(lia)) as (u' & S' & E); exists u'.
  rewrite R, length_app, (proj2 (Z.leb_le _ _)), Nat2Z.id, take_app_length, drop_app_length in E by lia; destruct E as [E R'].
  done.
Qed.

Lemma read_uint_ok n stage p v s : feeds p (le_bytes n v ++ s) -> 0 <= v < 256 ^ Z.of_nat n ->
  exists u, read_uint n stage p = Some (v, with_in p u) /\ at_rest u s.
Proof.
  intros (F & S & R) Hv; destruct (rd_read_app (p_in p) (le_bytes n v) s (conj S R)) as (u & E & A); exists u.
  unfold read_uint; rewrite F; rewrite length_le_bytes in E; rewrite E; cbn [mbind option_bind].
  rewrite le_val_bytes, Z.mod_small by lia; done.
Qed.

Lemma read_blob_ok n a a' o stage p d s : feeds p (blob n d ++ s) -> Z.of_nat (length d) < 256 ^ Z.of_nat n ->
  memcpy a o d = Some a' ->
  exists u, read_blob n a o stage p = Some (Z.of_nat (length d), a', with_in p u) /\ at_rest u s.
Proof.
  intros Fe Hd M; unfold blob in Fe; rewrite <- app_assoc in Fe; pose proof (proj1 Fe) as F.
  destruct (read_uint_ok n stage p _ _ Fe ltac:(lia)) as (u & E & A); unfold read_blob; rewrite F, E; cbn [mbind option_bind].
  cbn [p_failed with_in]; rewrite F; cbn [orb]; destruct (Z.eqb_spec (Z.of_nat (length d)) 0) as [Z0|Z0].
  - destruct d; [|cbn in Z0; lia]; exists u; split; [|exact A]; unfold memcpy in M; case_decide; [|done]; injection M as <-.
    cbn [app length] in *; rewrite Nat.add_0_r, take_drop; done.
  - destruct (rd_read_app u d s A) as (u' & E' & A'); exists u'; cbn [p_in with_in]; rewrite E'; cbn [mbind option_bind].
    rewrite M; done.
Qed.

(** A blob that is longer than what is left of the array is written all the
    same, outside of it. *)
Lemma long_blob_escapes n a o stage p d s : feeds p (blob n d ++ s) -> Z.of_nat (length d) < 256 ^ Z.of_nat n ->
  d <> [] -> 0 <= o -> Z.of_nat (length a) < o + Z.of_nat (length d) -> read_blob n a o stage p = None.
Proof.
  intros Fe Hd Nd Ho Hl; unfold blob in Fe; rewrite <- app_assoc in Fe; pose proof (proj1 Fe) as F.
  destruct (read_uint_ok n stage p _ _ Fe ltac:(lia)) as (u & E & A); unfold read_blob; rewrite F, E; cbn [mbind option_bind].
  cbn [p_failed with_in]; rewrite F; cbn [orb]; destruct d as [|c d]; [done|].
  rewrite (proj2 (Z.eqb_neq _ 0)) by (cbn [length]; lia); destruct (rd_read_app u (c :: d) s A) as (u' & E' & _).
  cbn [p_in with_in]; rewrite E'; cbn [mbind option_bind]; unfold memcpy; now rewrite decide_False by lia.
Qed.

Lemma read_str_ok n a a' o stage p d s : feeds p (blob n d ++ s) -> Z.of_nat (length d) < 256 ^ Z.of_nat n -> 0 <= o ->
  memcpy a o (d ++ [0]) = Some a' ->
  exists u, read_str n a o stage p = Some (Z.of_nat (length d) + 1, a', with_in p u) /\ at_rest u s.
Proof.
  intros Fe Hd Ho M; destruct (memcpy_snoc _ _ _ _ _ Ho M) as (a1 & M1 & M2).
  destruct (read_blob_ok n a a1 o stage p d s Fe Hd M1) as (u & E & A); exists u; unfold read_str.
  rewrite (proj1 Fe), E; cbn [mbind option_bind]; cbn [p_failed with_in]; rewrite (proj1 Fe), M2; done.
Qed.

(** *** Names *)

(** What [valid_name] accepts. *)
Definition good_name (d : bytes) : Prop := Forall (fun c => 32 <= c <= 126) d /\ 2 <= Z.of_nat (length d) <= 128.

Lemma good_name_nul_free d : good_name d -> nul_free d.
Proof. intros [F _] I; rewrite Forall_forall in F; specialize (F 0 I); lia. Qed.

Lemma good_name_valid d : good_name d -> forallb isprint d && (2 <=? Z.of_nat (length d)) && (Z.of_nat (length d) <=? 128) = true.
Proof.
  intros [F L]; rewrite (proj2 (Z.leb_le 2 _)), (proj2 (Z.leb_le _ 128)) by lia; rewrite !andb_true_r.
  apply forallb_forall; intros c Hc; apply list_elem_of_In in Hc; rewrite Forall_forall in F; specialize (F c Hc); unfold isprint.
  now rewrite (proj2 (Z.leb_le 32 c)), (proj2 (Z.leb_le c 126)) by lia.
Qed.

Lemma c_string_front a d a' : nul_free d -> memcpy a 0 (d ++ [0]) = Some a' -> c_string a' = Some d.
Proof.
  intros N; unfold memcpy; case_decide as Hb; [intros [= <-]|done]; cbn [Z.to_nat take app]; rewrite <- app_assoc.
  now apply c_string_ok.
Qed.

Lemma read_name_ok a stage p d s : feeds p (blob 1 d ++ s) -> good_name d -> Z.of_nat (length a) = MAX_NAME_LEN ->
  exists a' u, read_name a stage p = Some (a', with_in p u) /\ at_rest u s /\ c_string a' = Some d /\ Z.of_nat (length a') = MAX_NAME_LEN.
Proof.
  intros Fe G La; unfold MAX_NAME_LEN in *; destruct (memcpy_some a 0 (d ++ [0])) as [a' M];
    [lia|destruct G as [_ G]; rewrite length_app; cbn [length]; lia|].
  destruct (read_str_ok 1 a a' 0 stage p d s Fe) as (u & E & A); [destruct G as [_ G]; cbn; lia|lia|exact M|].
  pose proof (c_string_front _ _ _ (good_name_nul_free d G) M) as C; exists a', u; split; [|split; [exact A|split; [exact C|]]].
  - unfold read_name; rewrite E; cbn [mbind option_bind]; cbn [p_failed with_in]; rewrite (proj1 Fe); unfold valid_name.
    rewrite C; cbn [mbind option_bind]; now rewrite good_name_valid.
  - now rewrite (memcpy_length _ _ _ _ M).
Qed.
(** *** Arguments *)

(** What reading argument [i] does to the record. *)
Record read_as (r r' : record) (i offset offset' t : Z) (v : arg_view) : Prop := {
  ra_frame : r' = with_argval (with_argtype r (r_argtype r')) (r_argval r');
  ra_touches : touches (r_argval r) (r_argval r') i offset offset';
  ra_types : forall j, 0 <= j < 16 -> get_arg_type r' j = if decide (i = j) then t else get_arg_type r j;
  ra_slot : slot_ok r' 16 offset' i (Some v) }.

Lemma read_as_same_type r b i offset offset' t v : get_arg_type r i = t -> touches (r_argval r) b i offset offset' ->
  slot_ok (with_argval r b) 16 offset' i (Some v) -> read_as r (with_argval r b) i offset offset' t v.
Proof. intros T Tc S; split; [done|done| |done]; intros j _; case_decide as E; [subst j; exact T|done]. Qed.

(** A string behind the data read so far, by what [set_arg_data] does. *)
Lemma store_data r a i tailroom offset d (nul : bool) : has_room r i tailroom offset -> 128 <= offset ->
  offset + Z.of_nat (length (d ++ (if nul then [0] else []))) <= tailroom ->
  memcpy (r_argval r) offset (d ++ (if nul then [0] else [])) = Some a ->
  exists r', set_arg_data (with_argval r a) i offset (Z.of_nat (length d)) = Some r' /\ r' = with_argval r (r_argval r') /\
    let offset' := offset + Z.of_nat (length (d ++ (if nul then [0] else []))) in
    touches (r_argval r) (r_argval r') i offset offset' /\
    slot_ok r' 16 offset' i (Some (if nul then ViewStr d else ViewData d)).
Proof.
  intros Hr Ho Hl M; set (tl := if nul then [0] else []) in *.
  assert (El : Z.of_nat (length (d ++ tl)) = Z.of_nat (length d) + (if nul then 1 else 0))
    by (unfold tl; rewrite length_app; destruct nul; cbn [length]; lia).
  destruct (placed_descriptor r a i tailroom offset (Z.of_nat (length (d ++ tl))) d nul) as (r' & E & P); auto.
  - eapply memcpy_touches_region; [exact M|lia|lia].
  - rewrite El; destruct nul; lia.
  - lia.
  - rewrite <- El; exact (memcpy_peek _ _ _ _ M).
  - exists r'; split; [exact E|]; split; [apply P|]; split; [apply P|].
    apply (placed_slot_ok _ _ _ _ _ _ _ _ P); lia.
Qed.

Variable gstr : Z -> bytes.

Lemma read_string p s i tailroom offset d : feeds p (blob 2 d ++ s) -> Z.of_nat (length d) < 65536 ->
  has_room (p_record p) i tailroom offset -> 128 <= offset -> offset + (Z.of_nat (length d) + 1) <= tailroom ->
  exists r' u, ('(n, a, p) ← read_str 2 (arg_buffer p) offset "cstr-arg" p;
     r ← set_arg_data (with_argval (p_record p) a) i offset (n - 1);
     Some (offset + n, with_record p r)) = Some (offset + (Z.of_nat (length d) + 1), with_record (with_in p u) r') /\
    at_rest u s /\ r' = with_argval (p_record p) (r_argval r') /\
    touches (r_argval (p_record p)) (r_argval r') i offset (offset + (Z.of_nat (length d) + 1)) /\
    slot_ok r' 16 (offset + (Z.of_nat (length d) + 1)) i (Some (ViewStr d)).
Proof.
  intros Fe Hd Hr Ho Hl; assert (El : Z.of_nat (length (d ++ [0])) = Z.of_nat (length d) + 1) by (rewrite length_app; cbn; lia).
  destruct (memcpy_some (r_argval (p_record p)) offset (d ++ [0])) as [a M]; [lia|destruct Hr as (_ & _ & L & _); lia|].
  destruct (read_str_ok 2 _ a offset "cstr-arg" p d s Fe Hd ltac:(lia) M) as (u & E & A).
  destruct (store_data (p_record p) a i tailroom offset d true Hr Ho) as (r' & E' & F & T & S); [rewrite El; lia|exact M|].
  exists r', u; unfold arg_buffer; rewrite E; cbn [mbind option_bind p_record with_in].
  replace (Z.of_nat (length d) + 1 - 1) with (Z.of_nat (length d)) by lia; rewrite E'; cbn [mbind option_bind].
  rewrite El in T, S; done.
Qed.

Lemma retyped r i j : 0 <= i < 16 -> 0 <= j ->
  get_arg_type (set_arg_type (clear_arg_type r i) i CSTR) j = if decide (i = j) then (CSTR : Z) else get_arg_type r j.
Proof.
  intros Hi Hj; unfold get_arg_type, set_arg_type, clear_arg_type; cbn [r_argtype with_argtype].
  rewrite get_set_type, get_clear_type by lia; case_decide; done.
Qed.

Lemma read_arg_ok r0 n0 off0 p s i tailroom offset t v : held r0 n0 off0 i t v -> carried gstr (t, v) ->
  p_ver p = V1_1 -> feeds p (raw_bytes gstr t v ++ s) -> 0 <= i < 16 ->
  has_room (p_record p) i tailroom offset -> 128 <= offset -> offset + raw_size gstr t v <= tailroom ->
  get_arg_type (p_record p) i = t ->
  exists r' u, read_arg i t offset p = Some (offset + raw_size gstr t v, with_record (with_in p u) r') /\ at_rest u s /\
    read_as (p_record p) r' i offset (offset + raw_size gstr t v) (raw_type t) (raw_view gstr t v).
Proof.
  intros [T0 N V0 S0 W] [G C] Hv Fe Hi Hr Ho Hl T; pose proof (view_kind _ _ _ _ T0 V0) as K; cbn [fst snd] in *.
  clear T0 V0; unfold read_arg, raw_bytes, raw_size, raw_type in *; destruct v as [x|x|d|d]; cbn [raw_view] in *.
  - rewrite Z.add_0_r; destruct (read_uint_ok 4 "uint32-arg" p x s Fe ltac:(words; cbn; lia)) as (u & E & A).
    destruct (set_arg_val32_slot (p_record p) i x tailroom offset Hr) as (b & E' & Tc & Gv).
    exists (with_argval (p_record p) b), u; rewrite u32_small in Gv by done.
    assert (Et : (t =? GSTR) = false /\ (t =? CSTR) = false /\ (t =? XDUMP) = false /\ (t =? RAW) = false /\ (t =? INT32) || (t =? UINT32) = true)
      by (destruct K as [->| ->]; done).
    destruct Et as (-> & -> & -> & -> & ->); cbn [orb]; rewrite E; cbn [mbind option_bind p_record with_in]; rewrite E'.
    split; [done|]; split; [exact A|]; now apply read_as_same_type.
  - destruct K as (K1 & K2 & K3 & K4 & K5); destruct (Z.eqb_spec t GSTR) as [Eg|Ng]; cbn [orb].
    + set (p1 := with_record p (set_arg_type (clear_arg_type (p_record p) i) i CSTR)).
      destruct (read_string p1 s i tailroom offset (gstr x)) as (r' & u & E & A & F & Tc & S); auto.
      exists r', u; split; [exact E|]; split; [exact A|]; split; [rewrite F; done|exact Tc| |exact S].
      intros j Hj; rewrite F; unfold get_arg_type at 1; cbn [r_argtype with_argval]; apply (retyped (p_record p) i j); lia.
    + rewrite (proj2 (Z.eqb_neq t XDUMP) K4), (proj2 (Z.eqb_neq t RAW) K5), (proj2 (Z.eqb_neq t CSTR) K3).
      rewrite (proj2 (Z.eqb_neq t INT32) K2), (proj2 (Z.eqb_neq t UINT32) K1); cbn [orb].
      rewrite Z.add_0_r; destruct (read_uint_ok 8 "uint64-arg" p x s Fe ltac:(words; cbn; lia)) as (u & E & A).
      destruct (set_arg_val64_slot (p_record p) i x tailroom offset Hr) as (b & E' & Tc & Gv & _).
      exists (with_argval (p_record p) b), u; rewrite u64_small in Gv by done.
      rewrite E; cbn [mbind option_bind p_record with_in]; rewrite E'.
      split; [done|]; split; [exact A|]; now apply read_as_same_type.
  - rewrite K in T |- *; change (CSTR =? GSTR) with false; change (CSTR =? CSTR) with true; cbn [orb].
    destruct (read_string p s i tailroom offset d) as (r' & u & E & A & F & Tc & S); auto.
    exists r', u; split; [exact E|]; split; [exact A|]; rewrite F in *; now apply read_as_same_type.
  - assert (Et : (t =? GSTR) = false /\ (t =? CSTR) = false /\ (t =? XDUMP) || (t =? RAW) = true) by (destruct K as [->| ->]; done).
    destruct Et as (-> & -> & ->); cbn [orb]; rewrite Hv.
    destruct (memcpy_some (r_argval (p_record p)) offset (d ++ [])) as [a M];
      [lia|rewrite app_nil_r; destruct Hr as (_ & _ & L & _); lia|].
    destruct (store_data (p_record p) a i tailroom offset d false Hr Ho) as (r' & E' & F & Tc & S); [rewrite app_nil_r; lia|exact M|].
    rewrite app_nil_r in *; destruct (read_blob_ok 4 _ a offset "raw-arg" p d s Fe C M) as (u & E & A).
    exists r', u; unfold arg_buffer; rewrite E; cbn [mbind option_bind p_record with_in]; rewrite E'.
    split; [done|]; split; [exact A|]; rewrite F in *; now apply read_as_same_type.
Qed.
Definition raw_room (l : list (Z * arg_view)) : Z := foldr (fun tv n => raw_size gstr tv.1 tv.2 + n) 0 l.

Lemma raw_size_nonneg t v : 0 <= raw_size gstr t v.
Proof. unfold raw_size; destruct (raw_view gstr t v); lia. Qed.

Lemma raw_room_nonneg l : 0 <= raw_room l.
Proof. induction l as [|[t v] l IH]; cbn; [lia|]; pose proof (raw_size_nonneg t v); unfold raw_room in IH; lia. Qed.

(** A parser with a record of [tailroom] bytes for data, of which those before
    [offset] are used. *)
Record reading (p : parser) (tailroom offset : Z) : Prop := {
  rdg_ver : p_ver p = V1_1; rdg_bounds : 128 <= tailroom < 4294967296;
  rdg_len : Z.of_nat (length (r_argval (p_record p))) = tailroom; rdg_off : 128 <= offset <= tailroom }.

(** The record after the arguments from [i] on were read. *)
Record args_read (r r' : record) (i : nat) (offset offset' : Z) (l : list (Z * arg_view)) : Prop := {
  ar_frame : r' = with_argval (with_argtype r (r_argtype r')) (r_argval r');
  ar_len : length (r_argval r') = length (r_argval r);
  ar_off : offset <= offset';
  ar_new : forall j t v, l !! j = Some (t, v) -> get_arg_type r' (Z.of_nat (i + j)) = raw_type t /\
             slot_ok r' 16 offset' (Z.of_nat (i + j)) (Some (raw_view gstr t v));
  ar_old : forall j, 0 <= j < 16 -> j < Z.of_nat i \/ Z.of_nat (i + length l) <= j -> get_arg_type r' j = get_arg_type r j;
  ar_kept : forall j v, 0 <= j < Z.of_nat i -> slot_ok r 16 offset j v -> slot_ok r' 16 offset' j v }.

Lemma read_args_from_ok r0 n0 off0 tailroom l : forall i p offset s, held_args r0 n0 off0 i l -> Forall (carried gstr) l ->
  reading p tailroom offset -> feeds p (raw_args gstr l ++ s) -> offset + raw_room l <= tailroom ->
  (forall j, Z.of_nat i <= j < 16 -> get_arg_type (p_record p) j = get_arg_type r0 j) ->
  exists r' u offset', read_args_from (16 - i) (Z.of_nat i) offset p = Some (with_record (with_in p u) r') /\
    at_rest u s /\ offset' <= tailroom /\ args_read (p_record p) r' i offset offset' l.
Proof.
  induction l as [|[t v] l IH]; intros i p offset s A C R Fe Hl Ty; pose proof A as (P & L & E); cbn [length] in *.
  - exists (p_record p), (p_in p), offset; split; [|split; [exact (proj2 Fe)|split; [apply R|]]].
    + assert (Ep : Some p = Some (with_record (with_in p (p_in p)) (p_record p))) by now destruct p.
      rewrite <- Ep; destruct (16 - i)%nat eqn:K; [done|]; cbn [read_args_from]; rewrite (proj1 Fe).
      rewrite Nat.add_0_r in E; rewrite Ty, E by lia; done.
    + split; try done; destruct (p_record p); done.
  - destruct (16 - i)%nat as [|k] eqn:K; [lia|]; apply Forall_cons in C as [C1 C].
    assert (Pr := P 0%nat t v eq_refl); rewrite Nat.add_0_r in Pr; pose proof (raw_size_nonneg t v) as Hs.
    assert (Hr : raw_size gstr t v + raw_room l <= tailroom - offset) by (unfold raw_room in *; cbn [foldr fst snd] in Hl; lia).
    pose proof (raw_room_nonneg l) as Hl0.
    destruct R as [R1 R2 R3 R4]; cbn [read_args_from]; rewrite (proj1 Fe).
    assert (Tp : get_arg_type (p_record p) (Z.of_nat i) = t) by (rewrite Ty by lia; apply (hd_type _ _ _ _ _ _ Pr)).
    rewrite Tp, (proj2 (Z.eqb_neq t NONE) (hd_some _ _ _ _ _ _ Pr)).
    unfold raw_args in Fe; cbn [map concat fst snd] in Fe; rewrite <- app_assoc in Fe.
    destruct (read_arg_ok r0 n0 off0 p (raw_args gstr l ++ s) (Z.of_nat i) tailroom offset t v)
      as (r1 & u1 & E1 & A1 & Ra); auto; [lia|unfold has_room; lia|lia|lia|].
    rewrite E1; cbn [mbind option_bind]; destruct Ra as [F1 Tc1 Ty1 S1]; pose proof (proj1 Tc1) as L1.
    set (o1 := offset + raw_size gstr t v) in *; set (p1 := with_record (with_in p u1) r1).
    destruct (IH (S i) p1 o1 s (held_tail _ _ _ _ _ _ A) C) as (r' & u & o' & E' & A' & Ho' & AR).
    { split; cbn [p1 with_record with_in p_record p_ver]; auto; lia. }
    { split; [apply (proj1 Fe)|exact A1]. }
    { lia. }
    { intros j Hj; cbn [p1 p_record with_record]; rewrite Ty1, decide_False by lia; apply Ty; lia. }
    exists r', u, o'; split; [|split; [exact A'|split; [exact Ho'|]]].
    { replace (Z.of_nat i + 1) with (Z.of_nat (S i)) by lia; replace k with (16 - S i)%nat by lia; exact E'. }
    destruct AR as [F2 L2 O2 N2 Ol2 K2]; cbn [p1 p_record with_record] in *; split.
    + rewrite F2, F1; done.
    + lia.
    + lia.
    + intros [|j] t' v'; cbn [lookup list_lookup].
      * intros [= <- <-]; rewrite Nat.add_0_r; split; [rewrite Ol2, Ty1, decide_True by (lia || done); done|].
        apply K2; [lia|exact S1].
      * intros Hj; replace (i + S j)%nat with (S i + j)%nat by lia; now apply N2.
    + intros j Hj Ho; cbn [length] in Ho; rewrite Ol2, Ty1, decide_False by lia; done.
    + intros j w Hj Hw; apply K2; [lia|].
      apply (slot_ok_frame (p_record p) r1 16 (Z.of_nat i) offset (raw_size gstr t v) j w); auto; lia.
Qed.

Lemma view_of_slot r n off j t v : get_arg_type r j = t -> t <> NONE ->
  match v with
  | View32 _ => t = UINT32 \/ t = INT32
  | View64 _ => t <> UINT32 /\ t <> INT32 /\ t <> CSTR /\ t <> XDUMP /\ t <> RAW
  | ViewStr _ => t = CSTR
  | ViewData _ => t = XDUMP \/ t = RAW
  end -> slot_ok r n off j (Some v) -> view r j = Some v.
Proof.
  intros Ty N K S; unfold view; rewrite Ty, (proj2 (Z.eqb_neq t NONE) N); destruct v as [x|x|d|d]; cbn [slot_ok] in S.
  - destruct K as [->| ->]; cbn; now rewrite S.
  - destruct K as (K1 & K2 & K3 & K4 & K5); unfold is_complex, is_simple, is_32bit.
    rewrite (proj2 (Z.eqb_neq t XDUMP) K4), (proj2 (Z.eqb_neq t RAW) K5), (proj2 (Z.eqb_neq t CSTR) K3).
    rewrite (proj2 (Z.eqb_neq t INT32) K2), (proj2 (Z.eqb_neq t UINT32) K1); cbn; now rewrite S.
  - rewrite K, (data_ok_arg_data _ _ _ _ _ _ S); done.
  - rewrite (data_ok_arg_data _ _ _ _ _ _ S); destruct K as [->| ->]; done.
Qed.

Definition raw_arg (tv : Z * arg_view) : Z * arg_view := (raw_type tv.1, raw_view gstr tv.1 tv.2).

(** The parsed record holds what was packed. *)
Lemma args_read_held r0 n0 off0 r r' offset offset' l : held_args r0 n0 off0 0 l -> args_read r r' 0 offset offset' l ->
  (forall j, 0 <= j < 16 -> get_arg_type r j = get_arg_type r0 j) -> held_args r' 16 offset' 0 (map raw_arg l).
Proof.
  intros (P & L & E) [_ _ _ N Ol _] Ty; split; [|split; rewrite length_map; [exact L|]].
  - intros j t' v' Hj; rewrite list_lookup_fmap in Hj; destruct (l !! j) as [[t v]|] eqn:Hl; [|done]; injection Hj as <- <-.
    destruct (N j t v Hl) as [Tj Sj]; destruct (P j t v Hl) as [T0 N0 V0 S0 W0]; pose proof (view_kind _ _ _ _ T0 V0) as K.
    assert (Nn : raw_type t <> NONE) by (unfold raw_type; destruct (t =? GSTR); [discriminate|exact N0]).
    cbn [fst snd]; split; [exact Tj|exact Nn| |exact Sj|].
    + apply (view_of_slot r' 16 offset' _ _ _ Tj Nn); [|exact Sj]; unfold raw_type, raw_view; destruct v as [x|x|d|d].
      * destruct K as [->| ->]; [now left|now right].
      * destruct (t =? GSTR); [done|exact K].
      * rewrite K; done.
      * destruct K as [->| ->]; [now left|now right].
    + unfold raw_view; destruct v; try done; destruct (t =? GSTR); done.
  - intros Hlt; rewrite Ol, Ty by lia; apply E, Hlt.
Qed.
End Read.

(** ** A record *)

(** What is packed: names of record [r], and the whole of its bytes. *)
Definition raw_record (tsf : ts_format) (gstr : Z -> bytes) (r : record) (ring area sect : bytes) (l : list (Z * arg_view)) : bytes :=
  le_bytes 8 (to_nsec tsf (r_timestamp r)) ++ le_bytes 8 (r_seqnum r) ++ blob 1 ring ++ blob 1 area ++ blob 1 sect ++
  le_bytes 8 (r_argtype r) ++ raw_args gstr l.

Lemma pack_ok tsf gstr area_at r ring addr n off l : held_args r n off 0 l -> Forall (carried gstr) l -> 0 <= n ->
  off <= Z.of_nat (length (r_argval r)) -> good_name ring -> good_name (record_names area_at r).1 ->
  good_name (record_names area_at r).2 ->
  exists out, pack tsf gstr area_at (mkData ring r addr) = Some out /\
    concat out = raw_record tsf gstr r ring (record_names area_at r).1 (record_names area_at r).2 l.
Proof.
  intros A C Hn Ho [_ G1] [_ G2] [_ G3]; unfold pack; cbn [fd_record fd_ring_name]; destruct (record_names area_at r) as [an sn]; cbn [fst snd] in *.
  destruct (add_args_ok gstr r n off l 0 A C Hn Ho) as (out & E & T); change (16 - 0)%nat with 16%nat in E.
  change (Z.of_nat 0) with 0 in E; unfold add_args; change (Z.to_nat NARGS) with 16%nat; rewrite E; cbn [mbind option_bind].
  eexists; split; [reflexivity|]; unfold raw_record, add_str, add_uint; rewrite !concat_app, !concat_add_blob, !concat_puts, T by (cbn; lia); done.
Qed.

Lemma to_nsec_u64 tsf v : is_u64 v -> is_u64 (to_nsec tsf v).
Proof.
  unfold to_nsec; destruct tsf; [done|]; intros _.
  match goal with |- is_u64 (u32 ?x) => pose proof (u32_range x) end; words; lia.
Qed.

Section Next.
Context `{Reader U}.
Abbreviation parser := (raw_parser U).

Record parser_ok (p : parser) : Prop := {
  pok_ver : p_ver p = V1_1;
  pok_buffer : 128 + 16 * 65536 <= Z.of_nat (length (r_argval (p_record p))) < 4294967296;
  pok_ring : Z.of_nat (length (p_ring_name p)) = MAX_NAME_LEN;
  pok_area : Z.of_nat (length (p_area_name p)) = MAX_NAME_LEN;
  pok_sect : Z.of_nat (length (p_sect_name p)) = MAX_NAME_LEN }.

Lemma next_ok tsf gstr r0 n0 off0 p area ring an sn l s : held_args r0 n0 off0 0 l -> Forall (carried gstr) l ->
  parser_ok p -> feeds p (raw_record tsf gstr r0 ring an sn l ++ s) ->
  good_name ring -> good_name an -> good_name sn -> is_u64 (r_argtype r0) -> 0 <= r_seqnum r0 < 2 ^ 52 ->
  is_u64 (r_timestamp r0) -> 128 + raw_room gstr l <= Z.of_nat (length (r_argval (p_record p))) ->
  exists p' off', next tsf area p = Some (true, p') /\ feeds p' s /\
    c_string (p_ring_name p') = Some ring /\ c_string (p_area_name p') = Some an /\ c_string (p_sect_name p') = Some sn /\
    r_area (p_record p') = Some area /\ r_timestamp (p_record p') = from_nsec tsf (to_nsec tsf (r_timestamp r0)) /\
    r_seqnum (p_record p') = r_seqnum r0 /\ r_section (p_record p') = 0 /\
    held_args (p_record p') 16 off' 0 (map (raw_arg gstr) l) /\ off' <= Z.of_nat (length (r_argval (p_record p'))) /\
    parser_ok p' /\ p_error p' = p_error p.
Proof.
  intros A C [Hv Hb H1 H2 H3] Fe G1 G2 G3 Ha Hs Ht Hl; unfold raw_record in Fe; rewrite <- !app_assoc in Fe.
  pose proof (to_nsec_u64 tsf _ Ht) as Hn; unfold next; set (p1 := with_record p _).
  destruct (read_uint_ok 8 "timestamp" p1 (to_nsec tsf (r_timestamp r0))
    (le_bytes 8 (r_seqnum r0) ++ blob 1 ring ++ blob 1 an ++ blob 1 sn ++ le_bytes 8 (r_argtype r0) ++ raw_args gstr l ++ s))
    as (u1 & E1 & A1); [exact Fe|words; cbn; lia|].
  rewrite E1; cbn [mbind option_bind]; set (p2 := with_record (with_in p1 u1) _).
  assert (Fe2 : feeds p2 _) by (split; [exact (proj1 Fe)|exact A1]); rewrite (proj1 Fe2).
  destruct (read_uint_ok 8 "seqnum" p2 _ _ Fe2) as (u2 & E2 & A2); [cbn; lia|].
  rewrite E2; cbn [mbind option_bind]; set (p3 := with_record (with_in p2 u2) _).
  assert (Fe3 : feeds p3 _) by (split; [exact (proj1 Fe)|exact A2]).
  destruct (read_name_ok (p_ring_name p3) "ring-name" p3 _ _ Fe3 G1 H1) as (a3 & u3 & E3 & A3 & C3 & L3).
  rewrite E3; cbn [mbind option_bind]; set (p4 := mkParser _ _ _ _ a3 _ _ _).
  assert (Fe4 : feeds p4 _) by (split; [exact (proj1 Fe)|exact A3]).
  destruct (read_name_ok (p_area_name p4) "area-name" p4 _ _ Fe4 G2 H2) as (a4 & u4 & E4 & A4 & C4 & L4).
  rewrite E4; cbn [mbind option_bind]; set (p5 := mkParser _ _ _ _ _ a4 _ _).
  assert (Fe5 : feeds p5 _) by (split; [exact (proj1 Fe)|exact A4]).
  destruct (read_name_ok (p_sect_name p5) "section-name" p5 _ _ Fe5 G3 H3) as (a5 & u5 & E5 & A5 & C5 & L5).
  rewrite E5; cbn [mbind option_bind]; set (p6 := mkParser _ _ _ _ _ _ a5 _).
  assert (Fe6 : feeds p6 _) by (split; [exact (proj1 Fe)|exact A5]); unfold read_args; rewrite (proj1 Fe6).
  destruct (read_uint_ok 8 "argtype" p6 _ _ Fe6) as (u6 & E6 & A6); [words; cbn; lia|].
  rewrite E6; cbn [mbind option_bind]; set (p7 := with_record (with_in p6 u6) _).
  assert (Fe7 : feeds p7 _) by (split; [exact (proj1 Fe)|exact A6]).
  set (room := Z.of_nat (length (r_argval (p_record p)))) in *.
  assert (R7 : reading p7 room 128) by (split; [exact Hv|lia|done|lia]).
  destruct (read_args_from_ok gstr r0 n0 off0 room l 0 p7 128 s A C R7 Fe7 Hl ltac:(done)) as (r' & u & off' & E & A' & Ho & AR).
  change (Z.to_nat NARGS) with (16 - 0)%nat; change (16 * 8) with 128; change 0 with (Z.of_nat 0) at 1; rewrite E; cbn [mbind option_bind].
  exists (with_record (with_in p7 u) r'), off'; pose proof (ar_frame _ _ _ _ _ _ _ AR) as Fr; pose proof (ar_len _ _ _ _ _ _ _ AR) as Lr.
  split; [|split; [split; [exact (proj1 Fe)|exact A']|]].
  { cbn [p_failed with_record with_in]; now rewrite (proj1 Fe7). }
  cbn [p_ring_name p_area_name p_sect_name p_record p_error with_record with_in] in *.
  do 3 (split; [done|]); rewrite Fr; cbn [r_area r_timestamp r_seqnum r_section with_argval with_argtype].
  split; [done|]; split; [done|]; split; [cbn; apply Z.mod_small, Hs|]; split; [done|]; rewrite <- Fr; split; [|split; [|split; [|done]]].
  - eapply args_read_held; [exact A|exact AR|done].
  - rewrite Lr; exact Ho.
  - split; cbn [p_ver p_record p_ring_name p_area_name p_sect_name with_record with_in]; auto; rewrite Lr; exact Hb.
Qed.
End Next.

(** ** A file is such a reader *)

Definition chunk_data (c : chunk) : bytes := match c with Data b => b | _ => [] end.

(** Only data up to the end of the file, and no waiting. *)
Definition plain_file (f : file_rdbuf) : Prop :=
  fr_tailf f = false /\ Forall (fun c => exists b, c = Data b /\ b <> []) (fr_next f).

Definition file_rest (f : file_rdbuf) : bytes := fr_data f ++ concat (map chunk_data (fr_next f)).

Definition read_fuel (f : file_rdbuf) : nat := 2 * length (fr_next f) + 2.

(** What a read yields, and the reader after it. *)
Definition read_spec (f : file_rdbuf) (dst : bytes) (len : Z) (r : option (bool * bytes * file_rdbuf)) : Prop :=
  exists f', plain_file f' /\
    if len <=? Z.of_nat (length (file_rest f))
    then r = Some (true, dst ++ take (Z.to_nat len) (file_rest f), f') /\ file_rest f' = drop (Z.to_nat len) (file_rest f)
    else r = Some (false, dst ++ file_rest f, f') /\ file_rest f' = [].

(** Turns of the loop that are left at most. *)
Definition turns (f : file_rdbuf) : nat := 2 * length (fr_next f) + match fr_data f with [] => 0 | _ => 1 end.

Definition reads_with (fuel : nat) : Prop := forall f dst len, plain_file f -> 0 <= len -> (turns f < fuel)%nat ->
  read_spec f dst len (rdbuf_read fuel f dst len).

(** Copying out what is buffered, then the rest. *)
Lemma copy_then_read fuel f dst len : reads_with fuel -> plain_file f -> 0 < len -> (2 * length (fr_next f) < fuel)%nat ->
  read_spec f dst len (let '(b, f, len) := copy_out f len in rdbuf_read fuel f (dst ++ b) len).
Proof.
  intros IH Pf Hl Hf; unfold copy_out; set (n := Z.min _ len); set (f1 := mkRdbuf (drop (Z.to_nat n) (fr_data f)) _ _ _ _).
  assert (En : Z.to_nat n = Nat.min (length (fr_data f)) (Z.to_nat len)) by lia.
  assert (El : Z.to_nat (len - n) = (Z.to_nat len - Z.to_nat n)%nat) by lia.
  assert (Er : take (Z.to_nat n) (fr_data f) ++ file_rest f1 = file_rest f)
    by (unfold file_rest; cbn [f1 fr_data fr_next]; now rewrite (app_assoc (take _ _)), take_drop).
  assert (Lr : Z.of_nat (length (file_rest f)) = Z.of_nat (length (file_rest f1)) + n)
    by (rewrite <- Er, length_app, length_take; lia).
  assert (Tk : take (Z.to_nat n) (fr_data f) ++ take (Z.to_nat (len - n)) (file_rest f1) = take (Z.to_nat len) (file_rest f)).
  { rewrite <- Er, take_app, length_take; rewrite (take_ge (take _ _)) by (rewrite length_take; lia); do 2 f_equal; lia. }
  assert (Dr : drop (Z.to_nat (len - n)) (file_rest f1) = drop (Z.to_nat len) (file_rest f)).
  { rewrite <- Er, drop_app, length_take, (drop_ge (take _ _)) by (rewrite length_take; lia); cbn [app]; f_equal; lia. }
  unfold read_spec; rewrite <- Tk, <- Dr; destruct (Z.eq_dec (len - n) 0) as [Z0|Nz].
  - exists f1; split; [exact Pf|]; destruct fuel as [|fuel]; [lia|]; cbn [rdbuf_read]; rewrite Z0.
    rewrite (proj2 (Z.leb_le len _)) by lia; cbn [Z.to_nat take drop]; now rewrite app_nil_r.
  - destruct (IH f1 (dst ++ take (Z.to_nat n) (fr_data f)) (len - n)) as (f' & Pf' & R); [exact Pf|lia| |].
    { unfold turns; cbn [f1 fr_data fr_next]; rewrite drop_ge by lia; lia. }
    exists f'; split; [exact Pf'|]; destruct (Z.leb_spec (len - n) (Z.of_nat (length (file_rest f1))));
      destruct (Z.leb_spec len (Z.of_nat (length (file_rest f)))); try lia.
    + rewrite app_assoc; exact R.
    + destruct R as [R1 R2]; split; [|exact R2]; now rewrite R1, <- app_assoc, Er.
Qed.

Lemma rdbuf_read_ok fuel : reads_with fuel.
Proof.
  induction fuel as [|fuel IH]; intros f dst len Pf Hl Hf; [lia|]; unfold turns in Hf.
  cbn [rdbuf_read]; destruct (Z.eqb_spec len 0) as [->|Hz].
  { exists f; split; [exact Pf|]; rewrite (proj2 (Z.leb_le 0 _)) by lia; cbn [Z.to_nat take drop]; now rewrite app_nil_r. }
  destruct (fr_data f) as [|c d] eqn:Ed; [|apply copy_then_read; auto; lia].
  destruct Pf as [Pt Pn]; rewrite Pt; destruct (fr_next f) as [|ck next] eqn:En; cbn [read_in mbind option_bind].
  - exists (mkRdbuf [] (fr_count f) false (fr_errno f) []); unfold file_rest; rewrite Ed, En; cbn [map concat app length].
    split; [split; [done|constructor]|]; rewrite (proj2 (Z.leb_gt len _)) by (cbn; lia); now rewrite app_nil_r.
  - apply Forall_cons in Pn as [(b & -> & Nb) Pn]; cbn [read_in mbind option_bind].
    set (f1 := mkRdbuf b (fr_count f) false (fr_errno f) next).
    assert (E1 : file_rest f1 = file_rest f) by (unfold file_rest; rewrite Ed, En; done).
    assert (R : read_spec f1 dst len (let '(b, f, len) := copy_out f1 len in rdbuf_read fuel f (dst ++ b) len))
      by (apply copy_then_read; [exact IH|done|lia|cbn [f1 fr_next length] in *; lia]).
    unfold read_spec in *; now rewrite E1 in R.
Qed.

#[export] Program Instance file_reader : Reader file_rdbuf := {
  rd_read f n := rdbuf_read (read_fuel f) f [] n; rd_rest := file_rest; rd_sound := plain_file }.
Next Obligation.
  intros f n Pf Hn; apply (rdbuf_read_ok (read_fuel f) f [] n Pf Hn); unfold read_fuel, turns; destruct (fr_data f); lia.
Qed.
