(* ===== verification/RawSpec.v ===== *)
(** * Raw files carry the log

    A posted record that is packed, stored in a file and parsed again is the
    same record, and the text printed for it is the same. *)

From S2P Require Import Prelude Args Record Posted Area Timestamp Ostrbuf Format FormatFacts FormatArgs Raw RawFacts.

Section Posted.
Variable gstr : Z -> bytes.

(** Global strings are there and their lengths fit into sixteen bits. *)
Definition global_ok (a : arg) : Prop :=
  a_type a = GSTR -> u64 (a_val a) <> 0 /\ Z.of_nat (length (gstr (u64 (a_val a)))) < 65536.

Lemma data_ok_length r n off j d tl : data_ok r n off j d tl -> 0 <= n -> Z.of_nat (length d) <= Z.max 0 (off - Z.of_nat (length tl)).
Proof.
  intros [_ D] Hn; destruct d as [|c d]; [cbn; lia|]; destruct D as (D1 & D2 & _); [done|]; rewrite length_app in D2; lia.
Qed.

Lemma posted_carried m tailroom args r n l : held_args r n tailroom 0 l -> 0 <= n -> 0 <= tailroom <= 65536 ->
  map fst l = map a_type args -> map (fun tv => Some tv.2) l = args_spec m tailroom (arg_span args * 8) args ->
  Forall global_ok args -> Forall (carried gstr) l /\ raw_room gstr l <= 16 * 65536.
Proof.
  intros (P & L & _) Hn Ht Ty Sp G.
  assert (K : forall j t v, l !! j = Some (t, v) -> carried gstr (t, v) /\ raw_size gstr t v <= 65536).
  { intros j t v Hj; pose proof (P j t v Hj) as [T N V S W]; pose proof (view_kind _ _ _ _ T V) as K.
    unfold carried, raw_size; cbn [fst snd]; destruct v as [x|x|d|d]; cbn [raw_view slot_ok] in *; [done| | |].
    - destruct (Z.eqb_spec t GSTR) as [Eg|Ng]; [|done].
      rewrite Eg in Hj; destruct (held_global m tailroom args l j _ Ty Sp Hj) as (a & Ha & Ea & [= Ex]).
      rewrite Forall_lookup in G; destruct (G j a Ha) as [G1 G2]; [done|]; rewrite <- Ex in G1, G2.
      split; [split; [intros _ [= ->]; now apply G1|exact G2]|lia].
    - pose proof (data_ok_length _ _ _ _ _ _ S Hn) as D; cbn [length] in D; split; [split; [done|]|]; lia.
    - pose proof (data_ok_length _ _ _ _ _ _ S Hn) as D; cbn [length] in D; split; [split; [done|]|]; lia. }
  split; [apply Forall_lookup; intros j [t v] Hj; apply (K j t v Hj)|].
  assert (B : forall l', (forall j t v, l' !! j = Some (t, v) -> raw_size gstr t v <= 65536) -> raw_room gstr l' <= 65536 * Z.of_nat (length l')).
  { induction l' as [|[t v] l' IH]; intros H; cbn [raw_room foldr length fst snd]; [lia|].
    pose proof (H 0%nat t v eq_refl); pose proof (IH (fun j => H (S j))); unfold raw_room in *; lia. }
  pose proof (B l (fun j t v Hj => proj2 (K j t v Hj))); cbn [Nat.add] in L; lia.
Qed.

(** The record and the stream it is in. *)
Record raw_ok (area_at : Z -> area) (r : record) (ring : bytes) : Prop := {
  rok_ring : good_name ring; rok_area : good_name (record_names area_at r).1; rok_sect : good_name (record_names area_at r).2;
  rok_time : is_u64 (r_timestamp r); rok_seq : 0 <= r_seqnum r < 2 ^ 52 }.

(** A global string at address zero is measured, which ends the program. *)
Definition global_null (a : arg) : Prop := a_type a = GSTR /\ u64 (a_val a) = 0.

Lemma add_args_null r n off k l : forall i, held_args r n off i l -> l !! k = Some (GSTR : Z, View64 0) ->
  add_args_from gstr (16 - i) r (Z.of_nat i) = None.
Proof.
  revert k; induction l as [|[t v] l IH]; intros k i (P & L & E) Hk; [done|]; cbn [length] in L.
  destruct (16 - i)%nat as [|m] eqn:Em; [lia|]; cbn [add_args_from]; pose proof (P 0%nat t v eq_refl) as [T N _ S _]; rewrite Nat.add_0_r in T, S.
  rewrite T, (proj2 (Z.eqb_neq t NONE) N); destruct k as [|k]; cbn [lookup list_lookup] in Hk.
  - injection Hk as -> ->; cbn [slot_ok] in S; unfold add_arg; rewrite S; reflexivity.
  - destruct (add_arg gstr r (Z.of_nat i) t) as [o|]; [|done]; cbn [mbind option_bind].
    replace (Z.of_nat i + 1) with (Z.of_nat (Datatypes.S i)) by lia; replace m with (16 - Datatypes.S i)%nat by lia.
    rewrite (IH k (Datatypes.S i)); [done| |exact Hk]; split; [|split].
    + intros j t' v' Hj; replace (Datatypes.S i + j)%nat with (i + Datatypes.S j)%nat by lia; now apply P.
    + lia.
    + cbn [length] in E; replace (Datatypes.S i + length l)%nat with (i + Datatypes.S (length l))%nat by lia; exact E.
Qed.

(** C11: What is logged raw is what is read: for any posted record whose slot has
    room for at most 64 KiB, whose global strings are each at an address and
    shorter than 64 KiB, and whose names are printable and of 2 to 128
    characters, any reader that has the packed bytes in it and any parser of the
    current version with the buffers of its constructor for records of 1 MiB and
    more, whatever follows in the stream: the parser takes exactly the packed
    bytes and rebuilds the names, the timestamp, the sequence number and every
    argument with its type and value, global strings as strings, and is ready
    for the next record.  A record with a global string at address zero is not
    packed: the packer reads through the pointer. *)
Theorem raw_roundtrip `{Reader U} area_at m r tailroom ap0 args ring addr area :
  mem_ok m -> (length args <= 16)%nat -> Forall arg_wf args -> pack_wf ap0 -> 128 <= tailroom <= 65536 ->
  Z.of_nat (length (r_argval r)) = tailroom -> Forall (fun a => a_type a <> NONE) args -> raw_ok area_at r ring ->
  exists r', set_args_pack m r tailroom (fst (populate ap0 args)) = Some r' /\
    (Exists global_null args -> pack Nsec gstr area_at (mkData ring r' addr) = None) /\
    (Forall global_ok args -> exists out, pack Nsec gstr area_at (mkData ring r' addr) = Some out /\
    forall (p : raw_parser U) s, parser_ok p -> feeds p (concat out ++ s) ->
    exists p', next Nsec area p = Some (true, p') /\ feeds p' s /\ parser_ok p' /\
      c_string (p_ring_name p') = Some ring /\ c_string (p_area_name p') = Some (record_names area_at r).1 /\
      c_string (p_sect_name p') = Some (record_names area_at r).2 /\
      r_timestamp (p_record p') = r_timestamp r /\ r_seqnum (p_record p') = r_seqnum r /\
      forall j a, args !! j = Some a -> get_arg_type (p_record p') (Z.of_nat j) = raw_type (a_type a) /\
        view (p_record p') (Z.of_nat j) = option_map (raw_view gstr (a_type a)) (view r' (Z.of_nat j))).
Proof.
  intros Hm Hn Hw Hp Ht Hl N [K1 K2 K3 K4 K5].
  destruct (posted_held m r tailroom ap0 args) as (r' & l & E & F & Lr & Ty & Sp & A & Ta); auto; [lia|].
  exists r'; split; [exact E|]; split.
  { intros Nl; apply Exists_exists in Nl as (a & Ha & Ea & Ez); apply list_elem_of_lookup_1 in Ha as [k Ha].
    assert (Hk : l !! k = Some (GSTR : Z, View64 0)).
    { assert (M : map fst l !! k = Some (a_type a)) by (rewrite Ty, list_lookup_fmap, Ha; done).
      rewrite list_lookup_fmap in M; destruct (l !! k) as [[t v]|] eqn:Hk; [|done]; injection M as ->; rewrite Ea in Hk.
      destruct (held_global m tailroom args l k v Ty Sp Hk) as (b & Hb & _ & ->); assert (b = a) as -> by congruence; now rewrite Ea, Ez. }
    unfold pack, add_args; cbn [fd_record]; destruct (record_names area_at r') as [an sn]; change (Z.to_nat NARGS) with (16 - 0)%nat.
    change 0 with (Z.of_nat 0) at 1; now rewrite (add_args_null r' _ _ k l 0 A Hk). }
  intros G; destruct (posted_carried m tailroom args r' (arg_span args) l A) as [C Rm]; auto; [pose proof (arg_span_bounds args); lia|lia|].
  assert (Nm : record_names area_at r' = record_names area_at r) by (rewrite F; done).
  destruct (pack_ok Nsec gstr area_at r' ring addr (arg_span args) tailroom l A C) as (out & Eo & Co);
    [pose proof (arg_span_bounds args); lia|lia|done|now rewrite Nm|now rewrite Nm|].
  exists out; split; [exact Eo|]; intros p s Pk Fe; rewrite Co in Fe.
  destruct (next_ok Nsec gstr r' (arg_span args) tailroom p area ring _ _ l s A C Pk Fe) as
    (p' & off' & En & Fe' & C1 & C2 & C3 & _ & T & Q & _ & A' & _ & Pk' & _); rewrite ?Nm; auto; try (rewrite F; assumption).
  { destruct Pk as [_ B _ _ _]; lia. }
  rewrite Nm in C2, C3; exists p'; do 6 (split; [done|]); split; [rewrite T, F; done|]; split; [rewrite Q, F; done|].
  intros j a Ha; assert (Hj : exists v, l !! j = Some (a_type a, v)).
  { assert (M : map fst l !! j = Some (a_type a)) by (rewrite Ty, list_lookup_fmap, Ha; done).
    rewrite list_lookup_fmap in M; destruct (l !! j) as [[t v]|]; [|done]; injection M as <-; now exists v. }
  destruct Hj as [v Hj]; pose proof (proj1 A j _ _ Hj) as H0; change (0 + j)%nat with j in H0; rewrite (hd_view _ _ _ _ _ _ H0).
  pose proof (proj1 A' j (raw_type (a_type a)) (raw_view gstr (a_type a) v) ltac:(rewrite list_lookup_fmap, Hj; done)) as H1.
  split; [apply (hd_type _ _ _ _ _ _ H1)|apply (hd_view _ _ _ _ _ _ H1)].
Qed.
End Posted.

(** ** A file with a record, concretely *)

Lemma parser_new_ok `{Reader U} junk (u : U) size : header_size + 128 + 16 * 65536 <= size < 4294967296 ->
  parser_ok (parser_new junk u V1_1 size).
Proof.
  intros Hs; assert (Hh : header_size = 32) by reflexivity; rewrite Hh in *.
  split; unfold parser_new, MAX_NAME_LEN; cbn [p_ver p_record p_ring_name p_area_name p_sect_name r_argval];
    try reflexivity; try rewrite Hh; rewrite length_map, length_seqZ; lia.
Qed.

Definition raw_demo_area : area := area_new (fun i => i) "AREA" (Some ["ONE"; "TWO"; "THREE"]%string).
Definition raw_demo_args : list arg := [mkArg GSTR 4096 0; mkArg INT32 4294967291 0; mkArg RAW 64 6; mkArg DOUBLE 77 0].
Definition raw_demo_gstr (p : Z) : bytes := str "global".

Lemma raw_demo_args_wf : Forall arg_wf raw_demo_args.
Proof. repeat (apply Forall_cons; split; [split; vm_compute; intuition congruence|]); constructor. Qed.

Lemma raw_demo_ok : raw_ok (fun _ => raw_demo_area) (demo_record 224) (str "RING").
Proof.
  split; try (split; vm_compute; [repeat (apply Forall_cons; split; [intuition congruence|]); constructor|intuition congruence]);
    cbn; words; lia.
Qed.

(** The parser that is given a file of two pieces. *)
Definition raw_demo_parser (a b : bytes) : raw_parser file_rdbuf :=
  parser_new (fun i => i) (mkRdbuf [] 0 false 0 [Data a; Data b]) V1_1 2000000.

Lemma raw_demo_feeds a b : a <> [] -> b <> [] -> parser_ok (raw_demo_parser a b) /\ feeds (raw_demo_parser a b) (a ++ b).
Proof.
  intros Ha Hb; split; [apply parser_new_ok; split; vm_compute; congruence|]; split; [reflexivity|]; split.
  - split; [reflexivity|]; repeat (apply Forall_cons; split; [now eexists|]); constructor.
  - unfold raw_demo_parser, parser_new; cbn [p_in rd_rest file_reader]; unfold file_rest; cbn; now rewrite app_nil_r.
Qed.

Lemma raw_roundtrip_witness :
  exists r' out, set_args_pack demo_mem (demo_record 224) 224 (fst (populate demo_pack raw_demo_args)) = Some r' /\
    pack Nsec raw_demo_gstr (fun _ => raw_demo_area) (mkData (str "RING") r' 0) = Some out /\
    exists p', next Nsec 5 (raw_demo_parser (concat out) (str "next")) = Some (true, p') /\ feeds p' (str "next") /\
      get_arg_type (p_record p') 0 = CSTR /\ view (p_record p') 0 = Some (ViewStr (str "global")) /\
      view (p_record p') 1 = Some (View32 4294967291) /\ view (p_record p') 2 = Some (ViewData (str "ABCDEF")).
Proof.
  destruct (raw_roundtrip raw_demo_gstr (fun _ => raw_demo_area) demo_mem (demo_record 224) 224 demo_pack raw_demo_args (str "RING") 0 5)
    as (r' & E & _ & T).
  - apply demo_mem_ok.
  - cbn; lia.
  - apply raw_demo_args_wf.
  - apply demo_pack_wf.
  - lia.
  - reflexivity.
  - repeat (apply Forall_cons; split; [discriminate|]); constructor.
  - apply raw_demo_ok.
  - destruct T as (out & P & R).
    { repeat (apply Forall_cons; split; [intros Eg; first [discriminate Eg|split; [discriminate|cbn; lia]]|]); constructor. }
    exists r', out; split; [exact E|]; split; [exact P|].
    assert (Ne : concat out <> []) by (vm_compute in E; injection E as <-; vm_compute in P; injection P as <-; discriminate).
    destruct (raw_demo_feeds (concat out) (str "next") Ne ltac:(discriminate)) as [Pk Fe].
    destruct (R _ _ Pk Fe) as (p' & En & Fe' & _ & _ & _ & _ & _ & _ & V); exists p'; split; [exact En|]; split; [exact Fe'|].
    destruct (V 0%nat _ eq_refl) as [T0 V0]; destruct (V 1%nat _ eq_refl) as [_ V1]; destruct (V 2%nat _ eq_refl) as [_ V2].
    vm_compute in E; injection E as <-.
    split; [exact T0|]; split; [exact V0|]; split; [exact V1|exact V2].
Defined.
