(* ===== verification/RawText.v ===== *)
(** * Text from raw files

    The text of any record whose arguments have texts, format strings included,
    is a function of its names, times and arguments; so the text printed from a
    raw file is the one that is printed directly. *)

From S2P Require Import Prelude Args Record Posted Area Timestamp Ostrbuf Format FormatFacts FormatArgs Raw RawFacts RawSpec.

(** ** The same text *)

Section Same.
Variable print_flt : string -> Z -> Z -> bytes.
Variables gstr gstr' : Z -> bytes.
Variable vprintf : bytes -> list fmt_arg -> bytes * option bytes.

(** Global strings that are there and not empty. *)
Definition global_text (tv : Z * arg_view) : Prop :=
  tv.1 = GSTR -> exists x, tv.2 = View64 x /\ x <> 0 /\ gstr x <> [] /\ nul_free (gstr x).

Lemma raw_arg_same t v : global_text (t, v) -> (t = CSTR -> exists d, v = ViewStr d) ->
  let t' := raw_type t in let v' := raw_view gstr t v in
  view_text print_flt gstr' t' v' = view_text print_flt gstr t v /\
  view_string gstr' t' v' = view_string gstr t v /\ view_arg gstr' t' v' = view_arg gstr t v /\
  (t' =? CSTR) || (t' =? GSTR) = (t =? CSTR) || (t =? GSTR).
Proof.
  intros G K t' v'; unfold t', v', raw_type; destruct (Z.eqb_spec t GSTR) as [->|N].
  - destruct (G eq_refl) as (x & E & Nx & Ne & _); cbn [snd] in E; rewrite E; cbn [raw_view view_text view_string view_arg].
    change (GSTR =? GSTR) with true; rewrite (proj2 (Z.eqb_neq x 0) Nx); cbn iota.
    destruct (gstr x) as [|c s]; [done|]; done.
  - unfold raw_view; destruct v as [x|x|d|d]; rewrite ?(proj2 (Z.eqb_neq t GSTR) N); cbn [view_text view_string view_arg];
      now rewrite ?(proj2 (Z.eqb_neq t GSTR) N).
Qed.

Lemma texts_same l : Forall global_text l -> Forall same_kind l ->
  texts print_flt gstr' (map (raw_arg gstr) l) = texts print_flt gstr l.
Proof.
  intros G K; induction l as [|[t v] l IH]; [done|]; apply Forall_cons in G as [G1 G], K as [K1 K].
  cbn [texts map raw_arg fst snd]; f_equal; [apply (raw_arg_same t v G1 K1)|now apply IH].
Qed.

Lemma view_args_same l : Forall global_text l -> Forall same_kind l ->
  view_args gstr' (map (raw_arg gstr) l) = view_args gstr l.
Proof.
  intros G K; induction l as [|[t v] l IH]; [done|]; apply Forall_cons in G as [G1 G], K as [K1 K].
  cbn [view_args map raw_arg fst snd]; destruct (raw_arg_same t v G1 K1) as (_ & _ & -> & _); now rewrite IH.
Qed.

Lemma body_same l : Forall global_text l -> Forall same_kind l ->
  body_text print_flt gstr' vprintf (map (raw_arg gstr) l) = body_text print_flt gstr vprintf l.
Proof.
  intros G K; pose proof (texts_same l G K) as T; destruct l as [|[t v] [|[t1 v1] l]]; [done| |].
  - cbn [map raw_arg fst snd body_text] in *; now rewrite T.
  - apply Forall_cons in G as [G1 G], K as [K1 K]; pose proof (view_args_same _ G K) as A.
    destruct (raw_arg_same t v G1 K1) as (_ & Es & _ & E).
    cbn [map raw_arg fst snd body_text tail] in *; now rewrite T, A, Es, E.
Qed.

(** The header depends on the names, the time and the sequence number. *)
Lemma header_same tsf localtime junk f d d' : rd_area_name d' = rd_area_name d -> rd_sect_name d' = rd_sect_name d ->
  rd_ring_name d' = rd_ring_name d -> r_timestamp (rd_record d') = r_timestamp (rd_record d) ->
  r_seqnum (rd_record d') = r_seqnum (rd_record d) ->
  header tsf localtime junk f d' = header tsf localtime junk f d.
Proof.
  intros A S R T Q; unfold header, default_header, fast0_header, fast1_header, flexi_header; now rewrite A, S, R, T, Q.
Qed.

End Same.

(** ** Names *)

Lemma str_unstr b : Forall (fun c => 0 <= c < 256) b -> str (unstr b) = b.
Proof.
  intros F; unfold str, unstr; rewrite String.list_ascii_of_string_of_list_ascii, map_map.
  rewrite <- (map_id b) at 2; apply map_ext_in; intros c Hc; apply list_elem_of_In in Hc; rewrite Forall_forall in F; specialize (F c Hc).
  rewrite Ascii.N_ascii_embedding by lia; lia.
Qed.

Lemma str_good_name b : good_name b -> str (unstr b) = b.
Proof. intros [F _]; apply str_unstr; eapply Forall_impl; [exact F|]; cbn; lia. Qed.

Lemma raw_area_names `{Reader U} junk (p : raw_parser U) an sn r addr : c_string (p_area_name p) = Some an ->
  c_string (p_sect_name p) = Some sn -> good_name an -> good_name sn -> r_area r = Some addr -> r_section r = 0 ->
  exists a, raw_area junk p = Some a /\ record_names (fun _ => a) r = (an, sn).
Proof.
  intros A S Ga Gs Ra Rs; unfold raw_area, record_names; rewrite A, S, Ra, Rs; cbn [mbind option_bind]; eexists; split; [done|].
  unfold section_name; cbn [a_name a_bitmap bm_resize bm_size a_section]; change (1 <=? 0) with false; change (Z.to_nat 0) with 0%nat.
  cbn [lookup list_lookup]; now rewrite !str_good_name.
Qed.

Section Text.
Variable print_flt : string -> Z -> Z -> bytes.
Variables gstr gstr' : Z -> bytes.
Variable vprintf : bytes -> list fmt_arg -> bytes * option bytes.
Variable localtime : Z -> tm.
Variable junk : Z -> Z.

Definition global_printed (a : arg) : Prop :=
  a_type a = GSTR -> let s := gstr (u64 (a_val a)) in
  u64 (a_val a) <> 0 /\ s <> [] /\ nul_free s /\ Z.of_nat (length s) < 65536.

Lemma global_printed_ok args : Forall global_printed args -> Forall (global_ok gstr) args.
Proof. intros F; eapply Forall_impl; [exact F|]; intros a G E; now destruct (G E) as (G1 & _ & _ & G2). Qed.

(** The text that is printed for a record, with the state of the format. *)
Definition rendered (area_at : Z -> area) (g : Z -> bytes) (f : format_state) (d : format_data) : option (format_state * bytes) :=
  '(f, out) ← process_out Nsec localtime print_flt g area_at vprintf junk f d; Some (f, concat out).

Lemma rendered_ok area_at g f d rd f' head text : expand g area_at d = Some rd ->
  header Nsec localtime junk f rd = Some (f', head) -> option_map (@concat Z) (body print_flt vprintf rd) = Some text ->
  rendered area_at g f d = Some (f', concat head ++ text).
Proof.
  intros E Hh B; unfold rendered, process_out; rewrite E; cbn [mbind option_bind]; rewrite Hh; cbn [mbind option_bind].
  destruct (body _ _ rd) as [out|]; [|done]; cbn [option_map] in B; injection B as <-; cbn [mbind option_bind]; now rewrite concat_app.
Qed.

Lemma raw_header area_at r ring f r' rd : raw_ok area_at r ring -> tc_ok (f_tscache f) ->
  r' = with_argval (with_argtype r (r_argtype r')) (r_argval r') -> rd_record rd = r' -> rd_ring_name rd = ring ->
  (rd_area_name rd, rd_sect_name rd) = record_names area_at r ->
  exists f' head, header Nsec localtime junk f rd = Some (f', head) /\ tc_ok (f_tscache f').
Proof.
  intros [[_ K1] K2 K3 K4 K5] Oc F Rr Rn Nm; rewrite <- Nm in K2, K3; destruct K2 as [_ K2], K3 as [_ K3]; cbn [fst snd] in *.
  assert (O : header_ok Nsec rd).
  { split; [unfold names_length; rewrite Rn; lia|rewrite Rr, F; cbn; words; lia|rewrite Rr, F; now apply clock_time_nsec]. }
  destruct (header_total Nsec localtime junk f rd O Oc) as (f' & head & E & _ & T); now exists f', head.
Qed.

Lemma held_texted m r n tailroom args l : map fst l = map a_type args ->
  map (fun tv => Some tv.2) l = args_spec m tailroom (arg_span args * 8) args -> held_args r n tailroom 0 l ->
  Forall (texted m) args -> Forall global_printed args ->
  Forall (global_text gstr) l /\ Forall same_kind l /\ Forall (fun tv => match tv.2 with ViewData _ => False | _ => True end) l.
Proof.
  intros Ty Sp (P & _) Tx G; rewrite Forall_lookup in Tx, G.
  assert (K : forall j t v, l !! j = Some (t, v) -> global_text gstr (t, v) /\ same_kind (t, v) /\
    match v with ViewData _ => False | _ => True end); [|repeat split; apply Forall_lookup; intros j [t v] Hj; apply (K j t v Hj)].
  intros j t v Hj; pose proof (P j t v Hj) as [T N V _ _]; pose proof (view_kind _ _ _ _ T V) as K.
  assert (Ha : exists a, args !! j = Some a /\ a_type a = t).
  { assert (M : map fst l !! j = Some t) by (rewrite list_lookup_fmap, Hj; done).
    rewrite Ty, list_lookup_fmap in M; destruct (args !! j) as [a|]; [|done]; injection M as <-; now exists a. }
  destruct Ha as (a & Ha & Ea); destruct (Tx j a Ha) as (_ & Nx & Nr & _); split; [|split].
  - intros Eg; cbn [fst snd] in *; rewrite Eg in Hj; destruct (held_global m tailroom args l j v Ty Sp Hj) as (b & Hb & Eb & ->).
    destruct (G j b Hb Eb) as (G1 & G2 & G3 & _); now exists (u64 (a_val b)).
  - intros Ec; cbn [fst snd] in *; destruct v as [x|x|d|d]; [|tauto|now exists d|]; rewrite Ec in K; destruct K; discriminate.
  - destruct v as [| | |d]; try done; rewrite <- Ea in K; tauto.
Qed.

Lemma raw_plain l : Forall plain_view l -> Forall (global_text gstr) l -> Forall plain_view (map (raw_arg gstr) l).
Proof.
  intros P G; apply Forall_map; apply Forall_lookup; intros j [t v] Hj; rewrite Forall_lookup in P, G.
  destruct (P j _ Hj) as (P1 & P2 & P3); pose proof (G j _ Hj) as G1; unfold plain_view, raw_arg, raw_type, raw_view, global_text in *.
  cbn [fst snd] in *; destruct (Z.eqb_spec t GSTR) as [->|N]; (split; [discriminate || done|split; [discriminate || done|]]).
  - destruct (G1 eq_refl) as (x & -> & _ & _ & Nf); exact Nf.
  - now destruct v.
Qed.
(** A posted record as it is printed and as it is read back, both printable. *)
Lemma printed_both m tailroom args r n l : mem_ok m -> (length args <= 16)%nat -> Forall arg_wf args -> 128 <= tailroom ->
  held_args r n tailroom 0 l -> map fst l = map a_type args ->
  map (fun tv => Some tv.2) l = args_spec m tailroom (arg_span args * 8) args -> Forall (texted m) args ->
  Forall global_printed args ->
  arguments r n tailroom 0 l /\
  (forall r' n' off', held_args r' n' off' 0 (map (raw_arg gstr) l) -> arguments r' n' off' 0 (map (raw_arg gstr) l)) /\
  is_Some (body_text print_flt gstr vprintf l) /\
  body_text print_flt gstr' vprintf (map (raw_arg gstr) l) = body_text print_flt gstr vprintf l.
Proof.
  intros Hm Hn Hw Ht A Ty Sp Tx G; destruct (held_texted m r n tailroom args l Ty Sp A Tx G) as (Gt & Sk & D).
  pose proof (posted_plain m r n tailroom args l Hm Hn Hw Ht A Ty Sp Tx) as P; split; [now apply held_printable|]; split; [|split].
  - intros r' n' off' A'; apply held_printable; [exact A'|now apply raw_plain].
  - apply body_text_some; [|done..]; eapply Forall_impl; [exact Gt|]; intros [t v] Gv Eg; destruct (Gv Eg) as (x & -> & Nx & _); now exists x.
  - now apply body_same.
Qed.

(** The record, its bytes and its text, and what the parser makes of the bytes. *)
Lemma raw_record_text `{Reader U} area_at m r tailroom ap0 args ring addr area f junk' :
  mem_ok m -> (length args <= 16)%nat -> Forall arg_wf args -> pack_wf ap0 -> 128 <= tailroom <= 65536 ->
  Z.of_nat (length (r_argval r)) = tailroom -> Forall (texted m) args -> Forall global_printed args ->
  raw_ok area_at r ring -> tc_ok (f_tscache f) ->
  exists r' out f' t, set_args_pack m r tailroom (fst (populate ap0 args)) = Some r' /\
    pack Nsec gstr area_at (mkData ring r' addr) = Some out /\
    rendered area_at gstr f (mkData ring r' addr) = Some (f', t) /\ tc_ok (f_tscache f') /\
    forall (p : raw_parser U) s, parser_ok p -> feeds p (concat out ++ s) ->
    exists p' own, next Nsec area p = Some (true, p') /\ feeds p' s /\ parser_ok p' /\ p_error p' = p_error p /\
      c_string (p_ring_name p') = Some ring /\
      raw_area junk' p' = Some own /\ rendered (fun _ => own) gstr' f (mkData ring (p_record p') 0) = Some (f', t).
Proof.
  intros Hm Hn Hw Hp Ht Hl Tx G [K1 K2 K3 K4 K5] Oc.
  assert (N : Forall (fun a => a_type a <> NONE) args) by (eapply Forall_impl; [exact Tx|]; now intros a []).
  destruct (posted_held m r tailroom ap0 args) as (r' & l & E & F & Lr & Ty & Sp & A & Ta); auto; [lia|].
  destruct (posted_carried gstr m tailroom args r' (arg_span args) l A) as [C Rm]; auto using global_printed_ok;
    [pose proof (arg_span_bounds args); lia|lia|].
  assert (Nm : record_names area_at r' = record_names area_at r) by (rewrite F; done).
  destruct (pack_ok Nsec gstr area_at r' ring addr (arg_span args) tailroom l A C) as (out & Eo & Co);
    [pose proof (arg_span_bounds args); lia|lia|done|now rewrite Nm|now rewrite Nm|]; rewrite Nm in Co.
  destruct (printed_both m tailroom args r' _ l Hm Hn Hw (proj1 Ht) A Ty Sp Tx G) as (Ar & Ar' & [text Bt] & Bs).
  destruct (record_text print_flt gstr vprintf area_at r' _ _ l ring addr Ar) as (rd & Ex & Rr & Rn & Rt & Rb).
  destruct (raw_header area_at r ring f r' rd) as (f' & head & Eh & Tc); auto; [split; auto|congruence|].
  exists r', out, f', (concat head ++ text); split; [exact E|]; split; [exact Eo|].
  split; [apply (rendered_ok area_at gstr f _ rd); congruence|]; split; [exact Tc|].
  intros p s Pk Fe; rewrite Co in Fe.
  destruct (next_ok Nsec gstr r' (arg_span args) tailroom p area ring _ _ l s A C Pk Fe) as
    (p' & off' & En & Fe' & C1 & C2 & C3 & Ra & T & Q & Rs & A' & _ & Pk' & Er); auto; try (rewrite F; assumption).
  { destruct Pk as [_ B _ _ _]; lia. }
  destruct (raw_area_names junk' p' _ _ (p_record p') area C2 C3 K2 K3 Ra Rs) as (own & Eown & Nown).
  exists p', own; do 6 (split; [done|]).
  destruct (record_text print_flt gstr' vprintf (fun _ => own) (p_record p') _ _ _ ring 0 (Ar' _ _ _ A')) as (rd' & Ex' & Rr' & Rn' & Rt' & Rb').
  rewrite Bs, Bt in Rb'; rewrite Bt in Rb; apply (rendered_ok (fun _ => own) gstr' f _ rd'); [done| |done].
  rewrite <- Eh; rewrite Nown in Rt'; rewrite Nm in Rt; rewrite <- Rt in Rt'; injection Rt' as Ra' Rs'.
  unfold from_nsec, to_nsec in T; apply header_same; congruence.
Qed.

(** C12: A raw file prints as the log would have: for any posted record with text
    arguments, format strings included, whose slot has room for at most 64 KiB,
    whose global strings are at an address, not empty and shorter than 64 KiB,
    and whose names the parser accepts, the record that is read back from the
    packed bytes, in any other process with other strings in its memory, is
    printed in every choice of fields as the same text as the record itself, and
    leaves the format in the same state.  (An empty global string is the
    exception: it comes back as an empty string of the record and is printed as
    null.) *)
Theorem raw_text `{Reader U} area_at m r tailroom ap0 args ring addr area f junk' :
  mem_ok m -> (length args <= 16)%nat -> Forall arg_wf args -> pack_wf ap0 -> 128 <= tailroom <= 65536 ->
  Z.of_nat (length (r_argval r)) = tailroom -> Forall (texted m) args -> Forall global_printed args ->
  raw_ok area_at r ring -> tc_ok (f_tscache f) ->
  exists r' out t, set_args_pack m r tailroom (fst (populate ap0 args)) = Some r' /\
    pack Nsec gstr area_at (mkData ring r' addr) = Some out /\
    rendered area_at gstr f (mkData ring r' addr) = Some t /\
    forall (p : raw_parser U) s, parser_ok p -> feeds p (concat out ++ s) ->
    exists p' own, next Nsec area p = Some (true, p') /\ feeds p' s /\ c_string (p_ring_name p') = Some ring /\
      raw_area junk' p' = Some own /\ rendered (fun _ => own) gstr' f (mkData ring (p_record p') 0) = Some t.
Proof.
  intros Hm Hn Hw Hp Ht Hl Tx G K Oc.
  destruct (raw_record_text area_at m r tailroom ap0 args ring addr area f junk' Hm Hn Hw Hp Ht Hl Tx G K Oc)
    as (r' & out & f' & t & E & P & R & _ & N).
  exists r', out, (f', t); do 3 (split; [done|]); intros p s Pk Fe.
  destruct (N p s Pk Fe) as (p' & own & En & Fe' & _ & _ & C & A & T); now exists p', own.
Qed.
End Text.

(** ** A format string from a file, concretely *)

Definition raw_text_args : list arg := [mkArg CSTR 64 6; mkArg INT32 4294967291 0; mkArg GSTR 4096 0].

Lemma raw_text_args_wf : Forall arg_wf raw_text_args.
Proof. repeat (apply Forall_cons; split; [split; vm_compute; intuition congruence|]); constructor. Qed.

(** A format engine that shows its format and the count of its arguments. *)
Definition demo_vprintf (fmt : bytes) (args : list fmt_arg) : bytes * option bytes :=
  (fmt ++ str "/" ++ p_u (Z.of_nat (length args)), None).

Lemma raw_text_witness :
  exists out p' own, next Nsec 5 (raw_demo_parser (concat out) (str "next")) = Some (true, p') /\
    raw_area (fun i => i) p' = Some own /\
    option_map snd (rendered (fun _ _ _ => []) demo_vprintf (fun _ => mkTm 0 0 0 0 0 0) (fun i => i) (fun _ => own) (fun _ => [])
      (format_basic FAST0) (mkData (str "RING") (p_record p') 0)) = Some (str "00000000000.000000007 RING:3 AREA:THREE ABCDEF/2" ++ newline).
Proof.
  destruct (raw_text (fun _ _ _ => []) raw_demo_gstr (fun _ => []) demo_vprintf (fun _ => mkTm 0 0 0 0 0 0) (fun i => i)
    (fun _ => raw_demo_area) demo_mem (demo_record 224) 224 demo_pack raw_text_args (str "RING") 0 5 (format_basic FAST0) (fun i => i))
    as (r' & out & t & E & P & Rt & R).
  - apply demo_mem_ok.
  - cbn; lia.
  - apply raw_text_args_wf.
  - apply demo_pack_wf.
  - lia.
  - reflexivity.
  - repeat (apply Forall_cons; split; [repeat split; try discriminate; intros; apply demo_mem_nul_free|]); constructor.
  - repeat (apply Forall_cons; split; [intros Eg; first [discriminate Eg|split; [discriminate|split; [discriminate|split; [apply (bool_decide_unpack _); vm_compute; done|cbn; lia]]]]|]); constructor.
  - apply raw_demo_ok.
  - apply tscache_new_ok.
  - assert (Ne : concat out <> []) by (vm_compute in E; injection E as <-; vm_compute in P; injection P as <-; discriminate).
    destruct (raw_demo_feeds (concat out) (str "next") Ne ltac:(discriminate)) as [Pk Fe].
    destruct (R _ _ Pk Fe) as (p' & own & En & _ & _ & Eo & T); exists out, p', own; split; [exact En|]; split; [exact Eo|].
    vm_compute in E; injection E as <-; vm_compute in Rt; injection Rt as <-; rewrite T; reflexivity.
Defined.
