(* ===== verification/FormatSpec.v ===== *)
(** * The text of a record

    A reference for the line the basic format prints: the header as a list of
    optional parts, whatever code path and whatever cached digits produce it,
    and the body; and an interface for what an output needs of a format. *)

From S2P Require Import Prelude Args Record Posted Area Timestamp Ntos Ostrbuf Format FormatFacts FormatArgs.
From S2P Require Import Raw RawFacts RawSpec RawText.

(** ** The header *)

Section Header.
Variable tsf : ts_format.
Variable localtime : Z -> tm.
Variable junk : Z -> Z.

Definition part (on : bool) (b : bytes) : bytes := if on then b else [].

(** Two parts that are joined by a colon when both are there. *)
Definition pair_text (on1 on2 : bool) (b1 b2 : bytes) : bytes :=
  match on1, on2 with
  | true, true => b1 ++ str ":" ++ b2 ++ str " "
  | true, false => b1 ++ str " "
  | false, true => b2 ++ str " "
  | false, false => []
  end.

(** The header of a record for a set of fields and the time of the record
    before, and the time to remember. *)
Definition header_text (fields last : Z) (d : record_data) : Z * bytes :=
  let on x := negb (Z.land fields x =? 0) in
  let t := r_timestamp (rd_record d) in
  let delta := to_nsec tsf (time_delta tsf (mkFormat fields last tscache_new) t) in
  (if on TIMEDELTA then t else last,
   part (on TIMESPEC) (timespec_text tsf t ++ str " ") ++ part (on TIMESTAMP) (date_time tsf localtime t ++ str " ") ++
   part (on TIMEDELTA) (str "(" ++ dec delta ++ str ") ") ++
   pair_text (on RING) (on SEQNUM) (rd_ring_name d) (dec (r_seqnum (rd_record d))) ++
   pair_text (on AREA) (on SECTION) (rd_area_name d) (rd_sect_name d)).

Lemma concat_flexi_pair on1 on2 b1 b2 :
  concat (match on1, on2 with
    | true, true => printf (b1 ++ str ":" ++ b2 ++ str " ")
    | true, false => printf (b1 ++ str " ")
    | false, true => printf (b2 ++ str " ")
    | false, false => []
    end) = pair_text on1 on2 b1 b2.
Proof. destruct on1, on2; cbn [pair_text]; now rewrite ?concat_printf. Qed.

Lemma concat_part (on : bool) (o : output) : concat (if on then o else []) = part on (concat o).
Proof. now destruct on. Qed.

Lemma flexi_text f d : header_ok tsf d -> tc_ok (f_tscache f) ->
  exists f' out, flexi_header tsf localtime f d = Some (f', out) /\ f_fields f' = f_fields f /\ tc_ok (f_tscache f') /\
    f_last f' = (header_text (f_fields f) (f_last f) d).1 /\ concat out = (header_text (f_fields f) (f_last f) d).2.
Proof.
  intros O Oc; unfold flexi_header, header_text, has; destruct (tscache_update_ok tsf _ _ Oc (hok_time _ d O)) as (c & E & Oc' & S).
  destruct (negb (Z.land (f_fields f) TIMESPEC =? 0)); [rewrite E|]; cbn [mbind option_bind f_fields f_tscache f_last];
    destruct (negb (Z.land (f_fields f) TIMEDELTA =? 0)); eexists _, _;
    (split; [reflexivity|]); do 3 (split; [done|]);
    rewrite !concat_app, !concat_flexi_pair, ?concat_part, ?concat_printf, ?concat_app, ?concat_puts, ?S; reflexivity.
Qed.

(** The bits of a known set of fields. *)
Ltac field_bits := repeat match goal with |- context [negb (Z.land ?a ?b =? 0)] =>
  let v := eval vm_compute in (negb (Z.land a b =? 0)) in change (negb (Z.land a b =? 0)) with v end.

Lemma header_text_default last d : header_text DEFAULT last d = (last, concat (default_header tsf localtime d)).
Proof.
  unfold header_text, default_header; field_bits; cbn [part pair_text]; rewrite concat_printf; f_equal; cbn [app].
  now rewrite <- !app_assoc.
Qed.

Lemma header_text_fast0 last d :
  header_text FAST0 last d = (last, timespec_text tsf (r_timestamp (rd_record d)) ++ str " " ++ name_text d).
Proof. unfold header_text, name_text; field_bits; cbn [part pair_text]; f_equal; cbn [app]; now rewrite <- !app_assoc. Qed.

Lemma header_text_fast1 f d : f_fields f = FAST1 ->
  header_text FAST1 (f_last f) d = (r_timestamp (rd_record d),
    timespec_text tsf (r_timestamp (rd_record d)) ++ str " (" ++
      dec (to_nsec tsf (time_delta tsf f (r_timestamp (rd_record d)))) ++ str ") " ++ name_text d).
Proof.
  intros Hf; unfold header_text, name_text; field_bits; cbn [part pair_text]; f_equal; cbn [app].
  change (str " (") with (str " " ++ str "("); now rewrite <- !app_assoc.
Qed.

(** The four headers against the list of parts. *)
Lemma header_text_ok f d : header_ok tsf d -> tc_ok (f_tscache f) ->
  exists f' out, header tsf localtime junk f d = Some (f', out) /\ f_fields f' = f_fields f /\ tc_ok (f_tscache f') /\
    f_last f' = (header_text (f_fields f) (f_last f) d).1 /\ concat out = (header_text (f_fields f) (f_last f) d).2.
Proof.
  intros O Oc; unfold header; destruct (tscache_update_ok tsf _ _ Oc (hok_time _ d O)) as (c0 & E0 & Oc0 & S0).
  destruct (Z.eqb_spec (f_fields f) DEFAULT) as [Hd|_].
  { exists f, (default_header tsf localtime d); rewrite Hd, header_text_default; done. }
  destruct (Z.eqb_spec (f_fields f) FAST0) as [Hf|_]; [|destruct (Z.eqb_spec (f_fields f) FAST1) as [Hf|_]; [|now apply flexi_text]].
  - destruct (fast0_text tsf junk f d O Oc) as (c & out & E & Oc' & H & T); rewrite E in E0; injection E0 as <-.
    eexists _, out; split; [exact H|]; do 2 (split; [done|]); rewrite Hf, header_text_fast0, T, S0; done.
  - destruct (fast1_text tsf junk f d O Oc (time_delta_u64 tsf f _)) as (c & out & E & Oc' & H & T); rewrite E in E0; injection E0 as <-.
    eexists _, out; split; [exact H|]; do 2 (split; [done|]); rewrite Hf, (header_text_fast1 f d Hf), T, S0; done.
Qed.
(** C26: Every header is the list of its parts: whichever of the four functions
    prints it, in a local array sized beforehand or piece by piece, and
    whatever the cache of digits holds, the text is the chosen parts, in
    order, with the time rendered afresh; nothing is written outside of an
    array, the cache stays right, and the time to compare with is remembered
    exactly when the difference is one of the parts. *)
Theorem header_reference f d : header_ok tsf d -> tc_ok (f_tscache f) ->
  exists f' out, header tsf localtime junk f d = Some (f', out) /\ f_fields f' = f_fields f /\ tc_ok (f_tscache f') /\
    f_last f' = (header_text (f_fields f) (f_last f) d).1 /\ concat out = (header_text (f_fields f) (f_last f) d).2.
Proof. apply header_text_ok. Qed.
End Header.

Lemma header_reference_witness :
  exists f' out, header Nsec (fun _ => mkTm 0 0 0 0 0 0) (fun i => i) (mkFormat FAST1 1500000000123450000 tscache_new) demo_data = Some (f', out) /\
    f_last f' = 1500000000123456789 /\ concat out = str "01500000000.123456789 (6789) RING:77 AREA:INFO ".
Proof.
  destruct (header_reference Nsec (fun _ => mkTm 0 0 0 0 0 0) (fun i => i) (mkFormat FAST1 1500000000123450000 tscache_new) demo_data
    demo_data_ok tscache_new_ok) as (f' & out & E & _ & _ & L & C).
  exists f', out; split; [exact E|]; rewrite L, C; split; [reflexivity|vm_compute; reflexivity].
Defined.

(** ** What an output needs of a format *)

(** The virtual functions; the base class does nothing for header and footer. *)
(* src: include/hogl/detail/format.hpp 46-80 format *)
Class Formatter (F : Type) := {
  fmt_process : F -> format_data -> option (F * output);
  fmt_header : F -> bytes -> bool -> output;
  fmt_footer : F -> option bytes -> output }.

(** The promise: for the records it [prints], a format never fails, and its
    text is a function of the record and of an abstract state. *)
Class Renders (F : Type) `{Formatter F} := {
  rs_state : Type;
  rs_abs : F -> rs_state;
  rs_ok : F -> Prop;
  rs_prints : format_data -> Prop;
  rs_line : rs_state -> format_data -> rs_state * bytes;
  rs_process f d : rs_ok f -> rs_prints d ->
    exists f' out, fmt_process f d = Some (f', out) /\ rs_ok f' /\
      rs_abs f' = (rs_line (rs_abs f) d).1 /\ concat out = (rs_line (rs_abs f) d).2 }.

(** *** The basic format *)

Section Basic.
Context (tsf : ts_format) (localtime : Z -> tm) (print_flt : string -> Z -> Z -> bytes) (gstr : Z -> bytes)
  (area_at : Z -> area) (vprintf : bytes -> list fmt_arg -> bytes * option bytes) (junk : Z -> Z).

Definition basic_formatter : Formatter format_state := {|
  fmt_process := process_out tsf localtime print_flt gstr area_at vprintf junk;
  fmt_header _ _ _ := []; fmt_footer _ _ := [] |}.

(** The arguments can be read and rendered, and the header is within its
    bounds. *)
Definition basic_prints (d : format_data) : Prop :=
  exists rd out, expand gstr area_at d = Some rd /\ body print_flt vprintf rd = Some out /\ header_ok tsf rd.

(** The fields and the time of the last record. *)
Definition basic_line (s : Z * Z) (d : format_data) : (Z * Z) * bytes :=
  match expand gstr area_at d with
  | Some rd =>
      let '(last, head) := header_text tsf localtime s.1 s.2 rd in
      ((s.1, last), head ++ concat (default [] (body print_flt vprintf rd)))
  | None => (s, [])
  end.

Lemma basic_process f d : tc_ok (f_tscache f) -> basic_prints d ->
  exists f' out, process_out tsf localtime print_flt gstr area_at vprintf junk f d = Some (f', out) /\ tc_ok (f_tscache f') /\
    (f_fields f', f_last f') = (basic_line (f_fields f, f_last f) d).1 /\ concat out = (basic_line (f_fields f, f_last f) d).2.
Proof.
  intros Oc (rd & text & Ex & Bd & Ok); unfold process_out, basic_line; rewrite Ex; cbn [mbind option_bind fst snd].
  destruct (header_text_ok tsf localtime junk f rd Ok Oc) as (f' & head & Hh & Hf & Oc' & L & T).
  rewrite Hh, Bd; cbn [mbind option_bind default]; exists f', (head ++ text); revert L T.
  destruct (header_text tsf localtime (f_fields f) (f_last f) rd) as [last ht]; cbn [fst snd]; intros -> <-.
  rewrite Hf, concat_app; done.
Qed.

Definition basic_renders : @Renders format_state basic_formatter :=
  @Build_Renders format_state basic_formatter (Z * Z) (fun f => (f_fields f, f_last f)) (fun f => tc_ok (f_tscache f))
    basic_prints basic_line basic_process.
End Basic.

(** *** The raw format *)

Section RawFormat.
Context (tsf : ts_format) (gstr : Z -> bytes) (area_at : Z -> area).

Definition raw_formatter : Formatter unit := {|
  fmt_process f d := out ← pack tsf gstr area_at d; Some (f, out);
  fmt_header _ _ _ := []; fmt_footer _ _ := [] |}.

Definition raw_line (s : unit) (d : format_data) : unit * bytes := (s, concat (default [] (pack tsf gstr area_at d))).

Lemma raw_format_process (f : unit) d : True -> is_Some (pack tsf gstr area_at d) ->
  exists f' out, (out ← pack tsf gstr area_at d; Some (f, out)) = Some (f', out) /\ True /\
    f' = (raw_line f d).1 /\ concat out = (raw_line f d).2.
Proof. intros _ [out E]; exists f, out; unfold raw_line; rewrite E; done. Qed.

Definition raw_renders : @Renders unit raw_formatter :=
  @Build_Renders unit raw_formatter unit (fun f => f) (fun _ => True) (fun d => is_Some (pack tsf gstr area_at d))
    raw_line raw_format_process.
End RawFormat.
