(* ===== verification/Output.v ===== *)
(** * Outputs, and the engine writing to one (detail/output.hpp, src/output-*.cc)

    An output is a format over an output buffer.  Its theorems are proved for
    any format that [Renders] and any healthy [Stream]; the last part feeds it
    the events of an engine. *)

From S2P Require Import Prelude Args Record Posted Ring Area Timestamp Tso Post Registry Engine.
From S2P Require Import EngineFacts RegistryFacts Sample EngineTso EnginePass EngineTrace TsoSpec EngineDrain.
From S2P Require Import Ntos Ostrbuf Format FormatFacts FormatArgs Raw RawFacts RawSpec RawText FormatSpec.

(** ** The base class *)

Section Output.
Context `{Fm : Formatter F} `{St : Stream U}.

(* src: include/hogl/detail/output.hpp 44-53 output *)
Record out_state := mkOut { o_format : F; o_buf : ostrbuf * U }.
Implicit Type o : out_state.

(** The calls that append to the buffer. *)
Definition append o (out : output) : out_state := mkOut (o_format o) (fold_left push_back out (o_buf o)).

(* src: include/hogl/detail/output.hpp 73-76 output::flush *)
Definition out_flush o : out_state := mkOut (o_format o) (ob_flush (o_buf o) []).

(* src: include/hogl/detail/output.hpp 88-96 output::header *)
Definition out_header o (n : bytes) (first : bool) : out_state := append o (fmt_header (o_format o) n first).

(* src: include/hogl/detail/output.hpp 98-107 output::footer *)
Definition out_footer o (n : option bytes) : out_state := out_flush (append o (fmt_footer (o_format o) n)).

(* src: include/hogl/detail/output.hpp 109-116 output::process *)
Definition out_process o (d : format_data) : option out_state :=
  '(f, out) ← fmt_process (o_format o) d; Some (append (mkOut f (o_buf o)) out).
End Output.
Arguments out_state : clear implicits.

(** ** The outputs *)

Section Outputs.
Context `{Fm : Formatter F}.
Variable malloc : Z -> bool.

Definition CLOSE_ON_DELETE : Z := 1.

(** [opened] is what [open] returns and [next] how the writes will end; the
    file is empty at first.  [None] is the exception. *)
(* src: src/output-plainfile.cc 42-54 output_plainfile::output_plainfile *)
Definition output_plainfile (opened : bool) (next : list outcome) (name : bytes) (f : F) (capacity : Z)
  : option (out_state F fd_state) :=
  if opened then Some (out_header (mkOut f (ostrbuf_new malloc capacity, mkFd CLOSE_ON_DELETE [] next)) name true)
  else None.

(* src: src/output-pipe.cc 38-53 output_pipe::output_pipe *)
Definition output_pipe (opened : bool) (next : list outcome) (f : F) (capacity : Z) : option (out_state F stdio_state) :=
  if opened
  then Some (out_header (mkOut f (ostrbuf_new malloc capacity, mkStdio CLOSE_ON_DELETE [] None next)) (str "pipe") true)
  else None.

(** [file] is the standard stream as it was found. *)
(* src: src/output-stdout.cc 35-41 output_stdout::output_stdout *)
Definition output_stdout (file : stdio_state) (f : F) (capacity : Z) : out_state F stdio_state :=
  out_header (mkOut f (ostrbuf_new malloc capacity, file)) (str "stdout") true.

(* src: src/output-stderr.cc 33-39 output_stderr::output_stderr *)
Definition output_stderr (file : stdio_state) (f : F) (capacity : Z) : out_state F stdio_state :=
  out_header (mkOut f (ostrbuf_new malloc capacity, file)) (str "stderr") true.

(** The destructor of all of these. *)
(* src: src/output-plainfile.cc 56-59 output_plainfile::~output_plainfile *)
Definition output_delete `{Stream U} (o : out_state F U) : out_state F U := out_footer o None.

(** The format is that of the first output, the buffers below are those of
    both. *)
(* src: src/output-tee.cc 33-40 output_tee::output_tee *)
Definition output_tee `{Stream U0} `{Stream U1} (o0 : out_state F U0) (o1 : out_state F U1) (capacity : Z)
  : out_state F (@tee_state U0 U1) :=
  mkOut (o_format o0) (ostrbuf_new malloc capacity, (o_buf o0, o_buf o1)).

(** Neither a footer nor a flush. *)
(* src: src/output-tee.cc 42-46 output_tee::~output_tee *)
Definition output_tee_delete {U0 U1} (o : out_state F (@tee_state U0 U1)) : (ostrbuf * U0) * (ostrbuf * U1) := (o_buf o).2.
End Outputs.

(** ** Records of the engine's own *)

Section Inject.
Variable static_str : string -> Z.                             (* the address of a literal *)
Variable ts_name : Z -> Z.                                     (* the address of the name of a time source *)
Variable internal : Z.                                         (* the address of the internal area *)
Variable m : memory.
Variable fake : bytes.                                         (* what the record on the stack holds at first *)
Variable fake_addr : Z.
Variable junk_arg : arg.

Definition inject_value (a : inject_arg) : cxx_value :=
  match a with ArgNum n => Vulong n | ArgName ts => Vgstr (ts_name ts) end.

(* src: src/engine.cc 316-350 engine::inject_record *)
Definition inject_data (ring : string) (ts seq : Z) (sect : internal_section) (fmt : string) (arg0 arg1 : inject_arg)
  : option format_data :=
  let x := with_section (with_seqnum (mkRecord (Some internal) (u64 ts) 0 0 0 fake) (u64 seq)) (internal_id sect) in
  args ← mapM (arg_of 0 m junk_arg) [Vgstr (static_str fmt); inject_value arg0; inject_value arg1];
  x ← set_args m x 0 args;
  Some (mkData (str ring) x fake_addr).

Variable argval_at : record -> Z.                              (* the address of the arguments of a record in a ring *)

(** What an event has the output print: nothing for a special record or a
    flush; [None] is undefined behaviour. *)
Definition event_data (ev : event) : option (option format_data) :=
  match ev with
  | EvRecord ring x => Some (Some (mkData (str ring) x (argval_at x)))
  | EvInject ring ts seq sect fmt arg0 arg1 => d ← inject_data ring ts seq sect fmt arg0 arg1; Some (Some d)
  | EvSpecial _ _ | EvFlush => Some None
  end.

(** The calls of the output that an event of the engine stands for. *)
Definition run_event `{Formatter F} `{Stream U} (o : out_state F U) (ev : event) : option (out_state F U) :=
  match ev with
  | EvFlush => Some (out_flush o)
  | _ => d ← event_data ev; match d with Some d => out_process o d | None => Some o end
  end.

Fixpoint run `{Formatter F} `{Stream U} (o : out_state F U) (evs : list event) : option (out_state F U) :=
  match evs with [] => Some o | ev :: evs => o ← run_event o ev; run o evs end.

(** ** The text of a log *)

Section Log.
Context `{Rn : Renders F}.

(** The lines of a log, one after the other. *)
Fixpoint log_text (s : rs_state) (evs : list event) : rs_state * bytes :=
  match evs with
  | [] => (s, [])
  | ev :: evs =>
      match event_data ev with
      | Some (Some d) => let '(s, t) := rs_line s d in let '(s, rest) := log_text s evs in (s, t ++ rest)
      | _ => log_text s evs
      end
  end.

(** The events that can be printed. *)
Definition event_prints (ev : event) : Prop :=
  exists d, event_data ev = Some d /\ forall x, d = Some x -> rs_prints x.

Context `{St : Stream U}.
Implicit Type o : out_state F U.

Definition out_ready o : Prop := ready (o_buf o) /\ rs_ok (o_format o).

Lemma out_process_ok o d : out_ready o -> rs_prints d ->
  exists o', out_process o d = Some o' /\ out_ready o' /\ rs_abs (o_format o') = (rs_line (rs_abs (o_format o)) d).1 /\
    text (o_buf o') = text (o_buf o) ++ (rs_line (rs_abs (o_format o)) d).2.
Proof.
  intros [R O] P; destruct (rs_process (o_format o) d O P) as (f' & out & E & O' & A & C); unfold out_process; rewrite E.
  cbn [mbind option_bind]; destruct (fold_push_back (o_buf o) out R) as [R' T]; eexists; split; [reflexivity|].
  split; [done|]; split; [done|]; cbn [append o_buf]; now rewrite T, C.
Qed.

Lemma out_flush_ok o : out_ready o ->
  out_ready (out_flush o) /\ text (o_buf (out_flush o)) = text (o_buf o) /\
  written (o_buf (out_flush o)).2 = text (o_buf o) /\ ob_data (o_buf (out_flush o)).1 = [].
Proof.
  intros [R O]; destruct (flush_ok (o_buf o) [] R) as (R' & W & D); rewrite app_nil_r in W; cbn [out_flush o_buf].
  split; [done|]; unfold text at 1; rewrite D, W, app_nil_r; done.
Qed.

Lemma run_event_ok o ev : out_ready o -> event_prints ev ->
  exists o', run_event o ev = Some o' /\ out_ready o' /\ rs_abs (o_format o') = (log_text (rs_abs (o_format o)) [ev]).1 /\
    text (o_buf o') = text (o_buf o) ++ (log_text (rs_abs (o_format o)) [ev]).2.
Proof.
  intros R (d & E & P); assert (Nothing : run_event o ev = Some o -> d = None -> exists o', run_event o ev = Some o' /\ out_ready o' /\
    rs_abs (o_format o') = (log_text (rs_abs (o_format o)) [ev]).1 /\ text (o_buf o') = text (o_buf o) ++ (log_text (rs_abs (o_format o)) [ev]).2).
  { intros Hr ->; exists o; cbn [log_text]; rewrite E; cbn [fst snd]; now rewrite app_nil_r. }
  destruct d as [d|].
  - destruct (out_process_ok o d R (P d eq_refl)) as (o' & Eo & R' & A & T); exists o'; cbn [log_text]; rewrite E.
    split; [destruct ev; try discriminate E; unfold run_event; rewrite E; exact Eo|].
    destruct (rs_line _ d) as [s t]; cbn [fst snd] in *; rewrite app_nil_r; done.
  - destruct ev as [r x|r ts sq sc fm a0 a1|r x|]; [discriminate E| |now apply Nothing|].
    + cbn [event_data] in E; destruct (inject_data _ _ _ _ _ _ _); discriminate E.
    + destruct (out_flush_ok o R) as (R' & T & _); exists (out_flush o); cbn [log_text event_data fst snd run_event].
      rewrite app_nil_r; done.
Qed.

Lemma run_ok evs : forall o, out_ready o -> Forall event_prints evs ->
  exists o', run o evs = Some o' /\ out_ready o' /\ rs_abs (o_format o') = (log_text (rs_abs (o_format o)) evs).1 /\
    text (o_buf o') = text (o_buf o) ++ (log_text (rs_abs (o_format o)) evs).2.
Proof.
  induction evs as [|ev evs IH]; intros o R P; [exists o; cbn; now rewrite app_nil_r|].
  apply Forall_cons in P as [P1 P]; destruct (run_event_ok o ev R P1) as (o1 & E1 & R1 & A1 & T1); cbn [run]; rewrite E1.
  destruct (IH o1 R1 P) as (o' & E & R' & A & T); exists o'; split; [exact E|]; split; [exact R'|]; rewrite A, T, A1, T1.
  cbn [log_text]; destruct (event_data ev) as [[d|]|]; cbn [fst snd]; rewrite ?app_nil_r; try done.
  destruct (rs_line (rs_abs (o_format o)) d) as [s t]; cbn [fst snd]; destruct (log_text s evs); cbn [fst snd].
  now rewrite app_nil_r, <- app_assoc.
Qed.

(** After a flush at the end nothing is left in the buffer. *)
Lemma run_flushed evs o o' : out_ready o -> Forall event_prints evs -> run o (evs ++ [EvFlush]) = Some o' ->
  written (o_buf o').2 = text (o_buf o') /\ ob_data (o_buf o').1 = [].
Proof.
  revert o; induction evs as [|ev evs IH]; intros o R P E; cbn [app run] in E.
  - cbn [run_event mbind option_bind run] in E; injection E as <-; destruct (out_flush_ok o R) as (_ & T & W & D); split; congruence.
  - apply Forall_cons in P as [P1 P]; destruct (run_event_ok o ev R P1) as (o1 & E1 & R1 & _); rewrite E1 in E; eauto.
Qed.

Lemma output_delete_ok o : out_ready o ->
  out_ready (output_delete o) /\ ob_data (o_buf (output_delete o)).1 = [] /\
  written (o_buf (output_delete o)).2 = text (o_buf o) ++ concat (fmt_footer (o_format o) None).
Proof.
  intros [R O]; destruct (fold_push_back (o_buf o) (fmt_footer (o_format o) None) R) as [R' T].
  destruct (out_flush_ok (append o (fmt_footer (o_format o) None)) (conj R' O)) as (Rf & _ & W & D).
  unfold output_delete, out_footer; split; [exact Rf|]; split; [exact D|]; now rewrite W, <- T.
Qed.

Lemma out_header_ok o n first : out_ready o ->
  out_ready (out_header o n first) /\ text (o_buf (out_header o n first)) = text (o_buf o) ++ concat (fmt_header (o_format o) n first).
Proof. intros [R O]; destruct (fold_push_back (o_buf o) (fmt_header (o_format o) n first) R) as [R' T]; done. Qed.

(** A log between the header and the footer of the format. *)
Definition framed (f f' : F) (name : bytes) (log : bytes) : bytes :=
  concat (fmt_header f name true) ++ log ++ concat (fmt_footer f' None).

Lemma framed_log o name evs : out_ready o -> Forall event_prints evs ->
  exists o', run (out_header o name true) evs = Some o' /\
    written (o_buf (output_delete o')).2 =
      text (o_buf o) ++ framed (o_format o) (o_format o') name (log_text (rs_abs (o_format o)) evs).2.
Proof.
  intros R P; destruct (out_header_ok o name true R) as [R1 T1]; destruct (run_ok evs _ R1 P) as (o' & E & R' & _ & T).
  exists o'; split; [exact E|]; destruct (output_delete_ok o' R') as (_ & _ & W); rewrite W, T, T1; unfold framed.
  cbn [out_header append o_format]; now rewrite <- !app_assoc.
Qed.
End Log.

(** *** What ends up in a file, a pipe and the standard streams *)

Section Media.
Context `{Rn : Renders F}.
Implicit Type f : F.

Lemma new_fd_ready capacity next f : is_u32 capacity -> writes_all next -> rs_ok f ->
  out_ready (mkOut f (ostrbuf_new (fun _ => true) capacity, mkFd CLOSE_ON_DELETE [] next)).
Proof.
  intros C Wr O; split; [|exact O]; split; [now apply new_ok|]; split; [|exact Wr]; cbn; unfold ostrbuf_new; cbv zeta.
  now destruct (capacity =? 0).
Qed.

Lemma new_stdio_ready capacity flags out next f : is_u32 capacity -> writes_all next -> rs_ok f ->
  out_ready (mkOut f (ostrbuf_new (fun _ => true) capacity, mkStdio flags out None next)).
Proof.
  intros C Wr O; split; [|exact O]; split; [now apply new_ok|]; split; [|done]; cbn; unfold ostrbuf_new; cbv zeta.
  now destruct (capacity =? 0).
Qed.

Lemma new_text {U} `{Stream U} malloc capacity (u : U) : text (ostrbuf_new malloc capacity, u) = written u.
Proof.
  unfold text, ostrbuf_new; cbv zeta; cbn [fst snd]; destruct (capacity =? 0); [apply app_nil_r|].
  destruct (malloc capacity); apply app_nil_r.
Qed.

(** C25: A log file is whole: from the constructor to the destructor a plain file
    and a pipe hold exactly the header for their name, the lines of the events
    and the footer, and a standard stream has this behind what it had before,
    for any capacity of the buffer, none included, and any format that keeps
    its promise, as long as the writes succeed; what could not be opened is an
    exception. *)
Theorem outputs_frame_log f name capacity next evs out : is_u32 capacity -> writes_all next -> rs_ok f ->
  Forall event_prints evs ->
  let log := (log_text (rs_abs f) evs).2 in
  let new := fun _ : Z => true in
  output_plainfile new false next name f capacity = None /\ output_pipe new false next f capacity = None /\
  (exists o o', output_plainfile new true next name f capacity = Some o /\ run o evs = Some o' /\
     fd_out (o_buf (output_delete o')).2 = framed f (o_format o') name log) /\
  (exists o o', output_pipe new true next f capacity = Some o /\ run o evs = Some o' /\
     sf_out (o_buf (output_delete o')).2 = framed f (o_format o') (str "pipe") log) /\
  (exists o', run (output_stdout new (mkStdio 0 out None next) f capacity) evs = Some o' /\
     sf_out (o_buf (output_delete o')).2 = out ++ framed f (o_format o') (str "stdout") log) /\
  (exists o', run (output_stderr new (mkStdio 0 out None next) f capacity) evs = Some o' /\
     sf_out (o_buf (output_delete o')).2 = out ++ framed f (o_format o') (str "stderr") log).
Proof.
  intros C Wr O P log new; do 2 (split; [reflexivity|]); split; [|split; [|split]].
  - destruct (framed_log _ name evs (new_fd_ready capacity next f C Wr O) P) as (o' & E & W); cbn [o_buf o_format] in W; rewrite new_text in W.
    eexists _, o'; split; [reflexivity|]; done.
  - destruct (framed_log _ (str "pipe") evs (new_stdio_ready capacity CLOSE_ON_DELETE [] next f C Wr O) P) as (o' & E & W).
    cbn [o_buf o_format] in W; rewrite new_text in W; eexists _, o'; split; [reflexivity|]; done.
  - destruct (framed_log _ (str "stdout") evs (new_stdio_ready capacity 0 out next f C Wr O) P) as (o' & E & W).
    cbn [o_buf o_format] in W; rewrite new_text in W; now exists o'.
  - destruct (framed_log _ (str "stderr") evs (new_stdio_ready capacity 0 out next f C Wr O) P) as (o' & E & W).
    cbn [o_buf o_format] in W; rewrite new_text in W; now exists o'.
Qed.

Lemma new_ok_any malloc capacity : is_u32 capacity -> ostrbuf_ok (ostrbuf_new malloc capacity) /\ ob_data (ostrbuf_new malloc capacity) = [].
Proof.
  intros C; unfold ostrbuf_new; cbv zeta; destruct (Z.eqb_spec capacity 0) as [->|_]; [|destruct (malloc capacity)]; (split; [|done]); split.
  all: unfold ob_size, failure; cbn [ob_capacity ob_data length]; rewrite ?(u32_small capacity) by done; unfold is_u32 in *; lia.
Qed.

(** Two outputs behind a tee get the same log: each of the two outputs, which
    may be of any kind and buffered in any way, is found with all lines behind
    what it had when the tee is taken away, although the tee itself neither
    writes a footer nor flushes, since the engine flushes at the end; even
    when there was no memory for the buffer of the tee. *)
Theorem tee_copies {U0 U1} `{Stream U0} `{Stream U1} malloc (o0 : out_state F U0) (o1 : out_state F U1) capacity evs :
  is_u32 capacity -> out_ready o0 -> out_ready o1 -> text (o_buf o0) = text (o_buf o1) -> Forall event_prints evs ->
  let log := (log_text (rs_abs (o_format o0)) evs).2 in
  exists o', run (output_tee malloc o0 o1 capacity) (evs ++ [EvFlush]) = Some o' /\
    text (output_tee_delete o').1 = text (o_buf o0) ++ log /\ text (output_tee_delete o').2 = text (o_buf o1) ++ log.
Proof.
  intros C [R0 O0] [R1 _] Tx P log; destruct (new_ok_any malloc capacity C) as [Ok D]; set (o := output_tee malloc o0 o1 capacity).
  assert (R : out_ready o).
  { split; [|exact O0]; split; [exact Ok|]; split; [|done]; cbn; unfold tee_failed; cbn [fst snd].
    destruct R0 as (_ & F0 & _), R1 as (_ & F1 & _); now rewrite F0, F1. }
  assert (P' : Forall event_prints (evs ++ [EvFlush])) by (apply Forall_app; split; [done|]; constructor; [now exists None|constructor]).
  destruct (run_ok _ o R P') as (o' & E & [(Okt & Ft & Gd) Of] & _ & T); exists o'; split; [exact E|].
  destruct (run_flushed evs o o' R P E) as [W Db].
  assert (Lg : (log_text (rs_abs (o_format o)) (evs ++ [EvFlush])).2 = log).
  { unfold log; change (o_format o) with (o_format o0); generalize (rs_abs (o_format o0)); clear; induction evs as [|ev evs IH]; intros s; [done|].
    cbn [app log_text]; destruct (event_data ev) as [[d|]|]; try apply IH; destruct (rs_line s d) as [s' t]; pose proof (IH s') as E.
    destruct (log_text s' evs), (log_text s' (evs ++ [EvFlush])); cbn [snd] in *; now rewrite E. }
  assert (T0 : text (o_buf o) = text (o_buf o0)) by (unfold text at 1; cbn [o o_buf output_tee fst snd]; rewrite D; apply app_nil_r).
  rewrite Lg, T0, <- W in T; unfold output_tee_delete; destruct Gd as (_ & _ & Eq); cbn [written tee_stream] in T.
  split; [exact T|]; now rewrite <- Eq, <- Tx, T.
Qed.
End Media.
End Inject.

(** *** They can be printed *)

Section Injected.
Context (localtime : Z -> tm) (print_flt : string -> Z -> Z -> bytes) (gstr : Z -> bytes)
  (area_at : Z -> area) (vprintf : bytes -> list fmt_arg -> bytes * option bytes) (junk : Z -> Z).
Variable static_str : string -> Z.
Variable ts_name : Z -> Z.
Variable internal : Z.
Variable m : memory.
Variable fake : bytes.
Variable fake_addr : Z.
Variable junk_arg : arg.

(** Addresses of literals and of names are not null, the stack record has room
    for sixteen arguments, and the names of the internal area are short. *)
Hypothesis static_ok : forall s, s ∈ report_formats -> is_u64 (static_str s) /\ static_str s <> 0 /\ gstr (static_str s) = str s.
Hypothesis name_ok : forall ts, is_u64 (ts_name ts) /\ ts_name ts <> 0.
Hypothesis junk_ok : is_u32 (a_len junk_arg).
Hypothesis fake_ok : length fake = 128%nat.
Hypothesis internal_short : forall x, r_area x = Some internal ->
  Z.of_nat (length (record_names area_at x).1) + Z.of_nat (length (record_names area_at x).2) < 1000.

Definition inject_type (a : inject_arg) : Z := match a with ArgNum _ => UINT64 | ArgName _ => GSTR end.
Definition inject_word (a : inject_arg) : Z := match a with ArgNum n => u64 n | ArgName ts => ts_name ts end.

(** The arguments of a message as the format string gets them. *)
Definition inject_fmt (a : inject_arg) : fmt_arg :=
  match a with ArgNum n => FUint64 (u64 n) | ArgName ts => FStr (gstr (ts_name ts)) end.

Lemma inject_value_ok a : exists x, arg_of 0 m junk_arg (inject_value ts_name a) = Some x /\ a_type x = inject_type a /\
  a_val x = inject_word a /\ a_len x = a_len junk_arg.
Proof.
  destruct a as [n|ts]; eexists; (split; [reflexivity|]); (split; [reflexivity|]); cbn [a_val a_len inject_word]; (split; [|reflexivity]); [reflexivity|].
  apply u64_small, name_ok.
Qed.

Lemma inject_word_u64 a : is_u64 (inject_word a).
Proof. destruct a; [apply u64_range|apply name_ok]. Qed.

(** Simple arguments are tagged one after the other. *)
Fixpoint foldl_types (t i : Z) (args : list arg) : Z :=
  match args with [] => t | a :: args => foldl_types (set_type t i (a_type a)) (i + 1) args end.

Lemma set_arg_tag r i a tailroom offset r' off' : is_simple (a_type a) = true -> a_type a <> NONE ->
  set_arg m r i a tailroom offset = Some (r', off') -> r_argtype r' = set_type (r_argtype r) i (a_type a).
Proof.
  unfold is_simple, set_arg; intros Sm Nn; rewrite (proj2 (Z.eqb_neq _ NONE) Nn).
  destruct (a_type a =? CSTR); [done|]; destruct (a_type a =? XDUMP); [done|]; destruct (a_type a =? RAW); [done|].
  unfold set_arg_val32, set_arg_val64; destruct (is_32bit _); intros E; opt_step E; opt_step E0; injection E0 as <-; now injection E as <- _.
Qed.

Lemma set_arg_list_tags tailroom args : forall r r' i offset, (forall a, a ∈ args -> is_simple (a_type a) = true /\ a_type a <> NONE) ->
  set_arg_list m r i args tailroom offset = Some r' -> r_argtype r' = foldl_types (r_argtype r) i args.
Proof.
  induction args as [|a args IH]; intros r r' i offset Sm E; cbn [set_arg_list foldl_types] in *; [now injection E as <-|].
  opt_step E; opt_step E; destruct (Sm a ltac:(constructor)) as [S1 S2]; rewrite (IH _ _ _ _ (fun b Hb => Sm b ltac:(now constructor)) E).
  f_equal; eapply set_arg_tag; eauto.
Qed.

(** A simple argument of eight bytes can be printed. *)
Lemma word_printable x a n off j : view x j = fst (arg_spec m (a_type a) (a_val a) (a_len a) 0) ->
  is_simple (a_type a) = true -> a_type a <> NONE -> is_32bit (a_type a) = false -> is_u64 (a_val a) ->
  get_arg_type x j = a_type a -> printable x n off j (a_type a) (View64 (a_val a)).
Proof.
  intros V S N W U G; assert (C : is_complex (a_type a) = false) by (unfold is_complex; now rewrite S).
  unfold arg_spec in V; rewrite C, W, (proj2 (Z.eqb_neq _ NONE) N), (u64_small _ U) in V; cbn [fst] in V.
  split; [done|done|intros E; rewrite E in S; done|intros E; rewrite E in S; done|done| |done].
  unfold view in V; rewrite G, C, W, (proj2 (Z.eqb_neq _ NONE) N) in V; now injection V as V.
Qed.

Lemma inject_record_ok ring ts seq sect fmt a0 a1 : fmt ∈ report_formats ->
  let l := [(GSTR : Z, View64 (static_str fmt)); (inject_type a0, View64 (inject_word a0)); (inject_type a1, View64 (inject_word a1))] in
  exists x, inject_data static_str ts_name internal m fake fake_addr junk_arg ring ts seq sect fmt a0 a1 = Some (mkData (str ring) x fake_addr) /\
    r_area x = Some internal /\ r_timestamp x = u64 ts /\ r_seqnum x = u64 seq mod 2 ^ 52 /\ r_section x = internal_id sect mod 2 ^ 12 /\
    arguments x 16 128 0 l.
Proof.
  intros Lit l; unfold inject_data; set (x0 := with_section _ _).
  destruct (inject_value_ok a0) as (v0 & E0 & T0 & W0 & L0), (inject_value_ok a1) as (v1 & E1 & T1 & W1 & L1).
  pose proof (static_ok fmt Lit) as (Us & Ns & _); set (f := mkArg GSTR (static_str fmt) (a_len junk_arg)).
  assert (Ef : arg_of 0 m junk_arg (Vgstr (static_str fmt)) = Some f) by (cbn; now rewrite u64_small).
  cbn [mapM]; rewrite Ef, E0, E1; cbn [mbind option_bind mret option_ret]; set (args := [f; v0; v1]).
  assert (Ty : forall a, 0 <= inject_type a < 16 /\ is_simple (inject_type a) = true /\ inject_type a <> NONE)
    by (intros []; cbn [inject_type]; split; [|split| |split]; (done || (unfold arg_code; lia))).
  assert (Wl : is_u32 (a_len f)) by exact junk_ok.
  assert (W : arg_wf f /\ arg_wf v0 /\ arg_wf v1).
  { split; [|split]; (split; [rewrite ?T0, ?T1; apply Ty || done|rewrite ?W0, ?W1; apply inject_word_u64 || done|now rewrite ?L0, ?L1]). }
  assert (Sm : forall a, a ∈ args -> is_simple (a_type a) = true /\ a_type a <> NONE).
  { intros a Ha; apply list_elem_of_In in Ha as [<-|[<-|[<-|[]]]]; rewrite ?T0, ?T1; [done|apply Ty..]. }
  destruct (set_args_simple_ok m x0 0 args) as (x & E & Lx & Fx & V);
    [cbn; lia|change (r_argval x0) with fake; rewrite fake_ok; lia|repeat constructor; apply W|apply Forall_forall; intros; now apply Sm|].
  assert (At : r_argtype x = set_type (set_type (set_type 0 0 GSTR) 1 (inject_type a0)) 2 (inject_type a1)).
  { unfold set_args in E; rewrite (set_arg_list_tags 0 args _ _ _ _ Sm E); cbn [args foldl_types f a_type]; now rewrite T0, T1. }
  assert (Tag : forall j t v, l !! j = Some (t, v) -> get_arg_type x (Z.of_nat j) = t /\
    exists a, args !! j = Some a /\ a_type a = t /\ View64 (a_val a) = v /\ is_32bit (a_type a) = false).
  { intros [|[|[|j]]] t v Hj; try discriminate Hj; injection Hj as <- <-;
      (split; [unfold get_arg_type; rewrite At; destruct a0, a1; reflexivity|]).
    - exists f; done.
    - exists v0; rewrite T0, W0; split; [done|]; split; [done|]; split; [done|]; now destruct a0.
    - exists v1; rewrite T1, W1; split; [done|]; split; [done|]; split; [done|]; now destruct a1. }
  exists x; rewrite E; cbn [mbind option_bind]; split; [done|].
  do 4 (split; [rewrite Fx; done|]); split; [|split; [cbn; lia|]].
  - intros j t v Hj; destruct (Tag j t v Hj) as [Gt Ha]; destruct Ha as (a & Ha & <- & <- & Nt).
    pose proof (list_elem_of_lookup_2 _ _ _ Ha) as El; destruct (Sm a El) as [S1 S2].
    assert (Wa : arg_wf a) by (apply list_elem_of_In in El as [<-|[<-|[<-|[]]]]; apply W).
    apply (word_printable x a 16 128); auto; apply Wa.
  - intros _; cbn [length l]; unfold get_arg_type; rewrite At; destruct a0, a1; reflexivity.
Qed.

(** What the message says. *)
Definition inject_text (fmt : string) (a0 a1 : inject_arg) : bytes :=
  let '(out, err) := vprintf (str fmt) [inject_fmt a0; inject_fmt a1] in
  out ++ match err with Some what => what | None => [] end ++ newline.

Lemma inject_prints ring ts seq sect fmt a0 a1 : fmt ∈ report_formats -> Z.of_nat (length (str ring)) < 4294960000 ->
  exists x rd out, inject_data static_str ts_name internal m fake fake_addr junk_arg ring ts seq sect fmt a0 a1 = Some (mkData (str ring) x fake_addr) /\
    expand gstr area_at (mkData (str ring) x fake_addr) = Some rd /\ body print_flt vprintf rd = Some out /\ header_ok Nsec rd /\
    concat out = inject_text fmt a0 a1 /\ rd_ring_name rd = str ring /\ (rd_area_name rd, rd_sect_name rd) = record_names area_at x /\
    r_area x = Some internal /\ r_section x = internal_id sect /\ rd_record rd = x /\ r_timestamp x = u64 ts /\ r_seqnum x = u64 seq mod 2 ^ 52.
Proof.
  intros Lit Hr; destruct (inject_record_ok ring ts seq sect fmt a0 a1 Lit) as (x & E & Ra & Rt & Rq & Rs & A).
  destruct (record_text print_flt gstr vprintf area_at x _ _ _ (str ring) fake_addr A) as (rd & Ex & Rr & Rn & Nm & Bt).
  pose proof (internal_short x Ra) as Sh; rewrite <- Nm in Sh; cbn [fst snd] in Sh.
  assert (B : body_text print_flt gstr vprintf [(GSTR : Z, View64 (static_str fmt)); (inject_type a0, View64 (inject_word a0));
    (inject_type a1, View64 (inject_word a1))] = Some (inject_text fmt a0 a1)).
  { unfold inject_text; destruct (static_ok fmt Lit) as (_ & Ns & Gs).
    assert (Va : forall a, view_arg gstr (inject_type a) (View64 (inject_word a)) = Some (inject_fmt a)).
    { intros [n|t]; [done|]; cbn [inject_type view_arg inject_word inject_fmt view_string]; change (GSTR =? GSTR) with true; cbn iota.
      rewrite (proj2 (Z.eqb_neq _ 0) (proj2 (name_ok t))); done. }
    cbn [body_text tail view_args]; change (GSTR =? GSTR) with true; rewrite orb_true_r, !Va; cbn [mbind option_bind view_string].
    change (GSTR =? GSTR) with true; cbn iota; rewrite (proj2 (Z.eqb_neq _ 0) Ns), Gs; cbn [mbind option_bind].
    now destruct (vprintf _ _). }
  rewrite B in Bt; destruct (body print_flt vprintf rd) as [out|] eqn:Bd; [|done]; injection Bt as Bt.
  assert (Si : r_section x = internal_id sect) by (rewrite Rs; destruct sect; reflexivity).
  exists x, rd, out; do 3 (split; [done|]); split; [|done]; split.
  - unfold names_length; rewrite Rn; lia.
  - rewrite Rr, Rq; change (2 ^ 52) with 4503599627370496; pose proof (Z.mod_pos_bound (u64 seq) 4503599627370496 eq_refl); words; lia.
  - rewrite Rr, Rt; apply clock_time_nsec, u64_range.
Qed.

(** What the engine has to say of its own is printed like a record: a report of
    lost records, of a full ordering buffer or of a switch of the time source
    goes through the record that is built on the stack and comes out as the
    header with the name of the ring, the internal area and the section, the
    time and the sequence number it was given, and the message expanded with
    its two arguments at full width, a newline behind it. *)
Theorem report_printed f ring ts seq sect fmt a0 a1 : fmt ∈ report_formats -> Z.of_nat (length (str ring)) < 4294960000 ->
  tc_ok (f_tscache f) ->
  exists d rd f' out, inject_data static_str ts_name internal m fake fake_addr junk_arg ring ts seq sect fmt a0 a1 = Some d /\
    process_out Nsec localtime print_flt gstr area_at vprintf junk f d = Some (f', out) /\ tc_ok (f_tscache f') /\
    rd_ring_name rd = str ring /\ rd_area_name rd = str (a_name (area_at internal)) /\
    rd_sect_name rd = str (section_name (area_at internal) (internal_id sect)) /\
    r_timestamp (rd_record rd) = u64 ts /\ r_seqnum (rd_record rd) = u64 seq mod 2 ^ 52 /\
    concat out = (header_text Nsec localtime (f_fields f) (f_last f) rd).2 ++ inject_text fmt a0 a1.
Proof.
  intros Lit Hr Oc; destruct (inject_prints ring ts seq sect fmt a0 a1 Lit Hr) as
    (x & rd & out & E & Ex & Bd & Ok & Co & Rn & Nm & Ra & Rs & Rr & Rt & Rq).
  destruct (basic_process Nsec localtime print_flt gstr area_at vprintf junk f (mkData (str ring) x fake_addr) Oc) as (f' & o & Eo & Oc' & _ & C).
  { now exists rd, out. }
  unfold record_names in Nm; rewrite Ra, Rs in Nm; injection Nm as Na Ns; rewrite <- Rr in Rt, Rq.
  exists (mkData (str ring) x fake_addr), rd, f', o; do 8 (split; [done|]); rewrite C; unfold basic_line; rewrite Ex, Bd, <- Co.
  cbn [fst snd default]; now destruct (header_text _ _ _ _ _).
Qed.
End Injected.

(** ** An engine that ends, and its log *)

Section Drained.
Context `{Rx : Regex}.
Context `{SortT : StdSort (entry Z) te_timestamp}.
Context `{SortI : forall key, StdSort index_entry key}.
Context `{St : Stream U}.
Context (localtime : Z -> tm) (print_flt : string -> Z -> Z -> bytes) (gstr : Z -> bytes)
  (area_at : Z -> area) (vprintf : bytes -> list fmt_arg -> bytes * option bytes) (junk : Z -> Z).
Context (static_str : string -> Z) (ts_name : Z -> Z) (internal : Z) (m : memory) (fake : bytes) (fake_addr : Z)
  (junk_arg : arg) (argval_at : record -> Z).
Hypothesis static_ok : forall s, s ∈ report_formats -> is_u64 (static_str s) /\ static_str s <> 0 /\ gstr (static_str s) = str s.
Hypothesis name_ok : forall ts, is_u64 (ts_name ts) /\ ts_name ts <> 0.
Hypothesis junk_ok : is_u32 (a_len junk_arg).
Hypothesis fake_ok : length fake = 128%nat.
Hypothesis internal_short : forall x, r_area x = Some internal ->
  Z.of_nat (length (record_names area_at x).1) + Z.of_nat (length (record_names area_at x).2) < 1000.
Implicit Type e : engine.

#[local] Instance log_formatter : Formatter format_state :=
  basic_formatter Nsec localtime print_flt gstr area_at vprintf junk.
#[local] Instance log_renders : Renders format_state :=
  basic_renders Nsec localtime print_flt gstr area_at vprintf junk.

Abbreviation run_log := (run static_str ts_name internal m fake fake_addr junk_arg argval_at).
Abbreviation log_of := (log_text static_str ts_name internal m fake fake_addr junk_arg argval_at).
Abbreviation prints := (basic_prints Nsec print_flt gstr area_at vprintf).

Definition short_name (n : string) : Prop := Z.of_nat (length (str n)) < 4294960000.

(** Every record in a ring can be printed, and the names are short. *)
Definition printable_engine e : Prop :=
  (forall p r, e_heap e !! p = Some r -> short_name (_name r)) /\
  forall n p r x, (n, p) ∈ e_rings e -> e_heap e !! p = Some r -> x ∈ contents r -> prints (mkData (str n) x (argval_at x)).

Lemma events_print e e' fl evs : registry_ok e -> printable_engine e -> sends e e' fl -> e_rings e' = [] -> omap out_of evs = fl ->
  Forall (says_ok short_name) evs ->
  Forall (event_prints static_str ts_name internal m fake fake_addr junk_arg argval_at) evs.
Proof.
  intros R [Sh Pr] [_ Sn _ Sr] Nr Of Sy; rewrite Forall_forall in Sy; apply Forall_forall; intros ev Hev; destruct (Sy ev Hev) as [Sn1 Sl].
  destruct ev as [n x|n ts sq sc fm a0 a1|n x|].
  - assert (H : (n, x) ∈ fl) by (rewrite <- Of; apply list_elem_of_omap; eexists; split; [exact Hev|done]).
    destruct (Sn _ H) as [p Hp]; cbn [fst] in Hp; destruct (ro_rings _ R n p Hp) as (r & Hr & _).
    eexists; split; [reflexivity|]; intros d [= <-]; apply (Pr n p r x Hp Hr).
    destruct (Sr n p r Hp Hr) as [[<- _]|[Hp' _]]; [|rewrite Nr in Hp'; set_solver].
    unfold of_name; apply list_elem_of_fmap; exists (n, x); split; [done|]; apply list_elem_of_filter; done.
  - destruct (inject_prints print_flt gstr area_at vprintf static_str ts_name internal m fake fake_addr junk_arg static_ok name_ok
      junk_ok fake_ok internal_short n ts sq sc fm a0 a1 Sl (Sn1 n eq_refl)) as (x & rd & out & E & Ex & Bd & Ok & _).
    eexists; split; [cbn [event_data]; rewrite E; reflexivity|]; intros d [= <-]; now exists rd, out.
  - now exists None.
  - now exists None.
Qed.

(** The log is complete: when an engine whose rings have no other owner is
    drained into a healthy output, whatever its buffers and streams, every
    step succeeds and the stream ends up holding what was written before, then
    one line for each record and each report of the engine, in the order of
    the engine's events; and among these every ring's records appear exactly,
    in the order they were posted. *)
Theorem log_complete e (locks : nat -> list bool) fuel (o : out_state format_state U) :
  closing e -> (4 <= fuel)%nat -> (forall j, free (S (length (e_rings e))) (locks j)) -> printable_engine e -> out_ready o ->
  exists e' evs o', drain_rings fuel e locks = Some e' /\ e_rings e' = [] /\ e_trace e' = e_trace e ++ evs /\
    (forall nx, nx ∈ omap out_of evs -> exists p, (nx.1, p) ∈ e_rings e) /\
    (forall n p r, (n, p) ∈ e_rings e -> e_heap e !! p = Some r -> of_name n (omap out_of evs) = contents r) /\
    run_log o evs = Some o' /\ out_ready o' /\
    written (o_buf o').2 = text (o_buf o) ++ (log_of (rs_abs (o_format o)) evs).2 /\
    written (o_buf (output_delete o')).2 = written (o_buf o').2.
Proof.
  intros Cl Lt Fr Pr R; destruct (drain_phase locks 3 e fuel Cl I ltac:(lia) Fr) as (e' & fl & E & N & X & Sd).
  assert (Sp : spoken short_name (e_trace e) (e_opts e) e) by (split; [apply Pr|exists []; now rewrite app_nil_r|done]).
  apply (drain_said short_name _ _ eq_refl (cl_tso _ Cl) fuel e locks e' E) in Sp as (evs0 & T & Sy); set (evs := evs0 ++ [EvFlush]) in *.
  assert (Of : omap out_of evs = fl).
  { pose proof (sd_outs _ _ _ Sd) as O; unfold outs in O; rewrite T, omap_app in O; now apply app_inv_head in O. }
  pose proof (events_print e e' fl evs (id_reg _ (cl_idle _ Cl)) Pr Sd N Of Sy) as P.
  destruct (run_ok static_str ts_name internal m fake fake_addr junk_arg argval_at evs o R P) as (o' & Er & R' & _ & Tx).
  exists e', evs, o'; do 3 (split; [done|]); split; [rewrite Of; apply Sd|]; split; [|split; [done|split; [done|]]].
  - intros n p r Hn Hr; rewrite Of; destruct (sd_ring _ _ _ Sd n p r Hn Hr) as [[C _]|[Hn' _]]; [done|]; rewrite N in Hn'; set_solver.
  - destruct (output_delete_ok o' R') as (_ & _ & W); apply Forall_app in P as [P _].
    destruct (run_flushed static_str ts_name internal m fake fake_addr junk_arg argval_at evs0 o o' R P Er) as [W' _].
    rewrite W, W', Tx; cbn [fmt_footer log_formatter basic_formatter concat]; now rewrite app_nil_r.
Qed.
End Drained.

(** ** Concrete logs *)

Definition w_static (s : string) : Z :=
  if String.eqb s "switching timesource from %s to %s" then 1 else if String.eqb s "dropped %llu record(s)" then 2 else 3.
Definition w_gstr (p : Z) : bytes :=
  match p with
  | 1 => str "switching timesource from %s to %s" | 2 => str "dropped %llu record(s)"
  | 3 => str "following records may be out of order" | _ => str "clock"
  end.
Definition w_area (_ : Z) : area := sample_internal.
(** The format string, and its arguments as numbers. *)
Definition w_vprintf (fmt : bytes) (args : list fmt_arg) : bytes * option bytes :=
  (fmt ++ concat (map (fun a => match a with FUint64 n => str " " ++ dec n | _ => [] end) args), None).
Definition w_tm (_ : Z) : tm := mkTm 0 0 0 0 0 0.
Definition w_print (_ : string) (_ _ : Z) : bytes := [].
Definition w_junk : arg := mkArg 0 0 0.

Lemma w_static_ok s : s ∈ report_formats -> is_u64 (w_static s) /\ w_static s <> 0 /\ w_gstr (w_static s) = str s.
Proof. intros H; apply list_elem_of_In in H as [<-|[<-|[<-|[]]]]; (split; [split; reflexivity || discriminate|split; [discriminate|reflexivity]]). Qed.

Lemma w_name_ok (ts : Z) : is_u64 4 /\ 4 <> 0.
Proof. split; [words; lia|discriminate]. Qed.

Lemma w_junk_ok : is_u32 (a_len w_junk).
Proof. split; [discriminate|reflexivity]. Qed.

Lemma w_short x : r_area x = Some 0 ->
  Z.of_nat (length (record_names w_area x).1) + Z.of_nat (length (record_names w_area x).2) < 1000.
Proof.
  intros E; unfold record_names; rewrite E; cbn [fst snd w_area sample_internal area_new a_name]; unfold section_name.
  destruct (_ <=? _); [vm_compute; reflexivity|]; generalize (Z.to_nat (r_section x)); intros k.
  do 9 (destruct k as [|k]; [vm_compute; reflexivity|]); vm_compute; reflexivity.
Qed.

Abbreviation w_inject := (inject_data w_static (fun _ => 4) 0 demo_mem (replicate 128 7) 0 w_junk).

Lemma report_printed_witness :
  exists d f' out, w_inject "R" 77 0 I_DROPMARK "dropped %llu record(s)" (ArgNum 3) (ArgNum 0) = Some d /\
    process_out Nsec w_tm w_print w_gstr w_area w_vprintf (fun i => i) (format_basic FAST0) d = Some (f', out) /\
    concat out = str "00000000000.000000077 R:0 HOGL:DROPMARK dropped %llu record(s) 3 0" ++ newline.
Proof.
  destruct (report_printed w_tm w_print w_gstr w_area w_vprintf (fun i => i) w_static (fun _ => 4) 0 demo_mem (replicate 128 7) 0 w_junk
    w_static_ok w_name_ok w_junk_ok eq_refl w_short (format_basic FAST0) "R" 77 0 I_DROPMARK "dropped %llu record(s)"
    (ArgNum 3) (ArgNum 0)) as (d & rd & f' & out & E & P & _ & Rn & An & Sn & Rt & Rq & C).
  - right; left.
  - reflexivity.
  - apply tscache_new_ok.
  - exists d, f', out; split; [exact E|]; split; [exact P|]; rewrite C; unfold header_text.
    rewrite Rn, An, Sn, Rt, Rq; vm_compute; reflexivity.
Defined.

Definition w_records : list event := [EvRecord "R" (sample_record 10 0); EvFlush; EvRecord "R" (sample_record 30 1)].

#[local] Instance w_formatter : Formatter format_state := basic_formatter Nsec w_tm w_print w_gstr w_area w_vprintf (fun i => i).
#[local] Instance w_renders : Renders format_state := basic_renders Nsec w_tm w_print w_gstr w_area w_vprintf (fun i => i).

Abbreviation w_prints := (event_prints w_static (fun _ => 4) 0 demo_mem (replicate 128 7) 0 w_junk (fun _ => 0)).
Abbreviation w_run := (run w_static (fun _ => 4) 0 demo_mem (replicate 128 7) 0 w_junk (fun _ => 0)).

Lemma sample_prints n ts seq : is_u64 ts -> is_u64 seq -> Z.of_nat (length (str n)) < 1000 ->
  basic_prints Nsec w_print w_gstr w_area w_vprintf (mkData (str n) (sample_record ts seq) 0).
Proof.
  intros Ht Hs Hn; eexists _, _; split; [reflexivity|]; split; [reflexivity|]; split; [|exact Hs|now apply clock_time_nsec].
  unfold names_length; cbn [rd_area_name rd_sect_name rd_ring_name fd_ring_name].
  change (4 + 4 + Z.of_nat (length (str n)) < 4294967000); lia.
Qed.

Lemma w_records_print : Forall w_prints w_records.
Proof.
  repeat constructor; (eexists; split; [reflexivity|]); try done; intros d [= <-]; apply sample_prints; vm_compute; try split; congruence || reflexivity.
Qed.

Definition w_line0 : bytes := str "00000000000.000000010 R:0 HOGL:INFO " ++ newline.
Definition w_line1 : bytes := str "00000000000.000000030 R:1 HOGL:INFO " ++ newline.

Lemma outputs_frame_log_witness :
  exists o o', output_plainfile (fun _ => true) true [WroteAll] (str "log") (format_basic FAST0) 16 = Some o /\
    w_run o w_records = Some o' /\ fd_out (o_buf (output_delete o')).2 = w_line0 ++ w_line1.
Proof.
  destruct (outputs_frame_log w_static (fun _ => 4) 0 demo_mem (replicate 128 7) 0 w_junk (fun _ => 0) (format_basic FAST0) (str "log") 16
    [WroteAll] w_records []) as (_ & _ & (o & o' & E & R & W) & _).
  - words; lia.
  - repeat constructor.
  - apply tscache_new_ok.
  - apply w_records_print.
  - exists o, o'; split; [exact E|]; split; [exact R|]; rewrite W; vm_compute; reflexivity.
Defined.

Lemma tee_copies_witness :
  exists o', w_run (output_tee (fun _ => false) (mkOut (format_basic FAST0) (small_buffer, fd0))
      (mkOut (format_basic FAST0) (ostrbuf_new (fun _ => true) 0, mkStdio 0 [] None [])) 8192) (w_records ++ [EvFlush]) = Some o' /\
    text (output_tee_delete o').1 = w_line0 ++ w_line1 /\ text (output_tee_delete o').2 = w_line0 ++ w_line1.
Proof.
  destruct small_ready as (_ & _ & R0 & R1 & _).
  destruct (tee_copies w_static (fun _ => 4) 0 demo_mem (replicate 128 7) 0 w_junk (fun _ => 0) (fun _ => false)
    (mkOut (format_basic FAST0) (small_buffer, fd0)) (mkOut (format_basic FAST0) (ostrbuf_new (fun _ => true) 0, mkStdio 0 [] None []))
    8192 w_records) as (o' & E & T0 & T1).
  - words; lia.
  - split; [exact R0|apply tscache_new_ok].
  - split; [exact R1|apply tscache_new_ok].
  - reflexivity.
  - apply w_records_print.
  - exists o'; split; [exact E|]; rewrite T0, T1; split; vm_compute; reflexivity.
Defined.

Lemma sample_closing_prints : printable_engine w_print w_gstr w_area w_vprintf (fun _ => 0) sample_closing.
Proof.
  split.
  - intros p r; unfold sample_closing, sample_engine; cbn [e_heap]; rewrite lookup_insert_Some, lookup_insert_Some.
    intros [[_ <-]|[_ [[_ <-]|[_ H]]]]; [vm_compute; reflexivity..|]; now rewrite lookup_empty in H.
  - intros n p r x H Hr; apply list_elem_of_In in H as [[= <- <-]|[[= <- <-]|[]]]; vm_compute in Hr; injection Hr as <-;
      intros Hx; vm_compute in Hx; apply list_elem_of_In in Hx; cbn [In] in Hx; repeat destruct Hx as [<-|Hx]; try destruct Hx;
      match goal with |- basic_prints _ _ _ _ _ (mkData (str ?n) (mkRecord _ ?t ?s _ _ _) _) =>
        apply (sample_prints n t s); vm_compute; try split; congruence || reflexivity end.
Qed.

Lemma log_complete_witness :
  exists e' evs o', drain_rings 4 sample_closing (fun _ => [true; true; true]) = Some e' /\
    w_run (mkOut (format_basic FAST0) (small_buffer, tee0)) evs = Some o' /\
    written (o_buf o').2 =
      str "00000000000.000000010 a:0 HOGL:INFO " ++ newline ++ str "00000000000.000000020 b:0 HOGL:INFO " ++ newline ++
      str "00000000000.000000030 a:1 HOGL:INFO " ++ newline ++ str "00000000000.000000040 a:2 HOGL:INFO " ++ newline.
Proof.
  destruct (log_complete w_tm w_print w_gstr w_area w_vprintf (fun i => i) w_static (fun _ => 4) 0 demo_mem (replicate 128 7) 0 w_junk
    (fun _ => 0) w_static_ok w_name_ok w_junk_ok eq_refl w_short sample_closing (fun _ => [true; true; true]) 4
    (mkOut (format_basic FAST0) (small_buffer, tee0))) as (e' & evs & o' & E & _ & T & _ & _ & R & _ & W & _).
  - apply sample_closing_ok.
  - lia.
  - intros j; split; [repeat constructor|cbn; lia].
  - apply sample_closing_prints.
  - split; [apply small_ready|apply tscache_new_ok].
  - exists e', evs, o'; split; [exact E|]; split; [exact R|]; rewrite W; vm_compute in E; injection E as <-.
    vm_compute in T; subst evs; vm_compute; reflexivity.
Defined.
