(* ===== verification/Cook.v ===== *)
(** * The tool that prints raw files (tools/cook.cc)

    Records are taken from the parser and handed to a format until the parser
    ends; when the file does not begin with a record, it is tried again one byte
    further on. *)

From S2P Require Import Prelude Args Record Posted Area Timestamp Ostrbuf Format FormatFacts FormatArgs Raw RawFacts RawSpec RawText.

Inductive cook_result := CookDone | CookRetry | CookExit.

Section Cook.
Context `{Reader U} `{Stream V}.
Variable tsf : ts_format.
Variable localtime : Z -> tm.
Variable print_flt : string -> Z -> Z -> bytes.
Variable gstr : Z -> bytes.
Variable vprintf : bytes -> list fmt_arg -> bytes * option bytes.
(** What is in memory that was not initialised, and the address of the
    parser's own area. *)
Variable junk : Z -> Z.
Variable own_area : Z.
(** The options of the command line; and opening the file, which is done for
    each attempt. *)
Variable ver : version.
Variables max_record_size min_valid_recs : Z.
Variable open_file : Z -> option U.

(** The records one after the other; the text of each is flushed.  The result
    has the parser and the number of records. *)
(* src: tools/cook.cc 81-92 reprocess *)
Fixpoint cook_records (fuel : nat) (p : raw_parser U) (f : format_state) (out : ostrbuf * V) (nrecs : Z)
  : option (raw_parser U * format_state * (ostrbuf * V) * Z) :=
  match fuel with
  | O => None
  | S fuel =>
      '(ok, p) ← next tsf own_area p;
      if negb ok then Some (p, f, out, nrecs)
      else
        own ← raw_area junk p;
        ring ← c_string (p_ring_name p);
        '(f, out) ← process tsf localtime print_flt gstr (fun _ => own) vprintf junk f out (mkData ring (p_record p) 0);
        cook_records fuel p f (ob_flush out []) (nrecs + 1)
  end.

(** [error.find_first_of(set) == 0]. *)
Definition first_of (set error : string) : bool :=
  match error with
  | EmptyString => false
  | String c _ => existsb (Ascii.eqb c) (String.list_ascii_of_string set)
  end.

(** Memory for the parser is there. *)
(* src: tools/cook.cc 60-107 reprocess *)
Definition reprocess (fuel : nat) (offset : Z) (f : format_state) (out : ostrbuf * V)
  : option (cook_result * format_state * (ostrbuf * V)) :=
  match open_file offset with
  | None => Some (CookExit, f, out)
  | Some u =>
      u ← (if offset =? 0 then Some u else '(_, _, u) ← rd_read u offset; Some u);
      '(p, f, out, nrecs) ← cook_records fuel (parser_new junk u ver max_record_size) f out 0;
      let r :=
        if p_failed p then
          if negb (min_valid_recs =? 0) && (min_valid_recs <=? nrecs) then CookDone
          else if first_of "format:" (p_error p) then CookRetry
          else CookDone
        else CookDone in
      Some (r, f, out)
  end.

(* src: tools/cook.cc 109-121 process *)
Fixpoint cook (attempts fuel : nat) (offset : Z) (f : format_state) (out : ostrbuf * V)
  : option (cook_result * format_state * (ostrbuf * V)) :=
  match attempts with
  | O => None
  | S attempts =>
      '(r, f, out) ← reprocess fuel offset f out;
      match r with
      | CookRetry =>
          if max_record_size <? offset + 1 then Some (CookExit, f, out)
          else cook attempts fuel (offset + 1) f out
      | _ => Some (r, f, out)
      end
  end.
End Cook.

(** ** Reading a whole file *)

(** At the end of the file the parser stops without an error. *)
Lemma next_end `{Reader U} tsf area p : feeds p [] ->
  exists p', next tsf area p = Some (false, p') /\ p_failed p' = false.
Proof.
  intros (Nf & S & R); unfold next; set (p1 := with_record p _); unfold read_uint; cbn [p1 with_record p_failed]; rewrite Nf.
  destruct (rd_read_ok (p_in p1) 8 S ltac:(lia)) as (u & _ & E); cbn [p1 with_record p_in] in E.
  rewrite R in E; cbn in E; destruct E as [E _]; cbn [p1 with_record p_in]; change (Z.of_nat 8) with 8; rewrite E.
  cbn [mbind option_bind]; eexists; split; [reflexivity|reflexivity].
Qed.

(** A posting, and the record that it makes. *)
Record posting := mkPosting {
  po_mem : memory; po_slot : record; po_tailroom : Z; po_pack : argpack; po_args : list arg; po_ring : bytes; po_addr : Z }.

Definition posted (po : posting) : option format_data :=
  r ← set_args_pack (po_mem po) (po_slot po) (po_tailroom po) (fst (populate (po_pack po) (po_args po)));
  Some (mkData (po_ring po) r (po_addr po)).

Section Printed.
Context `{Reader U} `{Stream V}.
Variable print_flt : string -> Z -> Z -> bytes.
Variables gstr gstr' : Z -> bytes.
Variable vprintf : bytes -> list fmt_arg -> bytes * option bytes.
Variable localtime : Z -> tm.
Variable junk : Z -> Z.
Variable area_at : Z -> area.
Variable own_area : Z.
Abbreviation rendered := (rendered print_flt vprintf localtime junk).

Record posting_ok (po : posting) : Prop := {
  pk_mem : mem_ok (po_mem po); pk_count : (length (po_args po) <= 16)%nat; pk_args : Forall arg_wf (po_args po);
  pk_pack : pack_wf (po_pack po); pk_room : 128 <= po_tailroom po <= 65536;
  pk_slot : Z.of_nat (length (r_argval (po_slot po))) = po_tailroom po; pk_texts : Forall (texted (po_mem po)) (po_args po);
  pk_global : Forall (global_printed gstr) (po_args po); pk_names : raw_ok area_at (po_slot po) (po_ring po) }.

(** The raw file of records, and their text in the program that posted them. *)
Fixpoint raw_log (ds : list format_data) : option bytes :=
  match ds with
  | [] => Some []
  | d :: ds => out ← pack Nsec gstr area_at d; rest ← raw_log ds; Some (concat out ++ rest)
  end.

Fixpoint text_log (f : format_state) (ds : list format_data) : option (format_state * bytes) :=
  match ds with
  | [] => Some (f, [])
  | d :: ds => '(f, t) ← rendered area_at gstr f d; '(f, rest) ← text_log f ds; Some (f, t ++ rest)
  end.

Lemma process_rendered own f (out : ostrbuf * V) d f' t : ready out -> rendered (fun _ => own) gstr' f d = Some (f', t) ->
  exists out', process Nsec localtime print_flt gstr' (fun _ => own) vprintf junk f out d = Some (f', out') /\
    ready out' /\ text out' = text out ++ t.
Proof.
  intros R; unfold RawText.rendered, process; destruct (process_out _ _ _ _ _ _ _ f d) as [[f1 o]|]; [|done].
  cbn [mbind option_bind]; intros [= <- <-]; destruct (fold_push_back out o R) as [R' T]; eauto.
Qed.

Lemma cook_records_ok pos : Forall posting_ok pos -> forall f, tc_ok (f_tscache f) ->
  exists ds file f' t, mapM posted pos = Some ds /\ raw_log ds = Some file /\ text_log f ds = Some (f', t) /\
    forall (p : raw_parser U) (out : ostrbuf * V) nrecs fuel, parser_ok p -> feeds p file -> ready out -> ob_data out.1 = [] ->
    (length pos < fuel)%nat ->
    exists p' out', cook_records Nsec localtime print_flt gstr' vprintf junk own_area fuel p f out nrecs =
        Some (p', f', out', nrecs + Z.of_nat (length pos)) /\ p_failed p' = false /\ ready out' /\
      written out'.2 = written out.2 ++ t.
Proof.
  induction 1 as [|po pos [K1 K2 K3 K4 K5 K6 K7 K8 K9] _ IH]; intros f Oc.
  - exists [], [], f, []; do 3 (split; [done|]); intros p out nrecs fuel _ Fe R _ Hf; destruct fuel as [|fuel]; [cbn in Hf; lia|].
    destruct (next_end Nsec own_area p Fe) as (p' & E & Nf); exists p', out; cbn [cook_records]; rewrite E; cbn [mbind option_bind negb].
    rewrite app_nil_r, Z.add_0_r; done.
  - destruct (raw_record_text print_flt gstr gstr' vprintf localtime junk area_at (po_mem po) (po_slot po) (po_tailroom po) (po_pack po)
      (po_args po) (po_ring po) (po_addr po) own_area f junk K1 K2 K3 K4 K5 K6 K7 K8 K9) as (r' & o & f1 & t1 & E & P & Rn & Oc1 & Nx); [done|].
    destruct (IH f1 Oc1) as (ds & file & f' & t & Ms & Rl & Tl & Ck).
    exists (mkData (po_ring po) r' (po_addr po) :: ds), (concat o ++ file), f', (t1 ++ t).
    assert (Ep : posted po = Some (mkData (po_ring po) r' (po_addr po))) by (unfold posted; now rewrite E).
    cbn [mapM raw_log text_log]; rewrite Ep; cbn [mbind option_bind]; rewrite Ms, P, Rn; cbn [mbind option_bind].
    rewrite Rl, Tl; do 3 (split; [done|]); intros p out nrecs fuel Pk Fe R Em Hf; destruct fuel as [|fuel]; [lia|].
    destruct (Nx p file Pk Fe) as (p1 & own & En & Fe1 & Pk1 & _ & Cr & Ar & Rd).
    destruct (process_rendered own f out _ f1 t1 R Rd) as (out1 & Eo & R1 & T1).
    destruct (flush_ok out1 [] R1) as (R2 & W2 & D2); rewrite app_nil_r in W2.
    cbn [cook_records]; rewrite En; cbn [mbind option_bind negb]; rewrite Ar; cbn [mbind option_bind]; rewrite Cr; cbn [mbind option_bind].
    rewrite Eo; cbn [mbind option_bind].
    destruct (Ck p1 (ob_flush out1 []) (nrecs + 1) fuel Pk1 Fe1 R2 D2 ltac:(cbn in Hf; lia)) as (p' & out' & E' & Nf & R' & W').
    exists p', out'; rewrite E', W', W2, T1; unfold text; rewrite Em, app_nil_r, <- app_assoc; split; [|done]; do 2 f_equal; cbn [length]; lia.
Qed.

(** The tool prints a raw file as the program would have printed its log: for
    any sequence of posted records with text arguments and names the parser
    accepts, packed one after the other into a file, one attempt of the tool,
    in another process with other strings in its memory, ends without error
    and has written, in every choice of fields, exactly the text of all records
    in order, and its format is in the state the program's format would be in. *)
Theorem cook_prints_log pos f max_record_size min_valid : Forall posting_ok pos -> tc_ok (f_tscache f) ->
  header_size + 128 + 16 * 65536 <= max_record_size < 4294967296 ->
  exists ds file f' t, mapM posted pos = Some ds /\ raw_log ds = Some file /\ text_log f ds = Some (f', t) /\
    forall open_file (u : U) (out : ostrbuf * V) attempts fuel, open_file 0 = Some u -> at_rest u file -> ready out -> ob_data out.1 = [] ->
    (0 < attempts)%nat -> (length pos < fuel)%nat ->
    exists out', cook Nsec localtime print_flt gstr' vprintf junk own_area V1_1 max_record_size min_valid open_file
        attempts fuel 0 f out = Some (CookDone, f', out') /\ written out'.2 = written out.2 ++ t.
Proof.
  intros Po Oc Hm; destruct (cook_records_ok pos Po f Oc) as (ds & file & f' & t & Ms & Rl & Tl & Ck).
  exists ds, file, f', t; do 3 (split; [done|]); intros open_file u out attempts fuel Op Ar R Em Ha Hf; destruct attempts as [|attempts]; [lia|].
  destruct (Ck (parser_new junk u V1_1 max_record_size) out 0 fuel (parser_new_ok junk u _ Hm) (conj eq_refl Ar) R Em Hf)
    as (p' & out' & E & Nf & _ & W).
  exists out'; cbn [cook]; unfold reprocess; rewrite Op; cbn [mbind option_bind Z.eqb]; rewrite E; cbn [mbind option_bind]; now rewrite Nf.
Qed.
End Printed.

(** ** Two records, concretely *)

Definition cook_demo : posting := mkPosting demo_mem (demo_record 224) 224 demo_pack raw_text_args (str "RING") 0.
Definition cook_stdout : ostrbuf * stdio_state := (ostrbuf_new (fun _ => true) 1048576, mkStdio 0 (str "> ") None []).

Lemma cook_demo_ok : posting_ok raw_demo_gstr (fun _ => raw_demo_area) cook_demo.
Proof.
  split; cbn [cook_demo po_mem po_args po_pack po_tailroom po_slot po_ring].
  - apply demo_mem_ok.
  - cbn; lia.
  - apply raw_text_args_wf.
  - apply demo_pack_wf.
  - lia.
  - reflexivity.
  - repeat (apply Forall_cons; split; [repeat split; try discriminate; intros; apply demo_mem_nul_free|]); constructor.
  - repeat (apply Forall_cons; split; [intros Eg; first [discriminate Eg|split; [discriminate|split; [discriminate|split; [apply (bool_decide_unpack _); vm_compute; done|cbn; lia]]]]|]); constructor.
  - apply raw_demo_ok.
Qed.

Lemma cook_prints_log_witness :
  exists ds file f' out', mapM posted [cook_demo; cook_demo] = Some ds /\ raw_log raw_demo_gstr (fun _ => raw_demo_area) ds = Some file /\
    cook Nsec (fun _ => mkTm 0 0 0 0 0 0) (fun _ _ _ => []) (fun _ => []) demo_vprintf (fun i => i) 5 V1_1 1100000 4
      (fun _ => Some (mkRdbuf [] 0 false 0 [Data file])) 1 3 0 (format_basic FAST0) cook_stdout = Some (CookDone, f', out') /\
    written out'.2 = str "> 00000000000.000000007 RING:3 AREA:THREE ABCDEF/2" ++ newline ++
                     str "00000000000.000000007 RING:3 AREA:THREE ABCDEF/2" ++ newline.
Proof.
  destruct (cook_prints_log (fun _ _ _ => []) raw_demo_gstr (fun _ => []) demo_vprintf (fun _ => mkTm 0 0 0 0 0 0) (fun i => i)
    (fun _ => raw_demo_area) 5 [cook_demo; cook_demo] (format_basic FAST0) 1100000 4) as (ds & file & f' & t & Ms & Rl & Tl & Ck).
  { repeat (apply Forall_cons; split; [apply cook_demo_ok|]); constructor. }
  { apply tscache_new_ok. }
  { split; vm_compute; congruence. }
  destruct (Ck (fun _ => Some (mkRdbuf [] 0 false 0 [Data file])) (mkRdbuf [] 0 false 0 [Data file]) cook_stdout 1%nat 3%nat eq_refl)
    as (out' & E & W).
  - split; [|unfold rd_rest; cbn; unfold file_rest; cbn; apply app_nil_r]; split; [done|]; constructor; [|constructor].
    exists file; split; [done|]; vm_compute in Ms; injection Ms as <-; vm_compute in Rl; injection Rl as <-; discriminate.
  - split; [split; vm_compute; intuition discriminate|split; [done|split; [done|constructor]]].
  - reflexivity.
  - lia.
  - cbn; lia.
  - exists ds, file, f', out'; do 2 (split; [done|]); split; [exact E|]; rewrite W.
    vm_compute in Ms; injection Ms as <-; vm_compute in Tl; injection Tl as <- <-; vm_compute; reflexivity.
Defined.
