(* ===== verification/OutName.v ===== *)
(** * The names of output files (output-file.cc)

    The files of a rotating log are numbered; the number stands where the file
    name has a [#], padded to the same width, and a symbolic link without the
    number points to the current file.  Names are byte strings without their
    terminator. *)

From S2P Require Import Prelude Ntos.

(** ** Library functions on strings *)

(** [std::string::find]: the place of the first occurrence. *)
Fixpoint find (pat s : bytes) : option nat :=
  if bool_decide (take (length pat) s = pat) then Some 0%nat
  else match s with [] => None | _ :: s => n ← find pat s; Some (S n) end.

(** The character at an index; the one behind the last is the terminator. *)
Definition char_at (s : bytes) (i : nat) : Z := default 0 (s !! i).

Definition isspace (c : Z) : bool := (c =? 32) || ((9 <=? c) && (c <=? 13)).
Definition isdigit (c : Z) : bool := (48 <=? c) && (c <=? 57).

Fixpoint skip_spaces (s : bytes) : bytes :=
  match s with c :: s' => if isspace c then skip_spaces s' else s | [] => [] end.

Fixpoint digits_value (acc : Z) (s : bytes) : Z :=
  match s with c :: s => if isdigit c then digits_value (acc * 10 + (c - 48)) s else acc | [] => acc end.

Definition ULONG_MAX : Z := 18446744073709551615.

(** [strtoul] in base ten, without the place where it stopped. *)
Definition strtoul (s : bytes) : Z :=
  let s := skip_spaces s in
  let '(neg, s) := match s with
                   | c :: s' => if c =? 45 then (true, s') else if c =? 43 then (false, s') else (false, s)
                   | [] => (false, s) end in
  let v := digits_value 0 s in
  if ULONG_MAX <? v then ULONG_MAX else if (neg : bool) then u64 (- v) else v.

(** ** The state *)

(* src: include/hogl/output-file.hpp 126-134 output_file *)
Record out_name := mkName {
  on_symlink : bytes; on_name : bytes; on_pref : bytes; on_sufx : bytes;
  on_index : Z; on_width : Z; on_max : Z }.

(** The name with a number. *)
(* src: src/output-file.cc 115-123 output_file::update_name *)
Definition numbered (n : out_name) (index : Z) : bytes :=
  on_pref n ++ dec_padded index (on_width n) char0 ++ on_sufx n.

(* src: src/output-file.cc 115-123 output_file::update_name *)
Definition update_name (n : out_name) : out_name :=
  mkName (on_symlink n) (numbered n (on_index n)) (on_pref n) (on_sufx n) (on_index n) (on_width n) (on_max n).

(** [target] is what the symbolic link contains, [None] when it cannot be read;
    what does not fit into the local array is cut. *)
(* src: src/output-file.cc 144-200 output_file::read_link *)
Definition read_link (n : out_name) (target : option bytes) : Z :=
  let len := u32 (Z.of_nat (length (on_symlink n)) + on_width n + 1) in
  match target with
  | None => 0
  | Some target =>
      let str := take (Z.to_nat len) target in
      match find (on_pref n) str with
      | Some O =>
          let str := drop (length (on_pref n)) str in
          let number :=
            match on_sufx n with
            | [] => Some str
            | _ => pos ← find (on_sufx n) str; Some (take pos str)
            end in
          match number with
          | None => 0
          | Some str =>
              let index := strtoul str in
              if index =? ULONG_MAX then 0
              else if on_max n <=? index then 0
              else if on_max n <=? index + 1 then 0 else index + 1
          end
      | _ => 0
      end
  end.

(** The number of digits; [None] when the loop goes on for ever.  After 32
    turns the step is zero. *)
Fixpoint index_width (fuel : nat) (step width max_count : Z) : option Z :=
  match fuel with
  | O => None
  | S fuel => if step <? max_count then index_width fuel (step *u32 10) (width +u32 1) max_count else Some width
  end.

(** The parts of a file name: prefix, suffix and symbolic link.  A character
    that is doubled by leaving out the number is left out once. *)
Definition split_name (str : bytes) : bytes * bytes * bytes :=
  match find [35] str with
  | Some split =>
      let sufx := drop (S split) str in
      let cut := if (0 <? Z.of_nat split) && (char_at str (split - 1) =? char_at str (split + 1))
                 then (split - 1)%nat else split in
      (take split str, sufx, take cut str ++ sufx)
  | None => (str ++ [46], [], str)
  end.

(** [readlink] is the content of the symbolic links. *)
(* src: src/output-file.cc 204-239 output_file::init_name *)
Definition init_name (max_count : Z) (readlink : bytes -> option bytes) (filename : bytes) : option out_name :=
  let '(pref, sufx, symlink) := split_name filename in
  width ← index_width 33 10 1 max_count;
  let n := mkName symlink [] pref sufx 0 width max_count in
  Some (update_name (mkName symlink [] pref sufx (read_link n (readlink symlink)) width max_count)).

(** The next number. *)
(* src: src/output-file.cc 346-349 output_file::do_rotate *)
Definition advance_name (n : out_name) : out_name :=
  let index := on_index n +u32 1 in
  let index := if on_max n <=? index then 0 else index in
  update_name (mkName (on_symlink n) (on_name n) (on_pref n) (on_sufx n) index (on_width n) (on_max n)).

(** ** The width of the number *)

Lemma index_width_from max_count fuel : forall w, max_count <= 10 ^ 9 -> 1 <= w <= 9 -> (Z.to_nat (9 - w) < fuel)%nat ->
  w = 1 \/ 10 ^ (w - 1) < max_count ->
  exists v, index_width fuel (10 ^ w) w max_count = Some v /\ 1 <= v <= 9 /\ max_count <= 10 ^ v /\ (v = 1 \/ 10 ^ (v - 1) < max_count).
Proof.
  induction fuel as [|fuel IH]; intros w Hm Hw Hf Hl; [lia|]; cbn [index_width].
  destruct (Z.ltb_spec (10 ^ w) max_count) as [L|L]; [|exists w; auto].
  assert (Hw9 : w <> 9) by (intros ->; lia).
  assert (Hs : 10 ^ w * 10 = 10 ^ (w + 1)) by (rewrite Z.pow_add_r by lia; reflexivity).
  assert (H9 : 10 ^ (w + 1) <= 10 ^ 9) by (apply Z.pow_le_mono_r; lia); pose proof (Z.pow_nonneg 10 (w + 1) ltac:(lia)).
  rewrite Hs, !u32_small by (words; lia); apply IH; [done|lia|lia|right; replace (w + 1 - 1) with w by lia; exact L].
Qed.

Lemma index_width_ok max_count : max_count <= 10 ^ 9 ->
  exists w, index_width 33 10 1 max_count = Some w /\ 1 <= w <= 9 /\ max_count <= 10 ^ w /\ (w = 1 \/ 10 ^ (w - 1) < max_count).
Proof. intros H; apply (index_width_from max_count 33 1); [done|lia|lia|now left]. Qed.

(** Above 4135583744 files the step wraps around until it is zero. *)
Lemma index_width_hangs max_count fuel : 4135583744 < max_count -> index_width fuel 10 1 max_count = None.
Proof.
  intros H; assert (Z0 : forall fuel w, index_width fuel 0 w max_count = None).
  { clear fuel; induction fuel as [|fuel IH]; intros w; cbn [index_width]; [done|].
    destruct (Z.ltb_spec 0 max_count); [apply IH|lia]. }
  assert (St : forall k s, (forall i, (i < k)%nat -> Nat.iter i (fun s => s *u32 10) s < 4135583745) ->
    Nat.iter k (fun s => s *u32 10) s = 0 -> forall fuel w, index_width fuel s w max_count = None).
  { clear fuel; induction k as [|k IH]; intros s F E fuel w; [cbn in E; subst s; apply Z0|].
    destruct fuel as [|fuel]; cbn [index_width]; [done|]; pose proof (F 0%nat ltac:(lia)) as F0; cbn in F0.
    destruct (Z.ltb_spec s max_count); [|lia]; rewrite Nat.iter_succ_r in E; apply IH; [|exact E].
    intros i Hi; pose proof (F (S i) ltac:(lia)) as Fi; rewrite Nat.iter_succ_r in Fi; exact Fi. }
  apply (St 32%nat 10); [|vm_compute; reflexivity].
  assert (F : forallb (fun i => Nat.iter i (fun s => s *u32 10) 10 <? 4135583745) (seq 0 32) = true) by (vm_compute; reflexivity).
  rewrite forallb_forall in F; intros i Hi; apply Z.ltb_lt, F, in_seq; lia.
Qed.

(** ** Numbers and their digits *)

Lemma digits_value_app b : forall acc rest, Forall is_digit b ->
  digits_value acc (b ++ rest) = digits_value (fold_left (fun a c => a * 10 + dec_worth c) b acc) rest.
Proof.
  induction b as [|c b IH]; intros acc rest F; [done|]; apply Forall_cons in F as [D F]; cbn [app digits_value fold_left].
  unfold isdigit; unfold is_digit in D; rewrite (proj2 (Z.leb_le 48 c)), (proj2 (Z.leb_le c 57)) by lia; cbn [andb].
  now rewrite IH.
Qed.

Lemma digits_padded v w : is_u64 v -> Forall is_digit (dec_padded v w char0).
Proof.
  intros H; unfold dec_padded; apply Forall_app; split; [apply Forall_replicate; unfold is_digit, char0; lia|].
  apply (dec_decimal v H).
Qed.

Lemma numeral_zeros n b : fold_left (fun a c => a * 10 + dec_worth c) (replicate n char0 ++ b) 0 = numeral 10 dec_worth b.
Proof.
  unfold numeral; induction n as [|n IH]; [done|]; cbn [replicate app fold_left]; rewrite <- IH; f_equal.
Qed.

Lemma strtoul_padded v w : is_u64 v -> strtoul (dec_padded v w char0) = v.
Proof.
  intros H; pose proof (digits_padded v w H) as D; unfold strtoul.
  assert (V : digits_value 0 (dec_padded v w char0) = v).
  { rewrite <- (app_nil_r (dec_padded _ _ _)), digits_value_app by exact D; unfold dec_padded; rewrite numeral_zeros.
    apply (dec_decimal v H). }
  assert (S : skip_spaces (dec_padded v w char0) = dec_padded v w char0).
  { destruct D as [|c l D _]; [done|]; cbn [skip_spaces]; unfold isspace; unfold is_digit in D.
    rewrite (proj2 (Z.eqb_neq c 32)), (proj2 (Z.leb_gt c 13)), andb_false_r by lia; done. }
  rewrite S; revert V; destruct D as [|c l D _]; intros V; [cbn in *; subst v; reflexivity|]; unfold is_digit in D.
  rewrite (proj2 (Z.eqb_neq c 45)), (proj2 (Z.eqb_neq c 43)), V by lia.
  unfold ULONG_MAX; words; destruct (Z.ltb_spec 18446744073709551615 v); [lia|done].
Qed.

Lemma length_padded v w : is_u64 v -> 0 < w -> v < 10 ^ w -> Z.of_nat (length (dec_padded v w char0)) = w.
Proof.
  intros H Hw L; pose proof (decimal_length v (dec v) w (dec_decimal v H) ltac:(lia) L Hw).
  unfold dec_padded; rewrite length_app, length_replicate; lia.
Qed.

(** A string whose first character is no digit is not found before the end of a
    number. *)
Lemma find_behind b pat : Forall is_digit b -> (forall c, head pat = Some c -> ~ is_digit c) -> pat <> [] ->
  find pat (b ++ pat) = Some (length b).
Proof.
  intros F Hp Np; induction F as [|c b D _ IH].
  - cbn [app length]; destruct pat; [done|]; cbn [find]; now rewrite bool_decide_true by (apply take_ge; lia).
  - cbn [app find length]; rewrite bool_decide_false; [now rewrite IH|].
    destruct pat as [|c' pat]; [done|]; cbn [length take]; intros [= E _]; apply (Hp c'); [done|]; now rewrite <- E.
Qed.

Lemma find_prefix pat s : find pat (pat ++ s) = Some 0%nat.
Proof. destruct (pat ++ s) eqn:E; cbn [find]; rewrite bool_decide_true; try done; rewrite <- E; apply take_app_length. Qed.

(** ** Names and their numbers *)

Record name_wf (n : out_name) : Prop := {
  nw_width : 1 <= on_width n <= 9;
  nw_max : 1 <= on_max n <= 10 ^ on_width n;
  nw_sufx : forall c, head (on_sufx n) = Some c -> ~ is_digit c;
  nw_link : Z.of_nat (length (on_pref n ++ on_sufx n)) <= Z.of_nat (length (on_symlink n)) + 1;
  nw_size : Z.of_nat (length (on_symlink n)) + 10 < 4294967296 }.

Lemma index_u64 n i : name_wf n -> 0 <= i < on_max n -> is_u64 i /\ i < 10 ^ on_width n /\ i < 10 ^ 9.
Proof.
  intros [W M _ _ _] H; assert (10 ^ on_width n <= 10 ^ 9) by (apply Z.pow_le_mono_r; lia); words; lia.
Qed.

(** The number behind the one the link points to. *)
Lemma read_link_numbered n i : name_wf n -> 0 <= i < on_max n ->
  read_link n (Some (numbered n i)) = if decide (i + 1 = on_max n) then 0 else i + 1.
Proof.
  intros W Hi; pose proof (index_u64 n i W Hi) as (Hu & Hw & H9); destruct W as [W M S L Z0]; unfold read_link.
  pose proof (length_padded i (on_width n) Hu ltac:(lia) Hw) as Ld; rewrite u32_small by (words; lia).
  assert (Tk : take (Z.to_nat (Z.of_nat (length (on_symlink n)) + on_width n + 1)) (numbered n i) = numbered n i).
  { apply take_ge; unfold numbered; rewrite !length_app in *; lia. }
  rewrite Tk; unfold numbered; rewrite find_prefix, drop_app_length.
  assert (Sx : match on_sufx n with
    | [] => Some (dec_padded i (on_width n) char0 ++ on_sufx n)
    | _ => pos ← find (on_sufx n) (dec_padded i (on_width n) char0 ++ on_sufx n);
           Some (take pos (dec_padded i (on_width n) char0 ++ on_sufx n))
    end = Some (dec_padded i (on_width n) char0)).
  { destruct (on_sufx n) as [|c sufx] eqn:E; [now rewrite app_nil_r|]; rewrite find_behind; [|now apply digits_padded|exact S|done].
    cbn [mbind option_bind]; now rewrite take_app_length. }
  rewrite Sx, strtoul_padded by exact Hu; unfold ULONG_MAX; words.
  rewrite (proj2 (Z.eqb_neq i _)), (proj2 (Z.leb_gt (on_max n) i)) by lia.
  destruct (Z.leb_spec (on_max n) (i + 1)); case_decide; lia.
Qed.

Lemma strtoul_nonneg s : 0 <= strtoul s.
Proof.
  assert (D : forall s acc, 0 <= acc -> 0 <= digits_value acc s).
  { clear s; induction s as [|c s IH]; intros acc H; cbn [digits_value]; [done|]; unfold isdigit.
    destruct (Z.leb_spec 48 c), (Z.leb_spec c 57); cbn [andb]; try done; apply IH; lia. }
  unfold strtoul; destruct (match skip_spaces s with [] => _ | _ => _ end) as [neg s'].
  destruct (ULONG_MAX <? _); [done|]; destruct neg; [|now apply D]; apply u64_range.
Qed.

Lemma read_link_range n target : 0 < on_max n -> 0 <= read_link n target < on_max n.
Proof.
  intros M; unfold read_link; destruct target as [target|]; [|lia].
  destruct (find _ _) as [[|k]|]; [|lia|lia]; destruct (match on_sufx n with [] => _ | _ => _ end) as [num|]; [|lia].
  pose proof (strtoul_nonneg num); destruct (_ =? _); [lia|]; destruct (_ <=? _); [lia|].
  destruct (Z.leb_spec (on_max n) (strtoul num + 1)); lia.
Qed.

(** Files with different numbers have different names. *)
Lemma numbered_inj n i j : name_wf n -> 0 <= i < on_max n -> 0 <= j < on_max n -> numbered n i = numbered n j -> i = j.
Proof.
  intros W Hi Hj E; destruct (index_u64 n i W Hi) as (Ui & _); destruct (index_u64 n j W Hj) as (Uj & _).
  unfold numbered in E; apply app_inv_head, app_inv_tail in E.
  now rewrite <- (strtoul_padded i (on_width n) Ui), E, strtoul_padded.
Qed.

Definition good_filename (max_count : Z) (filename : bytes) : Prop :=
  1 <= max_count <= 10 ^ 9 /\ Z.of_nat (length filename) < 4294967000 /\
  forall c, head (split_name filename).1.2 = Some c -> ~ is_digit c.

Lemma find_some pat s i : find pat s = Some i -> (i <= length s)%nat /\ take (length pat) (drop i s) = pat.
Proof.
  revert i; induction s as [|c s IH]; intros i; cbn [find].
  - case_bool_decide as E; [|done]; intros [= <-]; split; [cbn; lia|exact E].
  - case_bool_decide as E; [intros [= <-]; split; [cbn; lia|exact E]|].
    destruct (find pat s) as [k|]; [|done]; cbn [mbind option_bind]; intros [= <-]; destruct (IH k eq_refl); split; [cbn; lia|done].
Qed.

Lemma split_name_length str : let '(pref, sufx, symlink) := split_name str in
  Z.of_nat (length (pref ++ sufx)) <= Z.of_nat (length symlink) + 1 /\ (length symlink <= length str)%nat.
Proof.
  unfold split_name; destruct (find [35] str) as [k|] eqn:F; [|rewrite !length_app; cbn; lia].
  destruct (find_some _ _ _ F) as [Hk K]; apply (f_equal length) in K; rewrite length_take, length_drop in K; cbn in K.
  destruct (_ && _); rewrite !length_app, !length_take, !length_drop; lia.
Qed.

Lemma init_name_wf max_count rl filename n : good_filename max_count filename -> init_name max_count rl filename = Some n ->
  name_wf n /\ on_max n = max_count /\ on_name n = numbered n (on_index n) /\
  on_index n = read_link n (rl (on_symlink n)) /\
  (on_pref n, on_sufx n, on_symlink n) = split_name filename.
Proof.
  intros (Hm & Hl & Hs); unfold init_name; destruct (index_width_ok max_count ltac:(lia)) as (w & E & Hw & Mw & _).
  destruct (split_name filename) as [[pref sufx] symlink] eqn:Sp; rewrite E; cbn [mbind option_bind]; intros [= <-].
  split; [|done]; cbn [fst snd] in Hs; pose proof (split_name_length filename) as L; rewrite Sp in L; destruct L as [L1 L2].
  split; cbn; [lia|lia|exact Hs|exact L1|lia].
Qed.

(** C36: A log that is restarted goes on where it stopped: for any file name
    whose suffix, behind the place for the number, does not begin with a digit
    ([digit_suffix_restarts] shows what happens then), that is shorter than
    4 GB, and any limit up to a
    thousand million files,
    setting up the names always ends; names with different numbers differ; and
    when the symbolic link points to the file with number [i], the restarted
    log opens the next one, the first again after the last. *)
Theorem restart_continues max_count filename rl rl' i : good_filename max_count filename -> 0 <= i < max_count ->
  exists n, init_name max_count rl filename = Some n /\ on_name n = numbered n (on_index n) /\
    (forall j, 0 <= j < max_count -> numbered n i = numbered n j -> i = j) /\
    (rl' (on_symlink n) = Some (numbered n i) ->
     exists n', init_name max_count rl' filename = Some n' /\ on_symlink n' = on_symlink n /\
       on_index n' = (i + 1) mod max_count /\ on_name n' = numbered n ((i + 1) mod max_count)).
Proof.
  intros G Hi; assert (T : forall rl, exists n, init_name max_count rl filename = Some n).
  { intros r; destruct G as (Hm & _ & _); destruct (index_width_ok max_count ltac:(lia)) as (w & E & _); unfold init_name.
    destruct (split_name filename) as [[pref sufx] symlink]; rewrite E; cbn [mbind option_bind]; eauto. }
  destruct (T rl) as [n E]; destruct (init_name_wf _ _ _ _ G E) as (W & M & Nm & _ & Sp); exists n; split; [done|]; split; [done|].
  split; [intros j Hj; apply (numbered_inj n i j W); lia|]; intros Rl.
  destruct (T rl') as [n' E']; destruct (init_name_wf _ _ _ _ G E') as (W' & M' & Nm' & Ix & Sp').
  assert (Same : on_pref n' = on_pref n /\ on_sufx n' = on_sufx n /\ on_symlink n' = on_symlink n /\ on_width n' = on_width n).
  { rewrite <- Sp in Sp'; injection Sp' as -> -> ->; do 3 (split; [done|]); unfold init_name in E, E'.
    destruct (split_name filename) as [[pref sufx] symlink]; destruct (index_width _ _ _ _) as [w|]; [|done].
    injection E as <-; injection E' as <-; done. }
  destruct Same as (Sa & Sb & Sc & Sd).
  assert (Nb : forall j, numbered n' j = numbered n j) by (intros j; unfold numbered; congruence).
  assert (Ie : on_index n' = (i + 1) mod max_count).
  { rewrite Ix, Sc, Rl, <- Nb, read_link_numbered, M' by (done || lia).
    case_decide as D; [rewrite D; symmetry; apply Z_mod_same_full|symmetry; apply Z.mod_small; lia]. }
  exists n'; do 2 (split; [done|]); split; [exact Ie|]; now rewrite Nm', Nb, Ie.
Qed.

Lemma restart_continues_witness :
  exists n n', init_name 128 (fun _ => None) (str "/var/log/app.#.log") = Some n /\
    on_symlink n = str "/var/log/app.log" /\ on_name n = str "/var/log/app.000.log" /\
    init_name 128 (fun _ => Some (str "/var/log/app.127.log")) (str "/var/log/app.#.log") = Some n' /\
    on_name n' = str "/var/log/app.000.log" /\ on_index n' = 0.
Proof.
  destruct (restart_continues 128 (str "/var/log/app.#.log") (fun _ => None) (fun _ => Some (str "/var/log/app.127.log")) 127)
    as (n & E & _ & _ & R); [|lia|].
  - split; [lia|]; split; [vm_compute; reflexivity|]; intros c H; vm_compute in H; injection H as <-; unfold is_digit; lia.
  - vm_compute in E; injection E as <-; destruct (R eq_refl) as (n' & E' & _ & I' & N').
    eexists _, n'; split; [reflexivity|]; split; [reflexivity|]; split; [reflexivity|]; split; [exact E'|]; split; [exact N'|exact I'].
Defined.

(** With a suffix of digits the number may not be found again: number ten is
    followed by number one. *)
Lemma digit_suffix_restarts :
  option_map on_name (init_name 128 (fun _ => Some (str "log.0100")) (str "log.#0")) = Some (str "log.0010").
Proof. reflexivity. Qed.
