(* ===== verification/OutFile.v ===== *)
(** * Rotating output files (output-file.cc)

    The writer appends to the current descriptor; a helper thread opens the next
    file, swaps the descriptors and finishes the old file.  The file system
    is a map from names to inodes and from inodes to contents, so that a file
    that is opened twice is one file.  Outcomes of system calls are inputs.
    [log_state] is the invariant: the files as a list of chunks, the newest
    first. *)

From S2P Require Import Prelude Ntos Ostrbuf OutName.

(** ** Files *)

Record fs := mkFs { fs_files : gmap bytes Z; fs_data : gmap Z bytes; fs_links : gmap bytes bytes; fs_fresh : Z }.

(** [O_CREAT | O_TRUNC]. *)
Definition open_trunc (s : fs) (name : bytes) : fs * Z :=
  match fs_files s !! name with
  | Some i => (mkFs (fs_files s) (<[i := []]> (fs_data s)) (fs_links s) (fs_fresh s), i)
  | None => (mkFs (<[name := fs_fresh s]> (fs_files s)) (<[fs_fresh s := []]> (fs_data s)) (fs_links s) (fs_fresh s + 1), fs_fresh s)
  end.

(** [O_APPEND]. *)
Definition append (s : fs) (i : Z) (b : bytes) : fs :=
  mkFs (fs_files s) (<[i := default [] (fs_data s !! i) ++ b]> (fs_data s)) (fs_links s) (fs_fresh s).

Definition content (s : fs) (name : bytes) : option bytes := i ← fs_files s !! name; fs_data s !! i.

(** ** The state *)

(** [of_log] is everything the descriptors have accepted from the writer, in
    order; the code does not keep it. *)
(* src: include/hogl/output-file.hpp 126-147 output_file *)
Record ofile := mkOfile {
  of_names : out_name; of_fs : fs; of_fd : Z; of_size : Z; of_max_size : Z; of_pending : bool; of_log : bytes }.

Definition with_names (f : ofile) (n : out_name) (pending : bool) : ofile :=
  mkOfile n (of_fs f) (of_fd f) (of_size f) (of_max_size f) pending (of_log f).
Definition with_fs (f : ofile) (s : fs) : ofile :=
  mkOfile (of_names f) s (of_fd f) (of_size f) (of_max_size f) (of_pending f) (of_log f).
Definition with_fd (f : ofile) (fd size : Z) : ofile :=
  mkOfile (of_names f) (of_fs f) fd size (of_max_size f) (of_pending f) (of_log f).

(** The symbolic link is made beside the old one and renamed; [ok] tells
    whether it could be made. *)
(* src: src/output-file.cc 128-139 output_file::update_link *)
Definition update_link (ok : bool) (n : out_name) (s : fs) : fs :=
  if ok then mkFs (fs_files s) (fs_data s) (<[on_symlink n := on_name n]> (fs_links s)) (fs_fresh s) else s.

(** ** Writing *)

(** What a write takes of its data. *)
Definition accepted (r : outcome) (iov : bytes) : bytes :=
  match r with WriteError _ => [] | Wrote n => take (Z.to_nat n) iov | WroteAll => iov end.

(** [lock] tells whether [trylock] got the rotation mutex. *)
(* src: src/output-file.cc 307-332 output_file::writev *)
Definition of_writev (f : ofile) (lock : bool) (r : outcome) (iov : bytes) : ofile * bool :=
  match r with
  | WriteError _ => (f, false)
  | _ =>
      let b := accepted r iov in
      let n := Z.of_nat (length b) in
      if 0 <? n then
        let size := of_size f +u64 n in
        let pending := of_pending f || ((of_max_size f <=? size) && lock) in
        (mkOfile (of_names f) (append (of_fs f) (of_fd f) b) (of_fd f) size (of_max_size f) pending (of_log f ++ b), true)
      else (f, true)
  end.

(** The output buffer of a file; a buffer that failed before is not told apart. *)
(* src: src/output-file.cc 58-84 ostrbuf_file::do_flush *)
Definition file_flush (o : ostrbuf) (u : ofile * list (bool * outcome)) (data : bytes) : ostrbuf * (ofile * list (bool * outcome)) :=
  let iov := ob_data o ++ data in
  if (ob_size o =? 0) && (Z.of_nat (length data) =? 0) then (ob_reset o, u)
  else
    let '(lock, r) := default (false, WroteAll) (head u.2) in
    let '(f, ok) := of_writev u.1 lock r iov in
    let msg := match r with WriteError msg => msg | _ => ""%string end in
    (ob_reset (if (ok : bool) then o else failure o msg), (f, tail u.2)).

(** ** Rotation *)

Section Rotation.
(** What the format writes at the begin and at the end of a file. *)
Variables header footer : bytes -> list bytes.
Variable malloc : Z -> bool.

(** What happens during one rotation: the outcomes of its calls, and the writes
    the writer makes before the descriptors are swapped and after that, with
    their outcomes. *)
Record rotation := mkRotation {
  ro_open : bool; ro_header : list outcome; ro_before : list (outcome * bytes);
  ro_after : list (outcome * bytes); ro_link : bool; ro_footer : list outcome }.

(** The rotation mutex is taken meanwhile. *)
Definition busy_write (f : ofile) (w : outcome * bytes) : ofile := fst (of_writev f false w.1 w.2).

(** Text written through a buffer of its own: whether it failed, and what
    reached the file. *)
Definition direct (pieces : list bytes) (next : list outcome) : bool * bytes :=
  let '(o, u) := ob_flush (fold_left push_back pieces (ostrbuf_new malloc 128, mkFd 0 [] next)) [] in
  (stream_failed o u, fd_out u).

(** The name advances even when the new file cannot be opened. *)
(* src: src/output-file.cc 342-392 output_file::do_rotate *)
Definition do_rotate (f : ofile) (ro : rotation) : ofile :=
  let ofd := of_fd f in
  let n := advance_name (of_names f) in
  let f := with_names f n (of_pending f) in
  if negb (ro_open ro) then f
  else
    let '(s, nfd) := open_trunc (of_fs f) (on_name n) in
    let '(failed, head) := direct (header (on_name n)) (ro_header ro) in
    let f := fold_left busy_write (ro_before ro) (with_fs f (append s nfd head)) in
    if (failed : bool) then f
    else
      let f := fold_left busy_write (ro_after ro) (with_fd f nfd 0) in
      let s := update_link (ro_link ro) n (of_fs f) in
      let '(_, foot) := direct (footer (on_name n)) (ro_footer ro) in
      with_fs f (append s ofd foot).

(** One turn of the helper thread. *)
(* src: src/output-file.cc 417-437 output_file::thread_loop *)
Definition rotate_turn (f : ofile) (ro : rotation) : ofile :=
  if of_pending f then
    let f := do_rotate f ro in with_names f (of_names f) false
  else f.

(* src: src/output-file.cc 439-457 output_file::switch_name *)
Definition switch_name (f : ofile) (filename : bytes) : option ofile :=
  n ← init_name (on_max (of_names f)) (fun l => fs_links (of_fs f) !! l) filename;
  Some (with_names f n true).

(** A new log, before its header is appended to its buffer. *)
(* src: src/output-file.cc 246-279 output_file::output_file *)
Definition output_file_new (s : fs) (max_size max_count : Z) (filename : bytes) (link : bool) : option ofile :=
  n ← init_name max_count (fun l => fs_links s !! l) filename;
  let '(s, fd) := open_trunc s (on_name n) in
  Some (mkOfile n (update_link link n s) fd 0 max_size false []).

(** What the writer and the helper thread do, in the order in which they get
    the mutexes. *)
Inductive file_op := WriteOp (lock : bool) (r : outcome) (iov : bytes) | RotateOp (ro : rotation).

Definition file_step (f : ofile) (op : file_op) : ofile :=
  match op with WriteOp lock r iov => fst (of_writev f lock r iov) | RotateOp ro => rotate_turn f ro end.
End Rotation.

(** ** The buffer of a file is a stream *)

#[export] Program Instance file_stream : Stream (ofile * list (bool * outcome)) := {
  do_flush := file_flush; stream_failed o u := ob_failed o;
  written u := of_log u.1; good u := Forall (fun r => r.2 = WroteAll) u.2 }.
Next Obligation.
  intros o [f next] data Nf G [C S]; unfold file_flush; cbn [fst snd] in *.
  assert (Ok' : ostrbuf_ok (ob_reset o)) by (split; [exact C|]; unfold ob_size; cbn; unfold is_u32 in C; lia).
  destruct ((ob_size o =? 0) && (Z.of_nat (length data) =? 0)) eqn:E.
  - apply andb_true_iff in E as [E1 E2]; apply Z.eqb_eq in E1, E2; unfold ob_size in E1.
    assert (ob_data o = []) as -> by (destruct (ob_data o); [done|cbn in E1; lia]).
    assert (data = []) as -> by (destruct data; [done|cbn in E2; lia]); cbn; now rewrite app_nil_r.
  - assert (Hr : exists lock, default (false, WroteAll) (head next) = (lock, WroteAll)).
    { destruct G as [|[l r] next E' _]; [now exists false|cbn in *; subst r; now exists l]. }
    destruct Hr as [lock ->]; unfold of_writev; cbn zeta; cbn [accepted].
    assert (Gt : Forall (fun r : bool * outcome => r.2 = WroteAll) (tail next)) by (destruct G; done).
    destruct (Z.ltb_spec 0 (Z.of_nat (length (ob_data o ++ data)))) as [L|L]; [done|].
    assert (Nil : ob_data o ++ data = []) by (destruct (ob_data o ++ data); [done|cbn in L; lia]).
    cbn [of_log fst snd]; rewrite Nil, app_nil_r; done.
Qed.
Next Obligation. done. Qed.

(** ** What is on disk *)

(** A file of the log: its name, what the format wrote at its begin and its end,
    and what the writer wrote. *)
Record chunk := mkChunk { c_name : bytes; c_head : bytes; c_data : bytes; c_foot : bytes }.

Definition c_content (c : chunk) : bytes := c_head c ++ c_data c ++ c_foot c.

Record fs_ok (s : fs) : Prop := {
  fk_inj : forall n m i, fs_files s !! n = Some i -> fs_files s !! m = Some i -> n = m;
  fk_fresh : forall n i, fs_files s !! n = Some i -> i < fs_fresh s }.

Lemma append_ok s i b : fs_ok s -> fs_ok (append s i b).
Proof. intros [I F]; split; done. Qed.

Lemma content_append s n i b : fs_ok s -> fs_files s !! n = Some i -> is_Some (fs_data s !! i) -> forall m,
  content (append s i b) m = if decide (m = n) then option_map (fun d => d ++ b) (content s n) else content s m.
Proof.
  intros [I _] Hn [d Hd] m; unfold content, append; cbn [fs_files fs_data]; case_decide as E.
  - subst m; rewrite Hn; cbn [mbind option_bind]; now rewrite lookup_insert_eq, Hd.
  - destruct (fs_files s !! m) as [j|] eqn:Hm; [|done]; cbn [mbind option_bind]; apply lookup_insert_ne.
    intros <-; apply E, (I m n i Hm Hn).
Qed.

Lemma open_trunc_ok s name : fs_ok s -> let '(s', fd) := open_trunc s name in
  fs_ok s' /\ fs_files s' !! name = Some fd /\ fs_data s' !! fd = Some [] /\ fs_links s' = fs_links s /\
  (forall m, m <> name -> fs_files s' !! m = fs_files s !! m /\ content s' m = content s m).
Proof.
  intros [I F]; unfold open_trunc; destruct (fs_files s !! name) as [i|] eqn:E; cbn [fs_files fs_data fs_links].
  - split; [split; done|]; split; [done|]; split; [apply lookup_insert_eq|]; split; [done|]; intros m N; split; [done|].
    unfold content; cbn [fs_files fs_data]; destruct (fs_files s !! m) as [j|] eqn:Em; [|done]; cbn [mbind option_bind].
    apply lookup_insert_ne; intros <-; apply N, (I m name i Em E).
  - split; [|split; [apply lookup_insert_eq|split; [apply lookup_insert_eq|split; [done|]]]].
    + split; cbn [fs_files fs_fresh].
      * intros n m i Hn Hm; destruct (decide (n = name)) as [->|Nn], (decide (m = name)) as [->|Nm]; [done| | |];
          rewrite ?lookup_insert_eq, ?lookup_insert_ne in Hn by done; rewrite ?lookup_insert_eq, ?lookup_insert_ne in Hm by done.
        -- injection Hn as <-; pose proof (F m _ Hm); lia.
        -- injection Hm as <-; pose proof (F n _ Hn); lia.
        -- apply (I n m i Hn Hm).
      * intros n i Hn; rewrite lookup_insert in Hn; case_decide; [injection Hn as <-; lia|]; pose proof (F n i Hn); lia.
    + intros m N; rewrite lookup_insert_ne by done; split; [done|].
      unfold content; cbn [fs_files fs_data]; rewrite lookup_insert_ne by done; destruct (fs_files s !! m) as [j|] eqn:Em; [|done].
      cbn [mbind option_bind]; apply lookup_insert_ne; pose proof (F m j Em); lia.
Qed.

(** The current file and the ones before it, the newest first: each has the
    number before the next one's, and the files that did not have to make
    room for newer ones hold what was written; the ones before are full. *)
Record log_state (f : ofile) (c0 : chunk) (cs : list chunk) : Prop := {
  ls_names : name_wf (of_names f); ls_max : 2 <= on_max (of_names f);
  ls_index : 0 <= on_index (of_names f) < on_max (of_names f);
  ls_name : on_name (of_names f) = c_name c0;
  ls_chunks : forall k c, (c0 :: cs) !! k = Some c ->
    c_name c = numbered (of_names f) ((on_index (of_names f) - Z.of_nat k) mod on_max (of_names f));
  ls_fs : fs_ok (of_fs f);
  ls_fd : fs_files (of_fs f) !! c_name c0 = Some (of_fd f);
  ls_link : fs_links (of_fs f) !! on_symlink (of_names f) = Some (c_name c0);
  ls_foot : c_foot c0 = [];
  ls_intact : forall k c, Z.of_nat k < on_max (of_names f) -> (c0 :: cs) !! k = Some c ->
    content (of_fs f) (c_name c) = Some (c_content c);
  ls_size : 0 <= of_size f <= Z.of_nat (length (c_data c0));
  ls_full : of_pending f = true -> of_max_size f <= Z.of_nat (length (c_data c0));
  ls_filled : Forall (fun c => of_max_size f <= Z.of_nat (length (c_data c))) cs;
  ls_log : of_log f = concat (rev (map c_data (c0 :: cs))) }.

Lemma numbers_apart n i k : name_wf n -> 0 < k < on_max n ->
  numbered n ((i - k) mod on_max n) <> numbered n (i mod on_max n).
Proof.
  intros W Hk E; apply (numbered_inj _ _ _ W) in E; [|apply Z.mod_pos_bound; lia|apply Z.mod_pos_bound; lia].
  pose proof (mod_add_inj (i - k) 0 k (on_max n)) as M; rewrite Z.add_0_r in M.
  replace (i - k + k) with i in M by lia; specialize (M ltac:(lia) ltac:(lia) E); lia.
Qed.

Lemma other_name f c0 cs k c : log_state f c0 cs -> (0 < k)%nat -> Z.of_nat k < on_max (of_names f) ->
  (c0 :: cs) !! k = Some c -> c_name c <> c_name c0.
Proof.
  intros L Hk Hm Hc; rewrite (ls_chunks _ _ _ L k c Hc), (ls_chunks _ _ _ L 0%nat c0 eq_refl), Z.sub_0_r.
  apply numbers_apart; [apply L|lia].
Qed.

Lemma current_data f c0 cs : log_state f c0 cs -> fs_data (of_fs f) !! of_fd f = Some (c_head c0 ++ c_data c0).
Proof.
  intros L; pose proof (ls_intact _ _ _ L 0%nat c0 ltac:(pose proof (ls_max _ _ _ L); lia) eq_refl) as C; unfold content in C.
  rewrite (ls_fd _ _ _ L) in C; cbn [mbind option_bind] in C; unfold c_content in C; now rewrite (ls_foot _ _ _ L), app_nil_r in C.
Qed.

(** ** What writes do *)

Lemma add_u64_le a b : 0 <= a -> 0 <= b -> 0 <= a +u64 b <= a + b.
Proof. intros Ha Hb; words; split; [apply Z.mod_pos_bound; lia|apply Z.mod_le; lia]. Qed.

(** From [f] to [f'] the bytes [b] were appended to the current file, which is
    [name], and to the log. *)
Record wrote (name b : bytes) (f f' : ofile) : Prop := {
  wr_names : of_names f' = of_names f; wr_fd : of_fd f' = of_fd f;
  wr_files : fs_files (of_fs f') = fs_files (of_fs f); wr_links : fs_links (of_fs f') = fs_links (of_fs f);
  wr_ok : fs_ok (of_fs f');
  wr_content : forall d, content (of_fs f) name = Some d -> content (of_fs f') name = Some (d ++ b);
  wr_others : forall m, m <> name -> content (of_fs f') m = content (of_fs f) m;
  wr_log : of_log f' = of_log f ++ b;
  wr_max : of_max_size f' = of_max_size f;
  wr_size : 0 <= of_size f -> 0 <= of_size f' <= of_size f + Z.of_nat (length b);
  wr_full : 0 <= of_size f -> of_pending f' = true ->
    of_pending f = true \/ of_max_size f <= of_size f + Z.of_nat (length b) }.

Lemma content_append_ok s n i b d : fs_ok s -> fs_files s !! n = Some i -> content s n = Some d ->
  content (append s i b) n = Some (d ++ b) /\ forall m, m <> n -> content (append s i b) m = content s m.
Proof.
  intros Ok Hn Hd; assert (Hi : fs_data s !! i = Some d) by (unfold content in Hd; rewrite Hn in Hd; exact Hd).
  split; [|intros m N]; rewrite (content_append s n i b Ok Hn) by now exists d.
  - rewrite decide_True by done; now rewrite Hd.
  - now rewrite decide_False.
Qed.

Lemma wrote_refl name f : fs_ok (of_fs f) -> wrote name [] f f.
Proof. intros Ok; split; try done; [intros; now rewrite app_nil_r|now rewrite app_nil_r|cbn; lia|auto]. Qed.

Lemma wrote_trans name b1 b2 f1 f2 f3 : wrote name b1 f1 f2 -> wrote name b2 f2 f3 -> wrote name (b1 ++ b2) f1 f3.
Proof.
  intros [N1 F1 S1 L1 K1 C1 O1 G1 M1 Z1 P1] [N2 F2 S2 L2 K2 C2 O2 G2 M2 Z2 P2].
  split; try congruence; [|intros m N| |rewrite length_app; intros H..].
  - intros d H; rewrite app_assoc; now apply C2, C1.
  - now rewrite O2, O1.
  - now rewrite G2, G1, app_assoc.
  - specialize (Z1 H); specialize (Z2 ltac:(lia)); lia.
  - intros Pd; specialize (Z1 H); destruct (P2 ltac:(lia) Pd) as [Pd'|]; [destruct (P1 H Pd'); [now left|right; lia]|right; lia].
Qed.

Lemma of_writev_wrote name f lock r iov : fs_ok (of_fs f) -> fs_files (of_fs f) !! name = Some (of_fd f) ->
  is_Some (content (of_fs f) name) -> wrote name (accepted r iov) f (fst (of_writev f lock r iov)).
Proof.
  intros Ok Hn [d Hd]; unfold of_writev.
  assert (W : wrote name (accepted r iov) f (fst (let b := accepted r iov in let n := Z.of_nat (length b) in
    if 0 <? n then
      (mkOfile (of_names f) (append (of_fs f) (of_fd f) b) (of_fd f) (of_size f +u64 n) (of_max_size f)
        (of_pending f || ((of_max_size f <=? of_size f +u64 n) && lock)) (of_log f ++ b), true)
    else (f, true)))).
  { cbn zeta; set (b := accepted r iov); destruct (Z.ltb_spec 0 (Z.of_nat (length b))) as [L|L]; cbn [fst].
    - destruct (content_append_ok _ name _ b d Ok Hn Hd) as [C O]; split; cbn; try done; [now apply append_ok|..].
      + intros d' H; rewrite Hd in H; now injection H as <-.
      + intros H; apply add_u64_le; lia.
      + intros H Pd; apply orb_true_iff in Pd as [Pd|Pd]; [now left|]; apply andb_true_iff in Pd as [Pd _]; right.
        apply Z.leb_le in Pd; pose proof (add_u64_le (of_size f) (Z.of_nat (length b)) H ltac:(lia)); lia.
    - destruct b; [now apply wrote_refl|cbn in L; lia]. }
  destruct r; [exact W|exact W|cbn [fst accepted]; now apply wrote_refl].
Qed.

Lemma wrote_current name b f f' : fs_files (of_fs f) !! name = Some (of_fd f) -> is_Some (content (of_fs f) name) ->
  wrote name b f f' -> fs_ok (of_fs f') /\ fs_files (of_fs f') !! name = Some (of_fd f') /\ is_Some (content (of_fs f') name).
Proof. intros Hn [d Hd] W; destruct W as [N F S L K C O G M Z P]; rewrite S, F; do 2 (split; [done|]); exists (d ++ b); now apply C. Qed.

Lemma busy_writes_wrote name ws : forall f, fs_ok (of_fs f) -> fs_files (of_fs f) !! name = Some (of_fd f) ->
  is_Some (content (of_fs f) name) ->
  wrote name (concat (map (fun w => accepted w.1 w.2) ws)) f (fold_left busy_write ws f).
Proof.
  induction ws as [|w ws IH]; intros f Ok Hn Hd; cbn [map concat fold_left]; [now apply wrote_refl|].
  pose proof (of_writev_wrote name f false w.1 w.2 Ok Hn Hd) as W.
  destruct (wrote_current name _ _ _ Hn Hd W) as (Ok' & Hn' & Hd'); apply (wrote_trans name _ _ _ _ _ W), IH; done.
Qed.

(** ** A write and a rotation *)

Lemma direct_good malloc pieces next : malloc 128 = true -> writes_all next -> direct malloc pieces next = (false, concat pieces).
Proof.
  intros M G; unfold direct, ostrbuf_new; rewrite M; cbn [Z.eqb].
  set (ou := (mkOstrbuf [] (u32 128) false "", mkFd 0 [] next)).
  assert (R : ready ou) by (split; [split; vm_compute; intuition discriminate|split; [done|exact G]]).
  destruct (fold_push_back ou pieces R) as [R' T]; destruct (flush_ok _ [] R') as ((_ & Nf & _) & W & _).
  destruct (ob_flush _ _) as [o u]; cbn [fst snd] in *; cbn [written stream_failed fd_stream] in *; rewrite Nf, W, T; cbn.
  now rewrite app_nil_r.
Qed.

Lemma advance_ok n : name_wf n -> 0 <= on_index n < on_max n ->
  name_wf (advance_name n) /\ on_max (advance_name n) = on_max n /\ on_symlink (advance_name n) = on_symlink n /\
  on_index (advance_name n) = (on_index n + 1) mod on_max n /\
  on_name (advance_name n) = numbered n (on_index (advance_name n)) /\
  (forall i, numbered (advance_name n) i = numbered n i).
Proof.
  intros W Hi; pose proof (index_u64 n _ W Hi) as (_ & _ & H9); destruct W as [W M S L Z0].
  split; [split; done|]; do 2 (split; [done|]); split; [|done]; cbn [advance_name update_name on_index].
  rewrite u32_small by (words; lia); destruct (Z.leb_spec (on_max n) (on_index n + 1)) as [G|G].
  - replace (on_index n + 1) with (on_max n) by lia; symmetry; apply Z_mod_same_full.
  - symmetry; apply Z.mod_small; lia.
Qed.

Definition extend (c : chunk) (b foot : bytes) : chunk := mkChunk (c_name c) (c_head c) (c_data c ++ b) foot.

Lemma write_log_state f c0 cs lock r iov : log_state f c0 cs ->
  log_state (fst (of_writev f lock r iov)) (extend c0 (accepted r iov) []) cs.
Proof.
  intros L; pose proof (ls_fd _ _ _ L) as Fd; pose proof (ls_intact _ _ _ L 0%nat c0 ltac:(pose proof (ls_max _ _ _ L); lia) eq_refl) as C0.
  pose proof (of_writev_wrote _ f lock r iov (ls_fs _ _ _ L) Fd ltac:(now exists (c_content c0))) as [N F S Lk K C O G M Z0 P].
  pose proof (ls_size _ _ _ L) as Sz; split; rewrite ?N, ?S, ?F, ?Lk, ?M; try apply L; [|exact K|done|..].
  - intros [|k] c Hc; [injection Hc as <-; apply (ls_chunks _ _ _ L 0%nat c0 eq_refl)|apply (ls_chunks _ _ _ L (Datatypes.S k) c Hc)].
  - intros [|k] c Hk Hc.
    + injection Hc as <-; cbn [extend c_name]; rewrite (C _ C0); unfold c_content; cbn [extend c_head c_data c_foot].
      now rewrite (ls_foot _ _ _ L), !app_nil_r, app_assoc.
    + rewrite O; [apply (ls_intact _ _ _ L (Datatypes.S k) c Hk Hc)|apply (other_name _ _ _ (Datatypes.S k) c L); [lia|done|done]].
  - cbn [extend c_data]; rewrite length_app; specialize (Z0 ltac:(lia)); lia.
  - cbn [extend c_data]; rewrite length_app; intros Pd; destruct (P ltac:(lia) Pd) as [Pd'|]; [apply (ls_full _ _ _ L) in Pd'|]; lia.
  - rewrite G, (ls_log _ _ _ L); cbn [map rev]; rewrite !concat_app; cbn [concat extend c_data]; now rewrite !app_nil_r, app_assoc.
Qed.

Definition writes_bytes (ws : list (outcome * bytes)) : bytes := concat (map (fun w => accepted w.1 w.2) ws).

Definition rotates_well (malloc : Z -> bool) (ro : rotation) : Prop :=
  malloc 128 = true /\ ro_open ro = true /\ writes_all (ro_header ro) /\ ro_link ro = true.

Section Rotate.
Variables header footer : bytes -> list bytes.
Variable malloc : Z -> bool.
Abbreviation do_rotate := (do_rotate header footer malloc).

(** The new file, and the old one with what was still written to it. *)
Definition new_chunk (name : bytes) (ro : rotation) : chunk := mkChunk name (concat (header name)) (writes_bytes (ro_after ro)) [].
Definition old_chunk (c : chunk) (name : bytes) (ro : rotation) : chunk :=
  extend c (writes_bytes (ro_before ro)) (direct malloc (footer name) (ro_footer ro)).2.

(** What a rotation does to the files, given that the new name is not the
    current one. *)
Lemma do_rotate_effect f ro c0 name : on_name (advance_name (of_names f)) = name -> rotates_well malloc ro ->
  fs_ok (of_fs f) -> fs_files (of_fs f) !! c_name c0 = Some (of_fd f) ->
  content (of_fs f) (c_name c0) = Some (c_content c0) -> c_foot c0 = [] -> name <> c_name c0 ->
  let f' := do_rotate f ro in
  of_names f' = advance_name (of_names f) /\ fs_ok (of_fs f') /\ fs_files (of_fs f') !! name = Some (of_fd f') /\
  fs_links (of_fs f') !! on_symlink (of_names f') = Some name /\
  content (of_fs f') name = Some (c_content (new_chunk name ro)) /\
  content (of_fs f') (c_name c0) = Some (c_content (old_chunk c0 name ro)) /\
  (forall m, m <> name -> m <> c_name c0 -> content (of_fs f') m = content (of_fs f) m) /\
  of_log f' = of_log f ++ writes_bytes (ro_before ro) ++ writes_bytes (ro_after ro) /\
  of_max_size f' = of_max_size f /\ 0 <= of_size f' <= Z.of_nat (length (writes_bytes (ro_after ro))).
Proof.
  intros En (M & Op & Hh & Lk) Ok Fd C0 Ft Nn; unfold do_rotate; rewrite Op; cbn [negb].
  pose proof (open_trunc_ok (of_fs f) name Ok) as T; cbn [with_names of_fs of_names]; rewrite En.
  destruct (open_trunc (of_fs f) name) as [s nfd]; destruct T as (K1 & F1 & D1 & L1 & O1).
  rewrite (direct_good malloc _ _ M Hh); cbn iota.
  destruct (O1 (c_name c0) ltac:(congruence)) as [F1o C1o].
  assert (Cn : content s name = Some []) by (unfold content; rewrite F1; exact D1).
  destruct (content_append_ok s name nfd (concat (header name)) [] K1 F1 Cn) as [C2 O2]; cbn [app] in C2.
  set (f2 := with_fs _ _).
  assert (Hc2 : content (of_fs f2) (c_name c0) = Some (c_content c0)) by (cbn; rewrite O2 by congruence; now rewrite C1o).
  pose proof (busy_writes_wrote (c_name c0) (ro_before ro) f2 (append_ok _ _ _ K1)
    (eq_trans F1o Fd) (mk_is_Some _ _ Hc2)) as [N3 E3 S3 L3 K3 C3 O3 G3 M3 Z3 _].
  set (f3 := fold_left busy_write (ro_before ro) f2) in *.
  assert (Hn3 : content (of_fs f3) name = Some (concat (header name))) by (rewrite O3 by done; exact C2).
  pose proof (busy_writes_wrote name (ro_after ro) (with_fd f3 nfd 0) K3
    ltac:(cbn [with_fd of_fs of_fd]; rewrite S3; exact F1) (mk_is_Some _ _ Hn3)) as [N4 E4 S4 L4 K4 C4 O4 G4 M4 Z4 _].
  set (f4 := fold_left busy_write (ro_after ro) (with_fd f3 nfd 0)) in *; cbn [with_fd of_fs of_names of_log of_fd] in *.
  specialize (C3 _ Hc2); specialize (C4 _ Hn3); rewrite Lk; cbn [update_link].
  destruct (direct malloc (footer name) (ro_footer ro)) as [fl foot] eqn:Ef; cbn [with_fs of_names of_fs of_fd of_log fs_files append fs_links].
  set (s4 := mkFs _ _ _ _).
  assert (K4' : fs_ok s4) by (destruct K4; split; done).
  assert (Ho4 : content s4 (c_name c0) = Some (c_content c0 ++ writes_bytes (ro_before ro))).
  { transitivity (content (of_fs f4) (c_name c0)); [done|]; rewrite O4 by congruence; exact C3. }
  assert (Fo4 : fs_files s4 !! c_name c0 = Some (of_fd f)).
  { cbn [s4 fs_files]; rewrite S4, S3; cbn; now rewrite F1o. }
  destruct (content_append_ok s4 (c_name c0) (of_fd f) foot _ K4' Fo4 Ho4) as [C5 O5].
  split; [now rewrite N4, N3|]; split; [now apply append_ok|]; split; [rewrite S4, S3, E4; exact F1|].
  split; [cbn [fs_links s4]; rewrite N4, N3, <- En; apply lookup_insert_eq|].
  split; [|split; [|split; [|split; [|split; [exact (eq_trans M4 M3)|exact (Z4 ltac:(done))]]]]].
  - rewrite O5 by done; transitivity (content (of_fs f4) name); [done|]; rewrite C4; unfold c_content; cbn; now rewrite app_nil_r.
  - rewrite C5; unfold c_content, old_chunk; rewrite Ef; cbn; rewrite Ft; cbn; now rewrite app_nil_r, <- !app_assoc.
  - intros m N1 N2; rewrite O5 by done; transitivity (content (of_fs f4) m); [done|]; rewrite O4, O3 by done; cbn.
    rewrite O2 by done; now apply O1.
  - rewrite G4, G3; cbn; now rewrite <- app_assoc.
Qed.

Lemma rotate_log_state f c0 cs ro name : on_name (advance_name (of_names f)) = name -> rotates_well malloc ro ->
  log_state f c0 cs -> of_pending f = true ->
  log_state (rotate_turn header footer malloc f ro) (new_chunk name ro) (old_chunk c0 name ro :: cs) /\
  of_names (rotate_turn header footer malloc f ro) = advance_name (of_names f) /\
  of_max_size (rotate_turn header footer malloc f ro) = of_max_size f.
Proof.
  intros En H L Pd; unfold rotate_turn; rewrite Pd; pose proof (ls_names _ _ _ L) as W; pose proof (ls_index _ _ _ L) as Hi.
  pose proof (ls_max _ _ _ L) as Hm; destruct (advance_ok _ W Hi) as (W' & M' & Y' & I' & N' & B').
  rewrite En in N'; set (n := of_names f) in *.
  assert (Apart : forall k c, Z.of_nat k + 1 < on_max n -> (c0 :: cs) !! k = Some c -> c_name c <> name).
  { intros k c Hk Hc; rewrite (ls_chunks _ _ _ L k c Hc), N', I'; fold n.
    replace (on_index n - Z.of_nat k) with (on_index n + 1 - (Z.of_nat k + 1)) by lia; apply numbers_apart; [done|lia]. }
  pose proof (do_rotate_effect f ro c0 name En H (ls_fs _ _ _ L) (ls_fd _ _ _ L)
    (ls_intact _ _ _ L 0%nat c0 ltac:(fold n; lia) eq_refl) (ls_foot _ _ _ L)
    (not_eq_sym (Apart 0%nat c0 ltac:(lia) eq_refl))) as (Nm & K & Fd & Lk & Cn & Co & Ot & G & M & Sz); fold n in Nm, Lk.
  set (f' := do_rotate f ro) in *; clearbody f'; split; [|now split]; split; cbn [with_names of_names of_fs of_fd of_size of_max_size of_pending of_log];
    rewrite ?Nm, ?M, ?M', ?I', ?En; try done; [apply Z.mod_pos_bound; lia|..].
  - intros [|k] c Hc; rewrite B'.
    + injection Hc as <-; cbn [new_chunk c_name]; rewrite Z.sub_0_r, Z.mod_mod, <- I' by lia; exact N'.
    + assert (Hk : exists c', (c0 :: cs) !! k = Some c' /\ c_name c = c_name c').
      { destruct k as [|k]; [injection Hc as <-; now exists c0|now exists c]. }
      destruct Hk as (c' & Hc' & ->); rewrite (ls_chunks _ _ _ L k c' Hc'); fold n; f_equal.
      rewrite Zminus_mod_idemp_l; f_equal; lia.
  - now rewrite <- Nm.
  - intros [|[|k]] c Hk Hc; [injection Hc as <-; exact Cn|injection Hc as <-; exact Co|].
    rewrite Ot; [apply (ls_intact _ _ _ L (Datatypes.S k) c); [fold n; lia|exact Hc]|apply (Apart (Datatypes.S k)); [lia|exact Hc]|].
    apply (other_name _ _ _ (Datatypes.S k) c L); [lia|fold n; lia|exact Hc].
  - constructor; [|apply (ls_filled _ _ _ L)]; cbn; rewrite length_app; apply (ls_full _ _ _ L) in Pd; lia.
  - rewrite G, (ls_log _ _ _ L); cbn [map rev]; rewrite !concat_app; cbn; now rewrite !app_nil_r, <- !app_assoc.
Qed.
End Rotate.

(** ** The log over its life *)

Lemma new_log_state s max_size max_count filename f : fs_ok s -> good_filename max_count filename -> 2 <= max_count ->
  output_file_new s max_size max_count filename true = Some f ->
  log_state f (mkChunk (on_name (of_names f)) [] [] []) [] /\ on_max (of_names f) = max_count /\ of_max_size f = max_size.
Proof.
  intros Ok Gf Hm; unfold output_file_new; destruct (init_name _ _ _) as [n|] eqn:E; [|done]; cbn [mbind option_bind].
  destruct (init_name_wf _ _ _ _ Gf E) as (W & M & Nm & Ix & _); pose proof (open_trunc_ok s (on_name n) Ok) as T.
  destruct (open_trunc s (on_name n)) as [s1 fd]; destruct T as (K & F & D & _); intros [= <-]; split; [|done].
  assert (Ri : 0 <= on_index n < on_max n) by (rewrite Ix; apply read_link_range; lia).
  split; cbn -[on_name update_link]; try done; [lia|..].
  - intros [|k] c Hc; [|done]; injection Hc as <-; cbn [c_name]; rewrite Z.sub_0_r, Z.mod_small by lia; exact Nm.
  - destruct K; split; done.
  - apply lookup_insert_eq.
  - intros [|k] c _ Hc; [|done]; injection Hc as <-; unfold content; cbn; rewrite F; exact D.
Qed.

Section Life.
Variables header footer : bytes -> list bytes.
Variable malloc : Z -> bool.

(** Rotations succeed; writes may have any outcome. *)
Definition healthy (op : file_op) : Prop :=
  match op with WriteOp _ _ _ => True | RotateOp ro => rotates_well malloc ro /\ writes_all (ro_footer ro) end.

(** What the format writes between a file and the one after it. *)
Definition framed (cs : list chunk) : Prop := forall k c c', cs !! k = Some c -> cs !! S k = Some c' ->
  c_head c = concat (header (c_name c)) /\ c_foot c' = concat (footer (c_name c)).

Lemma file_step_ok f c0 cs op : healthy op -> log_state f c0 cs -> framed (c0 :: cs) ->
  exists c0' cs', log_state (file_step header footer malloc f op) c0' cs' /\ framed (c0' :: cs') /\
    on_max (of_names (file_step header footer malloc f op)) = on_max (of_names f) /\
    of_max_size (file_step header footer malloc f op) = of_max_size f.
Proof.
  intros H L Fr; destruct op as [lock r iov|ro]; cbn [file_step].
  - exists (extend c0 (accepted r iov) []), cs; split; [now apply write_log_state|].
    pose proof (of_writev_wrote _ f lock r iov (ls_fs _ _ _ L) (ls_fd _ _ _ L)
      (mk_is_Some _ _ (ls_intact _ _ _ L 0%nat c0 ltac:(pose proof (ls_max _ _ _ L); lia) eq_refl))) as Wr.
    rewrite (wr_names _ _ _ _ Wr), (wr_max _ _ _ _ Wr); split; [|done].
    intros [|k] c c' Hc Hc'; [injection Hc as <-; apply (Fr 0%nat c0 c' eq_refl Hc')|apply (Fr (S k) c c' Hc Hc')].
  - destruct H as [H Hf]; destruct (of_pending f) eqn:Pd; [|exists c0, cs; unfold rotate_turn; now rewrite Pd].
    pose proof (rotate_log_state header footer malloc f c0 cs ro _ eq_refl H L Pd) as (L' & Nm & Mx).
    eexists _, _; split; [exact L'|]; rewrite Nm, Mx; split; [|done].
    intros [|[|k]] c c' Hc Hc'; [|injection Hc as <-; apply (Fr 0%nat c0 c' eq_refl Hc')|apply (Fr (S k) c c' Hc Hc')].
    injection Hc as <-; injection Hc' as <-; split; [done|]; unfold old_chunk; cbn [extend c_foot new_chunk c_name].
    now rewrite direct_good by (done || apply H).
Qed.

(** C19: A rotating log loses nothing: from a new log with room for at least two
    files, through any writes with any outcome, made at any time during the
    rotations too, and any rotations that succeed, what the descriptors accepted
    is the concatenation of what the files got, in order; the newest files, as
    many as the limit allows, hold the header, what was written to them and,
    but for the current one, the footer; each has the number before the next
    one's; the files before the current one have at least the maximal size;
    and the symbolic link points to the current one. *)
Theorem rotation_keeps_log s max_size max_count filename f ops : fs_ok s -> good_filename max_count filename ->
  2 <= max_count -> output_file_new s max_size max_count filename true = Some f -> Forall healthy ops ->
  let f' := fold_left (file_step header footer malloc) ops f in
  exists c0 cs, of_log f' = concat (rev (map c_data (c0 :: cs))) /\
    fs_links (of_fs f') !! on_symlink (of_names f') = Some (c_name c0) /\
    (forall k c, Z.of_nat k < max_count -> (c0 :: cs) !! k = Some c ->
       content (of_fs f') (c_name c) = Some (c_head c ++ c_data c ++ c_foot c)) /\
    (forall k c, (c0 :: cs) !! k = Some c ->
       c_name c = numbered (of_names f') ((on_index (of_names f') - Z.of_nat k) mod max_count)) /\
    framed (c0 :: cs) /\ c_foot c0 = [] /\
    Forall (fun c => max_size <= Z.of_nat (length (c_data c))) cs.
Proof.
  intros Ok Gf Hm E H; destruct (new_log_state _ _ _ _ _ Ok Gf Hm E) as (L & M & Z0); cbv zeta.
  assert (R : exists c0 cs, log_state (fold_left (file_step header footer malloc) ops f) c0 cs /\ framed (c0 :: cs) /\
    on_max (of_names (fold_left (file_step header footer malloc) ops f)) = max_count /\
    of_max_size (fold_left (file_step header footer malloc) ops f) = max_size).
  { assert (Fr : framed [mkChunk (on_name (of_names f)) [] [] []]) by (intros [|k] c c' Hc Hc'; done).
    revert Fr L M Z0; generalize (@nil chunk); generalize (mkChunk (on_name (of_names f)) [] [] []); clear E Ok.
    revert f; induction H as [|op ops Hop H IH]; intros f c0 cs Fr L M Z0; [now exists c0, cs|].
    destruct (file_step_ok f c0 cs op Hop L Fr) as (c1 & cs1 & L1 & F1 & M1 & Z1).
    apply (IH _ c1 cs1 F1 L1); congruence. }
  destruct R as (c0 & cs & L' & Fr & M' & Z'); exists c0, cs; destruct L' as [W Mx I N C K Fd Lk Ft In Sz Fu Fi G].
  rewrite M' in *; rewrite Z' in *; done.
Qed.

(** *** A rotation whose file cannot be opened *)

Abbreviation do_rotate := (do_rotate header footer malloc).

Lemma failed_rotations k f fail : ro_open fail = false ->
  Nat.iter k (fun f => do_rotate f fail) f = with_names f (Nat.iter k advance_name (of_names f)) (of_pending f).
Proof.
  intros H; induction k as [|k IH]; [now destruct f|]; rewrite !Nat.iter_succ, IH; unfold do_rotate; rewrite H; reflexivity.
Qed.

Lemma advances n k : name_wf n -> 0 <= on_index n < on_max n ->
  let n' := Nat.iter k advance_name n in
  name_wf n' /\ on_max n' = on_max n /\ on_index n' = (on_index n + Z.of_nat k) mod on_max n /\
  (forall i, numbered n' i = numbered n i).
Proof.
  intros W Hi; cbv zeta; induction k as [|k IH]; [|rewrite Nat.iter_succ].
  - cbn; rewrite Z.add_0_r, Z.mod_small by lia; done.
  - destruct IH as (W' & M' & I' & B'); destruct (advance_ok _ W') as (W'' & M'' & _ & I'' & _ & B'').
    { rewrite I', M'; apply Z.mod_pos_bound; lia. }
    split; [done|]; split; [congruence|]; split; [|intros i; now rewrite B''].
    rewrite I'', I', M', Zplus_mod_idemp_l; f_equal; lia.
Qed.

(** A rotation that cannot open its file does not leave the names as they
    were: each attempt takes the next number, so that with [max] files, after
    [max - 1] failures in a row, the next successful rotation opens the file
    that is in use, truncates it, and what was written to it is lost although
    the descriptor accepted it. *)
Theorem retry_truncates f c0 cs fail ro : log_state f c0 cs -> ro_open fail = false -> rotates_well malloc ro ->
  ro_before ro = [] -> ro_after ro = [] ->
  let f' := do_rotate (Nat.iter (Z.to_nat (on_max (of_names f) - 1)) (fun f => do_rotate f fail) f) ro in
  content (of_fs f') (c_name c0) =
    Some (concat (header (c_name c0)) ++ (direct malloc (footer (c_name c0)) (ro_footer ro)).2) /\
  of_log f' = of_log f.
Proof.
  intros L Hf (M & Op & Hh & Lk) B A; cbv zeta; rewrite failed_rotations by done; set (n := of_names f).
  pose proof (ls_names _ _ _ L) as W; pose proof (ls_index _ _ _ L) as Hi; pose proof (ls_max _ _ _ L) as Hm; fold n in W, Hi, Hm.
  assert (Nm : on_name (advance_name (Nat.iter (Z.to_nat (on_max n - 1)) advance_name n)) = c_name c0).
  { destruct (advances n (Z.to_nat (on_max n - 1)) W Hi) as (W1 & M1 & I1 & B1); set (n1 := Nat.iter _ _ _) in *.
    destruct (advance_ok n1 W1) as (_ & _ & _ & I2 & -> & _); [rewrite I1, M1; apply Z.mod_pos_bound; lia|].
    rewrite B1, I2, I1, M1, Zplus_mod_idemp_l, (ls_chunks _ _ _ L 0%nat c0 eq_refl); fold n; f_equal; rewrite Z.sub_0_r.
    replace (on_index n + Z.of_nat (Z.to_nat (on_max n - 1)) + 1) with (on_index n + 1 * on_max n) by lia.
    apply Z_mod_plus_full. }
  unfold do_rotate; cbn [with_names of_names of_fs of_fd]; rewrite Op, Nm; cbn [negb]; unfold open_trunc; rewrite (ls_fd _ _ _ L).
  rewrite (direct_good malloc _ _ M Hh), B, A; cbn [fold_left]; rewrite Lk.
  destruct (direct malloc (footer (c_name c0)) (ro_footer ro)) as [fl foot]; cbn; split; [|done].
  unfold content; cbn; rewrite (ls_fd _ _ _ L); cbn; rewrite !lookup_insert_eq; cbn; rewrite ?lookup_insert_eq; done.
Qed.
End Life.

(** ** Concrete logs *)

Definition no_files : fs := mkFs ∅ ∅ ∅ 3.
Definition sample_header (name : bytes) : list bytes := [str "<"; name; str ">"].
Definition sample_footer (name : bytes) : list bytes := [str "->"; name].
Definition sample_rotation (open : bool) (before after : list (outcome * bytes)) : rotation :=
  mkRotation open [] before after true [].
Definition sample_log : option ofile := output_file_new no_files 4 2 (str "log.#") true.

Definition sample_ops : list file_op := [
  WriteOp true WroteAll (str "hello");
  RotateOp (sample_rotation true [(WroteAll, str " to")] [(Wrote 2, str "you")]);
  WriteOp false (WriteError "full") (str "lost");
  WriteOp true WroteAll (str "there");
  RotateOp (sample_rotation true [] []);
  WriteOp true WroteAll (str "!")].

Lemma no_files_ok : fs_ok no_files.
Proof. split; intros n; cbn; [intros m i H|intros i H]; now rewrite lookup_empty in H. Qed.

Lemma sample_name_ok : good_filename 2 (str "log.#").
Proof. split; [lia|]; split; [vm_compute; reflexivity|]; intros c H; vm_compute in H; discriminate. Qed.

Lemma rotates_sample open before after : open = true -> rotates_well (fun _ => true) (sample_rotation open before after).
Proof. intros ->; repeat split; constructor. Qed.

Lemma rotation_keeps_log_witness :
  exists f c0 cs, sample_log = Some f /\
    (let f' := fold_left (file_step sample_header sample_footer (fun _ => true)) sample_ops f in
     of_log f' = str "hello toyothere!" /\
     of_log f' = concat (rev (map c_data (c0 :: cs))) /\
     content (of_fs f') (str "log.0") = Some (str "<log.0>!") /\
     content (of_fs f') (str "log.1") = Some (str "<log.1>yothere->log.0")).
Proof.
  destruct sample_log as [f|] eqn:E; [|vm_compute in E; discriminate]; exists f.
  destruct (rotation_keeps_log sample_header sample_footer (fun _ => true) no_files 4 2 (str "log.#") f sample_ops
    no_files_ok sample_name_ok ltac:(lia) E) as (c0 & cs & G & _).
  - repeat constructor.
  - exists c0, cs; split; [reflexivity|]; cbv zeta; vm_compute in E; injection E as <-.
    split; [vm_compute; reflexivity|]; split; [exact G|]; split; vm_compute; reflexivity.
Defined.

Lemma retry_truncates_witness :
  exists f, option_map (fun f => fst (of_writev f true WroteAll (str "hello"))) sample_log = Some f /\
    content (of_fs f) (str "log.0") = Some (str "hello") /\
    (let f' := do_rotate sample_header sample_footer (fun _ => true)
       (do_rotate sample_header sample_footer (fun _ => true) f (sample_rotation false [] [])) (sample_rotation true [] []) in
     content (of_fs f') (str "log.0") = Some (str "<log.0>->log.0") /\ of_log f' = of_log f).
Proof.
  destruct sample_log as [g|] eqn:E; [|vm_compute in E; discriminate]; eexists; split; [reflexivity|].
  destruct (new_log_state _ _ _ _ _ no_files_ok sample_name_ok ltac:(lia) E) as (L & _ & _).
  pose proof (write_log_state _ _ _ true WroteAll (str "hello") L) as L'; vm_compute in E; injection E as <-.
  split; [vm_compute; reflexivity|].
  exact (retry_truncates sample_header sample_footer (fun _ => true) _ _ _ (sample_rotation false [] []) (sample_rotation true [] [])
    L' eq_refl (rotates_sample true [] [] eq_refl) eq_refl eq_refl).
Defined.

(** After a change of the name the numbers begin with one, not with zero: the
    name is set up, and then the rotation takes the next. *)
Lemma switch_name_skips :
  (f ← sample_log; f ← switch_name f (str "new.#"); Some (on_name (of_names (rotate_turn sample_header sample_footer (fun _ => true) f (sample_rotation true [] []))))) = Some (str "new.1").
Proof. vm_compute; reflexivity. Qed.
