(* ===== verification/OutThread.v ===== *)
(** * The helper thread of a rotating file (output-file.cc)

    The rotation of OutFile is done by a thread that waits on a condition.  The
    steps of that thread, of those who ask for a rotation and of the
    destructor; the helper holds the rotation mutex where [holds] says so, the
    others from one step to the next only. *)

From S2P Require Import Prelude.

(** Where the helper is. *)
Inductive helper_pc :=
  | HStart          (* created, before the mutex is locked *)
  | HTop            (* before [pthread_cond_wait] *)
  | HWait           (* waiting *)
  | HWoken          (* awake, before the mutex is locked again *)
  | HTest           (* behind [pthread_cond_wait] *)
  | HRotate         (* in [do_rotate] *)
  | HExit           (* behind the loop *)
  | HDone.

#[export] Instance helper_pc_dec : EqDecision helper_pc.
Proof. solve_decision. Defined.

(** Where the destructor is. *)
Inductive owner_pc :=
  | ORun            (* not called yet *)
  | OKill           (* [_killed] is set *)
  | OJoin           (* the condition was signalled *)
  | OGone.          (* joined *)

(* src: include/hogl/output-file.hpp 126-147 output_file *)
Record rotor := mkRotor { rt_helper : helper_pc; rt_owner : owner_pc; rt_killed : bool; rt_pending : bool }.

Definition rotor_new : rotor := mkRotor HStart ORun false false.

Definition with_helper (s : rotor) (h : helper_pc) : rotor := mkRotor h (rt_owner s) (rt_killed s) (rt_pending s).

(** The mutex is the helper's. *)
Definition holds (s : rotor) : bool :=
  match rt_helper s with HTop | HTest | HRotate | HExit => true | HStart | HWait | HWoken | HDone => false end.

Definition signal (h : helper_pc) : helper_pc := match h with HWait => HWoken | _ => h end.

(** The next step of the helper; [None] when it waits or is done. *)
(* src: src/output-file.cc 417-437 output_file::thread_loop *)
Definition helper (s : rotor) : option rotor :=
  match rt_helper s with
  | HStart => Some (with_helper s HTop)
  | HTop => Some (with_helper s HWait)
  | HWait | HDone => None
  | HWoken => Some (with_helper s HTest)
  | HTest => Some (with_helper s (if rt_killed s then HExit else if rt_pending s then HRotate else HTop))
  | HRotate => Some (mkRotor HTop (rt_owner s) (rt_killed s) false)
  | HExit => Some (with_helper s HDone)
  end.

(** A write that fills the file. *)
(* src: src/output-file.cc 316-326 output_file::writev *)
Definition full_write (s : rotor) : rotor :=
  if rt_pending s || holds s then s else mkRotor (signal (rt_helper s)) (rt_owner s) (rt_killed s) true.

(** [None] while the mutex is taken. *)
(* src: src/output-file.cc 439-457 output_file::switch_name *)
Definition switch_name (s : rotor) : option rotor :=
  if holds s then None else Some (mkRotor (signal (rt_helper s)) (rt_owner s) (rt_killed s) true).

(** The steps of the destructor; [None] while the mutex is taken or the
    helper is not done. *)
(* src: src/output-file.cc 281-289 output_file::~output_file *)
Definition owner (s : rotor) : option rotor :=
  match rt_owner s with
  | ORun => Some (mkRotor (rt_helper s) OKill true (rt_pending s))
  | OKill => if holds s then None else Some (mkRotor (signal (rt_helper s)) OJoin (rt_killed s) (rt_pending s))
  | OJoin => if decide (rt_helper s = HDone) then Some (mkRotor HDone OGone (rt_killed s) (rt_pending s)) else None
  | OGone => None
  end.

(** Nobody writes while the output is destroyed. *)
(* src: src/output-file.cc 417-457 output_file::thread_loop, output_file::switch_name *)
Inductive step : rotor -> rotor -> Prop :=
  | step_helper s s' : helper s = Some s' -> step s s'
  | step_spurious s : rt_helper s = HWait -> step s (with_helper s HWoken)
  | step_write s : rt_owner s = ORun -> step s (full_write s)
  | step_switch s s' : rt_owner s = ORun -> switch_name s = Some s' -> step s s'
  | step_owner s s' : owner s = Some s' -> step s s'.

(** The helper has got to its wait before anybody asks for something. *)
Definition rotor_ready : rotor := mkRotor HWait ORun false false.

(** ** Nothing is lost once the helper waits *)

(** The states that are met from then on. *)
Definition attended (s : rotor) : bool :=
  let alive := match rt_owner s with ORun | OKill => true | OJoin | OGone => false end in
  eqb (rt_killed s) (match rt_owner s with ORun => false | _ => true end) &&
  match rt_helper s with
  | HStart => false
  | HTop | HWait => negb (rt_pending s) && alive
  | HRotate => alive
  | HWoken | HTest => match rt_owner s with OGone => false | _ => true end
  | HExit => rt_killed s && match rt_owner s with OGone => false | _ => true end
  | HDone => rt_killed s
  end.

Lemma attended_step s s' : attended s = true -> step s s' -> attended s' = true.
Proof.
  intros A St; destruct s as [h o k p], St as [s s' H|s H|s H|s s' H H'|s s' H]; destruct s as [h' o' k' p']; cbn in H |- *;
    destruct h', o', k', p'; try discriminate A; try discriminate H; cbn in H; try discriminate H; try discriminate H';
    try (injection H as <-); try (injection H' as <-); try reflexivity; try discriminate A.
Qed.

Lemma attended_reach s : rtc step rotor_ready s -> attended s = true.
Proof.
  intros R; enough (forall a, rtc step a s -> attended a = true -> attended s = true) as X by (now apply (X rotor_ready R)).
  clear R; induction 1 as [|a b c St _ IH]; [done|]; intros A; apply IH; now apply (attended_step a).
Qed.

(** The helper on its own, for at most [n] steps. *)
Fixpoint helper_runs (n : nat) (s : rotor) : rotor :=
  match n with O => s | S n => match helper s with Some s => helper_runs n s | None => s end end.

(** The steps other than a wake-up without a signal change nothing. *)
Definition asleep (s : rotor) : Prop :=
  rt_helper s = HWait /\ helper s = None /\ full_write s = s.

(** C21: Once the helper thread waits, nobody is forgotten: in every order of
    writes, changes of the name, wake-ups without reason and the destructor, a
    rotation that is asked for is made by the helper's next two steps at most
    unless the output is destroyed, the mutex the destructor needs is free
    after one more round of the helper, and when the destructor joins the
    helper is done after three steps.  But the output is usable before the
    helper waits: there are runs from the constructor in which the destructor
    joins a helper that only an unasked wake-up can stop, and runs after which
    a rotation is pending and no write ever starts it. *)
Theorem helper_wakeups :
  (forall s, rtc step rotor_ready s ->
     (rt_pending s = true -> rt_killed s = false -> exists n, (n <= 2)%nat /\ rt_helper (helper_runs n s) = HRotate) /\
     (rt_owner s = OKill -> exists n s', (n <= 4)%nat /\ owner (helper_runs n s) = Some s') /\
     (rt_owner s = OJoin -> rt_helper (helper_runs 3 s) = HDone /\ exists s', owner (helper_runs 3 s) = Some s')) /\
  (exists s, rtc step rotor_new s /\ rt_owner s = OJoin /\ forall s', step s s' -> s' = with_helper s HWoken) /\
  (exists s, rtc step rotor_new s /\ rt_owner s = ORun /\ rt_pending s = true /\ asleep s).
Proof.
  split; [|split].
  - intros s R; apply attended_reach in R; destruct s as [h o k p]; split; [|split]; cbn.
    + intros -> ->; destruct h, o; try discriminate R;
        first [exists 0%nat; split; [lia|reflexivity]|exists 1%nat; split; [lia|reflexivity]|exists 2%nat; split; [lia|reflexivity]].
    + intros ->; destruct h, k, p; try discriminate R; first
        [exists 0%nat; eexists; split; [lia|reflexivity]|exists 1%nat; eexists; split; [lia|reflexivity]
        |exists 2%nat; eexists; split; [lia|reflexivity]|exists 3%nat; eexists; split; [lia|reflexivity]].
    + intros ->; destruct h, k, p; try discriminate R; split; try reflexivity; eexists; reflexivity.
  - exists (mkRotor HWait OJoin true false); split; [|split; [reflexivity|]].
    + apply (rtc_l _ _ (mkRotor HStart OKill true false)); [now apply step_owner|].
      apply (rtc_l _ _ (mkRotor HStart OJoin true false)); [now apply step_owner|].
      apply (rtc_l _ _ (mkRotor HTop OJoin true false)); [now apply step_helper|]; apply rtc_once; now apply step_helper.
    + intros s' St; inversion St as [? ? H|? H|? H|? ? H H'|? ? H]; subst; try discriminate; reflexivity.
  - exists (mkRotor HWait ORun false true); split; [|repeat split].
    apply (rtc_l _ _ (mkRotor HStart ORun false true)); [now apply (step_write rotor_new)|].
    apply (rtc_l _ _ (mkRotor HTop ORun false true)); [now apply step_helper|]; apply rtc_once; now apply step_helper.
Qed.

(** A write, a change of the name behind it, and the destructor. *)
Lemma helper_wakeups_witness :
  let s := mkRotor HWoken OJoin true true in rtc step rotor_ready s /\ rt_helper (helper_runs 3 s) = HDone.
Proof.
  assert (R : rtc step rotor_ready (mkRotor HWoken OJoin true true)).
  { apply (rtc_l _ _ (mkRotor HWoken ORun false true)); [now apply (step_write rotor_ready)|].
    apply (rtc_l _ _ (mkRotor HWoken OKill true true)); [now apply step_owner|]; apply rtc_once; now apply step_owner. }
  split; [exact R|]; destruct helper_wakeups as [H _]; destruct (H _ R) as (_ & _ & J); exact (proj1 (J eq_refl)).
Defined.
