(* ===== verification/OutFileLog.v ===== *)
(** * A log in rotating files, from the events to the disk

    An output whose stream is a rotating file: the events of an engine are
    printed to it, and between two of them the helper thread may rotate. *)

From S2P Require Import Prelude Args Record Posted Ring Area Timestamp Tso Post Registry Engine.
From S2P Require Import EngineFacts EngineTrace Ntos Ostrbuf Format FormatFacts FormatArgs Raw RawFacts RawSpec RawText FormatSpec.
From S2P Require Import Output OutName OutFile.

Abbreviation file_state := (ofile * list (bool * outcome))%type.

Section FileLog.
Variable static_str : string -> Z.
Variable ts_name : Z -> Z.
Variable internal : Z.
Variable m : memory.
Variable fake : bytes.
Variable fake_addr : Z.
Variable junk_arg : arg.
Variable argval_at : record -> Z.
Context `{Rn : Renders F}.
Variables header footer : bytes -> list bytes.       (* of the files behind the first one *)
Variable malloc : Z -> bool.
Abbreviation run_event := (run_event static_str ts_name internal m fake fake_addr junk_arg argval_at).
Abbreviation log_text := (log_text static_str ts_name internal m fake fake_addr junk_arg argval_at).
Abbreviation event_prints := (event_prints static_str ts_name internal m fake fake_addr junk_arg argval_at).
Implicit Type o : out_state F file_state.

(** The constructor, [file] being the file it has opened. *)
(* src: src/output-file.cc 264-279 output_file::output_file *)
Definition output_file (file : ofile) (next : list (bool * outcome)) (f : F) (capacity : Z) : out_state F file_state :=
  out_header (mkOut f (ostrbuf_new malloc capacity, (file, next))) (on_name (of_names file)) true.

(** The destructor, behind the end of the helper thread. *)
(* src: src/output-file.cc 291-305 output_file::~output_file *)
Definition output_file_delete o : out_state F file_state := output_delete o.

Inductive log_step := Print (ev : event) | Rotate (ro : rotation).

Definition rotate_output o (ro : rotation) : out_state F file_state :=
  mkOut (o_format o) ((o_buf o).1, (rotate_turn header footer malloc (o_buf o).2.1 ro, (o_buf o).2.2)).

Fixpoint run_steps o (l : list log_step) : option (out_state F file_state) :=
  match l with
  | [] => Some o
  | Print ev :: l => o ← run_event o ev; run_steps o l
  | Rotate ro :: l => run_steps (rotate_output o ro) l
  end.

Fixpoint events (l : list log_step) : list event :=
  match l with [] => [] | Print ev :: l => ev :: events l | Rotate _ :: l => events l end.

(** A rotation that succeeds, with no write meanwhile. *)
Definition step_good (s : log_step) : Prop :=
  match s with
  | Print ev => event_prints ev
  | Rotate ro => (rotates_well malloc ro /\ writes_all (ro_footer ro)) /\ ro_before ro = [] /\ ro_after ro = []
  end.

(** ** The files stay a log *)

Definition kept_log (max_count max_size : Z) (f : ofile) : Prop :=
  exists c0 cs, log_state f c0 cs /\ framed header footer (c0 :: cs) /\ on_max (of_names f) = max_count /\ of_max_size f = max_size.

Lemma kept_step mc ms f op : healthy malloc op -> kept_log mc ms f -> kept_log mc ms (file_step header footer malloc f op).
Proof.
  intros Ho (c0 & cs & L & Fr & M & Z0); destruct (file_step_ok header footer malloc f c0 cs op Ho L Fr) as (c1 & cs1 & L1 & F1 & M1 & Z1).
  exists c1, cs1; do 2 (split; [done|]); split; congruence.
Qed.

Lemma kept_flush mc ms (b : ostrbuf) (u : file_state) data : kept_log mc ms u.1 -> kept_log mc ms (do_flush b u data).2.1.
Proof.
  intros K; cbn [do_flush file_stream]; unfold file_flush; destruct (_ && _); [exact K|].
  destruct (default (false, WroteAll) (head u.2)) as [lock r].
  pose proof (kept_step mc ms u.1 (WriteOp lock r (ob_data b ++ data)) I K) as K'; cbn [file_step] in K'.
  destruct (of_writev u.1 lock r (ob_data b ++ data)) as [f ok]; exact K'.
Qed.

Lemma kept_append mc ms out : forall o, kept_log mc ms (o_buf o).2.1 -> kept_log mc ms (o_buf (Output.append o out)).2.1.
Proof.
  unfold Output.append; cbn [o_buf]; induction out as [|b out IH]; intros o K; [exact K|]; cbn [fold_left].
  apply (IH (mkOut (o_format o) (push_back (o_buf o) b))); cbn [o_buf]; unfold push_back; destruct (o_buf o) as [b0 u].
  destruct (_ <? _); [now apply kept_flush|exact K].
Qed.

Lemma kept_event mc ms o ev o' : run_event o ev = Some o' -> kept_log mc ms (o_buf o).2.1 -> kept_log mc ms (o_buf o').2.1.
Proof.
  intros E K; assert (D : (exists d, out_process o d = Some o') \/ o' = o \/ o' = out_flush o).
  { unfold Output.run_event in E; destruct ev; try (injection E as <-; now auto); (destruct (event_data _ _ _ _ _ _ _ _ _) as [[d|]|];
      [left; exists d; exact E|injection E as <-; auto|discriminate]). }
  destruct D as [[d P]|[->| ->]]; [|exact K|now apply kept_flush].
  unfold out_process in P; destruct (fmt_process (o_format o) d) as [[f out]|]; [|discriminate]; cbn in P; injection P as <-.
  now apply kept_append.
Qed.
(** ** The text of the log *)

Lemma rotate_keeps_text f ro : ro_before ro = [] -> ro_after ro = [] -> of_log (rotate_turn header footer malloc f ro) = of_log f.
Proof.
  intros B A; unfold rotate_turn, do_rotate; rewrite B, A; cbn [fold_left]; destruct (of_pending f); [|reflexivity].
  destruct (ro_open ro); [cbn [negb]|reflexivity]; destruct (open_trunc _ _) as [s fd].
  destruct (direct malloc (header _) _) as [[] head]; [reflexivity|]; destruct (direct malloc (footer _) _); reflexivity.
Qed.

Lemma log_text_cons s ev evs :
  (log_text s (ev :: evs)).2 = (log_text s [ev]).2 ++ (log_text (log_text s [ev]).1 evs).2.
Proof.
  cbn [Output.log_text]; destruct (event_data _ _ _ _ _ _ _ _ _) as [[d|]|]; cbn [fst snd]; try reflexivity.
  destruct (rs_line s d) as [s1 t]; cbn [fst snd]; destruct (log_text s1 evs); cbn [fst snd]; now rewrite app_nil_r.
Qed.

Lemma run_steps_ok mc ms l : forall o, out_ready o -> Forall step_good l -> kept_log mc ms (o_buf o).2.1 ->
  exists o', run_steps o l = Some o' /\ out_ready o' /\ kept_log mc ms (o_buf o').2.1 /\
    text (o_buf o') = text (o_buf o) ++ (log_text (rs_abs (o_format o)) (events l)).2.
Proof.
  induction l as [|[ev|ro] l IH]; intros o R G K.
  - exists o; cbn; now rewrite app_nil_r.
  - apply Forall_cons in G as [Ge G]; cbn [step_good] in Ge.
    destruct (run_event_ok static_str ts_name internal m fake fake_addr junk_arg argval_at o ev R Ge) as (o1 & E1 & R1 & A1 & T1).
    destruct (IH o1 R1 G (kept_event mc ms o ev o1 E1 K)) as (o' & E & R' & K' & T); exists o'; cbn [run_steps events]; rewrite E1.
    split; [exact E|]; split; [exact R'|]; split; [exact K'|]; rewrite T, T1, A1, (log_text_cons _ ev (events l)); now rewrite <- app_assoc.
  - apply Forall_cons in G as [(Hr & B & A) G]; cbn [run_steps events].
    destruct (IH (rotate_output o ro)) as (o' & E & R' & K' & T); [|exact G| |].
    + destruct R as [(Ok & Nf & Gd) Rs]; split; [|exact Rs]; split; [exact Ok|split; [exact Nf|exact Gd]].
    + now apply (kept_step mc ms (o_buf o).2.1 (RotateOp ro)).
    + exists o'; split; [exact E|]; split; [exact R'|]; split; [exact K'|]; rewrite T; unfold text, rotate_output; cbn [o_buf o_format fst snd written file_stream].
      rewrite rotate_keeps_text by assumption; reflexivity.
Qed.

(** C20: The log on disk is the log of the engine: an output over a rotating file,
    from its constructor through any events, and rotations between them, to its
    destructor, as long as writes and rotations succeed, with any size of its
    buffer, with room for two files and a name whose suffix does not begin with a
    digit, has given its files exactly the header, one line for each record and
    report in order, and the footer; in the files, whose
    contents in order are that text, nothing is lost or doubled where one
    ends and the next begins, and the newest of them, as many as the limit
    allows, are found on disk under consecutive numbers with that content
    between what the format writes at the ends of a file. *)
Theorem file_log_whole s max_size max_count filename file next f capacity steps :
  fs_ok s -> good_filename max_count filename -> 2 <= max_count ->
  output_file_new s max_size max_count filename true = Some file ->
  Forall (fun r : bool * outcome => r.2 = WroteAll) next -> rs_ok f -> is_u32 capacity -> capacity = 0 \/ malloc capacity = true -> Forall step_good steps ->
  exists o, run_steps (output_file file next f capacity) steps = Some o /\
    let file' := (o_buf (output_file_delete o)).2.1 in
    exists c0 cs, of_log file' = concat (rev (map c_data (c0 :: cs))) /\
      of_log file' = concat (fmt_header f (on_name (of_names file)) true) ++
                     (log_text (rs_abs f) (events steps)).2 ++ concat (fmt_footer (o_format o) None) /\
      fs_links (of_fs file') !! on_symlink (of_names file') = Some (c_name c0) /\
      (forall k c, Z.of_nat k < max_count -> (c0 :: cs) !! k = Some c ->
         c_name c = numbered (of_names file') ((on_index (of_names file') - Z.of_nat k) mod max_count) /\
         content (of_fs file') (c_name c) = Some (c_head c ++ c_data c ++ c_foot c)) /\
      framed header footer (c0 :: cs) /\ c_foot c0 = [].
Proof.
  intros Ok Gf Hm E G O Cp Al St; destruct (new_log_state _ _ _ _ _ Ok Gf Hm E) as (L & M & Z0).
  destruct (new_ok_any malloc capacity Cp) as [Bo Bd]; unfold output_file; set (o0 := mkOut f _).
  assert (R0 : out_ready o0).
  { split; [|exact O]; split; [exact Bo|]; split; [|exact G]. unfold o0; cbn [o_buf fst stream_failed file_stream].
    unfold ostrbuf_new; destruct (Z.eqb_spec capacity 0); [done|]; destruct Al as [Al| ->]; done. }
  assert (K0 : kept_log max_count max_size (o_buf o0).2.1).
  { exists (mkChunk (on_name (of_names file)) [] [] []), []; split; [exact L|]; split; [intros [|k] c c' Hc Hc'; done|done]. }
  destruct (out_header_ok o0 (on_name (of_names file)) true R0) as [R1 T1].
  assert (T0 : text (o_buf o0) = []).
  { unfold text, o0; cbn [o_buf fst snd written file_stream]; rewrite Bd, (ls_log _ _ _ L); done. }
  destruct (run_steps_ok max_count max_size steps _ R1 St) as (o & Er & R & K & T).
  { now apply kept_append. }
  exists o; split; [exact Er|]; cbv zeta; destruct (output_delete_ok o R) as (_ & _ & W).
  assert (K' : kept_log max_count max_size (o_buf (output_file_delete o)).2.1).
  { unfold output_file_delete, output_delete, out_footer, out_flush; cbn [o_buf]; apply kept_flush; now apply kept_append. }
  destruct K' as (c0 & cs & L' & Fr & M' & _); exists c0, cs; split; [apply (ls_log _ _ _ L')|]; split.
  - change (of_log (o_buf (output_file_delete o)).2.1) with (written (o_buf (output_delete o)).2).
    rewrite W, T, T1, T0; cbn [app out_header Output.append o_format]; now rewrite <- !app_assoc.
  - split; [apply (ls_link _ _ _ L')|]; split; [|split; [exact Fr|apply (ls_foot _ _ _ L')]].
    intros k c Hk Hc; split; [rewrite <- M'; now apply (ls_chunks _ _ _ L')|]; apply (ls_intact _ _ _ L' k); [now rewrite M'|exact Hc].
Qed.
End FileLog.

(** ** Two lines, two files *)

#[local] Instance fl_formatter : Formatter format_state := basic_formatter Nsec w_tm w_print w_gstr w_area w_vprintf (fun i => i).
#[local] Instance fl_renders : Renders format_state := basic_renders Nsec w_tm w_print w_gstr w_area w_vprintf (fun i => i).

(** The second line finds the first file full. *)
Definition two_files : list log_step :=
  map Print (take 2 w_records) ++ [Rotate (sample_rotation true [] [])] ++ map Print (drop 2 w_records).

Lemma file_log_whole_witness : exists file o,
  sample_log = Some file /\
  run_steps w_static (fun _ => 4) 0 demo_mem (replicate 128 7) 0 w_junk (fun _ => 0) sample_header sample_footer (fun _ => true)
    (output_file (fun _ => true) file [(true, WroteAll)] (format_basic FAST0) 64) two_files = Some o /\
  let file' := (o_buf (output_file_delete o)).2.1 in
  of_log file' = w_line0 ++ w_line1 /\ content (of_fs file') (str "log.0") = Some (w_line0 ++ str "->log.1") /\
  content (of_fs file') (str "log.1") = Some (str "<log.1>" ++ w_line1).
Proof.
  destruct sample_log as [file|] eqn:E; [|vm_compute in E; discriminate]; exists file.
  destruct (file_log_whole w_static (fun _ => 4) 0 demo_mem (replicate 128 7) 0 w_junk (fun _ => 0) sample_header sample_footer (fun _ => true)
    no_files 4 2 (str "log.#") file [(true, WroteAll)] (format_basic FAST0) 64 two_files) as (o & R & c0 & cs & _ & W & _).
  - apply no_files_ok.
  - apply sample_name_ok.
  - lia.
  - exact E.
  - repeat constructor.
  - apply tscache_new_ok.
  - words; lia.
  - now right.
  - pose proof w_records_print as P; repeat (apply Forall_cons in P as [? P]); unfold two_files; cbn [w_records take drop map app].
    repeat (apply Forall_cons; split; [|]); try constructor; try assumption; repeat split; constructor.
  - exists o; split; [reflexivity|]; split; [exact R|]; cbv zeta; split; [rewrite W|]; vm_compute in E; injection E as <-.
    + vm_compute in R; injection R as <-; vm_compute; reflexivity.
    + vm_compute in R; injection R as <-; split; vm_compute; reflexivity.
Defined.
