(* ===== verification/Coredump.v ===== *)
(** * The memory of a core dump (tools/coredump.hpp, tools/coredump.cc)

    The sections of the core file and of the executable are put in order,
    adjacent sections of one file are merged and loaded, and addresses of the
    dead process are mapped into them. *)

From S2P Require Import Prelude.

(** ** Object files

    What the BFD library tells of a file: its sections in order, each with the
    content that it can deliver. *)
Record asection := mkAsect { as_vma : Z; as_size : Z; as_data : option bytes }.

(** A section with the number of its file; [s_data] is what was loaded. *)
(* src: tools/coredump.hpp 52-71 coredump::section *)
Record section := mkSection { s_vma : Z; s_size : Z; s_bfd : Z; s_data : bytes }.

(** ** Loading *)

(** Inserting into the set, which is ordered by address; a section whose
    address is taken is not inserted. *)
(* src: tools/coredump.hpp 73-78 coredump::section_sorter *)
Fixpoint section_insert (s : section) (l : list section) : list section :=
  match l with
  | [] => [s]
  | t :: l' =>
      if s_vma s <? s_vma t then s :: l
      else if s_vma t <? s_vma s then t :: section_insert s l'
      else l
  end.

(** [bfd_sections_find_if]: the first section with a property. *)
Fixpoint section_by_vma (vma : Z) (l : list asection) : option asection :=
  match l with
  | [] => None
  | sect :: l => if vma =? as_vma sect then Some sect else section_by_vma vma l
  end.

Section Core.
Variable bfds : Z -> list asection.

(* src: tools/coredump.cc 168-188 coredump::add_section *)
Definition add_section (b : Z) (l : list section) (sect : asection) : list section :=
  if (as_vma sect =? 0) || (as_size sect =? 0) then l
  else section_insert (mkSection (as_vma sect) (as_size sect) b []) l.

(* src: tools/coredump.cc 190-193 coredump::load *)
Definition load (b : Z) (l : list section) : list section := fold_left (add_section b) (bfds b) l.

(* src: tools/coredump.cc 59-67 bfd_get_section_by_vma *)
Definition get_section_by_vma (b vma : Z) : option asection := section_by_vma vma (bfds b).

(** The content of a merged section, piece by piece; the flag tells whether it
    failed.  [None] when [fuel] pieces are not enough. *)
(* src: tools/coredump.cc 69-110 coredump::load_section *)
Fixpoint load_section (fuel : nat) (b vma size : Z) (data : bytes) : option (bytes * bool) :=
  match fuel with
  | O => None
  | S fuel =>
      if 0 <? size then
        match get_section_by_vma b vma with
        | None => Some (data, true)
        | Some sect =>
            let ss := as_size sect in
            if size <? ss then Some (data, true)
            else match as_data sect with
                 | None => Some (data, true)
                 | Some d => load_section fuel b (vma +u64 ss) (size - ss) (data ++ d)
                 end
        end
      else Some (data, false)
  end.

(** A merged section, loaded and put into the new set.  The flag that is set
    aside is that of the last load: a load that works resets it. *)
Definition flush_section (fuel : nat) (start stop b : Z) (nset : list section) : option (list section * bool) :=
  '(data, failed) ← load_section fuel b start (stop -u64 start) [];
  Some (section_insert (mkSection start (stop -u64 start) b data) nset, failed).

(** The loop over the sections: [start] is zero when there is no current one. *)
Fixpoint coalesce_from (fuel : nat) (l : list section) (start stop b : Z) (nset : list section) (failed : bool)
  : option (list section * bool) :=
  match l with
  | [] => if start =? 0 then Some (nset, failed) else flush_section fuel start stop b nset
  | s :: l =>
      if start =? 0 then coalesce_from fuel l (s_vma s) (s_vma s +u64 s_size s) (s_bfd s) nset failed
      else if (s_bfd s =? b) && (s_vma s =? stop) then coalesce_from fuel l start (stop +u64 s_size s) b nset failed
      else
        '(nset, failed) ← flush_section fuel start stop b nset;
        coalesce_from fuel l (s_vma s) (s_vma s +u64 s_size s) (s_bfd s) nset failed
  end.

(* src: tools/coredump.cc 112-166 coredump::coalesce_and_load_sections *)
Definition coalesce_and_load_sections (fuel : nat) (l : list section) : option (list section * bool) :=
  coalesce_from fuel l 0 0 0 [] false.

(** The core file first. *)
Definition core_sections (core : Z) (exec : option Z) : list section :=
  let l := load core [] in
  match exec with Some b => load b l | None => l end.

(** The files could be opened and have the right format. *)
(* src: tools/coredump.cc 195-260 coredump::coredump *)
Definition coredump_new (fuel : nat) (core : Z) (exec : option Z) : option (list section * bool) :=
  coalesce_and_load_sections fuel (core_sections core exec).
End Core.

(** A pointer is a section and an offset into its data. *)
(* src: tools/coredump.cc 277-289 coredump::remap *)
Fixpoint remap (l : list section) (ptr n : Z) : option (section * Z) :=
  let stop := ptr +u64 n in
  match l with
  | [] => None
  | s :: l =>
      if (s_vma s <=? ptr) && (stop <=? s_vma s +u64 s_size s) then Some (s, ptr -u64 s_vma s)
      else remap l ptr n
  end.

(** ** The set of sections *)

Section Map.
Variable bfds : Z -> list asection.
Abbreviation load := (load bfds).

(** A file whose sections have an address and data, or no address at all. *)
Definition file_ok (b : Z) : Prop := Forall (fun sect => as_vma sect = 0 \/
  0 < as_vma sect /\ 0 < as_size sect /\ as_vma sect + as_size sect < 18446744073709551616 /\
  exists d, as_data sect = Some d /\ Z.of_nat (length d) = as_size sect) (bfds b).

(** The data a section of the set stands for: that of its file at its address. *)
Definition data_of (s : section) : bytes := default [] (get_section_by_vma bfds (s_bfd s) (s_vma s) ≫= as_data).

Record element_ok (s : section) : Prop := {
  el_vma : 0 < s_vma s; el_size : 0 < s_size s; el_end : s_vma s + s_size s < 18446744073709551616;
  el_len : Z.of_nat (length (data_of s)) = s_size s;
  el_sect : exists sect, get_section_by_vma bfds (s_bfd s) (s_vma s) = Some sect /\ as_size sect = s_size s /\
    as_data sect = Some (data_of s) }.

Definition below (s t : section) : Prop := s_vma s < s_vma t.

Record set_ok (l : list section) : Prop := { so_sorted : StronglySorted below l; so_elements : Forall element_ok l }.

Lemma section_insert_elem s l x : x ∈ section_insert s l -> x = s \/ x ∈ l.
Proof.
  induction l as [|t l IH]; cbn [section_insert]; [rewrite list_elem_of_singleton; auto|].
  destruct (s_vma s <? s_vma t); [rewrite elem_of_cons; tauto|]; destruct (s_vma t <? s_vma s); [|auto].
  rewrite !elem_of_cons; tauto.
Qed.

Lemma section_insert_keeps s l x : x ∈ l -> x ∈ section_insert s l.
Proof.
  induction l as [|t l IH]; cbn [section_insert]; [intros H; now apply not_elem_of_nil in H|].
  destruct (s_vma s <? s_vma t); [rewrite (elem_of_cons (t :: l)); tauto|]; destruct (s_vma t <? s_vma s); [|auto].
  rewrite !elem_of_cons; tauto.
Qed.

Lemma section_insert_sorted s l : StronglySorted below l -> StronglySorted below (section_insert s l).
Proof.
  induction 1 as [|t l Hl IH Ht]; cbn [section_insert]; [repeat constructor|].
  destruct (Z.ltb_spec (s_vma s) (s_vma t)) as [L|L].
  - constructor; [now constructor|]; constructor; [exact L|]; eapply Forall_impl; [exact Ht|]; unfold below; lia.
  - destruct (Z.ltb_spec (s_vma t) (s_vma s)) as [L'|L']; [|now constructor]; constructor; [exact IH|].
    apply Forall_forall; intros x Hx; rewrite Forall_forall in Ht.
    apply section_insert_elem in Hx as [->|Hx]; [exact L'|now apply Ht].
Qed.

(** After the insertion the address is taken; if it was free, by [s]. *)
Lemma section_insert_taken s l : exists x, x ∈ section_insert s l /\ s_vma x = s_vma s.
Proof.
  induction l as [|t l (x & Hx & E)]; cbn [section_insert]; [exists s; split; [now left|done]|].
  destruct (Z.ltb_spec (s_vma s) (s_vma t)); [exists s; split; [now left|done]|].
  destruct (Z.ltb_spec (s_vma t) (s_vma s)); [exists x; split; [now right|done]|exists t; split; [now left|lia]].
Qed.

Lemma section_insert_new s l x : StronglySorted below l -> x ∈ section_insert s l ->
  x ∈ l \/ x = s /\ forall t, t ∈ l -> s_vma t <> s_vma s.
Proof.
  induction 1 as [|t l Hl IH Ht]; cbn [section_insert].
  - rewrite list_elem_of_singleton; intros ->; right; split; [done|]; intros t H; now apply not_elem_of_nil in H.
  - rewrite Forall_forall in Ht; unfold below in Ht; destruct (Z.ltb_spec (s_vma s) (s_vma t)) as [L|L].
    + rewrite elem_of_cons; intros [->|Hx]; [|now left]; right; split; [done|]; intros u; rewrite elem_of_cons.
      intros [->|Hu]; [lia|]; specialize (Ht u Hu); lia.
    + destruct (Z.ltb_spec (s_vma t) (s_vma s)) as [L'|L']; [|now left]; rewrite !elem_of_cons; intros [->|Hx]; [now left; left|].
      destruct (IH Hx) as [H|[-> H]]; [now left; right|]; right; split; [done|]; intros u; rewrite elem_of_cons.
      intros [->|Hu]; [lia|now apply H].
Qed.

Lemma section_by_vma_first pre sect post : (forall x, x ∈ pre -> as_vma x <> as_vma sect) ->
  section_by_vma (as_vma sect) (pre ++ sect :: post) = Some sect.
Proof.
  induction pre as [|y pre IH]; intros F; cbn [app section_by_vma]; [now rewrite Z.eqb_refl|].
  rewrite (proj2 (Z.eqb_neq _ _)); [apply IH; intros x Hx; apply F; now right|apply not_eq_sym, F; now left].
Qed.

(** What is in the set after a part of a file's sections. *)
Lemma load_part b post : forall pre l, bfds b = pre ++ post -> file_ok b -> set_ok l ->
  (forall sect, sect ∈ pre -> as_vma sect <> 0 -> exists s, s ∈ l /\ s_vma s = as_vma sect) ->
  set_ok (fold_left (add_section b) post l) /\ (forall s, s ∈ l -> s ∈ fold_left (add_section b) post l) /\
  (forall sect, sect ∈ bfds b -> as_vma sect <> 0 -> exists s, s ∈ fold_left (add_section b) post l /\ s_vma s = as_vma sect).
Proof.
  induction post as [|sect post IH]; intros pre l E F K T; cbn [fold_left].
  - rewrite E, app_nil_r; auto.
  - pose proof F as F'; unfold file_ok in F'; rewrite E in F'; apply Forall_app in F' as [_ F']; apply Forall_cons in F' as [Fs _].
    assert (E' : bfds b = (pre ++ [sect]) ++ post) by (now rewrite E, <- app_assoc).
    unfold add_section at 2 4 6; destruct Fs as [Z0|(V & Sz & En & d & Ed & Ld)].
    + rewrite Z0; cbn [Z.eqb orb]; apply (IH (pre ++ [sect]) l E' F K); intros x; rewrite elem_of_app, list_elem_of_singleton.
      intros [Hx| ->]; [now apply T|lia].
    + rewrite (proj2 (Z.eqb_neq (as_vma sect) 0)), (proj2 (Z.eqb_neq (as_size sect) 0)) by lia; cbn [orb].
      set (s := mkSection (as_vma sect) (as_size sect) b []).
      assert (Fresh : (forall t, t ∈ l -> s_vma t <> s_vma s) -> element_ok s).
      { intros N; assert (G : get_section_by_vma bfds b (as_vma sect) = Some sect).
        { unfold get_section_by_vma; rewrite E; apply section_by_vma_first; intros x Hx Ex.
          destruct (T x Hx ltac:(lia)) as (t & Ht & Et); apply (N t Ht); cbn [s s_vma]; congruence. }
        assert (D : data_of s = d) by (unfold data_of; cbn [s s_bfd s_vma]; rewrite G; cbn; now rewrite Ed).
        split; rewrite ?D; cbn [s s_vma s_size s_bfd]; [lia..|]; now exists sect. }
      destruct K as [K1 K2]; destruct (IH (pre ++ [sect]) (section_insert s l) E' F) as (K' & Kp & T').
      * split; [now apply section_insert_sorted|]; apply Forall_forall; intros x Hx; rewrite Forall_forall in K2.
        destruct (section_insert_new s l x K1 Hx) as [H|[-> H]]; auto.
      * intros x; rewrite elem_of_app, list_elem_of_singleton; intros [Hx| ->] Nx; [|apply section_insert_taken].
        destruct (T x Hx Nx) as (t & Ht & Et); exists t; split; [now apply section_insert_keeps|done].
      * split; [exact K'|]; split; [|exact T']; intros x Hx; apply Kp; now apply section_insert_keeps.
Qed.

Lemma load_ok b l : file_ok b -> set_ok l -> set_ok (load b l) /\ (forall s, s ∈ l -> s ∈ load b l) /\
  (forall sect, sect ∈ bfds b -> as_vma sect <> 0 -> exists s, s ∈ load b l /\ s_vma s = as_vma sect).
Proof. intros F K; apply (load_part b (bfds b) [] l eq_refl F K); intros x H; now apply not_elem_of_nil in H. Qed.

(** ** Runs of adjacent sections *)

(** Sections of file [b], the first at [v], each where the one before ends. *)
Fixpoint chained (b v : Z) (run : list section) : Prop :=
  match run with
  | [] => True
  | s :: run => s_bfd s = b /\ s_vma s = v /\ chained b (v + s_size s) run
  end.

Definition run_size (run : list section) : Z := foldr (fun s n => s_size s + n) 0 run.
Definition run_data (run : list section) : bytes := concat (map data_of run).

Definition merged (b v : Z) (run : list section) : section := mkSection v (run_size run) b (run_data run).

Lemma run_size_app r1 r2 : run_size (r1 ++ r2) = run_size r1 + run_size r2.
Proof. unfold run_size; induction r1 as [|s r1 IH]; cbn [app foldr]; [done|rewrite IH; lia]. Qed.

Lemma run_size_nonneg run : Forall element_ok run -> 0 <= run_size run.
Proof. unfold run_size; induction 1 as [|s run [_ S _ _ _] _ IH]; cbn [foldr]; lia. Qed.

Lemma chained_app b r1 r2 : forall v, chained b v (r1 ++ r2) <-> chained b v r1 /\ chained b (v + run_size r1) r2.
Proof.
  induction r1 as [|s r1 IH]; intros v; cbn [app chained run_size foldr]; [rewrite Z.add_0_r; tauto|].
  rewrite IH; unfold run_size; rewrite Z.add_assoc; tauto.
Qed.

Lemma chained_end b run : forall v, chained b v run -> run <> [] -> Forall element_ok run -> v + run_size run < 18446744073709551616.
Proof.
  induction run as [|s run IH]; intros v C N F; [done|]; apply Forall_cons in F as [E F]; destruct C as (_ & V & C).
  destruct run as [|t run]; [cbn; destruct E; lia|].
  specialize (IH _ C ltac:(done) F); unfold run_size in *; cbn [foldr] in *; lia.
Qed.

Lemma load_section_ok b run : forall v data fuel, chained b v run -> Forall element_ok run -> (length run < fuel)%nat ->
  load_section bfds fuel b v (run_size run) data = Some (data ++ run_data run, false).
Proof.
  induction run as [|s run IH]; intros v data fuel C F Hf; destruct fuel as [|fuel]; try lia; cbn [load_section].
  - cbn; now rewrite app_nil_r.
  - pose proof (chained_end b (s :: run) v C ltac:(done) F) as Be; apply Forall_cons in F as [E F].
    destruct C as (B & V & C); pose proof (run_size_nonneg run F); destruct E as [E1 E2 E3 E4 (sect & G & Sz & D)].
    cbn [run_size foldr] in *; fold (run_size run) in *; rewrite (proj2 (Z.ltb_lt 0 _)), <- B, <- V, G, Sz, D by lia.
    rewrite (proj2 (Z.ltb_ge _ _)) by lia; replace (s_size s + run_size run - s_size s) with (run_size run) by lia.
    rewrite u64_small by (words; lia); rewrite B, IH; [|now rewrite V|done|cbn in Hf; lia].
    unfold run_data; cbn [map concat]; now rewrite app_assoc.
Qed.

(** A byte of a run is a byte of one of its sections. *)
Lemma run_byte b run : forall v a, chained b v run -> Forall element_ok run -> v <= a < v + run_size run ->
  exists s c, s ∈ run /\ s_vma s <= a < s_vma s + s_size s /\
    run_data run !! Z.to_nat (a - v) = Some c /\ data_of s !! Z.to_nat (a - s_vma s) = Some c.
Proof.
  induction run as [|s run IH]; intros v a C F Ha; [cbn in Ha; lia|]; apply Forall_cons in F as [E F].
  destruct C as (B & V & C); unfold run_data, run_size in *; cbn [map concat foldr] in *; pose proof (el_len _ E) as L.
  destruct (Z_lt_dec a (v + s_size s)) as [Lt|Ge].
  - destruct (lookup_lt_is_Some_2 (data_of s) (Z.to_nat (a - v)) ltac:(lia)) as [c Hc]; exists s, c.
    split; [now left|]; split; [lia|]; rewrite V; split; [now rewrite lookup_app_l by lia|exact Hc].
  - destruct (IH _ a C F ltac:(lia)) as (t & c & Ht & Hr & Hc & Hd); exists t, c; split; [now right|]; split; [exact Hr|].
    split; [|exact Hd]; rewrite lookup_app_r by lia; rewrite <- Hc; f_equal; lia.
Qed.

(** ** The merged sections *)

Abbreviation run := (Z * Z * list section)%type.
Definition good_run (r : run) : Prop := chained r.1.1 r.1.2 r.2 /\ r.2 <> [].
Definition run_section (r : run) : section := merged r.1.1 r.1.2 r.2.

(** No run goes on in the next one. *)
Fixpoint separated (l : list run) : Prop :=
  match l with
  | r :: ((r' :: _) as l') => ~ (r'.1.1 = r.1.1 /\ r'.1.2 = r.1.2 + run_size r.2) /\ separated l'
  | _ => True
  end.

Lemma section_insert_last s l : Forall (fun t => s_vma t < s_vma s) l -> section_insert s l = l ++ [s].
Proof.
  induction 1 as [|t l Ht _ IH]; cbn [section_insert app]; [done|].
  rewrite (proj2 (Z.ltb_ge (s_vma s) (s_vma t))), (proj2 (Z.ltb_lt (s_vma t) (s_vma s))) by lia; now rewrite IH.
Qed.

Lemma flush_section_ok fuel b v cur nset : good_run (b, v, cur) -> Forall element_ok cur -> (length cur < fuel)%nat ->
  Forall (fun t => s_vma t < v) nset ->
  flush_section bfds fuel v (v + run_size cur) b nset = Some (nset ++ [merged b v cur], false).
Proof.
  intros [C N] F Hf Hn; pose proof (chained_end b cur v C N F); pose proof (run_size_nonneg cur F).
  assert (0 < v) by (destruct cur as [|s cur]; [done|]; destruct C as (_ & V & _); apply Forall_cons in F as [[E _ _ _ _] _]; cbn in V; lia).
  unfold flush_section; replace (v + run_size cur - v) with (run_size cur) by lia; rewrite u64_small by (words; lia).
  cbn [fst snd] in *; rewrite (load_section_ok b cur v [] fuel C F Hf); cbn [mbind option_bind app]; now rewrite section_insert_last.
Qed.

Lemma coalesce_from_ok l : forall fuel b v cur nset failed, good_run (b, v, cur) -> Forall element_ok (cur ++ l) ->
  StronglySorted below (cur ++ l) -> Forall (fun t => s_vma t < v) nset -> (length (cur ++ l) < fuel)%nat ->
  exists more runs, coalesce_from bfds fuel l v (v + run_size cur) b nset failed =
      Some (nset ++ map run_section ((b, v, cur ++ more) :: runs), false) /\
    (cur ++ more) ++ concat (map snd runs) = cur ++ l /\ Forall good_run ((b, v, cur ++ more) :: runs) /\
    separated ((b, v, cur ++ more) :: runs).
Proof.
  induction l as [|s l IH]; intros fuel b v cur nset failed G F So Hn Hf; cbn [coalesce_from];
    (assert (V0 : 0 < v /\ Forall (fun t => v <= s_vma t) cur);
     [destruct G as [C N]; destruct cur as [|t cur]; [done|]; destruct C as (_ & V & _); apply Forall_cons in F as [[E _ _ _ _] _]; cbn in V;
      split; [lia|]; constructor; [lia|]; apply StronglySorted_inv in So as [_ So]; apply Forall_app in So as [So _];
      eapply Forall_impl; [exact So|]; unfold below; intros; lia|]); destruct V0 as [V0 Vc];
    rewrite (proj2 (Z.eqb_neq v 0)) by lia.
  - rewrite app_nil_r in *; exists [], []; cbn [map concat]; rewrite !app_nil_r.
    rewrite (flush_section_ok fuel b v cur nset G F Hf Hn); do 2 (split; [done|]); split; [now constructor|done].
  - pose proof F as F'; apply Forall_app in F' as [Fc Fs]; apply Forall_cons in Fs as [Fs Fl].
    assert (As : forall x y, (x ++ [s]) ++ y = x ++ s :: y) by (intros; now rewrite <- app_assoc).
    pose proof (chained_end b cur v (proj1 G) (proj2 G) Fc) as Be; pose proof (run_size_nonneg cur Fc) as Bn.
    destruct ((s_bfd s =? b) && (s_vma s =? v + run_size cur)) eqn:E.
    + apply andb_true_iff in E as [E1 E2]; apply Z.eqb_eq in E1, E2; pose proof (el_end _ Fs); pose proof (el_size _ Fs).
      rewrite u64_small by (words; lia); replace (v + run_size cur + s_size s) with (v + run_size (cur ++ [s])) by (rewrite run_size_app; cbn; lia).
      destruct (IH fuel b v (cur ++ [s]) nset failed) as (more & runs & R & Cc & Gr & Sp); try (rewrite As; done); try done.
      { split; [apply chained_app; split; [apply G|exact (conj E1 (conj E2 I))]|]; cbn [snd]; destruct cur; discriminate. }
      rewrite !As in R, Cc, Gr, Sp; exists (s :: more), runs; split; [exact R|]; split; [now rewrite Cc, As|done].
    + rewrite (flush_section_ok fuel b v cur nset G Fc) by (done || (rewrite length_app in Hf; cbn in Hf; lia)).
      cbn [mbind option_bind]; pose proof (el_end _ Fs); pose proof (el_size _ Fs); pose proof (el_vma _ Fs).
      rewrite u64_small by (words; lia); replace (s_vma s + s_size s) with (s_vma s + run_size [s]) by (cbn; lia).
      assert (So' : Forall (fun t => s_vma t < s_vma s) cur /\ StronglySorted below (s :: l)).
      { clear - So; induction cur as [|t cur IH]; cbn [app] in So; [split; [constructor|exact So]|].
        apply StronglySorted_inv in So as [So Ft]; destruct (IH So) as [I1 I2]; split; [|exact I2]; constructor; [|exact I1].
        apply Forall_app in Ft as [_ Ft]; apply Forall_cons in Ft as [Ft _]; exact Ft. }
      destruct So' as [Lt So'].
      assert (Vs : v < s_vma s).
      { destruct G as [_ N]; destruct cur as [|t cur]; [done|]; apply Forall_cons in Lt as [Lt _]; apply Forall_cons in Vc as [Vc _]; lia. }
      destruct (IH fuel (s_bfd s) (s_vma s) [s] (nset ++ [merged b v cur]) false) as (more & runs & R & Cc & Gr & Sp).
      * split; [cbn; done|discriminate].
      * now constructor.
      * exact So'.
      * apply Forall_app; split; [eapply Forall_impl; [exact Hn|cbn; intros; lia]|]; constructor; [exact Vs|constructor].
      * rewrite length_app in Hf; cbn in *; lia.
      * rewrite R; exists [], ((s_bfd s, s_vma s, [s] ++ more) :: runs); rewrite app_nil_r; cbn [map concat snd].
        rewrite <- app_assoc; split; [done|]; split; [now rewrite Cc|]; split; [now constructor|]; split; [|exact Sp].
        cbn [fst snd]; intros [E1 E2]; rewrite E1, E2, !Z.eqb_refl in E; done.
Qed.

Lemma coalesce_ok l fuel : set_ok l -> (length l < fuel)%nat ->
  exists runs, coalesce_and_load_sections bfds fuel l = Some (map run_section runs, false) /\
    concat (map snd runs) = l /\ Forall good_run runs /\ separated runs.
Proof.
  intros [So F] Hf; unfold coalesce_and_load_sections; destruct l as [|s l]; [now exists []|]; cbn [coalesce_from Z.eqb].
  pose proof F as F'; apply Forall_cons in F' as [[E1 E2 E3 _ _] _]; rewrite u64_small by (words; lia).
  destruct (coalesce_from_ok l fuel (s_bfd s) (s_vma s) [s] [] false) as (more & runs & R & Cc & Gr & Sp); try done.
  replace (s_vma s + run_size [s]) with (s_vma s + s_size s) in R by (cbn; lia).
  rewrite R; exists ((s_bfd s, s_vma s, [s] ++ more) :: runs); split; [done|]; split; [exact Cc|done].
Qed.

(** Adjacent sections of a file are in one run. *)
Lemma within_run runs : forall l1 seg l2 b v, Forall good_run runs -> separated runs ->
  concat (map snd runs) = l1 ++ seg ++ l2 -> chained b v seg -> seg <> [] ->
  exists r x y, r ∈ runs /\ r.2 = x ++ seg ++ y.
Proof.
  induction runs as [|r runs IH]; intros l1 seg l2 b v G Sp E C N; cbn [map concat] in E.
  - destruct l1, seg; done.
  - apply Forall_cons in G as [[Cr Nr] G]; assert (Sp' : separated runs) by (destruct runs; [done|apply Sp]).
    destruct (app_eq_inv _ _ _ _ E) as [(k & E1 & E2)|(k & E1 & E2)].
    + destruct k as [|s k].
      * cbn in E2; destruct (IH [] seg l2 b v G Sp' (eq_sym E2) C N) as (r' & x & y & H & Hx); exists r', x, y; split; [now right|done].
      * destruct (app_eq_inv _ _ _ _ E2) as [(k' & E3 & E4)|(k' & E3 & E4)].
        -- destruct k' as [|t k']; [exists r, l1, []; rewrite app_nil_r in *; split; [now left|congruence]|exfalso].
           rewrite E3 in C; apply chained_app in C as [C1 (B2 & V2 & _)]; destruct C1 as (B1 & V1 & _).
           rewrite E1 in Cr; apply chained_app in Cr as [_ (B3 & V3 & _)].
           destruct runs as [|[[b' v'] r'] runs]; [done|]; apply Forall_cons in G as [[C' N'] _]; cbn [fst snd] in *.
           destruct r' as [|t' r']; [done|]; cbn [map concat snd app] in E4; injection E4 as -> _; destruct C' as (B4 & V4 & _).
           destruct Sp as [Sp _]; apply Sp; cbn [fst snd]; rewrite E1, run_size_app; split; [congruence|lia].
        -- exists r, l1, k'; split; [now left|]; now rewrite E1, E3.
    + destruct (IH k seg l2 b v G Sp' E2 C N) as (r' & x & y & H & Hx); exists r', x, y; split; [now right|done].
Qed.

Lemma remap_in l a n s off : 0 <= a -> 0 <= n -> a + n < 18446744073709551616 ->
  Forall (fun s => 0 <= s_vma s /\ 0 <= s_size s /\ s_vma s + s_size s < 18446744073709551616) l ->
  remap l a n = Some (s, off) -> s ∈ l /\ s_vma s <= a /\ a + n <= s_vma s + s_size s /\ off = a - s_vma s.
Proof.
  intros Ha Hn Hs; induction 1 as [|t l Ht _ IH]; cbn [remap]; [done|]; rewrite !u64_small by (words; lia).
  destruct (Z.leb_spec (s_vma t) a), (Z.leb_spec (a + n) (s_vma t + s_size t)); cbn [andb];
    try (intros R; destruct (IH R); split; [now right|done]); intros [= <- <-]; split; [now left|].
  rewrite u64_small by (words; lia); lia.
Qed.

Lemma remap_found l a n s : 0 <= a -> 0 <= n -> a + n < 18446744073709551616 -> s ∈ l -> 0 <= s_vma s -> 0 <= s_size s ->
  s_vma s + s_size s < 18446744073709551616 ->
  s_vma s <= a -> a + n <= s_vma s + s_size s -> remap l a n <> None.
Proof.
  intros Ha Hn Hs Hin H1 H2 H3 H4 H5; induction l as [|t l IH]; [now apply not_elem_of_nil in Hin|]; cbn [remap].
  apply elem_of_cons in Hin as [<-|Hin].
  - rewrite !u64_small by (words; lia); rewrite (proj2 (Z.leb_le _ _)), (proj2 (Z.leb_le _ _)) by lia; done.
  - destruct ((_ <=? _) && _); [done|]; now apply IH.
Qed.

Lemma elem_of_run (runs : list run) r s : r ∈ runs -> s ∈ r.2 -> s ∈ concat (map snd runs).
Proof.
  induction runs as [|r' runs IH]; intros Hr Hs; [now apply not_elem_of_nil in Hr|]; cbn [map concat].
  apply elem_of_app; apply elem_of_cons in Hr as [<-|Hr]; auto.
Qed.

Lemma core_sections_ok core exec : file_ok core -> (forall b, exec = Some b -> file_ok b) ->
  set_ok (core_sections bfds core exec) /\
  (forall b sect, b = core \/ exec = Some b -> sect ∈ bfds b -> as_vma sect <> 0 ->
     exists s, s ∈ core_sections bfds core exec /\ s_vma s = as_vma sect).
Proof.
  intros Fc Fe; destruct (load_ok core [] Fc) as (K & _ & T); [split; constructor|]; unfold core_sections; destruct exec as [b|].
  - destruct (load_ok b _ (Fe b eq_refl) K) as (K' & Kp & T'); split; [exact K'|]; intros b' sect [-> |Eb] Hin N.
    + destruct (T sect Hin N) as (s & Hs & Es); exists s; auto.
    + injection Eb as ->; now apply T'.
  - split; [exact K|]; intros b' sect [-> |E] H N; [now apply T|done].
Qed.

(** C14: The memory of the dead process is found again: from a core file and an
    optional executable whose sections have data, every section's address is
    known; loading ends and does not fail; the bytes at the place where an
    address range is mapped to are those of sections that contain the
    addresses; and every range within sections of one file that follow each
    other without a gap can be mapped, however many sections it spans. *)
Theorem coredump_map core exec fuel : file_ok core -> (forall b, exec = Some b -> file_ok b) ->
  (length (core_sections bfds core exec) < fuel)%nat ->
  (forall b sect, b = core \/ exec = Some b -> sect ∈ bfds b -> as_vma sect <> 0 ->
     exists s, s ∈ core_sections bfds core exec /\ s_vma s = as_vma sect) /\
  exists c, coredump_new bfds fuel core exec = Some (c, false) /\
    (forall a n s off k, 0 <= a -> a + n < 18446744073709551616 -> remap c a n = Some (s, off) -> 0 <= k < n ->
       exists x v, x ∈ core_sections bfds core exec /\ s_vma x <= a + k < s_vma x + s_size x /\
         s_data s !! Z.to_nat (off + k) = Some v /\ data_of x !! Z.to_nat (a + k - s_vma x) = Some v) /\
    (forall l1 seg l2 b v a n, core_sections bfds core exec = l1 ++ seg ++ l2 -> chained b v seg -> 0 < n ->
       v <= a -> a + n <= v + run_size seg -> remap c a n <> None).
Proof.
  intros Fc Fe Hf; destruct (core_sections_ok core exec Fc Fe) as [K T]; split; [exact T|].
  destruct (coalesce_ok _ fuel K Hf) as (runs & R & Cc & G & Sp); exists (map run_section runs); split; [exact R|].
  set (l := core_sections bfds core exec) in *; pose proof (so_elements _ K) as F.
  assert (Fr : forall r, r ∈ runs -> Forall element_ok r.2 /\ good_run r).
  { intros r Hr; rewrite Forall_forall in G; split; [|now apply G]; rewrite <- Cc in F; rewrite Forall_forall in F.
    apply Forall_forall; intros x Hx; now apply F, (elem_of_run runs r). }
  assert (Bd : forall r, r ∈ runs -> 0 < r.1.2 /\ 0 <= run_size r.2 /\ r.1.2 + run_size r.2 < 18446744073709551616).
  { intros r Hr; destruct (Fr r Hr) as [Er [Cr Nr]]; pose proof (chained_end _ _ _ Cr Nr Er); pose proof (run_size_nonneg _ Er).
    destruct r as [[b v] [|s r]]; [done|]; cbn in *; destruct Cr as (_ & V & _); apply Forall_cons in Er as [[E1 _ _ _ _] _]; lia. }
  split.
  - intros a n s off k Ha Hn Rm Hk; apply remap_in in Rm as (Hin & H1 & H2 & ->); [|lia|lia|lia|].
    + apply list_elem_of_fmap in Hin as (r & -> & Hr); destruct (Fr r Hr) as [Er [Cr _]]; cbn in H1, H2.
      destruct (run_byte _ r.2 _ (a + k) Cr Er ltac:(lia)) as (x & c & Hx & Cx & D1 & D2); exists x, c.
      split; [rewrite <- Cc; now apply (elem_of_run runs r)|].
      split; [exact Cx|]; split; [|exact D2]; cbn [run_section merged s_data s_vma]; rewrite <- D1; f_equal; lia.
    + apply Forall_forall; intros s' Hs; apply list_elem_of_fmap in Hs as (r & -> & Hr); destruct (Bd r Hr); cbn; lia.
  - intros l1 seg l2 b v a n E C Hn H1 H2; assert (N : seg <> []) by (intros ->; cbn in H2; lia); rewrite <- Cc in E.
    destruct (within_run runs l1 seg l2 b v G Sp E C N) as (r & x & y & Hr & Er); destruct (Fr r Hr) as [El [Cr _]].
    destruct (Bd r Hr) as (B1 & B2 & B3); rewrite Er in Cr, El, B2, B3; apply chained_app in Cr as [_ Cr]; apply chained_app in Cr as [Cr _].
    assert (V : v = r.1.2 + run_size x) by (destruct seg as [|s seg]; [done|]; destruct C as (_ & <- & _); destruct Cr as (_ & -> & _); done).
    apply Forall_app in El as [Ex El]; apply Forall_app in El as [Es Ey]; rewrite !run_size_app in *.
    pose proof (run_size_nonneg x Ex); pose proof (run_size_nonneg y Ey); pose proof (run_size_nonneg seg Es).
    apply (remap_found _ a n (run_section r)); try (cbn; rewrite ?Er, ?run_size_app; lia); now apply list_elem_of_fmap_2.
Qed.
End Map.

(** ** A core file and an executable, concretely *)

Definition demo_bfds (b : Z) : list asection :=
  if b =? 0 then [mkAsect 0 12 None; mkAsect 4100 2 (Some (str "EF")); mkAsect 4096 4 (Some (str "ABCD"))]
  else [mkAsect 4096 4 (Some (str "1234")); mkAsect 4102 3 (Some (str "xyz"))].

Lemma coredump_map_witness :
  exists c s, coredump_new demo_bfds 4 0 (Some 1) = Some (c, false) /\ remap c 4098 4 = Some (s, 2) /\
    take 4 (drop 2 (s_data s)) = str "CDEF" /\
    exists x v, x ∈ core_sections demo_bfds 0 (Some 1) /\ s_vma x <= 4101 < s_vma x + s_size x /\
      s_data s !! 5%nat = Some v /\ v = 70.
Proof.
  destruct (coredump_map demo_bfds 0 (Some 1) 4) as (_ & c & E & S & _).
  - repeat (apply Forall_cons; split; [cbn; first [now left|right; repeat split; try lia; eexists; split; [reflexivity|reflexivity]]|]); constructor.
  - intros b [= <-]; repeat (apply Forall_cons; split; [cbn; right; repeat split; try lia; eexists; split; [reflexivity|reflexivity]|]); constructor.
  - vm_compute; lia.
  - assert (R : exists s, remap c 4098 4 = Some (s, 2)) by (vm_compute in E; injection E as <-; eexists; vm_compute; reflexivity).
    destruct R as [s R]; exists c, s; split; [exact E|]; split; [exact R|].
    destruct (S 4098 4 s 2 3 ltac:(lia) ltac:(lia) R ltac:(lia)) as (x & v & Hx & Cx & D & _).
    vm_compute in E; injection E as <-; vm_compute in R; injection R as <-; split; [reflexivity|].
    exists x, v; split; [exact Hx|]; split; [exact Cx|]; split; [exact D|]; vm_compute in D; injection D as <-; reflexivity.
Defined.

(** A pointer without a size, at the begin of a section behind one of another
    file, is taken for the end of the one in front. *)
Lemma remap_boundary :
  option_map (fun c => option_map (fun p => (s_vma p.1, p.2)) (remap c.1 4102 0)) (coredump_new demo_bfds 4 0 (Some 1))
    = Some (Some (4096, 6)).
Proof. vm_compute; reflexivity. Qed.

(** A section without bytes at the address of another one is found in its place,
    and loading never ends. *)
Lemma empty_section_hangs fuel :
  coredump_new (fun _ => [mkAsect 4096 0 (Some []); mkAsect 4096 4 (Some (str "ABCD"))]) fuel 0 None = None.
Proof.
  unfold coredump_new, coalesce_and_load_sections; cbn; unfold flush_section.
  assert (L : forall data, load_section (fun _ => [mkAsect 4096 0 (Some []); mkAsect 4096 4 (Some (str "ABCD"))]) fuel 0 4096 4 data = None).
  { induction fuel as [|fuel IH]; intros data; [done|]; cbn; apply IH. }
  change (u64 (4096 + 4) -u64 4096) with 4; now rewrite L.
Qed.
