(* ===== verification/Recovery.v ===== *)
(** * Recovery of records from a core dump (tools/recovery-engine)

    Rings that were found in the memory of the dead process are validated, their
    records are repaired, and the records of all rings are put in the order of
    their timestamps in a set.  Where a pointer of the dead process is in the
    memory of the tool is a parameter: 0 when it is not in the dump. *)

From S2P Require Import Prelude Args Record Ring Timestamp Post.

(** ** Rings *)

(** [names] and [recs] tell whether the name and the slots are in the dump. *)
(* src: tools/recovery-engine.cc 139-175 ring_validator::fixup *)
Definition ring_fixup (names recs reset : bool) (r : ringbuf record) : option (ringbuf record) :=
  if _seqnum r <? _dropcnt r then None
  else if PRIORITY_CEILING <? _prio r then None
  else if (record_size r =? 0) || (1024 * 1024 <? record_size r) then None
  else if record_size r <? record_tailroom r then None
  else if (_capacity r <? _head r) || (_capacity r <? _tail r) then None
  else if negb names || negb recs then None
  else Some (if reset then set_tail (set_head r 0) (_capacity r) else r).

(** ** Records *)

Section Fixup.
Variable remap : Z -> Z.
Variable fixup_area : Z -> Z.
Variable special_area : Z.

(** The arguments from [i] to the eighth. *)
Fixpoint fixup_args (k : nat) (i : Z) (r : record) : option record :=
  match k with
  | O => Some r
  | S k =>
      r ← (if get_arg_type r i =? GSTR then
             if is_32bit GSTR then set_arg_val32 r i (remap (get_arg_val32 r i))
             else set_arg_val64 r i (remap (get_arg_val64 r i))
           else Some r);
      fixup_args k (i + 1) r
  end.

(** The area of special records has three sections; a null area is looked up
    like any other. *)
(* src: tools/recovery-engine.cc 299-326 recovery_engine::fixup_records *)
Definition fixup_record (r : record) : option record :=
  if is_special r then
    Some (mkRecord (Some special_area) (r_timestamp r) (r_seqnum r) (Z.min (r_argtype r) 2) 0 (r_argval r))
  else
    let area := fixup_area (default 0 (r_area r)) in
    fixup_args 8 0 (mkRecord (if area =? 0 then None else Some area) (r_timestamp r) (r_seqnum r) (r_section r) (r_argtype r) (r_argval r)).

(** The slots the iterator visits; [None] when [fuel] steps are not enough. *)
Fixpoint visited (fuel : nat) (r : ringbuf record) (it : pop_iterator) : option (list Z) :=
  match fuel with
  | O => None
  | S fuel =>
      match it_next r it with
      | None => Some []
      | Some (p, it) => l ← visited fuel r it; Some (p :: l)
      end
  end.

End Fixup.

(** ** The set of records *)

(** A record with its ring's name. *)
(* src: tools/recovery-engine.hpp 48-53 recovery_engine::record_entry *)
Record record_entry := mkEntry { re_ring : string; re_rec : record }.

(** [std::set::insert] with the order on timestamps: an entry that is equal to
    one in the set is not inserted. *)
(* src: tools/recovery-engine.hpp 55-62 recovery_engine::record_sorter *)
Fixpoint record_insert (e : record_entry) (l : list record_entry) : list record_entry :=
  match l with
  | [] => [e]
  | x :: l' =>
      if ts_lt (r_timestamp (re_rec e)) (r_timestamp (re_rec x)) then e :: l
      else if ts_lt (r_timestamp (re_rec x)) (r_timestamp (re_rec e)) then x :: record_insert e l'
      else l
  end.

Definition ring_entries (fuel : nat) (r : ringbuf record) : option (list record_entry) :=
  l ← visited fuel r (it_reset r); Some (map (fun p => mkEntry (_name r) (_recs r !!! Z.to_nat p)) l).

(** The records that are printed, in order. *)
(* src: tools/recovery-engine.cc 423-431 recovery_engine::dump_records *)
Fixpoint dump_records (fuel : nat) (rings : list (ringbuf record)) (set : list record_entry) : option (list record_entry) :=
  match rings with
  | [] => Some set
  | r :: rings => l ← ring_entries fuel r; dump_records fuel rings (fold_left (fun s e => record_insert e s) l set)
  end.

(** ** What is visited *)

Lemma visited_from r n : ring_facts r n -> forall (k : nat) i fuel, 0 <= i -> i + Z.of_nat k = size r -> (k < fuel)%nat ->
  visited fuel r (mkIter ((_head r + i) mod n) (_tail r)) = Some (map (fun j => (_head r + 1 + j) mod n) (seqZ i (Z.of_nat k))).
Proof.
  intros F; pose proof (rf_n _ _ F) as Hn; pose proof (size_range _ _ F) as Hr.
  induction k as [|k IH]; intros i fuel Hi Hk Hf; destruct fuel as [|fuel]; try lia; cbn [visited].
  - replace i with (size r) by lia; now rewrite (it_next_end _ _ F).
  - unfold it_next; cbn [it_head it_tail]; rewrite (rf_mask _ _ F), mod_mod_add.
    assert (E : (_head r + i + 1) mod n = (_head r + 1 + i) mod n) by (f_equal; lia).
    destruct (Z.eqb_spec ((_head r + i + 1) mod n) (_tail r)) as [C|_].
    + rewrite E, (tail_eq _ _ F) in C; apply mod_add_inj in C; lia.
    + replace ((_head r + i + 1) mod n) with ((_head r + (i + 1)) mod n) by (f_equal; lia).
      rewrite IH, (seqZ_cons i) by lia; rewrite (rf_rec _ _ F) by (apply mod_range; lia); cbn [mbind option_bind].
      replace (Z.succ i) with (i + 1) by lia; replace (Z.pred (Z.of_nat (S k))) with (Z.of_nat k) by lia.
      cbn [map]; do 2 f_equal; f_equal; lia.
Qed.

(** The iterator ends after the unread records of the ring. *)
Lemma visited_ok r fuel : ring_wf r -> (Z.to_nat (size r) < fuel)%nat -> visited fuel r (it_reset r) = Some (slot_list r).
Proof.
  intros W Hf; destruct (ring_wf_facts r W) as (n & _ & F); pose proof (rf_head _ _ F); pose proof (size_range _ _ F).
  pose proof (visited_from r n F (Z.to_nat (size r)) 0 fuel ltac:(lia) ltac:(lia) Hf) as V.
  rewrite Z.add_0_r, Z.mod_small, Z2Nat.id in V by lia; unfold it_reset; rewrite V; unfold slot_list; now rewrite (rf_cap _ _ F).
Qed.

Definition unread (r : ringbuf record) : list record_entry := map (mkEntry (_name r)) (contents r).

Lemma ring_entries_ok r fuel : ring_wf r -> (Z.to_nat (size r) < fuel)%nat -> ring_entries fuel r = Some (unread r).
Proof.
  intros W Hf; unfold ring_entries; rewrite (visited_ok r fuel W Hf); cbn [mbind option_bind]; unfold unread.
  rewrite contents_slot_list, map_map; done.
Qed.

(** ** The set keeps the first record of each time *)

Definition time (e : record_entry) : Z := r_timestamp (re_rec e).
Definition earlier (a b : record_entry) : Prop := time a < time b.

(** What the set is after the entries [l] were inserted, in this order. *)
Record firsts (l set : list record_entry) : Prop := {
  fs_sorted : StronglySorted earlier set;
  fs_from : forall e, e ∈ set -> exists l1 l2, l = l1 ++ e :: l2 /\ forall x, x ∈ l1 -> time x <> time e;
  fs_all : forall e, e ∈ l -> exists x, x ∈ set /\ time x = time e }.

Lemma record_insert_elem e l x : x ∈ record_insert e l -> x = e \/ x ∈ l.
Proof.
  induction l as [|t l IH]; cbn [record_insert]; [rewrite list_elem_of_singleton; auto|].
  destruct (ts_lt _ _); [rewrite elem_of_cons; tauto|]; destruct (ts_lt _ _); [|auto]; rewrite !elem_of_cons; tauto.
Qed.

Lemma record_insert_sorted e l : StronglySorted earlier l -> StronglySorted earlier (record_insert e l).
Proof.
  induction 1 as [|t l Hl IH Ht]; cbn [record_insert]; [repeat constructor|]; unfold ts_lt; fold (time e) (time t).
  destruct (Z.ltb_spec (time e) (time t)) as [L|L].
  - constructor; [now constructor|]; constructor; [exact L|]; eapply Forall_impl; [exact Ht|]; unfold earlier; lia.
  - destruct (Z.ltb_spec (time t) (time e)) as [L'|L']; [|now constructor]; constructor; [exact IH|].
    apply Forall_forall; intros x Hx; rewrite Forall_forall in Ht.
    apply record_insert_elem in Hx as [->|Hx]; [exact L'|now apply Ht].
Qed.

(** An entry is inserted exactly when its time is new. *)
Lemma record_insert_cases e l : StronglySorted earlier l ->
  (exists x, x ∈ l /\ time x = time e) /\ record_insert e l = l \/
  (forall x, x ∈ l -> time x <> time e) /\ record_insert e l ≡ₚ e :: l.
Proof.
  induction 1 as [|t l Hl IH Ht]; cbn [record_insert]; [right; split; [intros x H; now apply not_elem_of_nil in H|done]|].
  unfold ts_lt; fold (time e) (time t); rewrite Forall_forall in Ht; unfold earlier in Ht.
  destruct (Z.ltb_spec (time e) (time t)) as [L|L].
  - right; split; [|done]; intros x; rewrite elem_of_cons; intros [->|Hx]; [lia|]; specialize (Ht x Hx); lia.
  - destruct (Z.ltb_spec (time t) (time e)) as [L'|L']; [|left; split; [exists t; split; [now left|lia]|done]].
    destruct IH as [[(x & Hx & Ex) ->]|[N P]]; [left; split; [exists x; split; [now right|done]|done]|].
    right; split; [intros x; rewrite elem_of_cons; intros [->|Hx]; [lia|now apply N]|]; rewrite P; constructor.
Qed.

Lemma firsts_insert l set e : firsts l set -> firsts (l ++ [e]) (record_insert e set).
Proof.
  intros [So Fr Al]; destruct (record_insert_cases e set So) as [[(x & Hx & Ex) ->]|[N P]].
  - split; [exact So| |].
    + intros y Hy; destruct (Fr y Hy) as (l1 & l2 & -> & F); exists l1, (l2 ++ [e]); now rewrite <- app_assoc.
    + intros y; rewrite elem_of_app, list_elem_of_singleton; intros [Hy| ->]; [now apply Al|now exists x].
  - split; [now apply record_insert_sorted| |].
    + intros y; rewrite P, elem_of_cons; intros [->|Hy].
      * exists l, []; split; [done|]; intros z Hz; destruct (Al z Hz) as (w & Hw & <-); now apply N.
      * destruct (Fr y Hy) as (l1 & l2 & -> & F); exists l1, (l2 ++ [e]); now rewrite <- app_assoc.
    + intros y; rewrite elem_of_app, list_elem_of_singleton; intros [Hy| ->].
      * destruct (Al y Hy) as (w & Hw & Ew); exists w; rewrite P; split; [now right|done].
      * exists e; rewrite P; split; [now left|done].
Qed.

Lemma firsts_fold more : forall l set, firsts l set -> firsts (l ++ more) (fold_left (fun s e => record_insert e s) more set).
Proof.
  induction more as [|e more IH]; intros l set F; cbn [fold_left]; [now rewrite app_nil_r|].
  replace (l ++ e :: more) with ((l ++ [e]) ++ more) by now rewrite <- app_assoc.
  now apply IH, firsts_insert.
Qed.

(** Entries that all have different times are all kept. *)
Lemma firsts_distinct l set : firsts l set -> NoDup (map time l) -> set ≡ₚ l.
Proof.
  intros [So Fr Al] Nd; assert (Inj : forall x y, x ∈ l -> y ∈ l -> time x = time y -> x = y).
  { intros x y Hx Hy E; apply list_elem_of_lookup in Hx as [i Hx], Hy as [j Hy].
    assert (i = j) as -> by (apply (NoDup_lookup _ i j (time x) Nd); rewrite list_lookup_fmap; [now rewrite Hx|rewrite Hy, E; done]).
    congruence. }
  apply NoDup_Permutation.
  - clear - So; induction So as [|x set So IH Hx]; constructor; [|exact IH]; intros H; rewrite Forall_forall in Hx.
    specialize (Hx x H); unfold earlier in Hx; lia.
  - now apply (NoDup_fmap_1 time).
  - intros x; split; intros Hx.
    + destruct (Fr x Hx) as (l1 & l2 & -> & _); apply elem_of_app; right; now left.
    + destruct (Al x Hx) as (y & Hy & E); destruct (Fr y Hy) as (l1 & l2 & El & _).
      rewrite <- (Inj y x); [exact Hy|rewrite El; apply elem_of_app; right; now left|exact Hx|exact E].
Qed.

Lemma dump_records_firsts fuel rings : forall l set, Forall ring_wf rings -> Forall (fun r => (Z.to_nat (size r) < fuel)%nat) rings ->
  firsts l set -> exists D, dump_records fuel rings set = Some D /\ firsts (l ++ concat (map unread rings)) D.
Proof.
  induction rings as [|r rings IH]; intros l set W Hf F; cbn [dump_records map concat]; [rewrite app_nil_r; now exists set|].
  apply Forall_cons in W as [Wr W]; apply Forall_cons in Hf as [Hr Hf]; rewrite (ring_entries_ok r fuel Wr Hr); cbn [mbind option_bind].
  destruct (IH (l ++ unread r) _ W Hf (firsts_fold (unread r) l set F)) as (D & E & FD); exists D; now rewrite app_assoc.
Qed.

(** C15: The recovered log is in the order of time, but it has one record for each
    time only: from any well-formed rings the tool ends and prints records in
    strictly increasing order of their timestamps; each is the first unread
    record with its timestamp, in the order of the rings and their queues; each
    unread record is represented by one with its timestamp; and all unread
    records are printed, once each, when no two have the same timestamp. *)
Theorem recovered_log rings fuel : Forall ring_wf rings -> Forall (fun r => (Z.to_nat (size r) < fuel)%nat) rings ->
  let all := concat (map unread rings) in
  exists D, dump_records fuel rings [] = Some D /\ StronglySorted earlier D /\
    (forall e, e ∈ D -> exists l1 l2, all = l1 ++ e :: l2 /\ forall x, x ∈ l1 -> time x <> time e) /\
    (forall e, e ∈ all -> exists x, x ∈ D /\ time x = time e) /\
    (NoDup (map time all) -> D ≡ₚ all).
Proof.
  intros W Hf; destruct (dump_records_firsts fuel rings [] [] W Hf) as (D & E & F).
  { split; [constructor|intros e H|intros e H]; now apply not_elem_of_nil in H. }
  exists D; split; [exact E|]; split; [apply F|]; split; [apply F|]; split; [apply F|]; now apply firsts_distinct.
Qed.

(** Dumping a whole ring leaves out records: with the option to dump all, the
    head and the tail of a valid ring are set to its first and its last slot;
    the slots then visited are those between them, and neither the first nor
    the last one, though each of them may hold an unread record, which is
    printed without the option. *)
Theorem dump_all_misses r fuel : ring_wf r -> 4 <= capacity r -> (Z.to_nat (capacity r) < fuel)%nat ->
  forall r', ring_fixup true true true r = Some r' ->
  visited fuel r (it_reset r) = Some (slot_list r) /\ visited fuel r' (it_reset r') = Some (seqZ 1 (capacity r - 2)) /\
  (_recs r' = _recs r) /\ ~ (0 ∈ seqZ 1 (capacity r - 2)) /\ ~ (capacity r - 1 ∈ seqZ 1 (capacity r - 2)).
Proof.
  intros W Hn Hf r' E; destruct (ring_wf_facts r W) as (n & Cn & F); pose proof (size_range _ _ F).
  rewrite (rf_cap _ _ F) in *; split; [apply visited_ok; [done|lia]|].
  assert (E' : r' = set_tail (set_head r 0) (_capacity r)) by (unfold ring_fixup in E; repeat case_match; congruence).
  assert (F' : ring_facts r' n).
  { destruct F as [F1 F2 F3 F4 F5 F6 F7]; subst r'; split; cbn [_head _tail _recs set_tail set_head set_counters]; auto; rewrite ?Cn; lia. }
  assert (Hh : _head r' = 0) by (now subst r'); assert (Ht : _tail r' = n - 1) by (subst r'; cbn; lia).
  assert (Sz : size r' = n - 2) by (rewrite (size_eq _ _ F'), Hh, Ht; replace (n - 1 - 0 - 1) with (n - 2) by lia; apply Z.mod_small; lia).
  split; [|split; [now subst r'|]; rewrite !elem_of_seqZ; lia].
  pose proof (visited_from r' n F' (Z.to_nat (n - 2)) 0 fuel ltac:(lia) ltac:(lia) ltac:(lia)) as V.
  rewrite Hh, Z.mod_small in V by lia; unfold it_reset; rewrite Hh; rewrite Z.add_0_r in V; rewrite V, Z2Nat.id by lia.
  f_equal; apply list_eq; intros i; rewrite list_lookup_fmap.
  destruct (decide (Z.of_nat i < n - 2)) as [L|L].
  - rewrite !lookup_seqZ_lt by lia; cbn; rewrite Z.mod_small by lia; f_equal; lia.
  - rewrite !lookup_seqZ_ge by lia; done.
Qed.

(** ** The arguments of a recovered record *)

(** The first eight strings are where the tool has them; the others keep the
    addresses of the dead process. *)
Lemma fixup_args_ok remap (k : nat) : forall i r, 0 <= i -> (i + Z.of_nat k) * 8 <= Z.of_nat (length (r_argval r)) ->
  exists r', fixup_args remap k i r = Some r' /\ r' = with_argval r (r_argval r') /\ length (r_argval r') = length (r_argval r) /\
    (forall j, i <= j < i + Z.of_nat k -> get_arg_type r j = GSTR -> get_arg_val64 r' j = u64 (remap (get_arg_val64 r j))) /\
    (forall j, 0 <= j -> j < i \/ i + Z.of_nat k <= j \/ get_arg_type r j <> GSTR -> get_arg_val64 r' j = get_arg_val64 r j).
Proof.
  induction k as [|k IH]; intros i r Hi Hl; cbn [fixup_args].
  { exists r; split; [done|]; split; [now destruct r|]; split; [done|]; split; [lia|done]. }
  assert (St : exists r1, (if get_arg_type r i =? GSTR then
       if is_32bit GSTR then set_arg_val32 r i (remap (get_arg_val32 r i)) else set_arg_val64 r i (remap (get_arg_val64 r i))
     else Some r) = Some r1 /\ r1 = with_argval r (r_argval r1) /\ length (r_argval r1) = length (r_argval r) /\
     (get_arg_type r i = GSTR -> get_arg_val64 r1 i = u64 (remap (get_arg_val64 r i))) /\
     (forall j, 0 <= j -> j <> i \/ get_arg_type r i <> GSTR -> get_arg_val64 r1 j = get_arg_val64 r j)).
  { destruct (Z.eqb_spec (get_arg_type r i) GSTR) as [E|N]; [|exists r; split; [done|]; split; [now destruct r|done]].
    change (is_32bit GSTR) with false; cbn iota; unfold set_arg_val64; set (d := le_bytes 8 _).
    assert (Ld : length d = 8%nat) by apply length_le_bytes.
    destruct (memcpy_some (r_argval r) (i * 8) d) as [b Hb]; [lia|lia|]; rewrite Hb; cbn [mbind option_bind].
    exists (with_argval r b); split; [done|]; split; [done|]; split; [apply (memcpy_length _ _ _ _ Hb)|]; split.
    - intros _; unfold get_arg_val64; cbn [r_argval with_argval]; pose proof (memcpy_peek _ _ _ _ Hb) as P; rewrite Ld in P.
      change (Z.of_nat 8) with 8 in P; rewrite P; unfold d; rewrite le_val_bytes8 by apply u64_range; reflexivity.
    - intros j Hj [Nj|Nt]; [|done]; unfold get_arg_val64; cbn [r_argval with_argval]; f_equal.
      apply (memcpy_peek_disjoint _ _ _ _ _ _ Hb); rewrite ?Ld; lia. }
  destruct St as (r1 & -> & F1 & L1 & A1 & B1); cbn [mbind option_bind].
  assert (Ty : forall j, get_arg_type r1 j = get_arg_type r j) by (intros j; now rewrite F1).
  destruct (IH (i + 1) r1 ltac:(lia) ltac:(lia)) as (r' & E & F & L & A & B).
  exists r'; split; [exact E|]; split; [rewrite F, F1; now destruct r|]; split; [lia|]; split.
  - intros j Hj T; destruct (Z.eq_dec j i) as [->|Nj]; [rewrite B by lia; now apply A1|].
    rewrite A by (rewrite ?Ty; lia || done); rewrite B1 by lia; done.
  - intros j Hj O; destruct (Z.eq_dec j i) as [->|Nj].
    + rewrite B by lia; apply B1; [lia|]; destruct O as [O|[O|O]]; [lia|lia|now right].
    + rewrite B by (rewrite ?Ty; lia || (destruct O as [O|[O|O]]; [lia|lia|auto])); apply B1; [lia|now left].
Qed.

(** ** Rings from a dump, concretely *)

Definition dump_record (t : Z) : record := mkRecord None t 0 0 0 [].
Definition dump_ring (name : string) (head tail : Z) (times : list Z) : ringbuf record :=
  mkRing name 0 10 8 64 3 1 false 0 tail 9 0 head (map dump_record times).

Lemma dump_ring_wf name head tail times : length times = 4%nat -> 0 <= head <= 3 -> 0 <= tail <= 3 ->
  ring_wf (dump_ring name head tail times).
Proof.
  intros L H T; split; cbn; try lia; exists 2; do 3 (split; [lia|]); split; [reflexivity|]; rewrite length_map, L; reflexivity.
Qed.

(** The record of the second ring with the time 5 is left out. *)
Lemma recovered_log_witness :
  let rings := [dump_ring "A" 0 3 [0; 5; 7; 0]; dump_ring "B" 0 3 [0; 5; 6; 0]] in
  exists D, dump_records 4 rings [] = Some D /\ map (fun e => (re_ring e, time e)) D = [("A"%string, 5); ("B"%string, 6); ("A"%string, 7)] /\
    StronglySorted earlier D.
Proof.
  cbv zeta; destruct (recovered_log [dump_ring "A" 0 3 [0; 5; 7; 0]; dump_ring "B" 0 3 [0; 5; 6; 0]] 4) as (D & E & So & _).
  - repeat (apply Forall_cons; split; [apply dump_ring_wf; [reflexivity|lia|lia]|]); constructor.
  - repeat (apply Forall_cons; split; [vm_compute; lia|]); constructor.
  - exists D; split; [exact E|]; split; [vm_compute in E; injection E as <-; reflexivity|exact So].
Defined.

(** A ring whose only unread record is in the first slot. *)
Lemma dump_all_misses_witness :
  exists r', ring_fixup true true true (dump_ring "A" 3 1 [5; 0; 0; 0]) = Some r' /\
    visited 5 (dump_ring "A" 3 1 [5; 0; 0; 0]) (it_reset (dump_ring "A" 3 1 [5; 0; 0; 0])) = Some [0] /\
    visited 5 r' (it_reset r') = Some [1; 2].
Proof.
  eexists; split; [reflexivity|].
  destruct (dump_all_misses (dump_ring "A" 3 1 [5; 0; 0; 0]) 5 (dump_ring_wf "A" 3 1 [5; 0; 0; 0] eq_refl ltac:(lia) ltac:(lia))
    ltac:(vm_compute; congruence) ltac:(vm_compute; lia) _ eq_refl) as (V & V' & _).
  split; [rewrite V; reflexivity|rewrite V'; reflexivity].
Defined.

(** A false ring whose mask is not all ones passes the checks, and the loop over
    its records never ends. *)
Definition false_ring : ringbuf record :=
  mkRing "A" 0 10 8 64 4 1 false 0 2 9 0 0 (map dump_record [0; 0; 0; 0; 0]).

Lemma visited_forever fuel :
  ring_fixup true true false false_ring = Some false_ring /\ visited fuel false_ring (it_reset false_ring) = None.
Proof.
  split; [reflexivity|]; assert (N : it_next false_ring (it_reset false_ring) = Some (0, it_reset false_ring)) by reflexivity.
  induction fuel as [|fuel IH]; [reflexivity|]; cbn [visited]; rewrite N; cbn [mbind option_bind]; now rewrite IH.
Qed.
