(* ===== verification/RecoveryScan.v ===== *)
(** * Finding rings, areas and output buffers in a core dump (tools/recovery-engine)

    The memory of the tool holds the sections of the dump.  It is searched for
    the signatures of objects; what is found is checked and its pointers are
    replaced by those of the tool.  How the compiler lays objects out is not in
    the source: an object is read at an address of the tool as a whole, and
    objects at different addresses are taken to be apart.  The signatures are
    searched for in the sections as they were loaded. *)

From stdpp Require Import functions.
From S2P Require Import Prelude Args Record Ring Timestamp Area Post Ntos OutName Coredump Recovery.

(** Where a pointer of the dead process is in the tool, which has the data of
    the section [s] at [place s]; 0 when it is not in the dump. *)
Definition tool_remap (place : section -> Z) (l : list section) (ptr n : Z) : Z :=
  match remap l ptr n with Some (s, off) => place s + off | None => 0 end.

(** ** Signatures *)

(** Four words of 32 bits. *)
(* src: include/hogl/detail/magic.hpp 43-46 magic *)
Definition magic (w : list Z) : bytes := concat (map (le_bytes 4) w).

(* src: include/hogl/detail/magic.hpp 55-60 ring_magic *)
Definition ring_magic : bytes := magic [0xe1272734; 0xba8a7dc8; 0xdd223344; 0x51691388].
(* src: include/hogl/detail/magic.hpp 62-67 area_magic *)
Definition area_magic : bytes := magic [0xe129000f; 0xba8a7dc8; 0xdd223344; 0x51691388].
(* src: include/hogl/detail/magic.hpp 69-74 output_magic *)
Definition output_magic : bytes := magic [0xe121200f; 0xba8a7dc8; 0xdd223344; 0x51691388].

(** [start] is the offset of [ptr] in the section, which has [size] bytes. *)
(* src: tools/coredump.hpp 59-66 coredump::section::inside *)
Definition inside (size start n : Z) : bool := (0 <=? start) && (start + n <=? size).

(** ** The search of a section *)

Section Scan.
Context {S : Type}.
Variable sig : bytes.
Variable sz : Z.                                  (* the size of the objects *)
Variable attempt : Z -> S -> option (S * bool).   (* check and repair the object at an address *)

Definition starts (l : bytes) : bool := bool_decide (take (length sig) l = sig).

(** [memmem]: the offset of the first occurrence; [l] is what is behind [p]. *)
Fixpoint memmem (l : bytes) (p : Z) : option Z :=
  if starts l then Some p else match l with [] => None | _ :: l => memmem l (p + 1) end.

(** [ptr] is an offset into the section, which is at [base]. *)
(* src: tools/recovery-engine.cc 336-362 recovery_engine::find_and_fixup_rings *)
Fixpoint scan (fuel : nat) (base : Z) (data : bytes) (ptr : Z) (st : S) : option S :=
  match fuel with
  | O => None
  | Datatypes.S fuel =>
      let size := Z.of_nat (length data) in
      if size - ptr <? sz then Some st
      else match memmem (drop (Z.to_nat ptr) data) ptr with
           | None => Some st
           | Some p =>
               if negb (inside size p sz) then Some st
               else '(st, ok) ← attempt (base + p) st; scan fuel base data (if (ok : bool) then p + sz else p + 1) st
           end
  end.
End Scan.

(** ** Objects *)

(** [ao_size] and [ao_data] are those of the bitmap. *)
Record area_object := mkAreaObject { ao_magic : bytes; ao_size : Z; ao_data : Z; ao_name : Z; ao_section : Z }.

Record buf_object := mkBufObject { bo_capacity : Z; bo_size : Z; bo_failed : bool; bo_error : bytes; bo_data : Z }.

(** The objects at the addresses of the tool, the pointers at these addresses
    (names of sections), and the maps and lists of the engine. *)
(* src: tools/recovery-engine.hpp 62-81 recovery_engine *)
Record recovery := mkRecovery {
  d_ring : Z -> ringbuf record; d_area : Z -> area_object; d_word : Z -> Z; d_source : Z -> Z; d_buf : Z -> buf_object;
  rv_areas : gmap Z Z; rv_timesources : gmap Z Z; rv_outbufs : gmap Z Z; rv_rings : list Z }.

Definition with_rings (st : recovery) f l := mkRecovery f (d_area st) (d_word st) (d_source st) (d_buf st) (rv_areas st) (rv_timesources st) (rv_outbufs st) l.
Definition with_areas (st : recovery) f w m := mkRecovery (d_ring st) f w (d_source st) (d_buf st) m (rv_timesources st) (rv_outbufs st) (rv_rings st).
Definition with_sources (st : recovery) f m := mkRecovery (d_ring st) (d_area st) (d_word st) f (d_buf st) (rv_areas st) m (rv_outbufs st) (rv_rings st).
Definition with_bufs (st : recovery) f m := mkRecovery (d_ring st) (d_area st) (d_word st) (d_source st) f (rv_areas st) (rv_timesources st) m (rv_rings st).

Section Recover.
Implicit Type st : recovery.
Variable remap : Z -> Z -> Z.                     (* [tool_remap] for the dump *)
Variables sizeof_area sizeof_timesource sizeof_ring sizeof_ostrbuf sizeof_output : Z.

(** ** Areas *)

(* src: tools/recovery-engine.cc 38-58 bitmap_validator::fixup *)
Definition bitmap_fixup (o : area_object) : area_object * bool :=
  if (ao_size o =? 0) || (256 * 1024 <? ao_size o) then (o, false)
  else
    let data := remap (ao_data o) (nbytes (ao_size o)) in
    (mkAreaObject (ao_magic o) (ao_size o) data (ao_name o) (ao_section o), negb (data =? 0)).

(** Names of the tool. *)
Variables default_section_names NA : Z.

(** The loop over the names of sections from [i] on: the pointers, and the
    array of names that is used. *)
Fixpoint fixup_sections (k : nat) (i count section : Z) (w : Z -> Z) : (Z -> Z) * Z :=
  match k with
  | O => (w, section)
  | S k =>
      let p := remap (w (section + 8 * i)) 0 in
      let w := <[section + 8 * i := p]> w in
      if negb (p =? 0) then fixup_sections k (i + 1) count section w
      else if (i =? 0) && (count =? 6) then (w, default_section_names)
      else fixup_sections k (i + 1) count section (<[section + 8 * i := NA]> w)
  end.

(** The area at the address [a] of the tool: what is left there, the pointers,
    and the result, 0 when it is not valid. *)
(* src: tools/recovery-engine.cc 66-115 area_validator::fixup *)
Definition area_fixup (a : Z) (o : area_object) (w : Z -> Z) : area_object * (Z -> Z) * Z :=
  if a =? 0 then (o, w, 0)
  else if negb (bool_decide (ao_magic o = area_magic)) then (o, w, 0)
  else
    let '(o, ok) := bitmap_fixup o in
    if negb ok then (o, w, 0)
    else if (ao_size o =? 0) || (256 * 1024 <? ao_size o) then (o, w, 0)
    else
      let name := remap (ao_name o) 0 in
      if name =? 0 then (mkAreaObject (ao_magic o) (ao_size o) (ao_data o) name (ao_section o), w, 0)
      else
        let section := remap (ao_section o) (8 * ao_size o) in
        let o := mkAreaObject (ao_magic o) (ao_size o) (ao_data o) name section in
        if section =? 0 then (o, w, 0)
        else
          let '(w, section) := fixup_sections (Z.to_nat (ao_size o)) 0 (ao_size o) section w in
          (mkAreaObject (ao_magic o) (ao_size o) (ao_data o) name section, w, a).

(** An address that was looked at before, valid or not, is not looked at again. *)
(* src: tools/recovery-engine.cc 272-289 recovery_engine::fixup_area *)
Definition fixup_area st (ptr : Z) : recovery * Z :=
  match rv_areas st !! ptr with
  | Some a => (st, a)
  | None =>
      let a := remap ptr sizeof_area in
      let '(o, w, res) := area_fixup a (d_area st a) (d_word st) in
      (with_areas st (<[a := o]> (d_area st)) w (<[ptr := res]> (rv_areas st)), res)
  end.

(** ** Time sources *)

(** [name] is the pointer at the address [a] of the tool. *)
(* src: tools/recovery-engine.cc 117-133 timesource_validator::fixup *)
Definition timesource_fixup (a name : Z) : Z * Z :=
  if a =? 0 then (name, 0) else let name := remap name 0 in (name, if name =? 0 then 0 else a).

(* src: tools/recovery-engine.cc 228-244 recovery_engine::fixup_timesource *)
Definition fixup_timesource st (ptr : Z) : recovery * Z :=
  match rv_timesources st !! ptr with
  | Some a => (st, a)
  | None =>
      let a := remap ptr sizeof_timesource in
      let '(name, res) := timesource_fixup a (d_source st a) in
      (with_sources st (<[a := name]> (d_source st)) (<[ptr := res]> (rv_timesources st)), res)
  end.

(** ** Rings *)

Variable special_area : Z.                        (* the tool's area for special records *)
Variables ring_name ring_top : Z -> Z.            (* the pointers of the ring at an address *)

Fixpoint fixup_slots st (r : ringbuf record) (l : list Z) : option (recovery * ringbuf record) :=
  match l with
  | [] => Some (st, r)
  | p :: l =>
      let x := _recs r !!! Z.to_nat p in
      let '(st, a) := if is_special x then (st, 0) else fixup_area st (default 0 (r_area x)) in
      x ← fixup_record (fun q => remap q 0) (fun _ => a) special_area x;
      fixup_slots st (write_slot r p x) l
  end.

(* src: tools/recovery-engine.cc 291-328 recovery_engine::fixup_records *)
Definition fixup_records (fuel : nat) st (r : ringbuf record) : option (recovery * ringbuf record) :=
  l ← visited fuel r (it_reset r); fixup_slots st r l.

(** The checks, with the result of mapping the pointers of the ring at [p]. *)
Definition ring_valid (reset : bool) (p : Z) (r : ringbuf record) : option (ringbuf record) :=
  ring_fixup (negb (remap (ring_name p) 0 =? 0)) (negb (remap (ring_top p) (record_size r *u32 capacity r) =? 0)) reset r.

(* src: tools/recovery-engine.cc 347-356 recovery_engine::find_and_fixup_rings *)
Definition ring_attempt (fuel : nat) (reset : bool) (p : Z) st : option (recovery * bool) :=
  match ring_valid reset p (d_ring st p) with
  | None => Some (st, false)
  | Some r =>
      let '(st, ts) := fixup_timesource st (_timesource r) in
      '(st, r) ← fixup_records fuel st (set_timesource r ts);
      Some (with_rings st (<[p := r]> (d_ring st)) (rv_rings st ++ [p]), true)
  end.

(** Where the tool has the data of a section. *)
Variable place : section -> Z.

(* src: tools/recovery-engine.cc 330-364 recovery_engine::find_and_fixup_rings *)
Fixpoint find_and_fixup_rings (fuel : nat) (reset : bool) (secs : list section) st : option recovery :=
  match secs with
  | [] => Some st
  | s :: secs =>
      st ← scan ring_magic sizeof_ring (ring_attempt fuel reset) (S (length (s_data s))) (place s) (s_data s) 0 st;
      find_and_fixup_rings fuel reset secs st
  end.

(** ** Output buffers *)

(** What is left at the address [a], and the result. *)
(* src: tools/recovery-engine.cc 178-204 ostrbuf_validator::fixup *)
Definition ostrbuf_fixup (a : Z) (b : buf_object) : buf_object * Z :=
  if a =? 0 then (b, 0)
  else if (bo_capacity b =? 0) || (256 * 1024 * 1024 <? bo_capacity b) then (b, 0)
  else if bo_capacity b <? bo_size b then (b, 0)
  else
    let data := remap (bo_data b) (bo_capacity b) in
    (mkBufObject (bo_capacity b) (bo_size b) (bo_failed b) (<[63%nat := 0]> (bo_error b)) data, if data =? 0 then 0 else a).

(* src: tools/recovery-engine.cc 246-265 recovery_engine::fixup_ostrbuf *)
Definition fixup_ostrbuf st (ptr : Z) : recovery * Z :=
  if ptr =? 0 then (st, 0)
  else match rv_outbufs st !! ptr with
  | Some a => (st, a)
  | None =>
      let a := remap ptr sizeof_ostrbuf in
      let '(b, res) := ostrbuf_fixup a (d_buf st a) in
      (with_bufs st (<[a := b]> (d_buf st)) (<[ptr := res]> (rv_outbufs st)), res)
  end.

Variable output_ostrbuf : Z -> Z.                 (* the pointer to the buffer of the output at an address *)

(** The signature of an output is behind its table of virtual functions. *)
(* src: tools/recovery-engine.cc 206-226 output_validator::fixup *)
Definition output_fixup (p : Z) : option Z :=
  let o := p - 8 in if output_ostrbuf o =? 0 then None else Some o.

(* src: tools/recovery-engine.cc 383-392 recovery_engine::find_and_fixup_outbufs *)
Definition output_attempt (p : Z) st : option (recovery * bool) :=
  match output_fixup p with
  | None => Some (st, false)
  | Some o => let '(st, b) := fixup_ostrbuf st (output_ostrbuf o) in Some (st, negb (b =? 0))
  end.

(* src: tools/recovery-engine.cc 366-396 recovery_engine::find_and_fixup_outbufs *)
Fixpoint find_and_fixup_outbufs (secs : list section) st : option recovery :=
  match secs with
  | [] => Some st
  | s :: secs =>
      st ← scan output_magic sizeof_output output_attempt (S (length (s_data s))) (place s) (s_data s) 0 st;
      find_and_fixup_outbufs secs st
  end.

(** ** What is printed of a buffer *)

Variable m : memory.                              (* the memory of the tool *)

Fixpoint drop_zeros (l : bytes) : bytes := match l with 0 :: l => drop_zeros l | _ => l end.

(** The loop takes zeros from the end. *)
Definition trim (l : bytes) : bytes := rev (drop_zeros (rev l)).

Fixpoint cstr_of (l : bytes) : bytes := match l with [] => [] | c :: l => if c =? 0 then [] else c :: cstr_of l end.

Definition ruler : bytes := str "#### #### #### ####" ++ [10].

(* src: tools/recovery-engine.cc 451-474 ostrbuf_dump::write *)
Definition buf_dump (all : bool) (b : buf_object) : bytes :=
  ruler ++ str "Dumping output buffer: capacity " ++ dec (bo_capacity b) ++ str " size " ++ dec (bo_size b) ++
  str " failed " ++ dec (Z.b2z (bo_failed b)) ++ str " data " ++ dec (Z.b2z (negb (bo_data b =? 0))) ++ [10] ++
  (if bo_failed b then cstr_of (bo_error b) else []) ++
  (if bo_data b =? 0 then [] else trim (mread m (bo_data b) (if all then bo_capacity b else bo_size b))) ++
  ruler ++ [10].

Definition key_le (x y : Z * Z) : Prop := x.1 <= y.1.

#[export] Instance key_le_dec : RelDecision key_le.
Proof. unfold key_le; intros x y; apply _. Defined.

(** In the order of the addresses in the dead process. *)
(* src: tools/recovery-engine.cc 476-486 recovery_engine::dump_outbufs *)
Definition dump_outbufs (all : bool) st : list bytes :=
  omap (fun kv => if kv.2 =? 0 then None else Some (buf_dump all (d_buf st kv.2)))
    (merge_sort key_le (map_to_list (rv_outbufs st))).

(** The constructor. *)
(* src: tools/recovery-engine.cc 488-493 recovery_engine::recovery_engine *)
Definition recovery_engine (fuel : nat) (reset : bool) (secs : list section) st : option recovery :=
  st ← find_and_fixup_rings fuel reset secs st; find_and_fixup_outbufs secs st.
End Recover.

(** ** What a search finds *)

Section ScanFacts.
Context {S : Type}.
Variables (sig : bytes) (sz : Z) (attempt : Z -> S -> option (S * bool)).
Hypothesis sz_pos : 0 < sz.

Definition sig_at (data : bytes) (p : Z) : Prop := starts sig (drop (Z.to_nat p) data) = true.

Lemma memmem_spec l : forall p, match memmem sig l p with
  | Some q => p <= q /\ starts sig (drop (Z.to_nat (q - p)) l) = true /\
              forall k, p <= k < q -> starts sig (drop (Z.to_nat (k - p)) l) = false
  | None => forall k, 0 <= k -> starts sig (drop (Z.to_nat k) l) = false
  end.
Proof.
  induction l as [|c l IH]; intros p; cbn [memmem].
  - destruct (starts sig []) eqn:E; [|intros k _; now rewrite drop_nil].
    rewrite Z.sub_diag; split; [lia|]; split; [exact E|lia].
  - destruct (starts sig (c :: l)) eqn:E; [rewrite Z.sub_diag; split; [lia|]; split; [exact E|lia]|].
    specialize (IH (p + 1)); destruct (memmem sig l (p + 1)) as [q|].
    + destruct IH as (Hq & Eq & Nq); split; [lia|]; split.
      * replace (Z.to_nat (q - p)) with (Datatypes.S (Z.to_nat (q - (p + 1)))) by lia; exact Eq.
      * intros k Hk; destruct (Z.eq_dec k p) as [->|N]; [now rewrite Z.sub_diag|].
        replace (Z.to_nat (k - p)) with (Datatypes.S (Z.to_nat (k - (p + 1)))) by lia; apply Nq; lia.
    + intros k Hk; destruct (Z.eq_dec k 0) as [->|N]; [exact E|].
      replace (Z.to_nat k) with (Datatypes.S (Z.to_nat (k - 1))) by lia; apply IH; lia.
Qed.

Variables (base : Z) (data : bytes) (good : Z -> bool).
Abbreviation len := (Z.of_nat (length data)).

(** What was found below [ptr]: objects with the signature that pass the
    check, apart from each other; and every such place is in one of them. *)
Record picked (f : list Z) (ptr : Z) : Prop := {
  pk_sorted : StronglySorted (fun a b => a + sz <= b) f;
  pk_good : forall q, q ∈ f -> 0 <= q /\ q + sz <= len /\ q + sz <= ptr /\ sig_at data q /\ good q = true;
  pk_all : forall p, 0 <= p < ptr -> p + sz <= len -> sig_at data p -> good p = true -> exists q, q ∈ f /\ q <= p < q + sz }.

Lemma picked_skip f ptr ptr' : picked f ptr -> ptr <= ptr' ->
  (forall p, ptr <= p < ptr' -> p + sz <= len -> sig_at data p -> good p = false) -> picked f ptr'.
Proof.
  intros [So Go Al] L N; split; [exact So| |].
  - intros q Hq; destruct (Go q Hq) as (? & ? & ? & ?); repeat split; tauto || lia.
  - intros p Hp Hl Sg G; destruct (Z_lt_ge_dec p ptr) as [D|D]; [apply Al; auto; lia|].
    rewrite N in G by (auto; lia); discriminate.
Qed.

Lemma sorted_snoc f p : StronglySorted (fun a b => a + sz <= b) f -> (forall q, q ∈ f -> q + sz <= p) ->
  StronglySorted (fun a b => a + sz <= b) (f ++ [p]).
Proof.
  induction 1 as [|a f Sf IH Ha]; intros L; cbn [app]; [repeat constructor|]; constructor.
  - apply IH; intros q Hq; apply L; now right.
  - apply Forall_app; split; [exact Ha|]; constructor; [apply L; now left|constructor].
Qed.

Lemma picked_take f p : picked f p -> 0 <= p -> p + sz <= len -> sig_at data p -> good p = true -> picked (f ++ [p]) (p + sz).
Proof.
  intros [So Go Al] Hp Hl Sg G; split.
  - apply sorted_snoc; [exact So|]; intros q Hq; destruct (Go q Hq); tauto.
  - intros q; rewrite elem_of_app, list_elem_of_singleton; intros [Hq| ->]; [destruct (Go q Hq) as (? & ? & ? & ?)|];
      repeat split; tauto || lia.
  - intros k Hk Kl Ks Kg; destruct (Z_lt_ge_dec k p) as [D|D].
    + destruct (Al k ltac:(lia) Kl Ks Kg) as (q & Hq & L); exists q; rewrite elem_of_app; auto.
    + exists p; rewrite elem_of_app, list_elem_of_singleton; split; [auto|lia].
Qed.

(** The search ends.  [J f p st] is what the state is when [f] was found and
    nothing at [p] or behind it was touched. *)
Lemma scan_ok (J : list Z -> Z -> S -> Prop) :
  (forall f p q st, J f p st -> p <= q -> J f q st) ->
  (forall f p st, 0 <= p -> p + sz <= len -> sig_at data p -> J f p st ->
     exists st', attempt (base + p) st = Some (st', good p) /\ J (if good p then f ++ [p] else f) (p + 1) st') ->
  forall fuel f ptr st, 0 <= ptr -> (Z.to_nat (len - ptr) < fuel)%nat -> J f ptr st -> picked f ptr ->
  exists f' q st', scan sig sz attempt fuel base data ptr st = Some st' /\ J f' q st' /\ picked f' (len + 1).
Proof.
  intros Mono Step; induction fuel as [|fuel IH]; intros f ptr st Hp Hf HJ Pk; [lia|]; cbn [scan].
  assert (End : forall p, ptr <= p -> (forall k, ptr <= k < p -> ~ sig_at data k) -> len < p + sz ->
    exists f' q st', Some st = Some st' /\ J f' q st' /\ picked f' (len + 1)).
  { intros p L N E; exists f, ptr, st; split; [done|]; split; [exact HJ|]; destruct Pk as [So Go Al]; split; [exact So| |].
    - intros q Hq; destruct (Go q Hq) as (? & ? & ? & ?); repeat split; tauto || lia.
    - intros k Hk Kl Ks Kg; destruct (Z_lt_ge_dec k ptr); [apply Al; auto; lia|]; exfalso; apply (N k); [lia|exact Ks]. }
  destruct (Z.ltb_spec (len - ptr) sz) as [Sz|Sz]; [apply (End ptr); lia|].
  pose proof (memmem_spec (drop (Z.to_nat ptr) data) ptr) as M; destruct (memmem sig _ ptr) as [p|].
  - destruct M as (Lp & Sp & Np).
    assert (Dr : forall k, ptr <= k -> drop (Z.to_nat (k - ptr)) (drop (Z.to_nat ptr) data) = drop (Z.to_nat k) data).
    { intros k Hk; rewrite drop_drop; f_equal; lia. }
    rewrite Dr in Sp by lia.
    assert (N : forall k, ptr <= k < p -> ~ sig_at data k) by (intros k Hk; unfold sig_at; rewrite <- Dr by lia; rewrite Np by lia; done).
    unfold inside; rewrite (proj2 (Z.leb_le 0 p)) by lia; cbn [andb].
    destruct (Z.leb_spec (p + sz) len) as [I|I]; cbn [negb]; [|now apply (End p)].
    pose proof (picked_skip f ptr p Pk Lp ltac:(intros k Hk _ Ks; now apply N in Ks)) as Pk'.
    destruct (Step f p st ltac:(lia) I Sp (Mono _ _ _ _ HJ Lp)) as (st' & -> & HJ'); cbn [mbind option_bind].
    destruct (good p) eqn:G; (eapply IH; [lia|lia| |]).
    + eapply Mono; [exact HJ'|lia].
    + apply picked_take; auto; lia.
    + exact HJ'.
    + apply (picked_skip f p); [exact Pk'|lia|]; intros k Hk _ _; now replace k with p by lia.
  - apply (End (len + 1)); [lia| |lia]; intros k Hk Ks; unfold sig_at in Ks.
    specialize (M (k - ptr) ltac:(lia)); rewrite drop_drop in M.
    replace (Z.to_nat ptr + Z.to_nat (k - ptr))%nat with (Z.to_nat k) in M by lia; congruence.
Qed.
End ScanFacts.
