(* ===== verification/RecoveryFacts.v ===== *)
(** * What is recovered from a core dump

    The rings that the search finds are the ones that are there, with their
    records; areas are repaired once; each output buffer is printed once. *)

From stdpp Require Import functions.
From S2P Require Import Prelude Args Record Ring Timestamp Area Post Ntos OutName Coredump Recovery RecoveryScan.

(** ** Where the data of the sections is *)

(** [a] is behind the offset [p] of the section [s], or in a section of [rest]. *)
Definition ahead (place : section -> Z) (s : section) (rest : list section) (p a : Z) : Prop :=
  (exists q, p <= q < Z.of_nat (length (s_data s)) /\ a = place s + q) \/
  (exists t q, t ∈ rest /\ 0 <= q < Z.of_nat (length (s_data t)) /\ a = place t + q).

(** The sections are apart from each other in the memory of the tool. *)
Fixpoint placed (place : section -> Z) (secs : list section) : Prop :=
  match secs with
  | [] => True
  | s :: rest =>
      (forall t p q, t ∈ rest -> 0 <= p < Z.of_nat (length (s_data s)) -> 0 <= q < Z.of_nat (length (s_data t)) ->
         place s + p <> place t + q) /\ placed place rest
  end.

Lemma ahead_mono place s rest p q a : p <= q -> ahead place s rest q a -> ahead place s rest p a.
Proof. intros L [(k & Hk & ->)|H]; [left; exists k; split; [lia|done]|now right]. Qed.

Lemma ahead_not place s rest p : placed place (s :: rest) -> 0 <= p < Z.of_nat (length (s_data s)) ->
  ~ ahead place s rest (p + 1) (place s + p).
Proof. intros [D _] Hp [(q & Hq & E)|(t & q & Ht & Hq & E)]; [lia|now apply (D t p q)]. Qed.

Lemma ahead_here place s rest p q : p <= q -> q < Z.of_nat (length (s_data s)) -> ahead place s rest p (place s + q).
Proof. intros; left; exists q; split; [lia|done]. Qed.

Lemma ahead_next place s t rest p a : ahead place t rest 0 a -> ahead place s (t :: rest) p a.
Proof.
  intros [(q & Hq & ->)|(u & q & Hu & Hq & ->)]; right; [exists t, q|exists u, q]; repeat split; try lia; [now left|now right].
Qed.

(** ** Records *)

(** What the repair of a record keeps. *)
Record kept (x y : record) : Prop := {
  kp_time : r_timestamp y = r_timestamp x; kp_seq : r_seqnum y = r_seqnum x;
  kp_len : length (r_argval y) = length (r_argval x);
  kp_special : is_special x = true -> r_argval y = r_argval x;
  kp_normal : is_special x = false -> r_section y = r_section x /\ r_argtype y = r_argtype x /\
    forall j, 0 <= j -> get_arg_type x j <> GSTR -> get_arg_val64 y j = get_arg_val64 x j }.

Lemma fixup_record_ok remap fix_area special x : (64 <= length (r_argval x))%nat ->
  exists y, fixup_record remap fix_area special x = Some y /\ kept x y.
Proof.
  intros L; unfold fixup_record; destruct (is_special x) eqn:Sp; [eexists; split; [reflexivity|]; split; auto; congruence|].
  set (x' := mkRecord _ _ _ _ _ _).
  assert (L' : (0 + Z.of_nat 8) * 8 <= Z.of_nat (length (r_argval x'))) by (change (r_argval x') with (r_argval x); lia).
  destruct (fixup_args_ok remap 8 0 x' (Z.le_refl 0) L') as (y & E & F & Ly & _ & B).
  exists y; split; [exact E|]; split; [rewrite F; reflexivity|rewrite F; reflexivity|exact Ly|congruence|]; intros _.
  split; [rewrite F; reflexivity|]; split; [rewrite F; reflexivity|]; intros j Hj T; apply (B j Hj); right; right; exact T.
Qed.

(** What the repair of a ring keeps. *)
Record repaired (r r' : ringbuf record) : Prop := {
  rp_name : _name r' = _name r; rp_head : _head r' = _head r; rp_tail : _tail r' = _tail r;
  rp_shift : _rec_shift r' = _rec_shift r; rp_cap : _capacity r' = _capacity r;
  rp_seq : _seqnum r' = _seqnum r; rp_drop : _dropcnt r' = _dropcnt r;
  rp_len : length (_recs r') = length (_recs r);
  rp_recs : forall i, _recs r' !!! i = _recs r !!! i \/ kept (_recs r !!! i) (_recs r' !!! i) }.

Lemma repaired_wf r r' : repaired r r' -> ring_wf r -> ring_wf r'.
Proof. intros [N H T S C _ _ L _] [M Hh Ht]; split; rewrite ?H, ?T, ?S, ?C, ?L; assumption. Qed.

Lemma repaired_slots (r r' : ringbuf record) : repaired r r' -> slot_list r' = slot_list r.
Proof. intros [N H T S C _ _ L _]; unfold slot_list, size, capacity; now rewrite H, T, C. Qed.

(** The unread records, one by one. *)
Lemma repaired_contents r r' : repaired r r' -> Forall2 (fun x y => y = x \/ kept x y) (contents r) (contents r').
Proof.
  intros Rp; rewrite !contents_slot_list, (repaired_slots _ _ Rp); generalize (slot_list r) as l; intros l.
  induction l as [|p l IH]; constructor; [apply Rp|exact IH].
Qed.

Lemma slot_list_range (r : ringbuf record) n : ring_facts r n -> Forall (fun p => 0 <= p < Z.of_nat (length (_recs r))) (slot_list r).
Proof.
  intros F; unfold slot_list; rewrite (rf_cap _ _ F), (rf_len _ _ F); apply Forall_fmap, Forall_forall; intros i _; cbn.
  apply Z.mod_pos_bound; pose proof (rf_n _ _ F); lia.
Qed.

Lemma slots_distinct (r : ringbuf record) n : ring_facts r n -> NoDup (slot_list r).
Proof.
  intros F; unfold slot_list; rewrite (rf_cap _ _ F); pose proof (size_range _ _ F) as Hs; pose proof (rf_n _ _ F) as Hn.
  apply NoDup_fmap_2_strong; [|apply NoDup_seqZ]; intros i j; rewrite !elem_of_seqZ; intros Hi Hj E.
  apply mod_add_inj in E; lia.
Qed.

Lemma Forall2_Exists_l {A B} (P : A -> B -> Prop) l k : Forall2 P l k -> forall x, x ∈ l -> exists y, y ∈ k /\ P x y.
Proof.
  induction 1 as [|a b l k H _ IH]; intros x Hx; [now apply not_elem_of_nil in Hx|].
  apply elem_of_cons in Hx as [->|Hx]; [exists b; split; [now left|done]|].
  destruct (IH x Hx) as (y & Hy & Py); exists y; split; [now right|done].
Qed.

Section Rings.
Variable remap : Z -> Z -> Z.
Variables sizeof_area sizeof_timesource sizeof_ring default_section_names NA special_area : Z.
Variables ring_name ring_top : Z -> Z.
Variable place : section -> Z.
Abbreviation fixup_slots := (fixup_slots remap sizeof_area default_section_names NA special_area).
Abbreviation fixup_records := (fixup_records remap sizeof_area default_section_names NA special_area).
Abbreviation fixup_area := (fixup_area remap sizeof_area default_section_names NA).
Abbreviation ring_valid := (ring_valid remap ring_name ring_top).
Abbreviation ring_attempt := (ring_attempt remap sizeof_area sizeof_timesource default_section_names NA special_area ring_name ring_top).
Abbreviation find_and_fixup_rings :=
  (find_and_fixup_rings remap sizeof_area sizeof_timesource sizeof_ring default_section_names NA special_area ring_name ring_top place).

(** The rings of the state. *)
Definition same_rings (st st' : recovery) : Prop := d_ring st' = d_ring st /\ rv_rings st' = rv_rings st.

Lemma fixup_area_rings st ptr : same_rings st (fixup_area st ptr).1.
Proof. unfold fixup_area; destruct (rv_areas st !! ptr); [done|]; destruct (area_fixup _ _ _ _ _ _) as [[o w] a]; done. Qed.

Lemma fixup_timesource_rings st ptr : same_rings st (fixup_timesource remap sizeof_timesource st ptr).1.
Proof. unfold fixup_timesource; destruct (rv_timesources st !! ptr); [done|]; destruct (timesource_fixup _ _ _); done. Qed.

Lemma fixup_slots_ok r0 l : forall st r, NoDup l -> Forall (fun p => 0 <= p < Z.of_nat (length (_recs r0))) l ->
  Forall (fun x => (64 <= length (r_argval x))%nat) (_recs r0) -> repaired r0 r ->
  (forall p, p ∈ l -> _recs r !!! Z.to_nat p = _recs r0 !!! Z.to_nat p) ->
  exists st' r', fixup_slots st r l = Some (st', r') /\ repaired r0 r' /\ same_rings st st'.
Proof.
  induction l as [|p l IH]; intros st r Nd Rg Lg Rp U; cbn [fixup_slots]; [now exists st, r|].
  apply NoDup_cons in Nd as [Np Nd]; apply Forall_cons in Rg as [Hp Rg]; rewrite (U p) by now left.
  assert (Hx : _recs r0 !! Z.to_nat p = Some (_recs r0 !!! Z.to_nat p)) by (apply list_lookup_lookup_total_lt; lia).
  set (x := _recs r0 !!! Z.to_nat p) in *.
  assert (A : exists st1 a, (if is_special x then (st, 0) else fixup_area st (default 0 (r_area x))) = (st1, a) /\ same_rings st st1).
  { destruct (is_special x); [now exists st, 0|]; pose proof (fixup_area_rings st (default 0 (r_area x))) as S.
    destruct (fixup_area st _) as [st1 a]; now exists st1, a. }
  destruct A as (st1 & a & -> & S1); cbv zeta.
  destruct (fixup_record_ok (fun q => remap q 0) (fun _ => a) special_area x) as (y & -> & K).
  { rewrite Forall_lookup in Lg; now apply (Lg _ _ Hx). }
  cbn [mbind option_bind]; destruct (IH st1 (write_slot r p y)) as (st' & r' & E & Rp' & S2); auto.
  - destruct Rp as [N H T Sh C Sq D L R]; split; cbn [_name _head _tail _rec_shift _capacity _seqnum _dropcnt _recs write_slot set_recs]; auto;
      [now rewrite length_insert|]; intros i; destruct (decide (i = Z.to_nat p)) as [->|Ni].
    + rewrite list_lookup_total_insert_eq by lia; now right.
    + rewrite list_lookup_total_insert_ne by done; apply R.
  - intros q Hq; cbn [_recs write_slot set_recs]; rewrite list_lookup_total_insert_ne; [apply U; now right|].
    rewrite Forall_forall in Rg; specialize (Rg q Hq); intros E; assert (p = q) as -> by lia; done.
  - exists st', r'; split; [exact E|]; split; [exact Rp'|]; unfold same_rings in *; destruct S1, S2; split; congruence.
Qed.

Lemma repaired_timesource r ts : repaired r (set_timesource r ts).
Proof. split; try done; now left. Qed.

Lemma fixup_records_ok fuel st r ts : ring_wf r -> (Z.to_nat (size r) < fuel)%nat ->
  Forall (fun x => (64 <= length (r_argval x))%nat) (_recs r) ->
  exists st' r', fixup_records fuel st (set_timesource r ts) = Some (st', r') /\ repaired r r' /\ same_rings st st'.
Proof.
  intros W Hf Lg; pose proof (repaired_wf _ _ (repaired_timesource r ts) W) as W'; destruct (ring_wf_facts r W) as (n & _ & F).
  unfold fixup_records; rewrite (visited_ok _ fuel W') by exact Hf; cbn [mbind option_bind].
  change (slot_list (set_timesource r ts)) with (slot_list r).
  apply (fixup_slots_ok r); [now apply (slots_distinct r n)|now apply (slot_list_range r n)|exact Lg|apply repaired_timesource|done].
Qed.
(** What passes the checks is a ring. *)
Definition honest (fuel : nat) (reset : bool) (rings : Z -> ringbuf record) : Prop :=
  forall a r, ring_valid reset a (rings a) = Some r ->
    ring_wf r /\ (Z.to_nat (size r) < fuel)%nat /\ Forall (fun x => (64 <= length (r_argval x))%nat) (_recs r).

(** The ring that was at an address, found and repaired. *)
Definition recovered (reset : bool) (rings : Z -> ringbuf record) (a : Z) (r' : ringbuf record) : Prop :=
  exists r, ring_valid reset a (rings a) = Some r /\ repaired r r'.

(** Of the rings, [done] were found in other sections and [f] below [p] in [s]. *)
Record searched (reset : bool) (rings : Z -> ringbuf record) (done : list Z) (s : section) (rest : list section)
    (f : list Z) (p : Z) st : Prop := {
  se_list : rv_rings st = done ++ map (Z.add (place s)) f;
  se_ahead : forall a, ahead place s rest p a -> d_ring st a = rings a;
  se_found : forall a, a ∈ rv_rings st -> ~ ahead place s rest p a /\ recovered reset rings a (d_ring st a) }.

Definition good_ring (reset : bool) (rings : Z -> ringbuf record) (s : section) (p : Z) : bool :=
  match ring_valid reset (place s + p) (rings (place s + p)) with Some _ => true | None => false end.

Lemma ring_attempt_ok fuel reset rings done s rest f p st : honest fuel reset rings -> placed place (s :: rest) ->
  0 <= p < Z.of_nat (length (s_data s)) -> searched reset rings done s rest f p st ->
  exists st', ring_attempt fuel reset (place s + p) st = Some (st', good_ring reset rings s p) /\
    searched reset rings done s rest (if good_ring reset rings s p then f ++ [p] else f) (p + 1) st'.
Proof.
  intros Ho Pl Hp [Ls Ah Fo]; set (a := place s + p).
  assert (Ha : d_ring st a = rings a) by (apply Ah, ahead_here; lia).
  unfold ring_attempt, good_ring; fold a; rewrite Ha.
  destruct (ring_valid reset a (rings a)) as [r|] eqn:V.
  - destruct (Ho a r V) as (W & Hf & Lg); pose proof (fixup_timesource_rings st (_timesource r)) as S1.
    destruct (fixup_timesource _ _ st _) as [st1 ts]; cbn [fst] in S1.
    destruct (fixup_records_ok fuel st1 r ts W Hf Lg) as (st2 & r' & -> & Rp & S2); cbn [mbind option_bind].
    destruct S1 as [D1 L1], S2 as [D2 L2]; eexists; split; [reflexivity|]; split; cbn [rv_rings d_ring with_rings].
    + now rewrite L2, L1, Ls, map_app, app_assoc.
    + intros b Hb; rewrite fn_lookup_insert_ne; [rewrite D2, D1; apply Ah; eapply ahead_mono; [|exact Hb]; lia|].
      intros <-; now apply (ahead_not place s rest p Pl Hp).
    + intros b; rewrite elem_of_app, list_elem_of_singleton; intros [Hb| ->].
      * rewrite L2, L1 in Hb; destruct (Fo b Hb) as [Nb Rb]; split; [intros Ab; apply Nb; eapply ahead_mono; [|exact Ab]; lia|].
        rewrite fn_lookup_insert_ne, D2, D1; [exact Rb|]; intros <-; apply Nb, ahead_here; lia.
      * split; [now apply ahead_not|]; rewrite fn_lookup_insert; now exists r.
  - exists st; split; [done|]; split; [exact Ls| |].
    + intros b Hb; apply Ah; eapply ahead_mono; [|exact Hb]; lia.
    + intros b Hb; destruct (Fo b Hb) as [Nb Rb]; split; [intros Ab; apply Nb; eapply ahead_mono; [|exact Ab]; lia|exact Rb].
Qed.

Lemma searched_mono reset rings done s rest f p q st : p <= q -> searched reset rings done s rest f p st ->
  searched reset rings done s rest f q st.
Proof.
  intros L [Ls Ah Fo]; split; [exact Ls| |].
  - intros a Ha; apply Ah; eapply ahead_mono; eassumption.
  - intros a Ha; destruct (Fo a Ha) as [Na Ra]; split; [intros X; apply Na; eapply ahead_mono; eassumption|exact Ra].
Qed.

Hypothesis sizeof_ring_pos : 0 < sizeof_ring.
Abbreviation picked s := (picked ring_magic sizeof_ring (s_data s)).

Lemma scan_section fuel reset rings done s rest st : honest fuel reset rings -> placed place (s :: rest) ->
  searched reset rings done s rest [] 0 st ->
  exists f q st', scan ring_magic sizeof_ring (ring_attempt fuel reset) (S (length (s_data s))) (place s) (s_data s) 0 st = Some st' /\
    searched reset rings done s rest f q st' /\
    picked s (good_ring reset rings s) f (Z.of_nat (length (s_data s)) + 1).
Proof.
  intros Ho Pl Se; apply (scan_ok ring_magic sizeof_ring _ sizeof_ring_pos (place s) (s_data s) (good_ring reset rings s)
    (searched reset rings done s rest)) with (f := []).
  - intros; eapply searched_mono; eassumption.
  - intros f p st1 Hp Hl _ HJ; apply ring_attempt_ok; auto; lia.
  - lia.
  - lia.
  - exact Se.
  - split; [constructor|intros q Hq; now apply not_elem_of_nil in Hq|lia].
Qed.

Lemma find_rings_ok fuel reset rings secs : forall done st, honest fuel reset rings -> placed place secs -> rv_rings st = done ->
  (forall s p, s ∈ secs -> 0 <= p < Z.of_nat (length (s_data s)) -> d_ring st (place s + p) = rings (place s + p)) ->
  (forall a, a ∈ done -> recovered reset rings a (d_ring st a) /\
     forall s p, s ∈ secs -> 0 <= p < Z.of_nat (length (s_data s)) -> a <> place s + p) ->
  exists fs st', find_and_fixup_rings fuel reset secs st = Some st' /\
    rv_rings st' = done ++ concat (map (fun sf => map (Z.add (place sf.1)) sf.2) fs) /\ map fst fs = secs /\
    (forall s f, (s, f) ∈ fs -> picked s (good_ring reset rings s) f (Z.of_nat (length (s_data s)) + 1)) /\
    (forall a, a ∈ rv_rings st' -> recovered reset rings a (d_ring st' a)).
Proof.
  induction secs as [|s secs IH]; intros done st Ho Pl Ls Ah Fo; cbn [RecoveryScan.find_and_fixup_rings].
  { exists [], st; cbn; rewrite app_nil_r; do 3 (split; [done|]); split; [intros s f H; now apply not_elem_of_nil in H|].
    intros a Ha; rewrite Ls in Ha; apply Fo, Ha. }
  destruct (scan_section fuel reset rings done s secs st Ho Pl) as (f & q & st1 & -> & Se & Pk).
  { split; [now rewrite app_nil_r| |].
    - intros a [(k & Hk & ->)|(t & k & Ht & Hk & ->)]; apply Ah; auto; [now left|now right].
    - intros a Ha; rewrite Ls in Ha; destruct (Fo a Ha) as [R N]; split; [|exact R].
      intros [(k & Hk & E)|(t & k & Ht & Hk & E)]; [apply (N s k); auto; now left|apply (N t k); auto; now right]. }
  cbn [mbind option_bind]; destruct Se as [Ls1 Ah1 Fo1].
  destruct (IH (rv_rings st1) st1 Ho (proj2 Pl) eq_refl) as (fs & st2 & E & L2 & M2 & P2 & R2).
  - intros t k Ht Hk; apply Ah1; right; eauto.
  - intros a Ha; destruct (Fo1 a Ha) as [N R]; split; [exact R|]; intros t k Ht Hk ->; apply N; right; eauto.
  - exists ((s, f) :: fs), st2; split; [exact E|]; split; [|split; [cbn; congruence|split; [|exact R2]]].
    + rewrite L2, Ls1; cbn [map concat fst snd]; now rewrite app_assoc.
    + intros t g; rewrite elem_of_cons; intros [[= -> ->]|H]; [exact Pk|now apply P2].
Qed.
(** C16: The search finds the rings: if what passes the checks is a ring, the
    search ends, and in each section it has found rings that do not overlap;
    every place with the signature and a ring that passes the checks is found or
    is inside of a ring that was found.  Each ring found is the one that was
    there, with its counters, and each of its records keeps its time, its
    number, its section unless it is a special record, and all arguments that are
    not addresses; and the dump
    of the records ends, is in order of time and has for every unread record
    of every ring that was found one of the same time. *)
Theorem rings_found fuel reset secs st : honest fuel reset (d_ring st) -> placed place secs -> rv_rings st = [] ->
  exists fs st' D, find_and_fixup_rings fuel reset secs st = Some st' /\
    map fst fs = secs /\ rv_rings st' = concat (map (fun sf => map (Z.add (place sf.1)) sf.2) fs) /\
    (forall s f, (s, f) ∈ fs -> StronglySorted (fun a b => a + sizeof_ring <= b) f /\
       (forall p, p ∈ f -> 0 <= p /\ p + sizeof_ring <= Z.of_nat (length (s_data s)) /\ sig_at ring_magic (s_data s) p) /\
       forall p, 0 <= p -> p + sizeof_ring <= Z.of_nat (length (s_data s)) -> sig_at ring_magic (s_data s) p ->
         is_Some (ring_valid reset (place s + p) (d_ring st (place s + p))) -> exists q, q ∈ f /\ q <= p < q + sizeof_ring) /\
    dump_records fuel (map (d_ring st') (rv_rings st')) [] = Some D /\ StronglySorted earlier D /\
    forall a, a ∈ rv_rings st' -> exists r, ring_valid reset a (d_ring st a) = Some r /\ repaired r (d_ring st' a) /\
      Forall2 (fun x y => y = x \/ kept x y) (contents r) (contents (d_ring st' a)) /\
      forall x, x ∈ contents r -> exists e, e ∈ D /\ time e = r_timestamp x.
Proof.
  intros Ho Pl E0; destruct (find_rings_ok fuel reset (d_ring st) secs [] st Ho Pl E0) as (fs & st' & E & L & M & P & R);
    [done|intros a Ha; now apply not_elem_of_nil in Ha|].
  destruct (dump_records_firsts fuel (map (d_ring st') (rv_rings st')) [] []) as (D & Dr & Fi).
  - apply Forall_fmap, Forall_forall; intros a Ha; destruct (R a Ha) as (r & V & Rp); destruct (Ho a r V) as (W & _); now apply (repaired_wf r).
  - apply Forall_fmap, Forall_forall; intros a Ha; destruct (R a Ha) as (r & V & Rp); destruct (Ho a r V) as (_ & Hf & _); cbn.
    destruct Rp as [N H T S C _ _ Ln _]; unfold size in *; now rewrite H, T, C.
  - split; [constructor|intros e H|intros e H]; now apply not_elem_of_nil in H.
  - exists fs, st', D; split; [exact E|]; split; [exact M|]; split; [exact L|]; split; [|split; [exact Dr|split; [apply Fi|]]].
    + intros s f Hs; destruct (P s f Hs) as [So Go Al]; split; [exact So|]; split.
      * intros p Hp; destruct (Go p Hp); tauto.
      * intros p Hp Hl Sg [r V]; apply Al; auto; [lia|]; unfold good_ring; now rewrite V.
    + intros a Ha; destruct (R a Ha) as (r & V & Rp); exists r; pose proof (repaired_contents _ _ Rp) as Ct.
      do 3 (split; [done|]); intros x Hx; destruct (Forall2_Exists_l _ _ _ Ct x Hx) as (y & Hy & K).
      destruct (fs_all _ _ Fi (mkEntry (_name (d_ring st' a)) y)) as (e & He & Te).
      * cbn [app]; rewrite map_map; apply list_elem_of_In, in_concat; exists (unread (d_ring st' a)).
        split; apply list_elem_of_In; [apply list_elem_of_fmap; now exists a|now apply list_elem_of_fmap_2].
      * exists e; split; [exact He|]; rewrite Te; unfold time; cbn; destruct K as [->|K]; [done|apply K].
Qed.
End Rings.

(** ** Areas *)

Section Areas.
Variable remap : Z -> Z -> Z.
Variables sizeof_area default_section_names NA : Z.
Abbreviation fixup_area := (fixup_area remap sizeof_area default_section_names NA).
Abbreviation fixup_sections := (fixup_sections remap default_section_names NA).

(** The name of a section: where it is in the tool, or the dummy. *)
Definition name_or_NA (p : Z) : Z := if remap p 0 =? 0 then NA else remap p 0.

Lemma fixup_sections_ok count sec k : forall i w w' sec', 0 <= i -> fixup_sections k i count sec w = (w', sec') ->
  sec' = sec /\ (forall j, i <= j < i + Z.of_nat k -> w' (sec + 8 * j) = name_or_NA (w (sec + 8 * j))) /\
    (forall a, (forall j, i <= j < i + Z.of_nat k -> a <> sec + 8 * j) -> w' a = w a) \/
  sec' = default_section_names /\ i = 0 /\ count = 6 /\ remap (w sec) 0 = 0.
Proof.
  induction k as [|k IH]; intros i w w' sec' Hi E; cbn [RecoveryScan.fixup_sections] in E.
  { injection E as <- <-; left; split; [done|]; split; [lia|done]. }
  set (p := remap (w (sec + 8 * i)) 0) in *.
  assert (Next : forall v, v = name_or_NA (w (sec + 8 * i)) ->
    forall w1, (forall a, w1 a = <[sec + 8 * i := v]> w a) -> fixup_sections k (i + 1) count sec w1 = (w', sec') ->
    sec' = sec /\ (forall j, i <= j < i + Z.of_nat (S k) -> w' (sec + 8 * j) = name_or_NA (w (sec + 8 * j))) /\
      (forall a, (forall j, i <= j < i + Z.of_nat (S k) -> a <> sec + 8 * j) -> w' a = w a)).
  { intros v Hv w1 Hw E1; destruct (IH (i + 1) w1 w' sec' ltac:(lia) E1) as [(-> & A & B)|(_ & N & _)]; [|lia]; split; [done|]; split.
    - intros j Hj; destruct (Z.eq_dec j i) as [->|Nj].
      + rewrite B by lia; rewrite Hw, fn_lookup_insert; exact Hv.
      + rewrite A by lia; rewrite Hw, fn_lookup_insert_ne by lia; done.
    - intros a Ha; rewrite B by (intros j Hj; apply Ha; lia); rewrite Hw, fn_lookup_insert_ne; [done|].
      intros X; apply (Ha i); [lia|]; congruence. }
  destruct (Z.eqb_spec p 0) as [P|P]; cbn [negb] in E.
  - destruct ((i =? 0) && (count =? 6)) eqn:D.
    + apply andb_true_iff in D as [Di Dc]; apply Z.eqb_eq in Di, Dc; injection E as <- <-; right; subst i.
      do 3 (split; [done|]); unfold p in P; now rewrite Z.mul_0_r, Z.add_0_r in P.
    + left; apply (Next NA) with (w1 := <[sec + 8 * i := NA]> (<[sec + 8 * i := p]> w)); [|intros a|exact E].
      * unfold name_or_NA; fold p; now rewrite P.
      * destruct (decide (a = sec + 8 * i)) as [->|Na]; [now rewrite !fn_lookup_insert|now rewrite !fn_lookup_insert_ne by congruence].
  - left; apply (Next p) with (w1 := <[sec + 8 * i := p]> w); [|done|exact E].
    unfold name_or_NA; fold p; now rewrite (proj2 (Z.eqb_neq p 0)).
Qed.

(** An area that can be repaired. *)
Record area_there (a : Z) (o : area_object) : Prop := {
  at_addr : a <> 0; at_magic : ao_magic o = area_magic; at_size : 0 < ao_size o <= 256 * 1024;
  at_data : remap (ao_data o) (nbytes (ao_size o)) <> 0; at_name : remap (ao_name o) 0 <> 0;
  at_section : remap (ao_section o) (8 * ao_size o) <> 0 }.

(** C29: An area is repaired when it is first seen, and once only: a pointer that
    was asked for before, valid or not, changes nothing and gets the answer it
    got.  An area that is there with its bitmap, its name and its array of
    section names gets the addresses of the tool; each section has its name or
    a dummy, or all have the default names, which happens only to an area of
    six sections whose first name is not in the dump.  All other areas are
    left alone. *)
Theorem area_repaired st ptr st' res : 0 <= ao_size (d_area st (remap ptr sizeof_area)) ->
  rv_areas st !! ptr = None -> fixup_area st ptr = (st', res) ->
  fixup_area st' ptr = (st', res) /\
  let a := remap ptr sizeof_area in let o := d_area st a in let o' := d_area st' a in
  (forall b, b <> a -> d_area st' b = d_area st b) /\
  (res <> 0 <-> area_there a o) /\
  (res <> 0 -> res = a /\ ao_size o' = ao_size o /\ ao_name o' = remap (ao_name o) 0 /\
     ao_data o' = remap (ao_data o) (nbytes (ao_size o)) /\
     ((ao_section o' = remap (ao_section o) (8 * ao_size o) /\
       forall i, 0 <= i < ao_size o -> d_word st' (ao_section o' + 8 * i) = name_or_NA (d_word st (ao_section o' + 8 * i))) \/
      (ao_section o' = default_section_names /\ ao_size o = 6 /\ remap (d_word st (remap (ao_section o) (8 * ao_size o))) 0 = 0))).
Proof.
  intros Hs N E; unfold fixup_area in E; rewrite N in E; set (a := remap ptr sizeof_area) in *; cbv zeta.
  destruct (area_fixup _ _ _ a _ _) as [[o' w'] r] eqn:F; injection E as <- <-.
  cbn [d_area d_word with_areas]; split; [unfold RecoveryScan.fixup_area; cbn [rv_areas with_areas]; now rewrite lookup_insert_eq|].
  split; [intros b Hb; now rewrite fn_lookup_insert_ne by congruence|]; rewrite fn_lookup_insert.
  revert F; unfold area_fixup, bitmap_fixup; set (o := d_area st a) in *.
  assert (Bad : forall o1 w1, (area_there a o -> False) -> (o1, w1, 0) = (o', w', r) ->
    (r <> 0 <-> area_there a o) /\ (r <> 0 -> r = a /\ ao_size o' = ao_size o /\ ao_name o' = remap (ao_name o) 0 /\
     ao_data o' = remap (ao_data o) (nbytes (ao_size o)) /\
     ((ao_section o' = remap (ao_section o) (8 * ao_size o) /\
       forall i, 0 <= i < ao_size o -> w' (ao_section o' + 8 * i) = name_or_NA (d_word st (ao_section o' + 8 * i))) \/
      (ao_section o' = default_section_names /\ ao_size o = 6 /\ remap (d_word st (remap (ao_section o) (8 * ao_size o))) 0 = 0)))).
  { intros o1 w1 B [= _ _ <-]; split; [split; [done|intros H; now apply B in H]|done]. }
  destruct (Z.eqb_spec a 0) as [A|A]; [apply Bad; intros []; done|].
  case_bool_decide as M; cbn [negb]; [|apply Bad; intros []; done].
  destruct ((ao_size o =? 0) || (256 * 1024 <? ao_size o)) eqn:Sz; cbn [negb].
  { apply Bad; intros [_ _ H _ _ _]; apply orb_true_iff in Sz as [Sz|Sz]; [apply Z.eqb_eq in Sz|apply Z.ltb_lt in Sz]; lia. }
  assert (Hz : 0 < ao_size o <= 256 * 1024).
  { apply orb_false_iff in Sz as [S1 S2]; apply Z.eqb_neq in S1; apply Z.ltb_ge in S2; lia. }
  destruct (Z.eqb_spec (remap (ao_data o) (nbytes (ao_size o))) 0) as [D|D]; cbn [negb]; [apply Bad; intros []; done|].
  cbn [ao_size ao_name ao_section ao_data ao_magic]; rewrite Sz.
  destruct (Z.eqb_spec (remap (ao_name o) 0) 0) as [Nm|Nm]; [apply Bad; intros []; done|].
  destruct (Z.eqb_spec (remap (ao_section o) (8 * ao_size o)) 0) as [Sc|Sc]; [apply Bad; intros []; done|].
  destruct (fixup_sections _ 0 _ _ _) as [w1 sec] eqn:Fs; intros [= <- <- <-]; cbn [ao_size ao_name ao_section ao_data].
  split; [split; [now split|done]|]; intros _; do 4 (split; [done|]).
  destruct (fixup_sections_ok _ _ _ _ _ _ _ (Z.le_refl 0) Fs) as [(-> & H & _)|(-> & _ & H & R)]; [left|right; done].
  split; [done|]; intros i Hi; apply H; lia.
Qed.
End Areas.

(** ** Output buffers *)

Section Outbufs.
Variable remap : Z -> Z -> Z.
Variables sizeof_ostrbuf sizeof_output : Z.
Variable output_ostrbuf : Z -> Z.
Variable place : section -> Z.
Abbreviation at_ k := (remap k sizeof_ostrbuf).
Abbreviation fixup_ostrbuf := (fixup_ostrbuf remap sizeof_ostrbuf).
Abbreviation output_attempt := (output_attempt remap sizeof_ostrbuf output_ostrbuf).
Abbreviation find_and_fixup_outbufs := (find_and_fixup_outbufs remap sizeof_ostrbuf sizeof_output place output_ostrbuf).

(** Pointers are such that their objects end below [2^64]; the objects of
    different pointers are at different places. *)
Definition is_ptr (k : Z) : Prop := 0 <= k /\ k + sizeof_ostrbuf < 18446744073709551616.
Hypothesis pointers : forall a, is_ptr (output_ostrbuf a).
Hypothesis remap_inj : forall k k', is_ptr k -> is_ptr k' -> at_ k = at_ k' -> at_ k <> 0 -> k = k'.

(** What becomes of the buffer with the address [k] of the dead process. *)
Definition buf_result (bufs : Z -> buf_object) (k : Z) : buf_object * Z := ostrbuf_fixup remap (at_ k) (bufs (at_ k)).

Lemma buf_result_addr bufs k : (buf_result bufs k).2 <> 0 -> (buf_result bufs k).2 = at_ k /\ at_ k <> 0.
Proof.
  unfold buf_result, ostrbuf_fixup; destruct (Z.eqb_spec (at_ k) 0); [done|]; repeat case_match; cbn [snd]; done.
Qed.

(** [P] holds of the addresses that were asked for. *)
Record repaired_bufs (bufs : Z -> buf_object) (P : Z -> Prop) st : Prop := {
  rb_known : forall k a, rv_outbufs st !! k = Some a -> (P k /\ is_ptr k) /\ a = (buf_result bufs k).2 /\
    (a <> 0 -> d_buf st a = (buf_result bufs k).1);
  rb_other : forall k, is_ptr k -> rv_outbufs st !! k = None -> at_ k <> 0 -> d_buf st (at_ k) = bufs (at_ k) }.

Lemma fixup_ostrbuf_ok bufs (P : Z -> Prop) st k : P k -> is_ptr k -> repaired_bufs bufs P st -> k <> 0 -> exists st',
  fixup_ostrbuf st k = (st', (buf_result bufs k).2) /\ repaired_bufs bufs P st' /\
  rv_outbufs st' !! k = Some (buf_result bufs k).2 /\ forall j a, rv_outbufs st !! j = Some a -> rv_outbufs st' !! j = Some a.
Proof.
  intros Pk Ik [Kn Ot] Nk; unfold RecoveryScan.fixup_ostrbuf; rewrite (proj2 (Z.eqb_neq k 0)) by done.
  destruct (rv_outbufs st !! k) as [a|] eqn:L.
  { destruct (Kn k a L) as (_ & -> & _); exists st; split; [done|]; split; [now split|]; split; [exact L|auto]. }
  assert (F : ostrbuf_fixup remap (at_ k) (d_buf st (at_ k)) =
    if decide (at_ k = 0) then (d_buf st 0, 0) else buf_result bufs k).
  { unfold buf_result; case_decide as D; [rewrite D; reflexivity|now rewrite Ot]. }
  assert (R0 : at_ k = 0 -> (buf_result bufs k).2 = 0) by (intros D; unfold buf_result; rewrite D; reflexivity).
  assert (R : (ostrbuf_fixup remap (at_ k) (d_buf st (at_ k))).2 = (buf_result bufs k).2).
  { rewrite F; case_decide as D; [now rewrite R0|done]. }
  destruct (ostrbuf_fixup remap (at_ k) (d_buf st (at_ k))) as [b res]; cbn [snd] in R; subst res.
  eexists; split; [reflexivity|]; cbn [rv_outbufs d_buf with_bufs].
  split; [|split; [now rewrite lookup_insert_eq|intros j a Hj; rewrite lookup_insert_ne by congruence; exact Hj]].
  assert (Same : at_ k <> 0 -> b = (buf_result bufs k).1) by (intros D; rewrite decide_False in F by done; now rewrite <- F).
  split; cbn [rv_outbufs d_buf with_bufs].
  - intros j a; destruct (decide (j = k)) as [->|Nj].
    + rewrite lookup_insert_eq; intros [= <-]; do 2 (split; [done|]); intros Na; destruct (buf_result_addr bufs k Na) as [-> D].
      rewrite fn_lookup_insert; now apply Same.
    + rewrite lookup_insert_ne by congruence; intros Hj; destruct (Kn j a Hj) as ([Pj Ij] & Ea & Da); do 2 (split; [done|]); intros Na.
      rewrite fn_lookup_insert_ne; [now apply Da|]; intros X; destruct (buf_result_addr bufs j ltac:(congruence)) as [Y Z].
      apply Nj, remap_inj; [done|done|congruence|done].
  - intros j Ij; destruct (decide (j = k)) as [->|Nj]; [now rewrite lookup_insert_eq|]; rewrite lookup_insert_ne by congruence.
    intros Hj Na; rewrite fn_lookup_insert_ne; [now apply Ot|]; intros X; apply Nj; symmetry; apply remap_inj; [done|done|congruence..].
Qed.

(** The buffer of the output whose signature is at the address [a]. *)
Definition buffer_of (a : Z) : Z := output_ostrbuf (a - 8).

Definition good_output bufs (s : section) (p : Z) : bool :=
  negb (buffer_of (place s + p) =? 0) && negb ((buf_result bufs (buffer_of (place s + p))).2 =? 0).

(** The addresses asked for are those of outputs that have the signature. *)
Definition asked (secs : list section) (k : Z) : Prop :=
  k <> 0 /\ exists s p, s ∈ secs /\ 0 <= p /\ p + sizeof_output <= Z.of_nat (length (s_data s)) /\ sig_at output_magic (s_data s) p /\
    k = buffer_of (place s + p).

Record outs_searched bufs (P : Z -> Prop) (known : list Z) (s : section) (f : list Z) (p : Z) st : Prop := {
  os_bufs : repaired_bufs bufs P st;
  os_known : forall k, k ∈ known -> is_Some (rv_outbufs st !! k);
  os_found : forall q, q ∈ f -> is_Some (rv_outbufs st !! buffer_of (place s + q)) }.

Lemma output_attempt_ok bufs secs known s f p st : s ∈ secs -> 0 <= p -> p + sizeof_output <= Z.of_nat (length (s_data s)) ->
  sig_at output_magic (s_data s) p -> outs_searched bufs (asked secs) known s f p st ->
  exists st', output_attempt (place s + p) st = Some (st', good_output bufs s p) /\
    outs_searched bufs (asked secs) known s (if good_output bufs s p then f ++ [p] else f) (p + 1) st'.
Proof.
  intros Hs Hp Hl Sg [B K F]; unfold RecoveryScan.output_attempt, output_fixup, good_output, buffer_of in *; cbv zeta.
  set (k := output_ostrbuf (place s + p - 8)) in *; destruct (Z.eqb_spec k 0) as [Z0|N0]; cbn [negb andb].
  { exists st; split; [done|]; split; [exact B|exact K|exact F]. }
  destruct (fixup_ostrbuf_ok bufs (asked secs) st k) as (st' & E & B' & L' & M'); [|apply pointers|done|done|].
  { split; [done|]; exists s, p; repeat split; auto. }
  fold k; rewrite E; exists st'; split; [done|].
  assert (F' : forall q, q ∈ f -> is_Some (rv_outbufs st' !! output_ostrbuf (place s + q - 8))) by
    (intros q Hq; destruct (F q Hq) as [a Ha]; exists a; now apply M').
  split; [exact B'|intros j Hj; destruct (K j Hj) as [a Ha]; exists a; now apply M'|].
  destruct (Z.eqb_spec (buf_result bufs k).2 0); cbn [negb]; [exact F'|].
  intros q; rewrite elem_of_app, list_elem_of_singleton; intros [Hq| ->]; [now apply F'|]; unfold buffer_of; fold k; eauto.
Qed.

Hypothesis sizeof_output_pos : 0 < sizeof_output.
Abbreviation picked s := (picked output_magic sizeof_output (s_data s)).

Lemma find_outbufs_ok bufs all : forall secs (known : list Z) st, (forall s, s ∈ secs -> s ∈ all) ->
  repaired_bufs bufs (asked all) st -> (forall k, k ∈ known -> is_Some (rv_outbufs st !! k)) ->
  exists fs st', find_and_fixup_outbufs secs st = Some st' /\ map fst fs = secs /\ repaired_bufs bufs (asked all) st' /\
    (forall k, k ∈ known -> is_Some (rv_outbufs st' !! k)) /\
    forall s f, (s, f) ∈ fs -> picked s (good_output bufs s) f (Z.of_nat (length (s_data s)) + 1) /\
      forall p, p ∈ f -> is_Some (rv_outbufs st' !! buffer_of (place s + p)).
Proof.
  induction secs as [|s secs IH]; intros known st In B K; cbn [RecoveryScan.find_and_fixup_outbufs].
  { exists [], st; do 4 (split; [done|]); intros s f H; now apply not_elem_of_nil in H. }
  destruct (scan_ok output_magic sizeof_output output_attempt sizeof_output_pos (place s) (s_data s) (good_output bufs s)
    (outs_searched bufs (asked all) known s)) with (fuel := S (length (s_data s))) (f := @nil Z) (ptr := 0) (st := st)
    as (f & q & st1 & -> & [B1 K1 F1] & Pk).
  - intros f p q st1 [X Y Z] _; now split.
  - intros f p st1 Hp Hl Sg HJ; apply output_attempt_ok; auto; apply In; now left.
  - lia.
  - lia.
  - split; [exact B|exact K|intros q Hq; now apply not_elem_of_nil in Hq].
  - split; [constructor|intros q Hq; now apply not_elem_of_nil in Hq|lia].
  - cbn [mbind option_bind].
    destruct (IH (known ++ map (fun p => buffer_of (place s + p)) f) st1) as (fs & st2 & E & M & B2 & K2 & P2); [|exact B1| |].
    + intros t Ht; apply In; now right.
    + intros k; rewrite elem_of_app, list_elem_of_fmap; intros [Hk|(p & -> & Hp)]; [now apply K1|now apply F1].
    + exists ((s, f) :: fs), st2; split; [exact E|]; split; [cbn; congruence|]; split; [exact B2|]; split.
      * intros k Hk; apply K2; rewrite elem_of_app; auto.
      * intros t g; rewrite elem_of_cons; intros [[= -> ->]|H]; [|now apply P2]; split; [exact Pk|].
        intros p Hp; apply K2; rewrite elem_of_app, list_elem_of_fmap; right; eauto.
Qed.
(** What is printed: all but the zeros at the end. *)
Lemma trim_spec l : exists n, l = trim l ++ replicate n 0 /\ forall x, last (trim l) = Some x -> x <> 0.
Proof.
  assert (D : forall k, exists n, k = replicate n 0 ++ drop_zeros k /\ forall x, head (drop_zeros k) = Some x -> x <> 0).
  { induction k as [|c k IH]; [now exists 0%nat|]; destruct (Z.eq_dec c 0) as [->|N].
    - destruct IH as (n & E & H); exists (S n); split; [cbn; now rewrite <- E|exact H].
    - exists 0%nat; destruct c; try done; (split; [done|intros x [= <-]; done]). }
  destruct (D (rev l)) as (n & E & H); exists n; unfold trim; split.
  - apply (f_equal (@rev Z)) in E; rewrite rev_involutive, rev_app_distr in E; rewrite E at 1; f_equal.
    rewrite rev_alt; apply reverse_replicate.
  - intros x Hx; apply H; rewrite <- Hx, (rev_alt (drop_zeros _)); symmetry; apply last_reverse.
Qed.

(** The order of the map. *)
#[local] Instance key_le_trans : Transitive key_le.
Proof. intros x y z; unfold key_le; lia. Qed.
#[local] Instance key_le_total : Total key_le.
Proof. intros x y; unfold key_le; lia. Qed.

Lemma keys_sorted (l : list (Z * Z)) : StronglySorted key_le l -> NoDup (map fst l) -> StronglySorted Z.lt (map fst l).
Proof.
  induction 1 as [|x l So IH Hx]; intros Nd; cbn [map] in *; constructor; apply NoDup_cons in Nd as [N Nd]; [now apply IH|].
  apply Forall_fmap, Forall_forall; intros y Hy; cbn; rewrite Forall_forall in Hx; specialize (Hx y Hy); unfold key_le in Hx.
  assert (x.1 <> y.1); [|lia]; intros E; apply N; rewrite E; now apply list_elem_of_fmap_2.
Qed.

Lemma dump_outbufs_ok bufs P m all st : repaired_bufs bufs P st ->
  exists keys, StronglySorted Z.lt keys /\ dump_outbufs m all st = map (fun k => buf_dump m all (buf_result bufs k).1) keys /\
    forall k, k ∈ keys <-> is_Some (rv_outbufs st !! k) /\ (buf_result bufs k).2 <> 0.
Proof.
  intros [Kn _]; unfold dump_outbufs; set (L := merge_sort key_le (map_to_list (rv_outbufs st))).
  assert (Pm : L ≡ₚ map_to_list (rv_outbufs st)) by apply merge_sort_Permutation.
  assert (So : StronglySorted Z.lt (map fst L)).
  { apply keys_sorted; [apply StronglySorted_merge_sort; apply _|]; change (NoDup (fst <$> L)); rewrite Pm; apply NoDup_fst_map_to_list. }
  assert (El : forall k a, (k, a) ∈ L -> rv_outbufs st !! k = Some a) by (intros k a; rewrite Pm; apply elem_of_map_to_list).
  exists (filter (fun k => (buf_result bufs k).2 <> 0) (map fst L)); split; [now apply sorted_filter|]; split.
  - clear Pm So; induction L as [|[k a] L IH]; [done|]; cbn [omap list_omap map fst snd]; rewrite filter_cons.
    destruct (Kn k a (El k a ltac:(now left))) as (_ & -> & D).
    destruct (Z.eqb_spec (buf_result bufs k).2 0) as [Z0|N0]; case_decide; try done; cbn [map]; [|rewrite D by done; f_equal];
      apply IH; intros k' a' H'; apply El; now right.
  - intros k; rewrite list_elem_of_filter, (comm and); f_equiv.
    rewrite list_elem_of_fmap; split; [intros ([k' a] & -> & H); exists a; now apply El|].
    intros [a Ha]; exists (k, a); split; [done|]; rewrite Pm; now apply elem_of_map_to_list.
Qed.

(** C17: Each buffer that an output had when the process died is printed once,
    though several outputs may share it, in the order of the addresses: the
    search ends; in each section it finds outputs that do not overlap, and
    every place with the signature whose buffer is valid is found or is inside
    of one that was.  What is printed are the buffers of these
    outputs, as they were, and nothing else, the data without the zeros at its
    end. *)
Theorem outbufs_dumped m all secs st : rv_outbufs st = ∅ ->
  exists fs st' keys, find_and_fixup_outbufs secs st = Some st' /\ map fst fs = secs /\
    (forall s f, (s, f) ∈ fs -> StronglySorted (fun a b => a + sizeof_output <= b) f /\
       (forall p, p ∈ f -> sig_at output_magic (s_data s) p /\ buffer_of (place s + p) ∈ keys) /\
       forall p, 0 <= p -> p + sizeof_output <= Z.of_nat (length (s_data s)) -> sig_at output_magic (s_data s) p ->
         good_output (d_buf st) s p = true -> exists q, q ∈ f /\ q <= p < q + sizeof_output) /\
    StronglySorted Z.lt keys /\ (forall k, k ∈ keys -> asked secs k /\ (buf_result (d_buf st) k).2 = at_ k) /\
    dump_outbufs m all st' = map (fun k => buf_dump m all (buf_result (d_buf st) k).1) keys.
Proof.
  intros E0; destruct (find_outbufs_ok (d_buf st) secs secs [] st) as (fs & st' & E & M & B & _ & P); [done| | |].
  - split; [intros k a H; rewrite E0, lookup_empty in H; discriminate H|reflexivity].
  - intros k Hk; now apply not_elem_of_nil in Hk.
  - destruct (dump_outbufs_ok (d_buf st) (asked secs) m all st' B) as (keys & So & D & K).
    exists fs, st', keys; do 2 (split; [done|]); split.
    + intros s f Hs; destruct (P s f Hs) as [[Sf Go Al] Kn]; split; [exact Sf|]; split.
      * intros p Hp; destruct (Go p Hp) as (_ & _ & _ & Sg & G); split; [exact Sg|]; apply K; split; [now apply Kn|].
        unfold good_output in G; apply andb_true_iff in G as [_ G]; now apply negb_true_iff, Z.eqb_neq in G.
      * intros p Hp Hl Sg G; apply Al; auto; lia.
    + split; [exact So|]; split; [|exact D]; intros k Hk; apply K in Hk as [[a Ha] N].
      split; [now apply (rb_known _ _ _ B k a)|now apply buf_result_addr].
Qed.
End Outbufs.

(** ** The map of a dump keeps objects apart *)

Lemma placed_apart place secs s t p q : placed place secs -> s ∈ secs -> t ∈ secs -> s <> t ->
  0 <= p < Z.of_nat (length (s_data s)) -> 0 <= q < Z.of_nat (length (s_data t)) -> place s + p <> place t + q.
Proof.
  revert p q; induction secs as [|u secs IH]; intros p q Pl Hs Ht N Hp Hq; [now apply not_elem_of_nil in Hs|]; destruct Pl as [D Pl].
  apply elem_of_cons in Hs as [->|Hs], Ht as [->|Ht]; [done|now apply D| |now apply IH].
  intros E; now apply (D s q p Hs Hq Hp).
Qed.

(** A section of the dump with all its data. *)
Definition loaded (s : section) : Prop :=
  0 <= s_vma s /\ 0 <= s_size s /\ s_vma s + s_size s < 18446744073709551616 /\ s_size s = Z.of_nat (length (s_data s)).

Lemma tool_remap_inj place secs n k k' : placed place secs -> Forall loaded secs -> 0 < n -> is_ptr n k -> is_ptr n k' ->
  tool_remap place secs k n = tool_remap place secs k' n -> tool_remap place secs k n <> 0 -> k = k'.
Proof.
  intros Pl Ld Hn [Hk Bk] [Hk' Bk'] E N.
  assert (Ld' : Forall (fun s => 0 <= s_vma s /\ 0 <= s_size s /\ s_vma s + s_size s < 18446744073709551616) secs)
    by (eapply Forall_impl; [exact Ld|]; unfold loaded; tauto).
  pose proof (fun a s off Ha B => remap_in secs a n s off Ha ltac:(lia) B Ld') as In; rewrite Forall_forall in Ld.
  assert (N' : tool_remap place secs k' n <> 0) by congruence; unfold tool_remap in *.
  destruct (remap secs k n) as [[s off]|] eqn:R; [|done]; destruct (remap secs k' n) as [[t off']|] eqn:R'; [|done].
  apply In in R as (Hs & V1 & V2 & ->), R' as (Ht & V3 & V4 & ->); [|lia..].
  destruct (Ld s Hs) as (_ & _ & _ & Ls), (Ld t Ht) as (_ & _ & _ & Lt).
  assert (D : s = t \/ s <> t).
  { destruct (Z.eq_dec (place s + (k - s_vma s)) (place t + (k - s_vma s))); [|right; congruence].
    destruct (decide (s_vma s = s_vma t /\ s_size s = s_size t /\ s_bfd s = s_bfd t /\ s_data s = s_data t)) as [(A & B & C & F)|X].
    - left; destruct s, t; cbn in *; congruence.
    - right; intros ->; apply X; auto. }
  destruct D as [->|D]; [lia|]; exfalso; eapply (placed_apart place secs s t); eauto; lia.
Qed.

(** ** A dump *)

(** One section of 80 bytes with a signature eight bytes from its start. *)
Definition demo_section (sig : bytes) : section :=
  mkSection 5000 80 0 (replicate 8 7 ++ sig ++ replicate 8 1 ++ sig ++ replicate 32 1).
Definition demo_place (_ : section) : Z := 1000.
Definition demo_slot (t : Z) : record := mkRecord None t 0 0 0 (replicate 64 0).
Definition demo_rings (a : Z) : ringbuf record :=
  mkRing "A" 0 (if a =? 1008 then 10 else 20000) 4 8 3 1 false 0 2 9 0 0 (map demo_slot [1; 2; 3; 4]).
Definition demo_area_object : area_object := mkAreaObject area_magic 2 700 800 900.
Definition demo_state : recovery :=
  mkRecovery demo_rings (fun _ => demo_area_object) (fun a => a + 1) (fun _ => 1) (fun _ => mkBufObject 4 3 true (str "E" ++ replicate 63 0) 5070)
    ∅ ∅ ∅ [].

Lemma rings_found_witness : exists st' r D,
  find_and_fixup_rings (fun p _ => p) 48 16 32 1 2 3 (fun _ => 1) (fun _ => 1) demo_place 4 false [demo_section ring_magic] demo_state = Some st' /\
  rv_rings st' = [1008] /\ map r_timestamp (contents r) = [2] /\ repaired r (d_ring st' 1008) /\
  dump_records 4 (map (d_ring st') (rv_rings st')) [] = Some D /\ exists e, e ∈ D /\ time e = 2.
Proof.
  destruct (rings_found (fun p _ => p) 48 16 32 1 2 3 (fun _ => 1) (fun _ => 1) demo_place ltac:(lia) 4 false
    [demo_section ring_magic] demo_state) as (fs & st' & D & E & _ & _ & _ & Dr & _ & R).
  - intros a r; unfold ring_valid; cbn [d_ring demo_state]; unfold demo_rings.
    destruct (a =? 1008); intros V; vm_compute in V; [|discriminate V]; injection V as <-; split; [|split].
    + split; cbn; [exists 2; cbn; lia|lia|lia].
    + vm_compute; lia.
    + repeat (apply Forall_cons; split; [vm_compute; lia|]); constructor.
  - split; [intros t p q H; now apply not_elem_of_nil in H|done].
  - reflexivity.
  - assert (L : option_map rv_rings (find_and_fixup_rings (fun p _ => p) 48 16 32 1 2 3 (fun _ => 1) (fun _ => 1) demo_place 4 false
        [demo_section ring_magic] demo_state) = Some [1008]) by (vm_compute; reflexivity).
    rewrite E in L; injection L as L; destruct (R 1008) as (r & V & Rp & _ & T); [rewrite L; now left|].
    exists st', r, D; split; [exact E|]; split; [exact L|]; split; [vm_compute in V; injection V as <-; reflexivity|].
    split; [exact Rp|]; split; [exact Dr|]; destruct (T (demo_slot 2)) as (e & He & Te); [|exists e; split; [exact He|exact Te]].
    vm_compute in V; injection V as <-; now left.
Defined.

Lemma area_repaired_witness : exists st',
  fixup_area (fun p _ => p) 48 1 2 demo_state 100 = (st', 100) /\ fixup_area (fun p _ => p) 48 1 2 st' 100 = (st', 100) /\
  d_word st' 908 = 909.
Proof.
  destruct (fixup_area (fun p _ => p) 48 1 2 demo_state 100) as [st' res] eqn:E; exists st'.
  assert (X : (fixup_area (fun p _ => p) 48 1 2 demo_state 100).2 = 100) by (vm_compute; reflexivity).
  rewrite E in X; cbn [snd] in X; subst res.
  split; [done|]; destruct (area_repaired (fun p _ => p) 48 1 2 demo_state 100 st' 100) as (I & _ & _ & Sp); [cbn; lia|reflexivity|exact E|].
  split; [exact I|]; destruct (Sp ltac:(done)) as (_ & _ & _ & _ & [[Sc W]|[_ [X _]]]); [|discriminate].
  rewrite Sc in W; apply (W 1); cbn; lia.
Defined.

(** Both outputs have the same buffer, which has a zero at its end. *)
Lemma outbufs_dumped_witness : exists st' keys,
  find_and_fixup_outbufs (tool_remap demo_place [demo_section output_magic]) 8 24 demo_place (fun _ => 5060)
    [demo_section output_magic] demo_state = Some st' /\ keys = [5060] /\
  dump_outbufs (fun a => if a <? 1072 then 65 else 0) false st' = map (fun k =>
    buf_dump (fun a => if a <? 1072 then 65 else 0) false
      (buf_result (tool_remap demo_place [demo_section output_magic]) 8 (d_buf demo_state) k).1) keys.
Proof.
  assert (Pl : placed demo_place [demo_section output_magic]) by (split; [intros t p q H; now apply not_elem_of_nil in H|done]).
  destruct (outbufs_dumped (tool_remap demo_place [demo_section output_magic]) 8 24 (fun _ => 5060) demo_place)
    with (m := fun a => if a <? 1072 then 65 else 0) (all := false) (secs := [demo_section output_magic]) (st := demo_state)
    as (fs & st' & keys & E & _ & _ & So & K & D).
  - intros a; unfold is_ptr; lia.
  - intros k k' Hk Hk'; apply tool_remap_inj; auto; [|lia]; constructor; [|constructor]; unfold loaded; vm_compute; intuition congruence.
  - lia.
  - reflexivity.
  - exists st', keys; split; [exact E|]; split; [|exact D].
    assert (N : option_map (fun st => length (dump_outbufs (fun a => if a <? 1072 then 65 else 0) false st))
      (find_and_fixup_outbufs (tool_remap demo_place [demo_section output_magic]) 8 24 demo_place (fun _ => 5060)
        [demo_section output_magic] demo_state) = Some 1%nat) by (vm_compute; reflexivity).
    rewrite E in N; injection N as N; rewrite D, length_map in N; clear D E So; destruct keys as [|k [|]]; [discriminate N| |discriminate N].
    destruct (K k) as [(_ & s & p & _ & _ & _ & _ & ->) _]; [now left|reflexivity].
Defined.

(** What is printed of it. *)
Example demo_buffer_text :
  option_map (fun st => concat (dump_outbufs (fun a => if a <? 1072 then 65 else 0) false st))
    (find_and_fixup_outbufs (tool_remap demo_place [demo_section output_magic]) 8 24 demo_place (fun _ => 5060)
      [demo_section output_magic] demo_state) =
  Some (ruler ++ str "Dumping output buffer: capacity 4 size 3 failed 1 data 1" ++ [10] ++ str "EAA" ++ ruler ++ [10]).
Proof. vm_compute; reflexivity. Qed.

(** The end of an object is computed modulo [2^64]: a wild pointer is mapped
    outside of the section. *)
Lemma remap_wraps :
  tool_remap demo_place [demo_section ring_magic] 18446744073709551615 48 = 1000 + (18446744073709551615 - 5000).
Proof. vm_compute; reflexivity. Qed.
