(* ===== verification/Sched.v ===== *)
(** * Scheduling parameters (src/schedparam.cc, detail/schedparam.hpp)

    The parameters hogl's threads apply to themselves: the parser of cpu lists
    and masks, the check made beforehand and what a thread does when it starts. *)

From S2P Require Import Prelude Ntos OutName.

Definition EINVAL : Z := 22.
Definition ERANGE : Z := 34.

(** ** Sets of cpus *)

Abbreviation cpus := (gset Z).

(* src: src/schedparam.cc 52-80 cpumask *)
Record cpumask := mkMask { cm_cpuset : cpus; cm_ncpus : Z }.

(** The allocation succeeded. *)
(* src: src/schedparam.cc 57-64 cpumask::cpumask *)
Definition cpumask_new (capacity : Z) : cpumask := mkMask ∅ capacity.

(* src: src/schedparam.cc 74-74 cpumask::set *)
Definition cm_set (m : cpumask) (i : Z) : cpumask := mkMask ({[i]} ∪ cm_cpuset m) (cm_ncpus m).

(** ** Numbers *)

(** [strtoul] in base ten where the first character is a digit: the value and
    what follows. *)
Fixpoint span_digits (s : bytes) : bytes * bytes :=
  match s with
  | c :: s' => if isdigit c then let '(d, r) := span_digits s' in (c :: d, r) else ([], s)
  | [] => ([], [])
  end.

(** The value as the code keeps it, in an [unsigned int]. *)
Definition worth (d : bytes) : Z := u32 (Z.min (digits_value 0 d) ULONG_MAX).

(** [*p], the terminator behind the last character. *)
Definition first (s : bytes) : Z := default 0 (head s).

(** ** A list of cpus *)

(** The loop over one range. *)
Fixpoint set_range (n : nat) (a : Z) (m : cpumask) : cpumask :=
  match n with O => m | S n => set_range n (a + 1) (cm_set m a) end.

(** One turn: the error, or the rest of the string. *)
Definition list_turn (s : bytes) (m : cpumask) : Z * bytes * cpumask :=
  if negb (isdigit (first s)) then (EINVAL, s, m)
  else
    let '(d, s) := span_digits s in
    let a := worth d in
    let '(err, b, s) :=
      if first s =? 45 then
        let s := tail s in
        if negb (isdigit (first s)) then (EINVAL, 0, s)
        else let '(d, s) := span_digits s in (0, worth d, s)
      else (0, a, s) in
    if negb (err =? 0) then (err, s, m)
    else if negb (a <=? b) then (EINVAL, s, m)
    else if cm_ncpus m <=? b then (ERANGE, s, m)
    else (0, if first s =? 44 then tail s else s, set_range (Z.to_nat (b - a + 1)) a m).

(** The errno value and the mask; [None] when the fuel is used up. *)
(* src: src/schedparam.cc 155-172 parse_cpulist *)
Fixpoint cpulist_loop (fuel : nat) (s : bytes) (m : cpumask) : option (Z * cpumask) :=
  match fuel with
  | O => None
  | S fuel =>
      let '(err, s, m) := list_turn s m in
      if negb (err =? 0) then Some (err, m)
      else match s with [] => Some (0, m) | _ => cpulist_loop fuel s m end
  end.

(** What a pointer to the characters sees of a string: a zero ends it. *)
Fixpoint c_str (s : bytes) : bytes := match s with [] => [] | c :: s => if c =? 0 then [] else c :: c_str s end.

(* src: src/schedparam.cc 151-173 parse_cpulist *)
Definition parse_cpulist (fuel : nat) (s : bytes) (m : cpumask) : option (Z * cpumask) := cpulist_loop fuel (c_str s) m.

(** ** A mask in hexadecimal, octal or decimal *)

Definition digit_in (base c : Z) : option Z :=
  let d := if isdigit c then c - 48
           else if (97 <=? c) && (c <=? 122) then c - 87
           else if (65 <=? c) && (c <=? 90) then c - 55 else base in
  if d <? base then Some d else None.

Fixpoint span_base (base acc : Z) (s : bytes) : Z * bytes :=
  match s with
  | c :: s' => match digit_in base c with Some d => span_base base (acc * base + d) s' | None => (acc, s) end
  | [] => (acc, [])
  end.

(** [strtoull] with the base taken from the prefix: the value, [errno], and the
    rest of the string, all of it when there is no number. *)
Definition strtoull (s : bytes) : Z * Z * bytes :=
  let t := skip_spaces s in
  let '(neg, t) := match t with
                   | c :: t' => if c =? 45 then (true, t') else if c =? 43 then (false, t') else (false, t)
                   | [] => (false, t) end in
  let hex := match t with
             | z :: x :: h :: _ => (z =? 48) && ((x =? 120) || (x =? 88)) && match digit_in 16 h with Some _ => true | None => false end
             | _ => false end in
  let '(base, t) := if hex then (16, drop 2 t) else if first t =? 48 then (8, t) else (10, t) in
  match digit_in base (first t) with
  | None => (0, 0, s)
  | Some _ =>
      let '(v, r) := span_base base 0 t in
      if ULONG_MAX <? v then (ULONG_MAX, ERANGE, r) else (if (neg : bool) then u64 (- v) else v, 0, r)
  end.

Section Mask.
(** [1<<i] as an [int], converted to [unsigned long long]; for a shift by 31 or
    more the language leaves it open. *)
Variable shl : Z -> Z.

Fixpoint mask_loop (n : nat) (i v : Z) (m : cpumask) : cpumask :=
  match n with
  | O => m
  | S n => mask_loop n (i + 1) v (if Z.land v (shl i) =? 0 then m else cm_set m i)
  end.

(* src: src/schedparam.cc 175-191 parse_cpumask *)
Definition parse_cpumask (s : bytes) (m : cpumask) : Z * cpumask :=
  let '(v, errno, rest) := strtoull s in
  if negb (errno =? 0) then (errno, m)
  else match rest with
       | [] => (0, mask_loop (Z.to_nat (cm_ncpus m)) 0 v m)
       | _ => (EINVAL, m)
       end.

(* src: src/schedparam.cc 193-203 parse_cpu_affinity *)
Definition parse_cpu_affinity (s : bytes) (m : cpumask) : option (Z * cpumask) :=
  if bool_decide (take 5 s = str "list:") then parse_cpulist (S (length s)) (drop 5 s) m
  else if bool_decide (take 5 s = str "mask:") then Some (parse_cpumask (drop 5 s) m)
  else Some (parse_cpumask s m).

(** ** Applying them *)

(** What the system says: the results of [pthread_setaffinity_np] and of
    [pthread_setschedparam]. *)
Variable apply : cpus -> Z.
Variable setschedparam : Z -> Z -> Z.

(* src: src/schedparam.cc 205-218 set_cpu_affinity *)
Definition set_cpu_affinity (s : bytes) (dryrun : bool) : option Z :=
  '(err, m) ← parse_cpu_affinity s (cpumask_new 256);
  Some (if (err =? 0) && negb dryrun then apply (cm_cpuset m) else err).

(* src: include/hogl/detail/schedparam.hpp 45-53 schedparam *)
Record schedparam := mkSched { sp_policy : Z; sp_priority : Z; sp_flags : Z; sp_cpu_affinity : bytes }.

(** The warnings of [post_early], with their error numbers. *)
Inductive warning := SetAffinityFailed (err : Z) | SetSchedparamFailed (err : Z) | InvalidAffinity (s : bytes) (err : Z).

(* src: src/schedparam.cc 224-248 schedparam::thread_enter *)
Definition thread_enter (p : schedparam) : option (bool * list warning) :=
  err ← (match sp_cpu_affinity p with [] => Some 0 | s => set_cpu_affinity s false end);
  let w1 := if err =? 0 then [] else [SetAffinityFailed err] in
  let err2 := setschedparam (sp_policy p) (sp_priority p) in
  let w2 := if err2 =? 0 then [] else [SetSchedparamFailed err2] in
  Some ((err =? 0) && (err2 =? 0), w1 ++ w2).

(* src: src/schedparam.cc 256-273 schedparam::validate *)
Definition validate (p : schedparam) : option (bool * list warning) :=
  err ← (match sp_cpu_affinity p with [] => Some 0 | s => set_cpu_affinity s true end);
  Some (err =? 0, if err =? 0 then [] else [InvalidAffinity (sp_cpu_affinity p) err]).
End Mask.

(** ** The grammar of cpu lists *)

Definition digits (d : bytes) : Prop := d <> [] /\ Forall (fun c => isdigit c = true) d.

Lemma span_digits_app d r : Forall (fun c => isdigit c = true) d -> isdigit (first r) = false -> span_digits (d ++ r) = (d, r).
Proof.
  intros D R; induction D as [|c d Hc _ IH]; cbn [app span_digits].
  - destruct r as [|c r]; [done|]; cbn in R; cbn [span_digits]; now rewrite R.
  - now rewrite Hc, IH.
Qed.

Lemma span_digits_inv s d r : span_digits s = (d, r) -> s = d ++ r /\ Forall (fun c => isdigit c = true) d /\ isdigit (first r) = false.
Proof.
  revert d r; induction s as [|c s IH]; cbn [span_digits]; intros d r E; [injection E as <- <-; done|].
  destruct (isdigit c) eqn:Hc; [|injection E as <- <-; done].
  destruct (span_digits s) as [d1 r1]; injection E as <- <-; destruct (IH d1 r1 eq_refl) as (-> & F & R); split; [done|split; [now constructor|done]].
Qed.

Lemma span_digits_head s d r : isdigit (first s) = true -> span_digits s = (d, r) -> digits d.
Proof.
  intros H E; destruct (span_digits_inv s d r E) as (-> & F & R); split; [|exact F]; intros ->; cbn [app] in H; congruence.
Qed.

(** A cpu, or a range of cpus. *)
Definition range : Type := bytes * option bytes.
Definition range_text (r : range) : bytes := match r with (d, None) => d | (d, Some e) => d ++ [45] ++ e end.
Definition range_lo (r : range) : Z := worth r.1.
Definition range_hi (r : range) : Z := match r.2 with Some e => worth e | None => worth r.1 end.
Definition range_cpus (r : range) : cpus := list_to_set (seqZ (range_lo r) (range_hi r - range_lo r + 1)).

Record range_ok (ncpus : Z) (r : range) : Prop := {
  rg_lo : digits r.1; rg_hi : forall e, r.2 = Some e -> digits e;
  rg_order : range_lo r <= range_hi r; rg_bound : range_hi r < ncpus }.

(** Ranges with commas between, and one more behind the last if [trail]. *)
Fixpoint list_text (rs : list range) (trail : bool) : bytes :=
  match rs with
  | [] => []
  | [r] => range_text r ++ (if trail then [44] else [])
  | r :: rs => range_text r ++ [44] ++ list_text rs trail
  end.

Fixpoint ranges_cpus (rs : list range) : cpus := match rs with [] => ∅ | r :: rs => range_cpus r ∪ ranges_cpus rs end.

Lemma digits_first d r : digits d -> isdigit (first (d ++ r)) = true.
Proof. intros [N F]; destruct F; [done|assumption]. Qed.

Lemma worth_range d : 0 <= worth d.
Proof. unfold worth; words; pose proof (Z.mod_pos_bound (Z.min (digits_value 0 d) ULONG_MAX) 4294967296 eq_refl); lia. Qed.

Lemma set_range_cpus n : forall a m, set_range n a m = mkMask (list_to_set (seqZ a (Z.of_nat n)) ∪ cm_cpuset m) (cm_ncpus m).
Proof.
  induction n as [|n IH]; intros a m; cbn [set_range].
  - rewrite seqZ_nil by lia; rewrite list_to_set_nil, union_empty_l_L; now destruct m.
  - rewrite IH; cbn [cm_set cm_cpuset cm_ncpus]; f_equal; rewrite (seqZ_cons a) by lia.
    replace (Z.pred (Z.of_nat (S n))) with (Z.of_nat n) by lia; replace (Z.succ a) with (a + 1) by lia.
    now rewrite list_to_set_cons, assoc_L, (comm_L _ _ {[a]}) by apply _.
Qed.

(** A range is read up to the character behind it. *)
Lemma list_turn_ok r rest m : range_ok (cm_ncpus m) r -> rest = [] \/ first rest = 44 ->
  list_turn (range_text r ++ rest) m = (0, tail rest, mkMask (range_cpus r ∪ cm_cpuset m) (cm_ncpus m)).
Proof.
  intros [Dl Dh Or Bd] Hr; assert (R : isdigit (first rest) = false /\ first rest <> 45) by (destruct Hr as [->|E]; [done|rewrite E; done]).
  assert (S : (if first rest =? 44 then tail rest else rest) = tail rest) by (destruct Hr as [->|E]; [done|rewrite E; done]).
  assert (Fin : set_range (Z.to_nat (range_hi r - range_lo r + 1)) (range_lo r) m = mkMask (range_cpus r ∪ cm_cpuset m) (cm_ncpus m)).
  { rewrite set_range_cpus, Z2Nat.id by lia; done. }
  unfold list_turn; destruct r as [d [e|]]; cbn [range_text fst snd] in *.
  - pose proof (Dh e eq_refl) as De; rewrite <- !app_assoc, (digits_first d _ Dl); cbn [negb].
    rewrite (span_digits_app d _ (proj2 Dl)) by done; change (first ([45] ++ e ++ rest) =? 45) with true; cbn iota; change (tail ([45] ++ e ++ rest)) with (e ++ rest).
    rewrite (digits_first e _ De), (span_digits_app e _ (proj2 De) (proj1 R)); cbn [negb]; change (negb (0 =? 0)) with false; cbn iota.
    unfold range_lo, range_hi in *; cbn [fst snd] in *.
    rewrite (proj2 (Z.leb_le _ _) Or), (proj2 (Z.leb_gt _ _) Bd); cbn [negb]; now rewrite S, Fin.
  - rewrite (digits_first d _ Dl), (span_digits_app d _ (proj2 Dl) (proj1 R)); cbn [negb].
    rewrite (proj2 (Z.eqb_neq _ 45) (proj2 R)); change (negb (0 =? 0)) with false; cbn iota; unfold range_lo, range_hi in *; cbn [fst snd] in *.
    rewrite (proj2 (Z.leb_le _ _) Or), (proj2 (Z.leb_gt _ _) Bd); cbn [negb]; now rewrite S, Fin.
Qed.

(** What a turn that succeeds has read. *)
Lemma list_turn_inv s m s' m' : list_turn s m = (0, s', m') ->
  exists r rest, s = range_text r ++ rest /\ range_ok (cm_ncpus m) r /\ isdigit (first rest) = false /\
    s' = (if first rest =? 44 then tail rest else rest) /\ m' = mkMask (range_cpus r ∪ cm_cpuset m) (cm_ncpus m).
Proof.
  unfold list_turn; destruct (isdigit (first s)) eqn:H0; cbn [negb]; [|done].
  destruct (span_digits s) as [d r] eqn:E; pose proof (span_digits_head _ _ _ H0 E) as Dd; destruct (span_digits_inv _ _ _ E) as (-> & _ & R).
  assert (Fin : forall a b n m, a = range_lo n -> b = range_hi n -> a <= b ->
    set_range (Z.to_nat (b - a + 1)) a m = mkMask (range_cpus n ∪ cm_cpuset m) (cm_ncpus m)).
  { intros a b n k -> -> L; rewrite set_range_cpus, Z2Nat.id by lia; done. }
  destruct (Z.eqb_spec (first r) 45) as [Hm|Hm].
  - destruct (isdigit (first (tail r))) eqn:H1; cbn [negb]; [|intros [=]].
    destruct (span_digits (tail r)) as [e r2] eqn:E2; change (negb (0 =? 0)) with false; cbn iota.
    pose proof (span_digits_head _ _ _ H1 E2) as De; destruct (span_digits_inv _ _ _ E2) as (T & _ & R2).
    destruct (Z.leb_spec (worth d) (worth e)) as [L|]; cbn [negb]; [|intros [=]]; destruct (Z.leb_spec (cm_ncpus m) (worth e)) as [|B]; [intros [=]|].
    intros [= <- <-]; exists (d, Some e), r2; destruct r as [|c r]; [done|]; cbn in Hm, T; subst c r.
    split; [cbn [range_text]; now rewrite <- !app_assoc|]; split; [split; try done; now intros e' [= <-]|].
    do 2 (split; [done|]); now apply (Fin _ _ (d, Some e)).
  - change (negb (0 =? 0)) with false; cbn iota; rewrite Z.leb_refl; cbn [negb]; destruct (Z.leb_spec (cm_ncpus m) (worth d)) as [|B]; [intros [=]|].
    intros [= <- <-]; exists (d, None), r; split; [done|]; split; [split; try done; unfold range_lo, range_hi; cbn; lia|].
    do 2 (split; [done|]); apply (Fin _ _ (d, None)); [done|done|lia].
Qed.

(** A turn that succeeds consumes something. *)
Lemma list_turn_shorter s m s' m' : list_turn s m = (0, s', m') -> (length s' < length s)%nat.
Proof.
  intros E; destruct (list_turn_inv _ _ _ _ E) as (r & rest & -> & [[N _] _ _ _] & _ & -> & _).
  assert (1 <= length (range_text r))%nat by (destruct r as [[|c d] [e|]]; cbn in *; try done; lia).
  rewrite length_app; destruct (first rest =? 44); destruct rest; cbn [tail length]; lia.
Qed.

(** *** The parser against the grammar *)

Lemma list_turn_error s m err s' m' : list_turn s m = (err, s', m') -> err = 0 \/ err = EINVAL \/ err = ERANGE.
Proof.
  unfold list_turn; destruct (isdigit (first s)); cbn [negb]; [|intros [= <- _ _]; tauto].
  destruct (span_digits s) as [d r]; destruct (first r =? 45); [destruct (isdigit (first (tail r))); cbn [negb]; [destruct (span_digits (tail r)) as [e r2]|]|].
  all: try (change (negb (0 =? 0)) with false; cbn iota; destruct (worth _ <=? _); cbn [negb]; [|intros [= <- _ _]; tauto];
    destruct (cm_ncpus m <=? _); intros [= <- _ _]; tauto).
Qed.

Lemma parse_total fuel : forall s m, (length s < fuel)%nat ->
  exists err m', cpulist_loop fuel s m = Some (err, m') /\ (err = 0 \/ err = EINVAL \/ err = ERANGE).
Proof.
  induction fuel as [|fuel IH]; intros s m L; [lia|]; cbn [cpulist_loop]; destruct (list_turn s m) as [[err s'] m'] eqn:E.
  destruct (Z.eqb_spec err 0) as [->|N]; cbn [negb].
  - apply list_turn_shorter in E; destruct s' as [|c s']; [eexists _, _; split; [reflexivity|now left]|]; apply IH; cbn in *; lia.
  - eexists _, _; split; [reflexivity|]; now apply (list_turn_error s m err s' m').
Qed.

Lemma parse_complete rs : forall trail fuel m, rs <> [] -> Forall (range_ok (cm_ncpus m)) rs -> (length (list_text rs trail) < fuel)%nat ->
  cpulist_loop fuel (list_text rs trail) m = Some (0, mkMask (ranges_cpus rs ∪ cm_cpuset m) (cm_ncpus m)).
Proof.
  induction rs as [|r rs IH]; intros trail fuel m N F L; [done|]; apply Forall_cons in F as [Fr F]; destruct fuel as [|fuel]; [lia|].
  cbn [cpulist_loop]; destruct rs as [|r2 rs].
  - cbn [list_text ranges_cpus]; rewrite (list_turn_ok r _ m Fr) by (destruct trail; [now right|now left]).
    change (negb (0 =? 0)) with false; rewrite union_empty_r_L; now destruct trail.
  - assert (Lt : list_text (r :: r2 :: rs) trail = range_text r ++ [44] ++ list_text (r2 :: rs) trail) by reflexivity.
    rewrite Lt in L; rewrite Lt, (list_turn_ok r _ m Fr) by now right.
    change (negb (0 =? 0)) with false; cbn [tail app].
    destruct (list_text (r2 :: rs) trail) as [|c t] eqn:E.
    + exfalso; cbn [list_text] in E; pose proof (rg_lo _ _ (Forall_inv F)) as [Nd _].
      destruct r2 as [[|d0 d] [e|]]; [done|done|destruct rs; discriminate E..].
    + rewrite <- E, IH; [|done|exact F|]; cbn [cm_cpuset cm_ncpus ranges_cpus]; [do 3 f_equal|].
      * now rewrite assoc_L, (comm_L _ (_ ∪ _) (range_cpus r)) by apply _.
      * rewrite E; rewrite length_app in L; cbn in *; pose proof (rg_lo _ _ Fr) as [Nd _].
        assert (1 <= length (range_text r))%nat by (destruct r as [[|x y] [e|]]; cbn in *; try done; lia); lia.
Qed.

Lemma parse_sound fuel : forall s m m', cpulist_loop fuel s m = Some (0, m') ->
  exists rs trail, rs <> [] /\ Forall (range_ok (cm_ncpus m)) rs /\ s = list_text rs trail /\
    m' = mkMask (ranges_cpus rs ∪ cm_cpuset m) (cm_ncpus m).
Proof.
  induction fuel as [|fuel IH]; intros s m m' E; cbn [cpulist_loop] in E; [done|].
  destruct (list_turn s m) as [[err s1] m1] eqn:T; destruct (Z.eqb_spec err 0) as [->|N]; cbn [negb] in E; [|now injection E as -> _].
  destruct (list_turn_inv s m s1 m1 T) as (r & rest & -> & Ok & Nd & Es & Em); destruct s1 as [|c s1].
  - injection E as <-; exists [r]; destruct (Z.eqb_spec (first rest) 44) as [H|H]; [exists true|exists false]; (split; [done|]; split; [now constructor|]);
      (split; [|cbn [ranges_cpus]; now rewrite union_empty_r_L]); cbn [list_text]; f_equal.
    + destruct rest as [|x rest]; [done|]; cbn in H, Es; now subst.
    + now symmetry.
  - destruct (IH _ _ _ E) as (rs & trail & Nr & F & Et & ->); rewrite Em in F; cbn [cm_ncpus] in F.
    assert (Dg : isdigit (first (c :: s1)) = true).
    { rewrite Et; destruct rs as [|r2 rs]; [done|]; pose proof (rg_lo _ _ (Forall_inv F)) as D; cbn [list_text].
      destruct r2 as [d [e|]]; destruct rs; cbn [range_text fst] in *; rewrite <- ?app_assoc; now apply digits_first. }
    destruct (Z.eqb_spec (first rest) 44) as [H|H]; [|rewrite Es in Dg; congruence].
    exists (r :: rs), trail; split; [done|]; split; [now constructor|]; split.
    + destruct rest as [|x rest]; [done|]; cbn in H, Es; subst x; rewrite <- Es, Et; now destruct rs.
    + rewrite Em; cbn [cm_cpuset cm_ncpus ranges_cpus]; f_equal.
      now rewrite assoc_L, (comm_L _ (ranges_cpus rs) (range_cpus r)) by apply _.
Qed.

Lemma c_str_length s : (length (c_str s) <= length s)%nat.
Proof. induction s as [|c s IH]; cbn [c_str]; [done|]; destruct (c =? 0); cbn [length]; lia. Qed.

Lemma c_str_id s : Forall (fun c => c <> 0) s -> c_str s = s.
Proof. induction 1 as [|c s N _ IH]; cbn [c_str]; [done|]; now rewrite (proj2 (Z.eqb_neq c 0) N), IH. Qed.

(** C28: The parser of cpu lists always ends, with success or one of two errors, and
    what it accepts is the grammar of its comment: one or more numbers and
    ascending ranges below 256 with commas between them, and, what the comment
    does not say, one more comma at the end; the mask is the union of the
    ranges and nothing else is set.  Numbers count as they fit into 32 bits.  The
    string counts up to its first zero byte, so for a string without one it is
    the string itself. *)
Theorem cpulist_grammar s :
  (exists err m, parse_cpulist (S (length s)) s (cpumask_new 256) = Some (err, m) /\ (err = 0 \/ err = EINVAL \/ err = ERANGE)) /\
  (forall cs, parse_cpulist (S (length s)) s (cpumask_new 256) = Some (0, mkMask cs 256) <->
    exists rs trail, rs <> [] /\ Forall (range_ok 256) rs /\ c_str s = list_text rs trail /\ cs = ranges_cpus rs) /\
  (Forall (fun c => c <> 0) s -> c_str s = s).
Proof.
  pose proof (c_str_length s) as L; unfold parse_cpulist; split; [apply parse_total; lia|]; split; [|apply c_str_id]; intros cs; split.
  - intros E; destruct (parse_sound _ _ _ _ E) as (rs & trail & N & F & Et & Em); exists rs, trail; cbn [cpumask_new cm_ncpus cm_cpuset] in *.
    rewrite union_empty_r_L in Em; now injection Em as ->.
  - intros (rs & trail & N & F & Es & ->); rewrite Es in *; rewrite (parse_complete rs trail _ (cpumask_new 256) N F) by lia.
    cbn [cpumask_new cm_ncpus cm_cpuset]; now rewrite union_empty_r_L.
Qed.

(** The range that wraps around: 4294967296 is cpu 0. *)
Lemma cpulist_wraps : parse_cpulist 11 (str "4294967296") (cpumask_new 256) = Some (0, mkMask {[0]} 256).
Proof. vm_compute; reflexivity. Qed.

(** ** Masks *)

Section Bits.
Variable shl : Z -> Z.
Hypothesis shl_ok : forall i, 0 <= i <= 30 -> shl i = 2 ^ i.

Lemma mask_loop_spec n : forall i v m j, j ∈ cm_cpuset (mask_loop shl n i v m) <->
  j ∈ cm_cpuset m \/ (i <= j < i + Z.of_nat n /\ Z.land v (shl j) <> 0).
Proof.
  induction n as [|n IH]; intros i v m j; cbn [mask_loop]; [split; [tauto|intros [H|H]; [done|lia]]|].
  rewrite IH; destruct (Z.eqb_spec (Z.land v (shl i)) 0) as [E|E]; cbn [cm_set cm_cpuset]; rewrite ?elem_of_union, ?elem_of_singleton.
  - split; [intros [H|[H ?]]; [tauto|right; split; [lia|done]]|intros [H|[H N]]; [tauto|]].
    destruct (decide (j = i)) as [->|]; [done|]; right; split; [lia|done].
  - split; [intros [[->|H]|[H ?]]; [right; split; [lia|done]|tauto|right; split; [lia|done]]|intros [H|[H N]]; [tauto|]].
    destruct (decide (j = i)) as [->|]; [tauto|]; right; split; [lia|done].
Qed.

Lemma parse_cpumask_ok s m v : strtoull s = (v, 0, []) ->
  parse_cpumask shl s m = (0, mask_loop shl (Z.to_nat (cm_ncpus m)) 0 v m).
Proof. intros E; unfold parse_cpumask; now rewrite E. Qed.

Lemma land_bit v i : 0 <= i -> Z.land v (2 ^ i) <> 0 <-> Z.testbit v i = true.
Proof.
  intros Hi; split.
  - intros N; destruct (Z.testbit v i) eqn:B; [done|]; exfalso; apply N; apply Z.bits_inj'; intros k Hk.
    rewrite Z.land_spec, Z.pow2_bits_eqb, Z.bits_0 by lia; destruct (Z.eqb_spec i k) as [<-|]; [now rewrite B|apply andb_false_r].
  - intros B E; assert (H : Z.testbit (Z.land v (2 ^ i)) i = false) by (rewrite E; apply Z.bits_0).
    rewrite Z.land_spec, Z.pow2_bits_true, B in H by lia; done.
Qed.

(** A mask means its bits for the first 31 cpus only: for every accepted number
    cpu i is in the set exactly when bit i is, up to i = 30; beyond, where the
    language leaves the shift open and machines take the shift count modulo 32,
    every cpu follows the one 32 below, whatever the mask says, so that the
    mask 1 selects eight cpus. *)
Theorem cpumask_bits s m v : strtoull s = (v, 0, []) -> parse_cpumask shl s (cpumask_new 256) = (0, m) ->
  (forall i, 0 <= i -> shl (i + 32) = shl i) ->
  (forall i, 0 <= i <= 30 -> i ∈ cm_cpuset m <-> Z.testbit v i = true) /\
  forall i, 0 <= i -> i + 32 < 256 -> i + 32 ∈ cm_cpuset m <-> i ∈ cm_cpuset m.
Proof.
  intros S E P; rewrite (parse_cpumask_ok s _ v S) in E.
  assert (Hn : Z.of_nat (Z.to_nat (cm_ncpus (cpumask_new 256))) = 256) by reflexivity.
  revert E Hn; generalize (Z.to_nat (cm_ncpus (cpumask_new 256))); intros n E Hn.
  assert (K : forall i, i ∈ cm_cpuset m <-> 0 <= i < 256 /\ Z.land v (shl i) <> 0).
  { intros i; injection E as <-; rewrite mask_loop_spec, Hn; cbn [cpumask_new cm_cpuset]; rewrite Z.add_0_l.
    split; [intros [H|H]; [now apply not_elem_of_empty in H|done]|tauto]. }
  split; intros i H.
  - rewrite K, shl_ok, land_bit by lia; intuition lia.
  - intros L; rewrite !K, P by lia; intuition lia.
Qed.
End Bits.

(** ** Checking beforehand *)

Section Apply.
Variable shl : Z -> Z.
Variable apply : cpus -> Z.
Variable setschedparam : Z -> Z -> Z.

Lemma affinity_total s : exists err m, parse_cpu_affinity shl s (cpumask_new 256) = Some (err, m).
Proof.
  unfold parse_cpu_affinity; case_bool_decide.
  - pose proof (c_str_length (drop 5 s)) as L; rewrite length_drop in L.
    destruct (parse_total (S (length s)) (c_str (drop 5 s)) (cpumask_new 256)) as (err & m & E & _); [lia|eauto].
  - case_bool_decide; destruct (parse_cpumask _ _ _) as [err m]; eauto.
Qed.

(** The check beforehand is the check of the thread: parameters that pass it
    can only fail in a system call, which is given exactly the parsed set, or
    is not made when no affinity is asked for; those that do not pass make the
    thread fail with the same error, the system not being asked for the
    affinity but still for the policy. *)
Theorem validate_predicts p : exists ok w, validate shl apply p = Some (ok, w) /\
  exists err m, (sp_cpu_affinity p <> [] -> parse_cpu_affinity shl (sp_cpu_affinity p) (cpumask_new 256) = Some (err, m)) /\
  let e1 := match sp_cpu_affinity p with [] => 0 | _ => if ok then apply (cm_cpuset m) else err end in
  let e2 := setschedparam (sp_policy p) (sp_priority p) in
  (ok = false -> err <> 0 /\ w = [InvalidAffinity (sp_cpu_affinity p) err] /\ sp_cpu_affinity p <> []) /\
  thread_enter shl apply setschedparam p =
    Some ((e1 =? 0) && (e2 =? 0),
      (if e1 =? 0 then [] else [SetAffinityFailed e1]) ++ (if e2 =? 0 then [] else [SetSchedparamFailed e2])).
Proof.
  unfold validate, thread_enter, set_cpu_affinity; destruct (sp_cpu_affinity p) as [|c s] eqn:A.
  - eexists _, _; split; [reflexivity|]; exists 0, (cpumask_new 256); split; [done|]; split; [done|]; reflexivity.
  - rewrite <- A; destruct (affinity_total (sp_cpu_affinity p)) as (err & m & E); rewrite E; cbn [mbind option_bind].
    eexists _, _; split; [reflexivity|]; exists err, m; split; [done|]; rewrite andb_false_r, andb_true_r; cbn [negb].
    destruct (Z.eqb_spec err 0) as [->|N]; (split; [done|reflexivity]) || (split; [rewrite A; done|]).
    rewrite (proj2 (Z.eqb_neq err 0) N); reflexivity.
Qed.
End Apply.

(** ** Concrete parameters *)

Lemma cpulist_grammar_witness :
  parse_cpulist 7 (str "0-2,7,") (cpumask_new 256) = Some (0, mkMask (ranges_cpus [(str "0", Some (str "2")); (str "7", None)]) 256).
Proof.
  apply (proj2 (proj1 (proj2 (cpulist_grammar (str "0-2,7,"))) _)); exists [(str "0", Some (str "2")); (str "7", None)], true.
  split; [done|]; split; [|done].
  apply Forall_cons; split; [|apply Forall_cons; split; [|constructor]].
  - split; [split; [discriminate|repeat constructor]|intros e [= <-]; split; [discriminate|repeat constructor]|discriminate|reflexivity].
  - split; [split; [discriminate|repeat constructor]|discriminate|discriminate|reflexivity].
Defined.

(** The shift of common machines, as a 64-bit value. *)
Definition x86_shl (i : Z) : Z := if i mod 32 =? 31 then 2 ^ 64 - 2 ^ 31 else 2 ^ (i mod 32).

Lemma x86_shl_ok i : 0 <= i <= 30 -> x86_shl i = 2 ^ i.
Proof. intros H; unfold x86_shl; rewrite Z.mod_small by lia; now rewrite (proj2 (Z.eqb_neq i 31)) by lia. Qed.

Lemma cpumask_bits_witness :
  exists m, parse_cpumask x86_shl (str "0x5") (cpumask_new 256) = (0, m) /\ 2 ∈ cm_cpuset m /\ 2 + 32 ∈ cm_cpuset m.
Proof.
  destruct (cpumask_bits x86_shl x86_shl_ok (str "0x5") _ 5 eq_refl (parse_cpumask_ok x86_shl (str "0x5") (cpumask_new 256) 5 eq_refl)) as [B R].
  - intros i _; unfold x86_shl; replace (i + 32) with (i + 1 * 32) by lia; now rewrite Z.mod_add by lia.
  - eexists; split; [apply parse_cpumask_ok; reflexivity|].
    assert (H2 : 2 ∈ cm_cpuset (mask_loop x86_shl (Z.to_nat (cm_ncpus (cpumask_new 256))) 0 5 (cpumask_new 256))) by (apply B; [lia|reflexivity]).
    split; [exact H2|]; apply R; [lia|lia|exact H2].
Defined.

Lemma validate_predicts_witness : exists p w, validate x86_shl (fun _ => 0) p = Some (false, w) /\
  thread_enter x86_shl (fun _ => 0) (fun _ _ => 0) p = Some (false, [SetAffinityFailed ERANGE]).
Proof.
  exists (mkSched 0 0 0 (str "list:300")).
  destruct (validate_predicts x86_shl (fun _ => 0) (fun _ _ => 0) (mkSched 0 0 0 (str "list:300"))) as (ok & w & E & err & m & P & _ & T).
  vm_compute in E; injection E as <- <-; eexists; split; [vm_compute; reflexivity|]; rewrite T.
  specialize (P ltac:(discriminate)); vm_compute in P; injection P as <- _; reflexivity.
Defined.
