(* ===== verification/Command.v ===== *)
(** * The command lines of the tools (tools/cook.cc, tools/recover.cc)

    [getopt_long] is not part of the program: a command line is the options it
    finds, in order, and the operands that are left.  Opening a file, loading a
    plugin and what a plugin makes are parameters. *)

From S2P Require Import Prelude Args Record Ring Area Timestamp Tso Post Registry Ostrbuf Format FormatFacts FormatArgs Raw.
From S2P Require Import RawFacts RawSpec RawText Cook Dump Coredump Recovery RecoveryScan Sched.

(** Leaving the program with a status, or going on. *)
Inductive step_of (A : Type) := Leave (status : Z) | Go (a : A).
Arguments Leave {A}. Arguments Go {A}.

(** The format of a tool: its own, or that of a plugin. *)
Inductive tool_format (P : Type) := Basic (f : format_state) | Plugin (p : P).
Arguments Basic {P}. Arguments Plugin {P}.

(** The value of [strtoul] with base 0; [long] has 64 bits. *)
Definition strtoul (s : string) : Z := let '(v, _, _) := strtoull (str s) in v.

Section Formats.
Context {P : Type}.
(** Loading a plugin with its symbols, and asking it for a format. *)
Variable load_plugin : string -> option (option string -> option P).

(* src: tools/recover.cc 132-161 main *)
Definition tool_format_new (plugin log_format : option string) : step_of (tool_format P) :=
  match plugin with
  | None => Go (Basic (format_basic (parse_fields log_format)))
  | Some name =>
      match load_plugin name with
      | None => Leave 1
      | Some create => match create log_format with None => Leave 1 | Some p => Go (Plugin p) end
      end
  end.

(** ** The raw file viewer *)

(** The letters of the command line; [CkOther] is [-h] and all that is not
    known. *)
(* src: tools/cook.cc 146-157 main_lopts, main_sopts *)
Inductive cook_opt :=
  CkVersion (s : string) | CkFormat (s : string) | CkPlugin (s : string) | CkTailf | CkMaxRecordSize (s : string)
| CkMinValidRecs (s : string) | CkOther.

Record cook_settings := mkCook {
  ck_version : version; ck_format : option string; ck_plugin : option string; ck_tailf : bool; ck_max : Z; ck_min : Z }.

(* src: tools/cook.cc 53-56 min_valid_recs, max_record_size, version *)
Definition cook_defaults : cook_settings := mkCook V1_1 None None false (10 * 1024 * 1024) 4.

(* src: tools/cook.cc 123-143 get_version *)
Definition get_version (s : string) : option version :=
  if String.eqb s "1.0" then Some V1 else if String.eqb s "1.1" then Some V1_1 else None.

(* src: tools/cook.cc 180-212 main *)
Fixpoint cook_options (l : list cook_opt) (s : cook_settings) : step_of cook_settings :=
  match l with
  | [] => Go s
  | o :: l =>
      let '(mkCook v f p t x n) := s in
      match o with
      | CkVersion a => match get_version a with Some v => cook_options l (mkCook v f p t x n) | None => Leave 1 end
      | CkFormat a => cook_options l (mkCook v (Some a) p t x n)
      | CkPlugin a => cook_options l (mkCook v f (Some a) t x n)
      | CkTailf => cook_options l (mkCook v f p true x n)
      | CkMaxRecordSize a => cook_options l (mkCook v f p t (u32 (strtoul a)) n)
      | CkMinValidRecs a => cook_options l (mkCook v f p t x (u32 (strtoul a)))
      | CkOther => Leave 0
      end
  end.

(* src: tools/cook.cc 173-253 main *)
Definition cook_start (l : list cook_opt) (operands : list string) : step_of (cook_settings * string * tool_format P) :=
  match cook_options l cook_defaults with
  | Leave s => Leave s
  | Go s =>
      match operands with
      | [] => Leave 1
      | infile :: _ =>
          match tool_format_new (ck_plugin s) (ck_format s) with Leave s => Leave s | Go f => Go (s, infile, f) end
      end
  end.

(** ** The recovery tool *)

(* src: tools/recover.cc 46-56 main_lopts, main_sopts *)
Inductive recover_opt := RcFormat (s : string) | RcPlugin (s : string) | RcRings | RcAreas | RcAll | RcOther.

Record recover_settings := mkRecover {
  rc_format : option string; rc_plugin : option string; rc_rings : bool; rc_areas : bool; rc_flags : Z }.

(* src: tools/recovery-engine.hpp 86-88 recovery_engine::DUMP_ALL *)
Definition DUMP_ALL : Z := Z.shiftl 1 0.

(* src: tools/recover.cc 82-110 main *)
Fixpoint recover_options (l : list recover_opt) (s : recover_settings) : step_of recover_settings :=
  match l with
  | [] => Go s
  | o :: l =>
      let '(mkRecover f p r a g) := s in
      match o with
      | RcFormat x => recover_options l (mkRecover (Some x) p r a g)
      | RcPlugin x => recover_options l (mkRecover f (Some x) r a g)
      | RcAreas => recover_options l (mkRecover f p r true g)
      | RcRings => recover_options l (mkRecover f p true a g)
      | RcAll => recover_options l (mkRecover f p r a (Z.lor g DUMP_ALL))
      | RcOther => Leave 0
      end
  end.

Inductive tool_dump := DumpRings | DumpAreas | DumpOutbufs | DumpRecords.

(* src: tools/recover.cc 166-175 main *)
Definition recover_dumps (s : recover_settings) : list tool_dump :=
  (if rc_rings s then [DumpRings] else []) ++ (if rc_areas s then [DumpAreas] else []) ++
  (if negb (rc_rings s) && negb (rc_areas s) then [DumpOutbufs; DumpRecords] else []).

(** The names of the core file and of the executable; with three operands there
    is no executable. *)
(* src: tools/recover.cc 112-123 main *)
Definition recover_operands (operands : list string) : step_of (string * option string) :=
  match operands with
  | [] => Leave 1
  | [core] => Go (core, None)
  | [core; exec] => Go (core, Some exec)
  | core :: _ => Go (core, None)
  end.

(** [load] opens and reads the two files: the sections, and whether that failed. *)
(* src: tools/recover.cc 71-175 main *)
Definition recover_start (load : string -> option string -> option (list section * bool)) (l : list recover_opt) (operands : list string)
  : option (step_of (list section * bool * tool_format P * list tool_dump)) :=
  match recover_options l (mkRecover None None false false 0) with
  | Leave s => Some (Leave s)
  | Go s =>
      match recover_operands operands with
      | Leave s => Some (Leave s)
      | Go (core, exec) =>
          '(secs, failed) ← load core exec;
          if (failed : bool) then Some (Leave 1)
          else match tool_format_new (rc_plugin s) (rc_format s) with
               | Leave s => Some (Leave s)
               | Go f => Some (Go (secs, negb (Z.land (rc_flags s) DUMP_ALL =? 0), f, recover_dumps s))
               end
      end
  end.
End Formats.

(** What [-R] and [-A] print. *)
(* src: tools/recovery-engine.cc 398-405 recovery_engine::dump_rings *)
Definition tool_rings (ts_name : Z -> string) (st : recovery) : list string :=
  map (fun p => ring_dump ts_name 0 (d_ring st p)) (rv_rings st).

(** [area_at] is the area at an address of the tool. *)
(* src: tools/recovery-engine.cc 407-416 recovery_engine::dump_areas *)
Definition tool_areas (area_at : Z -> area) (st : recovery) : list string :=
  concat (map (fun kv => if kv.2 =? 0 then [] else area_dump 0 (area_at kv.2)) (merge_sort key_le (map_to_list (rv_areas st)))).


(** ** The viewer as a whole *)

Section Main.
Context `{Stream V}.
Context {P : Type}.
Variable load_plugin : string -> option (option string -> option P).
Variable localtime : Z -> tm.
Variable print_flt : string -> Z -> Z -> bytes.
Variable gstr : Z -> bytes.
Variable vprintf : bytes -> list fmt_arg -> bytes * option bytes.
Variable junk : Z -> Z.
Variable own_area : Z.
Variable malloc : Z -> bool.
(** Opening a file by its name, for each attempt; and the same reading with the
    format of a plugin. *)
Variable opens : string -> Z -> option opened.
Variable plugin_main : cook_settings -> string -> P -> ostrbuf * V -> option (Z * (ostrbuf * V)).

(** The status of the program, and what is on the standard output. *)
(* src: tools/cook.cc 173-266 main *)
Definition cook_main (attempts fuel : nat) (l : list cook_opt) (operands : list string) (stdout : V) : option (Z * (ostrbuf * V)) :=
  let out := (ostrbuf_new malloc (1 * 1024 * 1024), stdout) in
  match cook_start load_plugin l operands with
  | Leave status => Some (status, out)
  | Go (s, infile, Plugin p) => plugin_main s infile p out
  | Go (s, infile, Basic f) =>
      '(r, _, out) ← cook Nsec localtime print_flt gstr vprintf junk own_area (ck_version s) (ck_max s) (ck_min s)
        (fun offset => o ← opens infile offset; Some (file_rdbuf_new o (ck_tailf s))) attempts fuel 0 f out;
      Some (match r with CookDone => 0 | _ => 1 end, out)
  end.

(** The limit for the size of a record stays an [unsigned int]. *)
Lemma cook_options_max l : forall s s', ck_max s < 4294967296 -> cook_options l s = Go s' -> ck_max s' < 4294967296.
Proof.
  induction l as [|o l IH]; intros [v f p t x n] s' B; cbn [cook_options]; [now intros [= <-]|].
  assert (W : forall a, u32 (strtoul a) < 4294967296) by (intros; unfold u32; apply Z.mod_pos_bound; lia).
  destruct o; [destruct (get_version s); [|done]|..|done]; intros E; (eapply IH; [|exact E]); solve [exact B|apply W].
Qed.

(** The attempts end: each moves one byte on, up to the size of the largest
    record.  [cook] gives a definite result, never another retry. *)
Lemma cook_ends `{Reader U} ver max min (opening : Z -> option U) fuel :
  (forall offset f out, is_Some (reprocess Nsec localtime print_flt gstr vprintf junk own_area ver max min opening fuel offset f out)) ->
  forall (attempts : nat) offset f (out : ostrbuf * V), max < offset + Z.of_nat attempts -> (0 < attempts)%nat ->
  exists r f' out', cook Nsec localtime print_flt gstr vprintf junk own_area ver max min opening attempts fuel offset f out =
    Some (r, f', out') /\ r <> CookRetry.
Proof.
  intros Ends; induction attempts as [|k IH]; intros offset f out Hk Hp; [lia|]; cbn [cook].
  destruct (Ends offset f out) as [[[r f'] out'] ->]; cbn [mbind option_bind]; destruct r; eauto; [].
  destruct (Z.ltb_spec max (offset + 1)); [eexists _, _, _; split; [reflexivity|done]|]; apply IH; lia.
Qed.
End Main.

(** A reader that follows a file waits at its end. *)
Lemma next_waits tsf area (p : raw_parser file_rdbuf) errno count : p_failed p = false -> p_in p = mkRdbuf [] count true errno [] ->
  next tsf area p = None.
Proof. intros F I; unfold next, read_uint; cbn [with_record p_failed p_in]; rewrite F, I; reflexivity. Qed.

Section Prints.
Context `{Stream V}.
Context {P : Type}.
Variable load_plugin : string -> option (option string -> option P).
Variable print_flt : string -> Z -> Z -> bytes.
Variables gstr gstr' : Z -> bytes.
Variable vprintf : bytes -> list fmt_arg -> bytes * option bytes.
Variable localtime : Z -> tm.
Variable junk : Z -> Z.
Variable area_at : Z -> area.
Variable own_area : Z.
Variable plugin_main : cook_settings -> string -> P -> ostrbuf * V -> option (Z * (ostrbuf * V)).

End Prints.

Definition viewer_line : list cook_opt := [CkMinValidRecs "0x2"; CkFormat "fast0"].

Definition viewer_file (file : bytes) : opened := mkOpened [Data file] [] true.

