(* ===== verification/EngineLoop.v ===== *)
(** * The life of the engine thread (src/engine.cc: entry, loop)

    The loop alternates passes and timed waits until it is told to end, then
    drains the rings.  What other threads do happens between passes, as a list
    of their operations: posting, special records, registering, looking up and
    releasing rings.  A record posted while a pass runs counts to this pass if
    the pass read it and to the next one otherwise; that a pass reads what was
    committed and nothing else is in RingConc. *)

From S2P Require Import Prelude Args Record Ring Area Timestamp Tso Post Registry Engine.
From S2P Require Import EngineFacts RegistryFacts EngineApart Sample EngineTso EnginePass TsoSpec EngineDrain EngineNotso Sched.

(** ** The program *)

Section Loop.
Context `{Rx : Regex}.
Context `{SortT : StdSort (entry Z) te_timestamp}.
Context `{SortI : forall key, StdSort index_entry key}.
Implicit Type e : engine.

(** The memory arguments point into, the pack before it is filled, and the
    allocation and initial records of new rings. *)
Variables (m : memory) (ap0 : argpack) (alloc : Z -> bool) (zero : record).

(** One operation of another thread, by the address of its ring. *)
Inductive thread_op :=
  | TPost (p : Z) (ar : area) (now a s : Z) (args : list arg)
  | TSpecial (p now type arg1 : Z)
  | TAddRing (p : Z) (name : string) (opts : ring_options)
  | TFindRing (name : string)
  | TRelease (p : Z).

(** The record a successful push has put at the end of the ring. *)
Definition accepted (r : ring) : list (string * record) :=
  match last (contents r) with Some x => [(_name r, x)] | None => [] end.

(** The engine afterwards and the record that went into a ring.  A push that
    must block does not happen yet. *)
Definition pushed e (p : Z) (res : push_result record) : engine * list (string * record) :=
  match res with
  | Pushed r => (put_ring e p r, accepted r)
  | Dropped r => (put_ring e p r, [])
  | MustBlock => (e, [])
  end.

Definition run_op e (op : thread_op) : option (engine * list (string * record)) :=
  match op with
  | TPost p ar now a s args =>
      r ← e_heap e !! p;
      res ← post m ap0 r ar now a s args;
      Some (match res with Skipped => (e, []) | Posted res => pushed e p res end)
  | TSpecial p now type arg1 =>
      r ← e_heap e !! p;
      let '(seq, r) := inc_seqnum r in
      '(_, res) ← push_special r now seq type arg1;
      Some (pushed e p res)
  | TAddRing p name opts => '(e, _, _) ← add_ring e p alloc zero name opts; Some (e, [])
  | TFindRing name => '(e, _) ← find_ring e name; Some (e, [])
  | TRelease p => e ← release_at e p; Some (e, [])
  end.

Fixpoint run_ops e (ops : list thread_op) : option (engine * list (string * record)) :=
  match ops with
  | [] => Some (e, [])
  | op :: ops => '(e, a) ← run_op e op; '(e, b) ← run_ops e ops; Some (e, a ++ b)
  end.

(** What happens between two passes, the outcomes of [trylock] in the pass, and
    what [gettimeofday] returns after it: seconds and microseconds. *)
Record turn := mkTurn { t_ops : list thread_op; t_locks : list bool; t_clock : Z * Z }.

(* src: src/engine.cc 555-560 gtod_usec *)
Definition gtod_usec (tv : Z * Z) : Z := u64 (tv.1) *u64 1000000 +u64 u64 (tv.2).

(** The argument of [usleep] after a pass, 0 when it is not called.  [start] is
    the reading of the clock after the pass before. *)
Definition turn_sleep (interval start ts : Z) : Z :=
  let elapsed := ts -u64 start in
  if elapsed <? interval then u32 (interval -u64 elapsed) else 0.

(** The sleeps of a loop, by the readings of its clock. *)
Fixpoint naps (interval start : Z) (clock : list Z) : list Z :=
  match clock with
  | [] => []
  | ts :: clock => turn_sleep interval start ts :: naps interval ts clock
  end.

(** The state of the engine, the records that went into rings, the sleeps. *)
Record life := mkLife { run_engine : engine; run_accepted : list (string * record); run_sleeps : list Z }.

(** The turns of the loop until [_killed] is set: then what the threads did last
    is still in the rings, and they are drained. *)
(* src: src/engine.cc 562-585 engine::loop *)
Fixpoint engine_loop (start : Z) e (turns : list turn) (last_ops : list thread_op)
    (fuel : nat) (locks : nat -> list bool) : option life :=
  match turns with
  | [] =>
      '(e, a) ← run_ops e last_ops;
      e ← drain_rings fuel e locks;
      Some (mkLife e a [])
  | t :: turns =>
      '(e, a) ← run_ops e (t_ops t);
      e ← process_rings e (t_locks t);
      let ts := gtod_usec (t_clock t) in
      let sleep := turn_sleep (opt_polling_interval_usec (e_opts e)) start ts in
      res ← engine_loop ts e turns last_ops fuel locks;
      Some (mkLife (run_engine res) (a ++ run_accepted res) (sleep :: run_sleeps res))
  end.

(** The body of the thread: the scheduling parameters, if there are some, then
    the loop.  The warnings come first; the title of the thread and the end of
    the parameters leave nothing behind. *)
(* src: src/engine.cc 158-176 engine::entry *)
Definition engine_entry (shl : Z -> Z) (apply : cpus -> Z) (setschedparam : Z -> Z -> Z) (sp : option schedparam)
    (tv0 : Z * Z) e turns last_ops fuel locks : option (list warning * life) :=
  w ← (match sp with
       | Some p => '(_, w) ← thread_enter shl apply setschedparam p; Some w
       | None => Some []
       end);
  res ← engine_loop (gtod_usec tv0) e turns last_ops fuel locks;
  Some (w, res).

(** ** What the threads may do *)

Definition owned e (p : Z) (P : ring -> Prop) : Prop := exists n r, (n, p) ∈ e_rings e /\ e_heap e !! p = Some r /\ P r.

(** Clocks with room for the adjustments of the engine. *)
Definition good_time (now : Z) : Prop := 0 <= now < 18446744071562067968.

(** A thread posts to a registered ring, and releases only references of its
    own; special records are pushed when there is room. *)
Definition allowed e (op : thread_op) : Prop :=
  match op with
  | TPost p ar now a s args =>
      owned e p (fun _ => True) /\ good_time now /\ area_ok ar /\ 0 <= s < area_count ar /\
      (length args <= 16)%nat /\ Forall arg_wf args
  | TSpecial p now type arg1 => owned e p (fun r => room r <> 0) /\ good_time now
  | TAddRing p name opts =>
      e_heap e !! p = None /\ refs_small e /\ exists c rs, request_ok alloc zero opts c rs
  | TFindRing name => refs_small e
  | TRelease p => owned e p (fun r => 1 < _refcnt r)
  end.

Fixpoint proper e (ops : list thread_op) : Prop :=
  match ops with
  | [] => True
  | op :: ops => allowed e op /\ forall e' a, run_op e op = Some (e', a) -> proper e' ops
  end.

(** The threads behave for the whole life of the engine, and at its end they
    have given their references back. *)
Fixpoint proper_life e (turns : list turn) (last_ops : list thread_op) : Prop :=
  match turns with
  | [] => proper e last_ops /\
      forall e' a n p r, run_ops e last_ops = Some (e', a) -> (n, p) ∈ e_rings e' -> e_heap e' !! p = Some r -> _refcnt r = 1
  | t :: turns => proper e (t_ops t) /\
      forall e1 a e2, run_ops e (t_ops t) = Some (e1, a) -> process_rings e1 (t_locks t) = Some e2 -> proper_life e2 turns last_ops
  end.
End Loop.

(** ** Accounts *)

Section Accounts.
Context `{Rx : Regex}.
Implicit Type e : engine.

(** What the ring registered under a name holds. *)
Definition stock e (n : string) : list record :=
  match smap_find n (e_rings e) with
  | Some p => match e_heap e !! p with Some r => contents r | None => [] end
  | None => []
  end.

(** Between two states [acc] went into the rings and [fl] came out: for each
    name nothing was lost, added or reordered. *)
Record balance e e' (acc fl : list (string * record)) : Prop := {
  bl_outs : outs e' = outs e ++ fl;
  bl_stock : forall n, stock e n ++ of_name n acc = of_name n fl ++ stock e' n }.

Lemma balance_refl e : balance e e [] [].
Proof. split; [now rewrite app_nil_r|intros n; apply app_nil_r]. Qed.

Lemma balance_trans e1 e2 e3 a1 a2 f1 f2 : balance e1 e2 a1 f1 -> balance e2 e3 a2 f2 ->
  balance e1 e3 (a1 ++ a2) (f1 ++ f2).
Proof.
  intros [O1 S1] [O2 S2]; split; [now rewrite O2, O1, app_assoc|]; intros n.
  now rewrite !of_name_app, app_assoc, S1, <- app_assoc, S2, app_assoc.
Qed.

Lemma stock_ring e n p r : registry_ok e -> (n, p) ∈ e_rings e -> e_heap e !! p = Some r -> stock e n = contents r.
Proof. intros R H Hr; apply (smap_find_elem _ _ _ (ro_keys _ R)) in H; unfold stock; now rewrite H, Hr. Qed.

Lemma stock_none e n : registry_ok e -> (forall p, (n, p) ∉ e_rings e) -> stock e n = [].
Proof.
  intros R H; unfold stock; destruct (smap_find n (e_rings e)) as [p|] eqn:Fd; [|done].
  apply (smap_find_elem _ _ _ (ro_keys _ R)) in Fd; destruct (H p Fd).
Qed.

Lemma registered_or_not e n : registry_ok e -> (exists p r, (n, p) ∈ e_rings e /\ e_heap e !! p = Some r) \/ forall p, (n, p) ∉ e_rings e.
Proof.
  intros R; destruct (smap_find n (e_rings e)) as [p|] eqn:Fd; [left|right].
  - apply (smap_find_elem _ _ _ (ro_keys _ R)) in Fd; destruct (ro_rings _ R n p Fd) as (r & Hr & _); eauto.
  - intros p H; apply (smap_find_elem _ _ _ (ro_keys _ R)) in H; congruence.
Qed.

Lemma balance_sends e e' fl : registry_ok e -> registry_ok e' -> sends e e' fl -> balance e e' [] fl.
Proof.
  intros R R' [O N Rs S]; split; [exact O|]; intros n; cbn; rewrite app_nil_r.
  destruct (registered_or_not e n R) as [(p & r & Hn & Hr)|No].
  - rewrite (stock_ring e n p r R Hn Hr); destruct (S n p r Hn Hr) as [[C D]|(Hn' & r' & Hr' & _ & C)].
    + rewrite (stock_none e' n R'), C, app_nil_r; [done|]; intros q Hq.
      pose proof (registered_unique e n p q R Hn (Rs _ Hq)) as <-; exact (D Hq).
    + now rewrite (stock_ring e' n p r' R' Hn' Hr').
  - rewrite (stock_none e n R No), (stock_none e' n R') by (intros q Hq; exact (No q (Rs _ Hq))).
    rewrite of_name_none; [done|]; intros nx Hx <-; destruct (N nx Hx) as [p Hp]; exact (No p Hp).
Qed.

(** Steps that move no record. *)
Lemma balance_still e e' : registry_ok e -> registry_ok e' -> outs e' = outs e ->
  (forall n p r, (n, p) ∈ e_rings e -> e_heap e !! p = Some r ->
     (n, p) ∈ e_rings e' /\ exists r', e_heap e' !! p = Some r' /\ contents r' = contents r) ->
  (forall n p, (n, p) ∈ e_rings e' -> (n, p) ∈ e_rings e \/ exists r', e_heap e' !! p = Some r' /\ contents r' = []) ->
  balance e e' [] [].
Proof.
  intros R R' O K A; split; [now rewrite O, app_nil_r|]; intros n; cbn; rewrite app_nil_r.
  destruct (registered_or_not e n R) as [(p & r & Hn & Hr)|No].
  - destruct (K n p r Hn Hr) as (Hn' & r' & Hr' & C); now rewrite (stock_ring e n p r R Hn Hr), (stock_ring e' n p r' R' Hn' Hr').
  - rewrite (stock_none e n R No); destruct (registered_or_not e' n R') as [(p & r' & Hn' & Hr')|No'].
    + destruct (A n p Hn') as [Hn|(r2 & Hr2 & C)]; [destruct (No p Hn)|]; rewrite (stock_ring e' n p r' R' Hn' Hr'); congruence.
    + now rewrite (stock_none e' n R' No').
Qed.

(** A ring that changes in place. *)
Lemma balance_put e n p r r' acc : registry_ok e -> registry_ok (put_ring e p r') -> (n, p) ∈ e_rings e ->
  e_heap e !! p = Some r -> contents r' = contents r ++ of_name n acc -> (forall nx, nx ∈ acc -> nx.1 = n) ->
  balance e (put_ring e p r') acc [].
Proof.
  intros R R' Hn Hr C Hacc; split; [symmetry; apply app_nil_r|]; intros k; cbn [app of_name]; change (of_name k []) with (@nil record); cbn [app].
  destruct (decide (k = n)) as [->|N].
  - rewrite (stock_ring e n p r R Hn Hr), (stock_ring (put_ring e p r') n p r' R' Hn); [done|cbn; apply lookup_insert_eq].
  - rewrite of_name_none, app_nil_r by (intros nx Hx <-; exact (N (Hacc nx Hx))).
    unfold stock; cbn; destruct (smap_find k (e_rings e)) as [q|] eqn:Fd; [|done].
    destruct (decide (q = p)) as [->|Nq]; [|now rewrite lookup_insert_ne].
    apply (smap_find_elem _ _ _ (ro_keys _ R)) in Fd; destruct (ro_rings _ R k p Fd) as (r1 & E1 & N1 & _).
    destruct (ro_rings _ R n p Hn) as (r2 & E2 & N2 & _); congruence.
Qed.
End Accounts.

(** ** Threads keep the engine in order *)

Section Threads.
Context `{Rx : Regex}.
Context `{SortT : StdSort (entry Z) te_timestamp}.
Context `{SortI : forall key, StdSort index_entry key}.
Implicit Type e : engine.
Variables (m : memory) (ap0 : argpack) (alloc : Z -> bool) (zero : record).
Hypotheses (Hm : mem_ok m) (Hap : pack_wf ap0).

(** The engine between two passes while threads post. *)
Record working e : Prop := {
  wk_idle : idle e;
  wk_tso : Z.land (opt_features (e_opts e)) DISABLE_TSO = 0;
  wk_clock : clocked e;
  wk_cover : e_dirty e = true \/ (indexed e /\ alive e) }.

Lemma working_reg e : working e -> registry_ok e.
Proof. intros W; apply W. Qed.

Lemma owned_ring e p P : working e -> owned e p P ->
  exists n r, (n, p) ∈ e_rings e /\ e_heap e !! p = Some r /\ _name r = n /\ ring_ok r /\ P r.
Proof.
  intros W (n & r & Hn & Hr & HP); exists n, r; destruct (ro_rings _ (working_reg e W) n p Hn) as (r' & Hr' & Nm & Ok).
  assert (r' = r) as -> by congruence; done.
Qed.

Lemma working_put e n p r r' : working e -> (n, p) ∈ e_rings e -> e_heap e !! p = Some r -> _name r' = _name r ->
  ring_ok r' -> ring_clock r' -> working (put_ring e p r').
Proof.
  intros [[I1 I2 I3 I4 I5 I6 I7 I8] T C Cv] Hn Hr Nm Ok Clk; split; [split; try done|exact T| |exact Cv].
  - now apply (registry_ok_heap e _ p r r').
  - intros k q rq Hk; cbn; destruct (decide (q = p)) as [->|N]; [rewrite lookup_insert_eq; intros [= <-]; exact Clk|].
    rewrite lookup_insert_ne by done; exact (C k q rq Hk).
Qed.

(** *** Pushing *)

(** What a push leaves as it was. *)
Lemma push_parts (r : ring) x r' : push r x = Pushed r' \/ push r x = Dropped r' ->
  _refcnt r' = _refcnt r /\ _name r' = _name r /\ _rec_tailroom r' = _rec_tailroom r /\ _rec_shift r' = _rec_shift r /\
  _recs r' = <[Z.to_nat (push_begin r) := x]> (_recs r).
Proof. unfold push, push_commit; repeat case_match; intros [E|E]; try discriminate E; injection E as <-; done. Qed.

Lemma push_ring_ok (r : ring) x r' : ring_ok r -> Z.of_nat (length (r_argval x)) = record_tailroom r ->
  push r x = Pushed r' \/ push r x = Dropped r' -> ring_wf r' -> ring_ok r'.
Proof.
  intros [W [O1 O2] F] Hx E W'; destruct (push_parts r x r' E) as (E1 & _ & E3 & E4 & E5).
  assert (T : record_tailroom r' = record_tailroom r) by (unfold record_tailroom; congruence).
  split; [exact W'| |now rewrite E1]; split; [now rewrite T|]; rewrite E5, T; now apply Forall_insert.
Qed.

(** The outcome of pushing a record made at the time [now]. *)
Definition push_outcome (r : ring) (now : Z) (res : push_result record) : Prop :=
  match res with
  | Pushed r' => ring_ok r' /\ _name r' = _name r /\ exists x, contents r' = contents r ++ [x] /\ r_timestamp x = now
  | Dropped r' => ring_ok r' /\ _name r' = _name r /\ contents r' = contents r
  | MustBlock => True
  end.

Lemma push_outcome_ok (r : ring) x now : ring_ok r -> Z.of_nat (length (r_argval x)) = record_tailroom r ->
  r_timestamp x = now -> push_outcome r now (push r x).
Proof.
  intros Ok Hx Ht; destruct (push_cases r x (rk_wf _ Ok)) as [(_ & r' & E & W & (N & _) & C & _)
    |[(_ & _ & r' & E & W & (N & _) & C & _)|(_ & _ & ->)]]; [| |done]; rewrite E; cbn.
  - split; [apply (push_ring_ok r x); auto|]; split; [done|]; exists x; done.
  - split; [apply (push_ring_ok r x); auto|]; split; done.
Qed.

Lemma inc_seqnum_ok (r : ring) : ring_ok r -> ring_ok (snd (inc_seqnum r)).
Proof. intros [W O F]; split; [now apply inc_seqnum_wf|exact O|exact F]. Qed.

Lemma pushed_ok e n p r now res : working e -> (n, p) ∈ e_rings e -> e_heap e !! p = Some r -> good_time now ->
  push_outcome r now res -> exists e' a, pushed e p res = (e', a) /\ working e' /\ balance e e' a [].
Proof.
  intros W Hn Hr Tm; destruct (ro_rings _ (working_reg e W) n p Hn) as (r0 & Hr0 & Nm & _); assert (r0 = r) as -> by congruence.
  pose proof (wk_clock _ W n p r Hn Hr) as Clk; destruct res as [r'|r'|]; cbn [push_outcome pushed].
  - intros (Ok & N & x & C & Tx); assert (W' : working (put_ring e p r')).
    { apply (working_put e n p r); [done..|]; unfold ring_clock; rewrite C; apply Forall_app; split; [done|].
      repeat constructor; rewrite Tx; apply Tm. }
    eexists _, _; split; [reflexivity|]; split; [exact W'|].
    unfold accepted; rewrite C, last_snoc, N, Nm; apply (balance_put e n p r); [apply W|apply W'|done|done| |].
    + rewrite C; f_equal; unfold of_name; now rewrite filter_cons, decide_True.
    + intros nx Hx; apply list_elem_of_singleton in Hx as ->; done.
  - intros (Ok & N & C); assert (W' : working (put_ring e p r'))
      by (apply (working_put e n p r); [done..|]; unfold ring_clock; now rewrite C).
    eexists _, _; split; [reflexivity|]; split; [exact W'|]; apply (balance_put e n p r); [apply W|apply W'|done|done| |].
    + rewrite C; cbn; now rewrite app_nil_r.
    + intros nx Hx; now apply not_elem_of_nil in Hx.
  - intros _; exists e, []; split; [done|]; split; [done|apply balance_refl].
Qed.

Lemma post_op_ok e p ar now a s args : working e -> allowed alloc zero e (TPost p ar now a s args) ->
  exists e' acc, run_op m ap0 alloc zero e (TPost p ar now a s args) = Some (e', acc) /\ working e' /\ balance e e' acc [].
Proof.
  intros W (Ow & Tm & Oa & Hs & Hl & Hw); destruct (owned_ring e p _ W Ow) as (n & r & Hn & Hr & _ & Ok & _).
  cbn [run_op]; rewrite Hr; cbn [mbind option_bind]; unfold post; rewrite (area_test_bit ar s Oa Hs); cbn [mbind option_bind].
  destruct (bm_bit (a_bitmap ar) s).
  - destruct (push_args_eq m ap0 r now a s args Hm Hl Hw Hap (rk_wf _ Ok) (rk_recs _ Ok)) as (x & _ & Tx & _ & _ & Lx & _ & ->).
    cbn [mbind option_bind].
    destruct (pushed_ok e n p r now (push (snd (inc_seqnum r)) x) W Hn Hr Tm) as (e' & acc & -> & Hw' & Hb).
    { exact (push_outcome_ok (snd (inc_seqnum r)) x now (inc_seqnum_ok r Ok) Lx Tx). }
    exists e', acc; done.
  - cbn [mbind option_bind]; exists e, []; split; [done|]; split; [done|apply balance_refl].
Qed.

(** A special record with the length of the slot. *)
Lemma push_special_outcome (r : ring) now seq type arg1 : ring_ok r -> room r <> 0 ->
  exists q res, push_special r now seq type arg1 = Some (q, res) /\ push_outcome r now res.
Proof.
  intros Ok Hr; pose proof (rk_wf _ Ok) as W; unfold push_special; rewrite (push_begin_tail r W).
  set (x0 := mkRecord _ now _ _ _ _).
  assert (L : Z.of_nat (length (r_argval x0)) = record_tailroom r)
    by (apply (recs_ok_lookup r); [done|apply Ok|apply W]).
  destruct (make_special_ok x0 type arg1) as (y & Ey & Ly & _ & _ & _ & _ & A5 & _); [rewrite L; apply (rk_recs _ Ok)|].
  rewrite Ey; cbn [mbind option_bind]; eexists _, _; split; [reflexivity|].
  rewrite <- (push_begin_tail r W); apply (push_outcome_ok r y now Ok); [lia|exact A5].
Qed.

Lemma special_op_ok e p now type arg1 : working e -> allowed alloc zero e (TSpecial p now type arg1) ->
  exists e' acc, run_op m ap0 alloc zero e (TSpecial p now type arg1) = Some (e', acc) /\ working e' /\ balance e e' acc [].
Proof.
  intros W (Ow & Tm); destruct (owned_ring e p _ W Ow) as (n & r & Hn & Hr & _ & Ok & Rm).
  cbn [run_op]; rewrite Hr; cbn [mbind option_bind inc_seqnum].
  destruct (push_special_outcome (snd (inc_seqnum r)) now (_seqnum r) type arg1 (inc_seqnum_ok r Ok) Rm) as (q & res & Es & Po).
  cbn [snd inc_seqnum] in Es, Po; rewrite Es; cbn [mbind option_bind].
  destruct (pushed_ok e n p r now res W Hn Hr Tm Po) as (e' & acc & -> & Hw' & Hb); exists e', acc; done.
Qed.

(** *** The registry *)

(** Operations on references change the heap only. *)
Lemma hold_at_heap e p e' : hold_at e p = Some e' -> exists h, e' = with_heap e h.
Proof. unfold hold_at; destruct (e_heap e !! p); [|done]; intros [= <-]; eexists; reflexivity. Qed.

Lemma release_at_heap e p e' : release_at e p = Some e' -> exists h, e' = with_heap e h.
Proof. unfold release_at; destruct (e_heap e !! p) as [r|]; [|done]; cbn; destruct (release r); intros [= <-]; eexists; reflexivity. Qed.

Lemma add_ring_frame e p name opts e' res msgs : add_ring e p alloc zero name opts = Some (e', res, msgs) ->
  exists h rings d, e' = with_rings (with_heap e h) rings d.
Proof.
  unfold add_ring; destruct (ringbuf_new _ _ _ _ _) as [nr|]; [|done]; cbn [mbind option_bind].
  destruct (smap_insert name p _) as [rings ins]; destruct (smap_find name rings) as [q|]; [|done]; cbn [mbind option_bind].
  destruct (hold_at _ q) as [e1|] eqn:E1; [|done]; cbn [mbind option_bind]; apply hold_at_heap in E1 as [h1 ->].
  destruct ins; [intros [= <- _ _]; exists h1, rings, true; reflexivity|].
  destruct (release_at _ p) as [e2|] eqn:E2; [|done]; cbn [mbind option_bind]; apply release_at_heap in E2 as [h2 ->].
  destruct (e_heap _ !! q) as [r|]; [|done]; cbn [mbind option_bind].
  destruct (shared r); [intros [= <- _ _]; exists h2, rings, (e_dirty e); reflexivity|].
  destruct (reusable r && _); [intros [= <- _ _]; exists h2, rings, (e_dirty e); reflexivity|].
  destruct (release_at _ q) as [e3|] eqn:E3; [|done]; cbn [mbind option_bind]; apply release_at_heap in E3 as [h3 ->].
  intros [= <- _ _]; exists h3, rings, (e_dirty e); reflexivity.
Qed.

Lemma working_still e h rings d : working e -> let e' := with_rings (with_heap e h) rings d in
  registry_ok e' -> clocked e' -> d = true \/ (rings = e_rings e /\ d = e_dirty e) -> working e'.
Proof.
  intros [[I1 I2 I3 I4 I5 I6 I7 I8] T C Cv] e' R' C' D; split; [split; done|exact T|exact C'|].
  destruct D as [->|[-> ->]]; [now left|exact Cv].
Qed.

Lemma add_ring_op_ok e p name opts : working e -> allowed alloc zero e (TAddRing p name opts) ->
  exists e' acc, run_op m ap0 alloc zero e (TAddRing p name opts) = Some (e', acc) /\ working e' /\ balance e e' acc [].
Proof.
  intros W (Fp & Sm & c & rs & Rq); pose proof (working_reg e W) as R; cbn [run_op].
  assert (Nop : forall n q, (n, q) ∈ e_rings e -> q <> p)
    by (intros n q Hn ->; destruct (ro_rings _ R n p Hn) as (r & Hr & _); congruence).
  destruct (smap_find name (e_rings e)) as [q|] eqn:Fd.
  - pose proof Fd as Hq; apply (smap_find_elem _ _ _ (ro_keys _ R)) in Hq; destruct (ro_rings _ R _ _ Hq) as (r & Hr & _ & _).
    destruct (add_ring_taken e p q r alloc zero name opts c rs R Fp Rq Fd Hr (Sm _ _ _ Hq Hr))
      as (e' & res & msgs & E & R' & Er & Ei & Ed & Br & _ & Ho).
    assert (Hp : forall n k rk, (n, k) ∈ e_rings e -> e_heap e !! k = Some rk ->
      exists rk', e_heap e' !! k = Some rk' /\ contents rk' = contents rk).
    { intros n k rk Hk Hrk; destruct (decide (k = q)) as [->|N]; [|exists rk; rewrite Ho by eauto; done].
      assert (rk = r) as -> by congruence; destruct (reuse r); destruct Br as (_ & _ & ->); eexists; split; reflexivity. }
    destruct (add_ring_frame _ _ _ _ _ _ _ E) as (h & rings & d & ->); rewrite E; cbn [mbind option_bind].
    eexists _, []; split; [reflexivity|]; cbn in Er, Ed; subst rings d; split.
    + apply working_still; [done|done| |now right]; intros n k rk' Hk Hrk'; destruct (ro_rings _ R n k Hk) as (rk & Hrk & _).
      destruct (Hp n k rk Hk Hrk) as (r2 & H2 & C2); pose proof (wk_clock _ W n k rk Hk Hrk) as Clk.
      unfold ring_clock in *; cbn in Hrk', H2; assert (r2 = rk') as -> by congruence; now rewrite C2.
    + apply balance_still; [done|done|done| |now left]; intros n k rk Hk Hrk; split; [exact Hk|exact (Hp n k rk Hk Hrk)].
  - destruct (add_ring_new e p alloc zero name opts c rs R Fp Rq Fd)
      as (e' & r & msg & E & R' & Hr & _ & Ct & _ & _ & _ & Ed & Em & Eh & _).
    destruct (add_ring_frame _ _ _ _ _ _ _ E) as (h & rings & d & ->); rewrite E; cbn [mbind option_bind].
    eexists _, []; split; [reflexivity|]; cbn in Hr, Ed, Em, Eh; subst d; split.
    + apply working_still; [done|done| |now left]; intros n k rk Hk Hrk; cbn in Hk, Hrk; apply Em in Hk as [[= -> ->]|Hk].
      * assert (rk = r) as -> by congruence; unfold ring_clock; rewrite Ct; constructor.
      * rewrite Eh in Hrk by eauto; exact (wk_clock _ W n k rk Hk Hrk).
    + apply balance_still; [done|done|done| |].
      * intros n k rk Hk Hrk; cbn; split; [apply Em; now right|]; exists rk; rewrite Eh by eauto; done.
      * intros n k Hk; cbn in Hk |- *; apply Em in Hk as [[= -> ->]|Hk]; [right; eauto|now left].
Qed.

(** A ring gets another reference count. *)
Lemma refs_op_ok e n p r c : working e -> (n, p) ∈ e_rings e -> e_heap e !! p = Some r -> 1 <= c < 2147483648 ->
  working (put_ring e p (set_refcnt r c)) /\ balance e (put_ring e p (set_refcnt r c)) [] [].
Proof.
  intros W Hn Hr Hc; destruct (ro_rings _ (working_reg e W) n p Hn) as (r0 & Hr0 & _ & Ok); assert (r0 = r) as -> by congruence.
  assert (Ok' : ring_ok (set_refcnt r c)).
  { apply (same_ring_ok r); [repeat split|apply Ok|apply Ok|exact Hc]. }
  assert (W' : working (put_ring e p (set_refcnt r c)))
    by (apply (working_put e n p r); [done..|exact (wk_clock _ W n p r Hn Hr)]).
  split; [exact W'|]; apply (balance_put e n p r); [apply W|apply W'|done|done| |intros nx Hx; now apply not_elem_of_nil in Hx].
  symmetry; apply app_nil_r.
Qed.

Lemma find_ring_op_ok e name : working e -> allowed alloc zero e (TFindRing name) ->
  exists e' acc, run_op m ap0 alloc zero e (TFindRing name) = Some (e', acc) /\ working e' /\ balance e e' acc [].
Proof.
  intros W Sm; pose proof (working_reg e W) as R; cbn [run_op]; unfold find_ring.
  destruct (smap_find name (e_rings e)) as [p|] eqn:Fd; [|exists e, []; split; [done|]; split; [done|apply balance_refl]].
  apply (smap_find_elem _ _ _ (ro_keys _ R)) in Fd; destruct (ro_rings _ R _ _ Fd) as (r & Hr & _ & Ok).
  unfold hold_at; rewrite Hr; cbn [mbind option_bind]; eexists _, []; split; [reflexivity|].
  pose proof (rk_ref _ Ok); pose proof (Sm _ _ _ Fd Hr); pose proof (hold_count r ltac:(lia) ltac:(lia)) as Hc.
  apply (refs_op_ok e name p r); [done..|]; change (refcount_inc (_refcnt r) 1) with (_refcnt (hold r)); lia.
Qed.

Lemma release_more (r : ring) : 1 < _refcnt r < 2147483648 -> release r = Kept (set_refcnt r (_refcnt r - 1)).
Proof.
  intros B; unfold release; assert (E : refcount_dec (_refcnt r) 1 = _refcnt r - 1) by (unfold refcount_dec, s32; Z.div_mod_to_equations; lia).
  rewrite E; destruct (Z.ltb_spec (_refcnt r - 1) 0); [lia|]; destruct (Z.ltb_spec 0 (_refcnt r - 1)); [done|lia].
Qed.

Lemma release_op_ok e p : working e -> allowed alloc zero e (TRelease p) ->
  exists e' acc, run_op m ap0 alloc zero e (TRelease p) = Some (e', acc) /\ working e' /\ balance e e' acc [].
Proof.
  intros W Ow; destruct (owned_ring e p _ W Ow) as (n & r & Hn & Hr & _ & Ok & Rf); cbn [run_op]; pose proof (rk_ref _ Ok).
  unfold release_at; rewrite Hr; cbn [mbind option_bind]; rewrite (release_more r) by lia; cbn [mbind option_bind].
  eexists _, []; split; [reflexivity|]; apply (refs_op_ok e n p r); [done..|lia].
Qed.

(** The options of an engine never change. *)
Lemma run_op_opts e op e' a : run_op m ap0 alloc zero e op = Some (e', a) -> e_opts e' = e_opts e.
Proof.
  assert (P : forall e p res, e_opts (fst (pushed e p res)) = e_opts e) by (intros ? ? []; reflexivity).
  destruct op as [p ar now u s args|p now type arg1|p name opts|name|p]; cbn [run_op]; intros E.
  - destruct (e_heap e !! p) as [r|]; [|done]; cbn [mbind option_bind] in E; destruct (post _ _ _ _ _ _ _ _) as [[|res]|]; [| |done].
    + injection E as <- _; reflexivity.
    + injection E as E; rewrite <- (P e p res), E; reflexivity.
  - destruct (e_heap e !! p) as [r|]; [|done]; cbn [mbind option_bind inc_seqnum] in E.
    destruct (push_special _ _ _ _ _) as [[q res]|]; [|done]; injection E as E; rewrite <- (P e p res), E; reflexivity.
  - destruct (add_ring _ _ _ _ _ _) as [[[e1 res] msgs]|] eqn:E1; [|done]; injection E as <- _.
    destruct (add_ring_frame _ _ _ _ _ _ _ E1) as (h & rings & d & ->); reflexivity.
  - unfold find_ring in E; destruct (smap_find _ _) as [p|]; [|injection E as <- _; reflexivity].
    destruct (hold_at e p) as [e1|] eqn:E1; [|done]; injection E as <- _; apply hold_at_heap in E1 as [h ->]; reflexivity.
  - destruct (release_at e p) as [e1|] eqn:E1; [|done]; injection E as <- _; apply release_at_heap in E1 as [h ->]; reflexivity.
Qed.

Lemma run_ops_opts ops : forall e e' a, run_ops m ap0 alloc zero e ops = Some (e', a) -> e_opts e' = e_opts e.
Proof.
  induction ops as [|op ops IH]; intros e e' a; cbn [run_ops]; [now intros [= <- _]|].
  destruct (run_op _ _ _ _ e op) as [[e1 a1]|] eqn:E1; [|done]; cbn [mbind option_bind].
  destruct (run_ops _ _ _ _ e1 ops) as [[e2 a2]|] eqn:E2; [|done]; intros [= <- _].
  rewrite (IH _ _ _ E2); eapply run_op_opts, E1.
Qed.

Lemma op_ok e op : working e -> allowed alloc zero e op ->
  exists e' acc, run_op m ap0 alloc zero e op = Some (e', acc) /\ working e' /\ balance e e' acc [].
Proof.
  destruct op; [apply post_op_ok|apply special_op_ok|apply add_ring_op_ok|apply find_ring_op_ok|apply release_op_ok].
Qed.

Lemma ops_ok ops : forall e, working e -> proper m ap0 alloc zero e ops ->
  exists e' acc, run_ops m ap0 alloc zero e ops = Some (e', acc) /\ working e' /\ balance e e' acc [].
Proof.
  induction ops as [|op ops IH]; intros e W P; cbn [run_ops proper] in *; [exists e, []; split; [done|]; split; [done|apply balance_refl]|].
  destruct P as [A P]; destruct (op_ok e op W A) as (e1 & a1 & E1 & W1 & B1); rewrite E1; cbn [mbind option_bind].
  destruct (IH e1 W1 (P e1 a1 E1)) as (e2 & a2 & E2 & W2 & B2); rewrite E2; cbn [mbind option_bind]; exists e2, (a1 ++ a2).
  split; [done|]; split; [done|]; exact (balance_trans e e1 e2 a1 a2 [] [] B1 B2).
Qed.

(** ** A pass while the engine works *)

(** The engine before it reads the rings, with a new index or with the old. *)
Lemma refresh_working e locks : working e -> exists e1 locks1, refresh e locks = Some (e1, locks1) /\
  idle e1 /\ e_rings e1 = e_rings e /\ e_heap e1 = e_heap e /\ outs e1 = outs e /\ e_opts e1 = e_opts e /\
  (e_dirty e1 = true \/ (indexed e1 /\ alive e1)).
Proof.
  intros [I T C Cv]; unfold refresh; destruct (e_dirty e) eqn:D; [|exists e, locks; split; [done|]; split; [done|rewrite D; auto]].
  destruct (next_lock locks) as [[] l1]; [|exists e, l1; split; [done|]; split; [done|rewrite D; auto]].
  destruct (rebuild_fresh e I) as (e1 & E1 & [F1 F2 F3 F4 F5 F6 F7 F8 F9 F10]); rewrite E1; cbn [mbind option_bind].
  exists e1, l1; split; [done|]; do 5 (split; [done|]); now right.
Qed.

Lemma working_pass e locks : working e ->
  exists e' fl, process_rings e locks = Some e' /\ working e' /\ balance e e' [] fl /\ e_opts e' = e_opts e.
Proof.
  intros W; set (e0 := with_stats e (bump_loops (e_stats e))).
  assert (W0 : working e0) by (destruct W as [I T C Cv]; split; [now apply (idle_same e)|done..]).
  destruct (refresh_working e0 locks W0) as (e1 & l1 & E1 & I1 & Rg & Hp & Ou & Op & Cv).
  cbn in Rg, Hp, Ou, Op; assert (C1 : clocked e1) by (intros n p r; rewrite Rg, Hp; apply (wk_clock _ W)).
  destruct (tso_pass e1 l1 I1 (clocks_of e1 (id_reg _ I1) C1)) as (e2 & l2 & K & fe & E2 & Pr & _).
  pose proof (pass_keeps _ _ _ _ E2) as Kp; pose proof (pr_idle _ _ _ _ Pr) as I2.
  pose proof (pass_sends K fe e1 e2 Pr Kp (rel_pass apart _ _ _ _ E2) I1) as Sd; set (fl := named e1 _) in Sd.
  exists (emit e2 EvFlush), fl; split; [|split; [split|split]].
  - unfold process_rings; fold e0; unfold refresh in E1; rewrite E1; cbn [mbind option_bind].
    rewrite Op, (wk_tso _ W); change (0 =? 0) with true; cbn iota; now rewrite E2.
  - now apply (idle_same e2).
  - cbn; rewrite (pf_opts _ _ (pr_frame _ _ _ _ Pr)), Op; apply W.
  - exact (clocked_sends e1 e2 fl C1 (id_reg _ I1) Sd).
  - cbn; destruct Cv as [D|[X Al]]; [left; now apply (kp_dirty _ _ Kp)|].
    destruct (pass_alive e1 e2 Kp Al) as [?|?]; [now left|right; split; [exact (pass_indexed _ _ (id_reg _ I2) Kp X)|done]].
  - destruct (balance_sends e1 e2 fl (id_reg _ I1) (id_reg _ I2) Sd) as [Bo Bs]; split.
    + rewrite outs_emit, Bo, Ou; apply app_nil_r.
    + intros n; pose proof (Bs n) as B; unfold stock in *; rewrite Rg, Hp in B; exact B.
  - cbn; now rewrite (pf_opts _ _ (pr_frame _ _ _ _ Pr)), Op.
Qed.

(** ** The whole life *)

Lemma working_closing e : working e -> (forall n p r, (n, p) ∈ e_rings e -> e_heap e !! p = Some r -> _refcnt r = 1) -> closing e.
Proof.
  intros [I T C Cv] Rf; split; [done|done| |done]; intros n p r Hn Hr; split; [exact (Rf n p r Hn Hr)|exact (C n p r Hn Hr)].
Qed.

Lemma final_drain e (locks : nat -> list bool) fuel : closing e -> (4 <= fuel)%nat ->
  (forall j, free (S (length (e_rings e))) (locks j)) ->
  exists e' fl, drain_rings fuel e locks = Some e' /\ e_rings e' = [] /\ outs e' = outs e ++ fl /\
    forall n, of_name n fl = stock e n.
Proof.
  intros Cl Lt Fr; destruct (drain_phase locks 3 e fuel Cl I ltac:(lia) Fr) as (e' & fl & E & N & X & [S1 S2 S3 S4]).
  pose proof (id_reg _ (cl_idle _ Cl)) as R; exists e', fl; do 3 (split; [done|]); intros n.
  destruct (registered_or_not e n R) as [(p & r & Hn & Hr)|No].
  - rewrite (stock_ring e n p r R Hn Hr); destruct (S4 n p r Hn Hr) as [[C _]|[Hn' _]]; [done|rewrite N in Hn'; set_solver].
  - rewrite (stock_none e n R No), of_name_none; [done|]; intros nx Hx <-; destruct (S2 nx Hx) as [p Hp]; exact (No p Hp).
Qed.

Lemma loop_life turns : forall e start last_ops, working e -> proper_life m ap0 alloc zero e turns last_ops ->
  exists attempts, forall fuel locks, (4 <= fuel)%nat -> (forall j, free attempts (locks j)) ->
  exists res fl, engine_loop m ap0 alloc zero start e turns last_ops fuel locks = Some res /\
    e_rings (run_engine res) = [] /\ outs (run_engine res) = outs e ++ fl /\ run_sleeps res = naps (opt_polling_interval_usec (e_opts e)) start (map (fun t => gtod_usec (t_clock t)) turns) /\
    forall n, of_name n fl = stock e n ++ of_name n (run_accepted res).
Proof.
  induction turns as [|t turns IH]; intros e start last_ops W P; cbn [engine_loop proper_life] in *; destruct P as [P1 P2].
  - destruct (ops_ok last_ops e W P1) as (e1 & a & E1 & W1 & [O1 S1]); exists (S (length (e_rings e1))); intros fuel locks Lt Fr.
    rewrite E1; cbn [mbind option_bind]; pose proof (working_closing e1 W1 (fun n p r => P2 e1 a n p r E1)) as Cl.
    destruct (final_drain e1 locks fuel Cl Lt Fr) as (e2 & fl & E2 & N & O2 & S2); rewrite E2; cbn [mbind option_bind].
    eexists _, fl; split; [reflexivity|]; cbn; split; [done|]; split; [now rewrite O2, O1, app_nil_r|]; split; [done|].
    intros n; rewrite S2; symmetry; exact (S1 n).
  - destruct (ops_ok (t_ops t) e W P1) as (e1 & a & E1 & W1 & B1).
    destruct (working_pass e1 (t_locks t) W1) as (e2 & f & E2 & W2 & B2 & Op).
    rewrite (run_ops_opts _ _ _ _ E1) in Op.
    destruct (IH e2 (gtod_usec (t_clock t)) last_ops W2 (P2 e1 a e2 E1 E2)) as (k & Hk); exists k; intros fuel locks Lt Fr.
    destruct (Hk fuel locks Lt Fr) as (res & fl & Er & N & O & Ln & Sn).
    rewrite E1; cbn [mbind option_bind]; rewrite E2; cbn [mbind option_bind]; rewrite Er; cbn [mbind option_bind].
    pose proof (balance_trans e e1 e2 a [] [] f B1 B2) as [O3 S3]; cbn [app] in O3, S3; rewrite app_nil_r in S3.
    eexists _, (f ++ fl); split; [reflexivity|]; cbn [run_engine run_accepted run_sleeps map naps]; split; [done|].
    split; [now rewrite O, O3, app_assoc|]; split; [now rewrite Ln, Op|]; intros n.
    rewrite !of_name_app, Sn, !app_assoc; f_equal; symmetry; exact (S3 n).
Qed.

(** *** From its creation *)

Lemma enable_ok a s : area_ok a -> area_count a = 9 ->
  exists a', area_enable a (internal_id s) true = Some a' /\ area_ok a' /\ area_count a' = 9.
Proof.
  intros O C; destruct (area_set_spec a (internal_id s) true O) as (a' & E & O' & (_ & _ & C') & _); [rewrite C; destruct s; cbn; lia|].
  exists a'; split; [exact E|]; split; [done|congruence].
Qed.

Lemma internal_area_made junk msk : exists a, new_internal_area junk msk = Some a /\ area_ok a /\ area_count a = 9.
Proof.
  unfold new_internal_area; destruct (area_new_ok junk internal_area_name (Some internal_section_names)) as (O & C & _); [cbn; lia|].
  set (a0 := area_new _ _ _) in *; change (area_count a0 = 9) in C.
  repeat match goal with |- context [area_enable ?a (internal_id ?s) true] =>
    let a' := fresh "a" in let E := fresh "E" in
    destruct (enable_ok a s ltac:(assumption) ltac:(assumption)) as (a' & E & ? & ?); rewrite E; cbn [mbind option_bind] end.
  match goal with |- context [mask_apply msk ?a] => destruct (mask_apply_bits msk a ltac:(assumption)) as (b & -> & Ob & (_ & _ & Cb) & _) end.
  exists b; split; [done|]; split; [done|congruence].
Qed.

Definition tso_room (opts : options) : Prop :=
  Z.land (opt_features opts) DISABLE_TSO = 0 /\
  (opt_tso_buffer_capacity opts = 0 \/ 2 <= opt_tso_buffer_capacity opts < 4294967296).

Lemma new_working junk junk_tso ts opts msk : tso_room opts ->
  exists e, engine_new junk junk_tso ts opts msk = Some e /\ working e /\ e_trace e = [] /\ e_rings e = [] /\ e_opts e = opts.
Proof.
  intros [T Cp]; unfold engine_new; destruct (internal_area_made junk msk) as (a & -> & Oa & Ca); cbn [mbind option_bind].
  rewrite T; change (0 =? 0) with true; cbn iota.
  set (n := if opt_tso_buffer_capacity opts =? 0 then 2048 else opt_tso_buffer_capacity opts).
  assert (Hn : 2 <= n < 4294967296) by (unfold n; destruct (Z.eqb_spec (opt_tso_buffer_capacity opts) 0); lia).
  eexists; split; [reflexivity|]; split; [|done]; split.
  - split; cbn; try done; [|now exists a|apply tso_resize_ok; lia|lia].
    split; cbn; [constructor|intros k p H'; now apply not_elem_of_nil in H'|done..].
  - exact T.
  - intros k p r H'; now apply not_elem_of_nil in H'.
  - now left.
Qed.

(** *** The pace of the loop *)

Lemma turn_sleep_range interval start now : is_u32 interval -> 0 <= turn_sleep interval start now <= interval.
Proof.
  intros Hi; unfold turn_sleep; pose proof (u64_range (now - start)) as Hr; destruct (Z.ltb_spec (now -u64 start) interval); [|words; lia].
  rewrite (u64_small (interval - _)), u32_small by (words; lia); words; lia.
Qed.

Lemma turn_sleep_after interval start now s : is_u32 interval -> is_u64 start -> is_u64 now -> 0 <= s <= interval ->
  start + s <= now -> s + turn_sleep interval start now <= interval.
Proof.
  intros Hi Hs Hn Hr L; unfold turn_sleep; rewrite (u64_small (now - start)) by (words; lia).
  destruct (Z.ltb_spec (now - start) interval); [|lia]; rewrite u64_small, u32_small by (words; lia); lia.
Qed.

Lemma naps_lookup interval clock : forall start (k : nat) s, naps interval start clock !! k = Some s ->
  exists before now, clock !! k = Some now /\ s = turn_sleep interval before now.
Proof.
  induction clock as [|now clock IH]; intros start [|k] s; cbn [naps]; [done..| |].
  - intros [= <-]; now exists start, now.
  - apply IH.
Qed.

Lemma naps_next interval clock : forall start (k : nat) t1 t2 s, clock !! k = Some t1 -> clock !! S k = Some t2 ->
  naps interval start clock !! S k = Some s -> s = turn_sleep interval t1 t2.
Proof.
  induction clock as [|now clock IH]; intros start [|k] t1 t2 s; [done..| |].
  - intros [= ->]; destruct clock as [|c clock]; [done|]; intros [= ->]; cbn; now intros [= <-].
  - apply IH.
Qed.

Lemma length_naps interval clock : forall start, length (naps interval start clock) = length clock.
Proof. induction clock; intros; cbn; congruence. Qed.

(** C2: Over its whole life the engine loses nothing, adds nothing and keeps the
    order of every ring.  From its creation on threads register, look up, post
    to and release rings between its passes, whatever its clock says and
    whether or not it gets its mutexes; rings fill up, are killed and are
    registered again under the same names.  If the threads release only what
    is theirs and have released everything when the engine is told to end, the
    loop ends, no ring is left, and under each name exactly the records that
    went into the rings of this name came out, in the order in which they went
    in.  The last four passes need the mutexes, [attempts] times each.
    The engine orders by timestamps in a buffer of at
    least two entries (or of the default size), and timestamps stay below
    2^64 - 2^31. *)
Theorem engine_life junk junk_tso ts opts msk e start turns last_ops : tso_room opts ->
  engine_new junk junk_tso ts opts msk = Some e -> proper_life m ap0 alloc zero e turns last_ops ->
  exists attempts, forall fuel locks, (4 <= fuel)%nat -> (forall j, free attempts (locks j)) ->
  exists res, engine_loop m ap0 alloc zero start e turns last_ops fuel locks = Some res /\
    e_rings (run_engine res) = [] /\
    forall n, of_name n (outs (run_engine res)) = of_name n (run_accepted res).
Proof.
  intros Tr En P; destruct (new_working junk junk_tso ts opts msk Tr) as (e0 & E0 & W & Tc & Rg & _).
  assert (e0 = e) as -> by congruence; destruct (loop_life turns e start last_ops W P) as (k & Hk); exists k; intros fuel locks Lt Fr.
  destruct (Hk fuel locks Lt Fr) as (res & fl & E & N & O & _ & S); exists res; split; [done|]; split; [done|]; intros n.
  rewrite O; unfold outs at 1; rewrite Tc; cbn [omap list_omap app]; rewrite S; unfold stock; now rewrite Rg.
Qed.

(** C23: The pace of the loop: [usleep] is called for at most one polling
    interval, and the turn after a sleep has lost what was slept: when [usleep]
    lasts as long as asked, two turns in a row sleep no more than one interval
    together.  A turn that slept through a whole interval is followed by one
    that does not sleep at all.  The life is any one as in [engine_life]. *)
Theorem loop_pace junk junk_tso ts opts msk e start turns last_ops : tso_room opts ->
  engine_new junk junk_tso ts opts msk = Some e -> proper_life m ap0 alloc zero e turns last_ops ->
  is_u32 (opt_polling_interval_usec opts) ->
  let clock := fun t => gtod_usec (t_clock t) in
  exists attempts, forall fuel locks, (4 <= fuel)%nat -> (forall j, free attempts (locks j)) ->
  exists res, engine_loop m ap0 alloc zero start e turns last_ops fuel locks = Some res /\
    length (run_sleeps res) = length turns /\
    forall k t1 t2 s1 s2, turns !! k = Some t1 -> turns !! S k = Some t2 ->
      run_sleeps res !! k = Some s1 -> run_sleeps res !! S k = Some s2 ->
      0 <= s1 <= opt_polling_interval_usec opts /\
      (clock t1 + s1 <= clock t2 -> s1 + s2 <= opt_polling_interval_usec opts).
Proof.
  intros Tr En P Hi clock; destruct (new_working junk junk_tso ts opts msk Tr) as (e0 & E0 & W & _ & _ & Op).
  assert (e0 = e) as -> by congruence; destruct (loop_life turns e start last_ops W P) as (k & Hk); exists k; intros fuel locks Lt Fr.
  destruct (Hk fuel locks Lt Fr) as (res & fl & E & _ & _ & Sl & _); exists res; split; [done|]; rewrite Op in Sl; fold clock in Sl.
  split; [now rewrite Sl, length_naps, length_map|]; rewrite Sl; intros j t1 t2 s1 s2 T1 T2 S1 S2.
  destruct (naps_lookup _ _ _ _ _ S1) as (before & now & _ & ->); pose proof (turn_sleep_range _ before now Hi) as B; split; [exact B|].
  assert (C : forall i t, turns !! i = Some t -> map clock turns !! i = Some (clock t)) by (intros i t Ht; now rewrite list_lookup_fmap, Ht).
  rewrite (naps_next _ _ _ j (clock t1) (clock t2) s2 (C _ _ T1) (C _ _ T2) S2).
  apply turn_sleep_after; [exact Hi|apply u64_range|apply u64_range|exact B].
Qed.
End Threads.

(** ** A life *)

(** Deciding that a ring is registered. *)
Definition owned_check `{Rx : Regex} (e : engine) (p : Z) (f : ring -> bool) : bool :=
  match find (fun kv => kv.2 =? p) (e_rings e), e_heap e !! p with Some _, Some r => f r | _, _ => false end.

Lemma owned_check_ok `{Rx : Regex} (e : engine) p f (P : ring -> Prop) : (forall r, f r = true -> P r) ->
  owned_check e p f = true -> owned e p P.
Proof.
  intros F; unfold owned_check; destruct (find _ _) as [[n q]|] eqn:Fd; [|done]; apply find_some in Fd as [Hn Hq].
  cbn in Hq; apply Z.eqb_eq in Hq as ->; destruct (e_heap e !! p) as [r|] eqn:Hr; [|done]; intros Hf.
  exists n, r; split; [now apply list_elem_of_In|]; auto.
Qed.

Definition demo_pace : options := mkOptions 1000 8 0 None.

Definition demo_add : thread_op := TAddRing 1 "a" (sample_options 0).
Definition demo_post (now : Z) : thread_op := TPost 1 demo_enabled now 7 1 demo_args.

(** A ring is registered and posted to before the first pass, which does not
    get the mutex; the third pass finds nothing. *)
Definition demo_turns : list turn :=
  [mkTurn [demo_add; demo_post 42; demo_post 41] [false] (0, 100); mkTurn [demo_post 50] [true] (0, 1100); mkTurn [] [] (0, 1110)].
Definition demo_last : list thread_op := [TSpecial 1 60 SPR_FLUSH 0; TRelease 1].

Definition demo_alloc (n : Z) : bool := true.

(** The engine after each step. *)
Definition or_empty (o : option engine) : engine := default sample8 o.
Definition demo_born : engine :=
  or_empty (engine_new (fun i => 12345 * i + 77) (fun _ => mkEntry 0 0 0%nat) 9 demo_pace []).
Definition demo_op (e : engine) (op : thread_op) : engine :=
  or_empty (fst <$> run_op demo_mem demo_pack demo_alloc sample_zero e op).
Definition demo_ops (e : engine) (ops : list thread_op) : engine :=
  or_empty (fst <$> run_ops demo_mem demo_pack demo_alloc sample_zero e ops).
Definition demo_pass (e : engine) (locks : list bool) : engine := or_empty (process_rings e locks).

Abbreviation demo_life fuel locks := (engine_loop demo_mem demo_pack demo_alloc sample_zero 0 demo_born demo_turns demo_last fuel locks).

Lemma demo_life_runs : option_map (fun res => (map (fun nx => r_timestamp nx.2) (run_accepted res),
    map (fun nx => r_timestamp nx.2) (outs (run_engine res)), run_sleeps res)) (demo_life 4%nat (fun _ => [true; true])) =
  Some ([42; 41; 50; 60], [42; 41; 50; 60], [900; 0; 990]).
Proof. vm_compute; reflexivity. Qed.

Lemma demo_room : tso_room demo_pace.
Proof. split; [reflexivity|right; cbn; lia]. Qed.

Lemma demo_add_ok : allowed demo_alloc sample_zero demo_born demo_add.
Proof.
  split; [vm_compute; reflexivity|]; split.
  - assert (N : e_rings demo_born = []) by (vm_compute; reflexivity); intros n p r Hn; rewrite N in Hn; now apply not_elem_of_nil in Hn.
  - exists 4, 256; apply sample_request; words; lia.
Qed.

Lemma demo_post_ok e now : owned_check e 1 (fun _ => true) = true -> good_time now ->
  allowed demo_alloc sample_zero e (demo_post now).
Proof.
  intros Ow Tm; split; [now apply (owned_check_ok e 1 (fun _ => true))|]; split; [exact Tm|].
  split; [apply demo_enabled_ok|]; split; [vm_compute; done|]; split; [cbn; lia|apply demo_args_wf].
Qed.

Lemma demo_op_eq e op e' a : run_op demo_mem demo_pack demo_alloc sample_zero e op = Some (e', a) -> e' = demo_op e op.
Proof. intros E; unfold demo_op; now rewrite E. Qed.
Lemma demo_ops_eq e ops e' a : run_ops demo_mem demo_pack demo_alloc sample_zero e ops = Some (e', a) -> e' = demo_ops e ops.
Proof. intros E; unfold demo_ops; now rewrite E. Qed.
Lemma demo_pass_eq e locks e' : process_rings e locks = Some e' -> e' = demo_pass e locks.
Proof. intros E; unfold demo_pass; now rewrite E. Qed.

Lemma demo_time now : 0 <= now <= 100 -> good_time now.
Proof. unfold good_time; lia. Qed.

(** Only the engine refers to its rings. *)
Definition released_check (e : engine) : bool :=
  forallb (fun kv => match e_heap e !! kv.2 with Some r => _refcnt r =? 1 | None => true end) (e_rings e).

Lemma released_check_ok e : released_check e = true -> forall n p r, (n, p) ∈ e_rings e -> e_heap e !! p = Some r -> _refcnt r = 1.
Proof.
  unfold released_check; rewrite forallb_forall; intros F n p r Hn Hr; apply list_elem_of_In in Hn.
  specialize (F _ Hn); cbn in F; rewrite Hr in F; now apply Z.eqb_eq.
Qed.

Lemma demo_last_proper e : owned_check e 1 (fun r => negb (room r =? 0)) = true ->
  owned_check (demo_op e (TSpecial 1 60 SPR_FLUSH 0)) 1 (fun r => 1 <? _refcnt r) = true ->
  proper demo_mem demo_pack demo_alloc sample_zero e demo_last.
Proof.
  intros O1 O2; split; [split; [|now apply demo_time]|intros e1 a1 E1; apply demo_op_eq in E1 as ->; split; [|done]].
  - apply (owned_check_ok e 1 (fun r => negb (room r =? 0))); [intros r Hr; now apply negb_true_iff, Z.eqb_neq in Hr|exact O1].
  - apply (owned_check_ok _ 1 (fun r => 1 <? _refcnt r)); [intros r Hr; now apply Z.ltb_lt|exact O2].
Qed.

Lemma demo_proper : proper_life demo_mem demo_pack demo_alloc sample_zero demo_born demo_turns demo_last.
Proof.
  split; [split; [apply demo_add_ok|]|].
  { intros e1 a1 E1; apply demo_op_eq in E1 as ->; split; [apply demo_post_ok; [vm_compute; reflexivity|now apply demo_time]|].
    intros e2 a2 E2; apply demo_op_eq in E2 as ->; split; [apply demo_post_ok; [vm_compute; reflexivity|now apply demo_time]|done]. }
  intros e1 a1 e1' E1 P1; apply demo_ops_eq in E1 as ->; apply demo_pass_eq in P1 as ->; split; [split; [|done]|].
  { apply demo_post_ok; [vm_compute; reflexivity|now apply demo_time]. }
  intros e2 a2 e2' E2 P2; apply demo_ops_eq in E2 as ->; apply demo_pass_eq in P2 as ->; split; [done|].
  intros e3 a3 e3' E3 P3; apply demo_ops_eq in E3 as ->; apply demo_pass_eq in P3 as ->; split; [apply demo_last_proper; vm_compute; reflexivity|].
  intros e4 a4 n p r E4; apply demo_ops_eq in E4 as ->; apply released_check_ok; vm_compute; reflexivity.
Qed.

Lemma demo_created : engine_new (fun i => 12345 * i + 77) (fun _ => mkEntry 0 0 0%nat) 9 demo_pace [] = Some demo_born.
Proof.
  destruct (new_working (fun i => 12345 * i + 77) (fun _ => mkEntry 0 0 0%nat) 9 demo_pace [] demo_room) as (e & E & _).
  unfold demo_born; now rewrite E.
Qed.

Lemma demo_locks k : free k (replicate k true).
Proof. split; [apply Forall_replicate; reflexivity|rewrite length_replicate; lia]. Qed.

Lemma engine_life_witness : exists locks res, demo_life 4%nat locks = Some res /\
  e_rings (run_engine res) = [] /\ of_name "a" (outs (run_engine res)) = of_name "a" (run_accepted res).
Proof.
  destruct (engine_life demo_mem demo_pack demo_alloc sample_zero demo_mem_ok demo_pack_wf
    (fun i => 12345 * i + 77) (fun _ => mkEntry 0 0 0%nat) 9 demo_pace [] demo_born 0 demo_turns demo_last
    demo_room demo_created demo_proper) as (k & Hk).
  destruct (Hk 4%nat (fun _ => replicate k true) (Nat.le_refl 4) (fun _ => demo_locks k)) as (res & E & N & S).
  exists (fun _ => replicate k true), res; split; [exact E|]; split; [exact N|exact (S "a"%string)].
Defined.

Lemma loop_pace_witness : exists locks res, demo_life 4%nat locks = Some res /\ length (run_sleeps res) = 3%nat.
Proof.
  destruct (loop_pace demo_mem demo_pack demo_alloc sample_zero demo_mem_ok demo_pack_wf
    (fun i => 12345 * i + 77) (fun _ => mkEntry 0 0 0%nat) 9 demo_pace [] demo_born 0 demo_turns demo_last
    demo_room demo_created demo_proper ltac:(words; cbn; lia)) as (k & Hk).
  destruct (Hk 4%nat (fun _ => replicate k true) (Nat.le_refl 4) (fun _ => demo_locks k)) as (res & E & L & S).
  exists (fun _ => replicate k true), res; split; [exact E|exact L].
Defined.
