(* ===== verification/LifeLog.v ===== *)
(** * A whole life and its log

    The life of EngineLoop run into an output of Output: what an engine, its
    threads and its format leave in the stream. *)

From S2P Require Import Prelude Args Record Ring Area Timestamp Tso Post Registry Engine EngineFacts RegistryFacts Sample.
From S2P Require Import EnginePass EngineTrace EngineDrain EngineLoop Ostrbuf Format FormatFacts FormatArgs FormatSpec Output.

(** ** What the engine says during its life *)

Section Said.
Context `{Rx : Regex}.
Context `{SortT : StdSort (entry Z) te_timestamp}.
Context `{SortI : forall key, StdSort index_entry key}.
Implicit Type e : engine.
Variables (m : memory) (ap0 : argpack) (alloc : Z -> bool) (zero : record).
Variable N : string -> Prop.
Variable t0 : list event.
Variable o0 : options.
Hypothesis engine_named : N "ENGINE".
Hypothesis tso_on : Z.land (opt_features o0) DISABLE_TSO = 0.
Abbreviation spoken := (spoken N t0 o0).

(** New rings get names of the kind. *)
Definition op_named (op : thread_op) : Prop := match op with TAddRing _ name _ => N name | _ => True end.

Lemma push_commit_name (r : ring) : match push_commit r with Pushed r' | Dropped r' => _name r' = _name r | MustBlock => True end.
Proof. unfold push_commit; destruct (_ =? _); [destruct (blocking r)|]; done. Qed.

Lemma push_args_name r now a s args res : push_args m ap0 r now a s args = Some res ->
  match res with Pushed r' | Dropped r' => _name r' = _name r | MustBlock => True end.
Proof.
  unfold push_args, begin_unlocked, finish_unlocked; destruct (populate ap0 args) as [ap k]; cbn [inc_seqnum].
  set (w := write_slot _ _ _); intros E; opt_step E; injection E as <-; exact (push_commit_name (write_slot w _ r0)).
Qed.

Lemma push_special_name (r : ring) now seq type arg1 q res : push_special r now seq type arg1 = Some (q, res) ->
  match res with Pushed r' | Dropped r' => _name r' = _name r | MustBlock => True end.
Proof.
  unfold push_special; intros E; opt_step E; injection E as <- <-.
  exact (push_commit_name (write_slot r (push_begin r) r0)).
Qed.

Lemma pushed_said e p r res e' a : e_heap e !! p = Some r ->
  match res with Pushed r' | Dropped r' => _name r' = _name r | MustBlock => True end ->
  pushed e p res = (e', a) -> spoken e -> spoken e'.
Proof. intros H Nm E S; destruct res as [r'|r'|]; injection E as <- _; try done; now apply (spoken_put N t0 o0 e p r). Qed.

Lemma hold_at_said e p e' : hold_at e p = Some e' -> spoken e -> spoken e'.
Proof. unfold hold_at; intros E S; opt_step E; injection E as <-; now apply (spoken_put N t0 o0 e p r). Qed.

Lemma new_ring_name al z ts name opts (r : ring) : ringbuf_new al z ts name opts = Some r -> _name r = name.
Proof. unfold ringbuf_new; intros E; repeat (opt_step E || (case_match; try discriminate E)); now injection E as <-. Qed.

Lemma add_ring_said e p name opts e' res msgs : N name -> add_ring e p alloc zero name opts = Some (e', res, msgs) ->
  spoken e -> spoken e'.
Proof.
  intros Nn E S; unfold add_ring in E; destruct (ringbuf_new _ _ _ _ _) as [nr|] eqn:En; cbn [mbind option_bind] in E; [|done].
  apply new_ring_name in En; set (e1 := put_ring e p _) in E; assert (S1 : spoken e1).
  { destruct S as [A B C]; split; [|exact B|exact C]; intros q rq; cbn; destruct (decide (q = p)) as [->|Ne].
    - rewrite lookup_insert_eq; intros [= <-]; cbn; now rewrite En.
    - rewrite lookup_insert_ne by done; apply A. }
  destruct (smap_insert name p _) as [rings ins]; opt_step E; opt_step E; apply hold_at_said in E1; [|exact S1].
  destruct ins; [injection E as <- _ _; exact E1|]; opt_step E; apply release_at_said with (N := N) (t0 := t0) (o0 := o0) in E2; [|exact E1].
  opt_step E; destruct (shared r); [now injection E as <- _ _|]; destruct (reusable r && _); [now injection E as <- _ _|].
  opt_step E; injection E as <- _ _; eapply release_at_said; [exact E4|exact E2].
Qed.

Lemma run_op_said e op e' a : op_named op -> run_op m ap0 alloc zero e op = Some (e', a) -> spoken e -> spoken e'.
Proof.
  destruct op as [p ar now u s args|p now type arg1|p name opts|name|p]; cbn [run_op op_named]; intros Nn E S.
  - opt_step E; unfold post in E; destruct (area_test ar s) as [[]|]; cbn [mbind option_bind] in E; [| |done].
    + destruct (push_args _ _ _ _ _ _ _) as [res|] eqn:Ep; cbn [mbind option_bind] in E; [|done]; injection E as E.
      apply push_args_name in Ep; exact (pushed_said e p r res e' a E0 Ep E S).
    + now injection E as <- _.
  - opt_step E; cbn [inc_seqnum] in E; destruct (push_special _ _ _ _ _) as [[q res]|] eqn:Ep; cbn [mbind option_bind] in E; [|done].
    injection E as E; apply push_special_name in Ep; exact (pushed_said e p r res e' a E0 Ep E S).
  - destruct (add_ring _ _ _ _ _ _) as [[[e1 res] msgs]|] eqn:Ea; cbn [mbind option_bind] in E; [|done]; injection E as <- _.
    eapply add_ring_said; eauto.
  - unfold find_ring in E; destruct (smap_find name _) as [p|]; cbn [mbind option_bind] in E; [|now injection E as <- _].
    destruct (hold_at e p) as [e1|] eqn:Eh; cbn [mbind option_bind] in E; [|done]; injection E as <- _; eapply hold_at_said; eauto.
  - destruct (release_at e p) as [e1|] eqn:Er; cbn [mbind option_bind] in E; [|done]; injection E as <- _; eapply release_at_said; eauto.
Qed.

Lemma run_ops_said ops : forall e e' a, Forall op_named ops -> run_ops m ap0 alloc zero e ops = Some (e', a) -> spoken e -> spoken e'.
Proof.
  induction ops as [|op ops IH]; intros e e' a Nn E S; cbn [run_ops] in E; [now injection E as <- _|].
  apply Forall_cons in Nn as [N1 Nn]; destruct (run_op _ _ _ _ e op) as [[e1 a1]|] eqn:E1; cbn [mbind option_bind] in E; [|done].
  destruct (run_ops _ _ _ _ e1 ops) as [[e2 a2]|] eqn:E2; cbn [mbind option_bind] in E; [|done]; injection E as <- _.
  eapply IH; [exact Nn|exact E2|]; eapply run_op_said; eauto.
Qed.

(** Every event of a life is one the output can be given, and the last thing
    the engine does is to flush it. *)
Lemma loop_said turns : forall start e last_ops fuel locks res, Forall (fun t => Forall op_named (t_ops t)) turns -> Forall op_named last_ops ->
  engine_loop m ap0 alloc zero start e turns last_ops fuel locks = Some res -> spoken e ->
  exists l, e_trace (run_engine res) = t0 ++ l ++ [EvFlush] /\ Forall (says_ok N) (l ++ [EvFlush]).
Proof.
  induction turns as [|t turns IH]; intros start e last_ops fuel locks res Nt Nl E S; cbn [engine_loop] in E.
  - destruct (run_ops _ _ _ _ e last_ops) as [[e1 a]|] eqn:E1; cbn [mbind option_bind] in E; [|done]; opt_step E; injection E as <-.
    eapply drain_said; [exact engine_named|exact tso_on|exact E0|]; eapply run_ops_said; eauto.
  - apply Forall_cons in Nt as [N1 Nt]; destruct (run_ops _ _ _ _ e (t_ops t)) as [[e1 a]|] eqn:E1; cbn [mbind option_bind] in E; [|done].
    destruct (process_rings e1 _) as [e2|] eqn:E2; cbn [mbind option_bind] in E; [|done]; opt_step E; injection E as <-; cbn [run_engine].
    pose proof (run_ops_said _ _ _ _ N1 E1 S) as S1.
    destruct (process_rings_said N t0 o0 engine_named tso_on e1 _ e2 E2 S1) as (e3 & -> & S3).
    eapply IH; [exact Nt|exact Nl|exact E0|now apply spoken_emit].
Qed.
End Said.

(** ** From the threads to the stream *)

Section Life.
Context `{Rx : Regex}.
Context `{SortT : StdSort (entry Z) te_timestamp}.
Context `{SortI : forall key, StdSort index_entry key}.
Context `{St : Stream U}.
Context (localtime : Z -> tm) (print_flt : string -> Z -> Z -> bytes) (gstr : Z -> bytes)
  (area_at : Z -> area) (vprintf : bytes -> list fmt_arg -> bytes * option bytes) (junk : Z -> Z).
Context (static_str : string -> Z) (ts_name : Z -> Z) (internal : Z) (fake : bytes) (fake_addr : Z)
  (junk_arg : arg) (argval_at : record -> Z).
Variables (m : memory) (ap0 : argpack) (alloc : Z -> bool) (zero : record).
Hypothesis static_ok : forall s, s ∈ report_formats -> is_u64 (static_str s) /\ static_str s <> 0 /\ gstr (static_str s) = str s.
Hypothesis name_ok : forall ts, is_u64 (ts_name ts) /\ ts_name ts <> 0.
Hypothesis junk_ok : is_u32 (a_len junk_arg).
Hypothesis fake_ok : length fake = 128%nat.
Hypothesis internal_short : forall x, r_area x = Some internal ->
  Z.of_nat (length (record_names area_at x).1) + Z.of_nat (length (record_names area_at x).2) < 1000.
Hypotheses (Hm : mem_ok m) (Hap : pack_wf ap0).

#[local] Instance life_formatter : Formatter format_state :=
  basic_formatter Nsec localtime print_flt gstr area_at vprintf junk.
#[local] Instance life_renders : Renders format_state :=
  basic_renders Nsec localtime print_flt gstr area_at vprintf junk.

Abbreviation run_log := (run static_str ts_name internal m fake fake_addr junk_arg argval_at).
Abbreviation log_of := (log_text static_str ts_name internal m fake fake_addr junk_arg argval_at).
Abbreviation prints := (basic_prints Nsec print_flt gstr area_at vprintf).

Lemma elem_of_name n x (l : list (string * record)) : x ∈ of_name n l <-> (n, x) ∈ l.
Proof.
  unfold of_name; rewrite list_elem_of_fmap; split.
  - intros ([n' x'] & -> & H); apply list_elem_of_filter in H as [E H]; cbn in E; now subst.
  - intros H; exists (n, x); split; [done|]; now apply list_elem_of_filter.
Qed.

(** The records that go into rings during a life, which does not depend on how
    the rings are drained. *)
Fixpoint posted_during (e : engine) (turns : list turn) (last_ops : list thread_op) : option (list (string * record)) :=
  match turns with
  | [] => '(_, a) ← run_ops m ap0 alloc zero e last_ops; Some a
  | t :: turns =>
      '(e, a) ← run_ops m ap0 alloc zero e (t_ops t);
      e ← process_rings e (t_locks t);
      rest ← posted_during e turns last_ops; Some (a ++ rest)
  end.

Lemma posted_during_loop turns : forall start e last_ops fuel locks res,
  engine_loop m ap0 alloc zero start e turns last_ops fuel locks = Some res ->
  posted_during e turns last_ops = Some (run_accepted res).
Proof.
  induction turns as [|t turns IH]; intros start e last_ops fuel locks res E; cbn [engine_loop posted_during] in *.
  - destruct (run_ops _ _ _ _ e last_ops) as [[e1 a]|]; cbn [mbind option_bind] in E |- *; [|done]; opt_step E; now injection E as <-.
  - destruct (run_ops _ _ _ _ e (t_ops t)) as [[e1 a]|]; cbn [mbind option_bind] in E |- *; [|done].
    destruct (process_rings e1 _) as [e2|]; cbn [mbind option_bind] in E |- *; [|done]; opt_step E; injection E as <-.
    now rewrite (IH _ _ _ _ _ _ E0).
Qed.

(** What the threads posted can be printed. *)
Definition printable_posts (acc : list (string * record)) : Prop :=
  forall n x, (n, x) ∈ acc -> is_special x = false -> prints (mkData (str n) x (argval_at x)).

Lemma life_prints acc evs : (forall n, of_name n (omap out_of evs) = of_name n acc) -> printable_posts acc ->
  Forall (says_ok short_name) evs -> Forall (event_prints static_str ts_name internal m fake fake_addr junk_arg argval_at) evs.
Proof.
  intros Acc Pr Sy; rewrite Forall_forall in Sy; apply Forall_forall; intros ev Hev; destruct (Sy ev Hev) as [Sn Sl].
  destruct ev as [n x|n ts sq sc fm a0 a1|n x|]; [| |now exists None|now exists None].
  - eexists; split; [reflexivity|]; intros d [= <-]; apply (Pr n x); [|exact Sl].
    apply elem_of_name; rewrite <- Acc; apply elem_of_name, list_elem_of_omap; eexists; split; [exact Hev|done].
  - destruct (inject_prints print_flt gstr area_at vprintf static_str ts_name internal m fake fake_addr junk_arg static_ok name_ok
      junk_ok fake_ok internal_short n ts sq sc fm a0 a1 Sl (Sn n eq_refl)) as (x & rd & out & E & Ex & Bd & Ok & _).
    eexists; split; [cbn [event_data]; rewrite E; reflexivity|]; intros d [= <-]; now exists rd, out.
Qed.

(** C1: From the threads to the stream.  An engine is created, threads register
    rings, post, and release them between its passes, and it is told to end;
    it writes to a healthy output, whatever its buffers and streams.  Then the
    thread of the engine ends with no ring left; every call of the output
    succeeds; and when the output is deleted its stream holds what was written
    before the engine, then one line for each record and each report of the
    engine, in the order of the engine's events.  Among these events the
    records of every name are exactly those that went into the rings of this
    name during the engine's life, in the order in which they were posted.
    The records must be of a kind that can be printed, and the names short.
    The engine orders by timestamps in a buffer of at
    least two entries (or of the default size), and timestamps stay below
    2^64 - 2^31. *)
Theorem life_log junk_mem junk_tso ts opts msk e start turns last_ops acc (o : out_state format_state U) : tso_room opts ->
  engine_new junk_mem junk_tso ts opts msk = Some e -> proper_life m ap0 alloc zero e turns last_ops ->
  Forall (fun t => Forall (op_named short_name) (t_ops t)) turns -> Forall (op_named short_name) last_ops ->
  posted_during e turns last_ops = Some acc -> printable_posts acc -> out_ready o ->
  exists attempts, forall fuel locks, (4 <= fuel)%nat -> (forall j, free attempts (locks j)) ->
  exists res o', engine_loop m ap0 alloc zero start e turns last_ops fuel locks = Some res /\ e_rings (run_engine res) = [] /\
    (forall n, of_name n (omap out_of (e_trace (run_engine res))) = of_name n acc) /\
    run_log o (e_trace (run_engine res)) = Some o' /\ out_ready o' /\
    written (o_buf (output_delete o')).2 = text (o_buf o) ++ (log_of (rs_abs (o_format o)) (e_trace (run_engine res))).2.
Proof.
  intros Tr En P Nt Nl Pd Pr R; destruct (new_working junk_mem junk_tso ts opts msk Tr) as (e0 & E0 & W & Tc & Rg & Op).
  assert (e0 = e) as -> by congruence; destruct (loop_life m ap0 alloc zero Hm Hap turns e start last_ops W P) as (k & Hk).
  exists k; intros fuel locks Lt Fr; destruct (Hk fuel locks Lt Fr) as (res & fl & E & N & O & _ & S); exists res.
  pose proof (posted_during_loop _ _ _ _ _ _ _ E) as Pe; rewrite Pd in Pe; injection Pe as ->.
  assert (Acc : forall n, of_name n (outs (run_engine res)) = of_name n (run_accepted res)).
  { intros n; rewrite O; unfold outs at 1; rewrite Tc; cbn [omap list_omap app]; rewrite S; unfold stock; now rewrite Rg. }
  assert (Sp : spoken short_name [] opts e).
  { split; [|rewrite Tc; now exists []|exact Op]; intros p r Hp; clear - En Hp.
    unfold engine_new in En; destruct (new_internal_area _ _); [|done]; cbn [mbind option_bind] in En; injection En as <-.
    cbn in Hp; now rewrite lookup_empty in Hp. }
  destruct (loop_said m ap0 alloc zero short_name [] opts eq_refl (proj1 Tr) turns start e last_ops fuel locks res Nt Nl E Sp) as (l & T & Sy).
  cbn [app] in T; rewrite <- T in Sy; pose proof (life_prints _ _ Acc Pr Sy) as Ep.
  destruct (run_ok static_str ts_name internal m fake fake_addr junk_arg argval_at _ o R Ep) as (o' & Er & R' & _ & Tx).
  exists o'; do 2 (split; [done|]); split; [exact Acc|]; do 2 (split; [done|]).
  destruct (output_delete_ok o' R') as (_ & _ & Wd); rewrite Wd, Tx.
  cbn [fmt_footer life_formatter basic_formatter concat]; now rewrite app_nil_r.
Qed.
End Life.

(** ** A life and its text *)

#[local] Instance v_formatter : Formatter format_state := basic_formatter Nsec w_tm w_print w_gstr w_area w_vprintf (fun i => i).
#[local] Instance v_renders : Renders format_state := basic_renders Nsec w_tm w_print w_gstr w_area w_vprintf (fun i => i).

Abbreviation v_run := (run w_static (fun _ => 4) 0 demo_mem (replicate 128 7) 0 w_junk (fun _ => 0)).
Definition v_out : out_state format_state _ := mkOut (format_basic FAST0) (small_buffer, tee0).

Definition v_line (ns : string) (seq : string) : bytes :=
  str (ns ++ " a:")%string ++ str seq ++ str " HOGL:WARN clock" ++ newline.

Lemma demo_life_text : option_map (fun o => written (o_buf (output_delete o)).2)
    (res ← demo_life 4%nat (fun _ => [true; true]); v_run v_out (e_trace (run_engine res))) =
  Some (v_line "00000000000.000000042" "0" ++ v_line "00000000000.000000041" "1" ++ v_line "00000000000.000000050" "2").
Proof. vm_compute; reflexivity. Qed.

Definition demo_posted : list (string * record) :=
  default [] (posted_during demo_mem demo_pack demo_alloc sample_zero demo_born demo_turns demo_last).

Lemma demo_posted_eq : posted_during demo_mem demo_pack demo_alloc sample_zero demo_born demo_turns demo_last = Some demo_posted.
Proof. vm_compute; reflexivity. Qed.

Lemma demo_printable : printable_posts w_print w_gstr w_area w_vprintf (fun _ => 0) demo_posted.
Proof.
  intros n x H Sp; apply list_elem_of_In in H; assert (D : exists l, demo_posted = l) by (eexists; reflexivity).
  destruct D as [l D]; rewrite D in H; vm_compute in D; subst l.
  repeat destruct H as [[= <- <-]|H]; try destruct H; try (vm_compute in Sp; discriminate Sp).
  all: eexists _, _; split; [vm_compute; reflexivity|]; split; [vm_compute; reflexivity|]; split;
    [vm_compute; reflexivity|split; vm_compute; congruence|apply clock_time_nsec; split; vm_compute; congruence].
Qed.

Lemma life_log_witness : exists locks res o', demo_life 4%nat locks = Some res /\
  v_run v_out (e_trace (run_engine res)) = Some o' /\
  of_name "a" (omap out_of (e_trace (run_engine res))) = of_name "a" demo_posted /\
  written (o_buf (output_delete o')).2 =
    (log_text w_static (fun _ => 4) 0 demo_mem (replicate 128 7) 0 w_junk (fun _ => 0) (rs_abs (o_format v_out)) (e_trace (run_engine res))).2.
Proof.
  destruct (life_log w_tm w_print w_gstr w_area w_vprintf (fun i => i) w_static (fun _ => 4) 0 (replicate 128 7) 0 w_junk (fun _ => 0)
    demo_mem demo_pack demo_alloc sample_zero w_static_ok w_name_ok w_junk_ok eq_refl w_short demo_mem_ok demo_pack_wf
    (fun i => 12345 * i + 77) (fun _ => mkEntry 0 0 0%nat) 9 demo_pace [] demo_born 0 demo_turns demo_last demo_posted v_out
    demo_room demo_created demo_proper) as (k & Hk).
  - repeat constructor.
  - repeat constructor.
  - exact demo_posted_eq.
  - exact demo_printable.
  - split; [apply small_ready|apply tscache_new_ok].
  - destruct (Hk 4%nat (fun _ => replicate k true) (Nat.le_refl 4) (fun _ => demo_locks k)) as (res & o' & E & _ & A & R & _ & W).
    exists (fun _ => replicate k true), res, o'; split; [exact E|]; split; [exact R|]; split; [exact (A "a"%string)|exact W].
Defined.
