(* ===== verification/Tls.v ===== *)
(** * Rings of threads, and the default engine (hogl/tls.hpp, src/tls.cc,
    src/default-engine.cc)

    A thread posts to the ring its pointer names; an object of class tls gives
    it a ring for its own lifetime.  The stack of these objects is part of the
    state here.  As in Registry, what an operation posts is part of its result;
    the ring it is posted to is added. *)

From S2P Require Import Prelude Args Record Ring Area Timestamp Tso Post Registry Engine EngineFacts RegistryFacts Sample.

(* src: include/hogl/tls.hpp 48-67 tls *)
Record tls := mkTls { tl_previous : option Z; tl_current : option Z }.

(* src: include/hogl/tls.hpp 103-106 tls::valid *)
Definition valid (t : tls) : bool := match tl_current t with Some _ => true | None => false end.

Section Tls.
Context `{Rx : Regex}.
Implicit Type e : engine.

(** The engine, and the thread's pointer. *)
Definition tls_result : Type := engine * Z * tls * list (Z * message).

(** A reference to the previous ring is held; the message goes to it. *)
(* src: src/tls.cc 48-58 tls::update *)
Definition tls_update e (ring r : Z) : option tls_result :=
  e ← hold_at e ring;
  rr ← e_heap e !! r;
  Some (e, r, mkTls (Some ring) (Some r), [(ring, mkMessage I_TLS_DEBUG "created tls %p. ring %s(%p)" (_name rr))]).

(** [p] is the address a new ring gets. *)
(* src: src/tls.cc 63-76 tls::tls *)
Definition tls_new e (ring p : Z) (alloc : Z -> bool) (zero : record) (name : string) (opts : ring_options) : option tls_result :=
  '(e, r, msgs) ← add_ring e p alloc zero name opts;
  let msgs := map (pair ring) msgs in
  match r with
  | None => Some (e, ring, mkTls None None, msgs)
  | Some r => '(e, ring, t, m) ← tls_update e ring r; Some (e, ring, t, msgs ++ m)
  end.

(** The reference the caller has to the ring becomes the object's. *)
(* src: src/tls.cc 78-82 tls::tls *)
Definition tls_new_ring e (ring r : Z) : option tls_result := tls_update e ring r.

(* src: src/tls.cc 84-103 tls::~tls *)
Definition tls_delete e (ring : Z) (t : tls) : option (engine * Z * list (Z * message)) :=
  match tl_current t with
  | None => Some (e, ring, [(ring, mkMessage I_WARN "destroyed tls %p null-ring" "")])
  | Some r =>
      ring ← tl_previous t;
      e ← release_at e ring;
      rr ← e_heap e !! r;
      let empty_arg := if empty rr then "1"%string else "0"%string in
      e ← release_at e r;
      Some (e, ring, [(ring, mkMessage I_TLS_DEBUG "destroyed tls %p ring %p (empty %u)" empty_arg)])
  end.

(** ** A thread *)

Record thread := mkThread { th_engine : engine; th_ring : Z; th_stack : list tls }.

Inductive tls_op := New (alloc : Z -> bool) (zero : record) (name : string) (opts : ring_options) | Delete.

(** Where the next ring is allocated. *)
Variable fresh : heap -> Z.

Definition tls_step (s : thread) (op : tls_op) : option thread :=
  match op with
  | New alloc zero name opts =>
      '(e, ring, t, _) ← tls_new (th_engine s) (th_ring s) (fresh (e_heap (th_engine s))) alloc zero name opts;
      Some (mkThread e ring (t :: th_stack s))
  | Delete =>
      match th_stack s with
      | [] => None
      | t :: st => '(e, ring, _) ← tls_delete (th_engine s) (th_ring s) t; Some (mkThread e ring st)
      end
  end.

Fixpoint tls_run (s : thread) (ops : list tls_op) : option thread :=
  match ops with [] => Some s | op :: ops => s ← tls_step s op; tls_run s ops end.

(** ** The invariant *)

(** The references the objects hold to a ring. *)
Definition refs_of (p : Z) (o : option Z) : Z := if decide (o = Some p) then 1 else 0.
Fixpoint uses (p : Z) (st : list tls) : Z :=
  match st with [] => 0 | t :: st => refs_of p (tl_previous t) + refs_of p (tl_current t) + uses p st end.

(** The pointer names the ring of the innermost object that has one, and each
    object remembers the one further out. *)
Fixpoint chain (init ring : Z) (st : list tls) : Prop :=
  match st with
  | [] => ring = init
  | t :: st =>
      match tl_current t, tl_previous t with
      | Some r, Some prev => ring = r /\ chain init prev st
      | None, None => chain init ring st
      | _, _ => False
      end
  end.

Definition count_of e (p : Z) : option Z := option_map _refcnt (e_heap e !! p).

Definition registered e (p : Z) : Prop := exists n, (n, p) ∈ e_rings e.

(** [e0] and [init] are the engine and the pointer at first; [k] objects more
    will be made. *)
Record tls_inv e0 (init : Z) (k : nat) (base : Z -> Z) (s : thread) : Prop := {
  ti_reg : registry_ok (th_engine s);
  ti_chain : chain init (th_ring s) (th_stack s);
  ti_live : registered (th_engine s) (th_ring s);
  ti_stack : forall p, 1 <= uses p (th_stack s) -> registered (th_engine s) p;
  ti_refs : forall p, registered (th_engine s) p -> count_of (th_engine s) p = Some (base p + uses p (th_stack s));
  ti_base : forall p, registered (th_engine s) p -> 1 <= base p /\ base p + 2 * Z.of_nat (length (th_stack s) + k) < 2147483647;
  ti_grows : forall n p, (n, p) ∈ e_rings e0 -> (n, p) ∈ e_rings (th_engine s);
  ti_old : forall p, registered e0 p -> count_of e0 p = Some (base p);
  ti_new : forall p, registered (th_engine s) p -> ~ registered e0 p -> base p = 1 }.

Lemma refs_of_range p o : 0 <= refs_of p o <= 1.
Proof. unfold refs_of; case_decide; lia. Qed.

Lemma uses_range p st : 0 <= uses p st <= 2 * Z.of_nat (length st).
Proof.
  induction st as [|t st IH]; cbn [uses length]; [lia|].
  pose proof (refs_of_range p (tl_previous t)); pose proof (refs_of_range p (tl_current t)); lia.
Qed.

Lemma registered_ring e p : registry_ok e -> registered e p -> exists r, e_heap e !! p = Some r /\ ring_ok r.
Proof. intros R [n Hn]; destruct (ro_rings _ R n p Hn) as (r & Hr & _ & Ok); eauto. Qed.

(** No ring leaves the registry, and none loses a record. *)
Definition kept e e' : Prop := forall n p r, (n, p) ∈ e_rings e -> e_heap e !! p = Some r ->
  (n, p) ∈ e_rings e' /\ exists r', e_heap e' !! p = Some r' /\ same_ring r r'.

Lemma kept_refl e : kept e e.
Proof. intros n p r Hn Hr; split; [done|]; exists r; split; [done|apply same_ring_refl]. Qed.

Lemma kept_trans e1 e2 e3 : kept e1 e2 -> kept e2 e3 -> kept e1 e3.
Proof.
  intros K1 K2 n p r Hn Hr; destruct (K1 n p r Hn Hr) as (Hn2 & r2 & Hr2 & S2); destruct (K2 n p r2 Hn2 Hr2) as (Hn3 & r3 & Hr3 & S3).
  split; [done|]; exists r3; split; [done|]; now apply (same_ring_trans r r2).
Qed.

(** One ring was written, and it is as before. *)
Lemma kept_one e e' q r0 r1 : e_heap e !! q = Some r0 -> same_ring r0 r1 -> e_heap e' !! q = Some r1 ->
  (forall n p, (n, p) ∈ e_rings e -> (n, p) ∈ e_rings e') ->
  (forall p, registered e p -> p <> q -> e_heap e' !! p = e_heap e !! p) -> kept e e'.
Proof.
  intros H0 S H1 Rg Ho n p r Hn Hr; split; [auto|]; destruct (decide (p = q)) as [->|N].
  - exists r1; split; [done|]; congruence.
  - exists r; rewrite Ho by (done || now exists n); split; [done|apply same_ring_refl].
Qed.

Lemma kept_put e p r r' : e_heap e !! p = Some r -> same_ring r r' -> kept e (put_ring e p r').
Proof.
  intros Hr S; apply (kept_one e _ p r r'); try done; cbn; [apply lookup_insert_eq|intros q _ N; now rewrite lookup_insert_ne].
Qed.

Lemma count_put e p r q : count_of (put_ring e p r) q = if decide (q = p) then Some (_refcnt r) else count_of e q.
Proof.
  unfold count_of; cbn; case_decide as D; [subst q; now rewrite lookup_insert_eq|now rewrite lookup_insert_ne by done].
Qed.

(** Taking and dropping a reference to a registered ring. *)
Lemma hold_registered e p c : registry_ok e -> registered e p -> count_of e p = Some c -> 1 <= c < 2147483647 ->
  exists e', hold_at e p = Some e' /\ registry_ok e' /\ e_rings e' = e_rings e /\ count_of e' p = Some (c + 1) /\
    (forall q, q <> p -> e_heap e' !! q = e_heap e !! q) /\ kept e e'.
Proof.
  intros R Rg C Hc; destruct (registered_ring e p R Rg) as (r & Hr & Ok); unfold count_of in C; rewrite Hr in C; injection C as C.
  pose proof (hold_count r) as Hh; exists (put_ring e p (hold r)); unfold hold_at; rewrite Hr; cbn [mbind option_bind].
  split; [done|]; split; [apply (registry_put e p r); [done|done|apply same_ring_hold|lia|exact Rg]|]; split; [done|]; split.
  - rewrite count_put, decide_True by done; f_equal; lia.
  - split; [intros q N; cbn; now rewrite lookup_insert_ne|]; apply (kept_put e p r); [done|apply same_ring_hold].
Qed.

Lemma release_kept (r : ring) : 2 <= _refcnt r < 2147483648 -> release r = Kept (set_refcnt r (_refcnt r - 1)).
Proof.
  intros H; unfold release, refcount_dec; cbv zeta; assert (E : s32 (_refcnt r - 1) = _refcnt r - 1) by (unfold s32; Z.div_mod_to_equations; lia).
  rewrite E; destruct (Z.ltb_spec (_refcnt r - 1) 0); [lia|]; destruct (Z.ltb_spec 0 (_refcnt r - 1)); [done|lia].
Qed.

Lemma release_registered e p c : registry_ok e -> registered e p -> count_of e p = Some c -> 2 <= c < 2147483648 ->
  exists e', release_at e p = Some e' /\ registry_ok e' /\ e_rings e' = e_rings e /\ count_of e' p = Some (c - 1) /\
    (forall q, q <> p -> e_heap e' !! q = e_heap e !! q) /\ kept e e'.
Proof.
  intros R Rg C Hc; destruct (registered_ring e p R Rg) as (r & Hr & Ok); unfold count_of in C; rewrite Hr in C; injection C as C.
  exists (put_ring e p (set_refcnt r (_refcnt r - 1))); unfold release_at; rewrite Hr; cbn [mbind option_bind].
  rewrite (release_kept r) by lia; split; [done|]; split; [apply (registry_put e p r); [done|done|repeat split|cbn; lia|exact Rg]|].
  split; [done|]; split; [rewrite count_put, decide_True by done; cbn; f_equal; lia|].
  split; [intros q N; cbn; now rewrite lookup_insert_ne|]; apply (kept_put e p r); [done|repeat split].
Qed.

Lemma count_other e e' p q : (forall q, q <> p -> e_heap e' !! q = e_heap e !! q) -> q <> p -> count_of e' q = count_of e q.
Proof. intros H N; unfold count_of; now rewrite H. Qed.

(** The counts when the caller of [tls_update] has a reference to [r]. *)
Record given e0 (init : Z) (k : nat) (base : Z -> Z) e (ring : Z) (st : list tls) (r : Z) : Prop := {
  gv_reg : registry_ok e;
  gv_chain : chain init ring st;
  gv_live : registered e ring;
  gv_ring : registered e r;
  gv_stack : forall p, 1 <= uses p st -> registered e p;
  gv_refs : forall p, registered e p -> count_of e p = Some (base p + uses p st + refs_of p (Some r));
  gv_base : forall p, registered e p -> 1 <= base p /\ base p + 2 * Z.of_nat (length st + S k) < 2147483647;
  gv_grows : forall n p, (n, p) ∈ e_rings e0 -> (n, p) ∈ e_rings e;
  gv_old : forall p, registered e0 p -> count_of e0 p = Some (base p);
  gv_new : forall p, registered e p -> ~ registered e0 p -> base p = 1 }.

Lemma refs_of_some p q : refs_of p (Some q) = if decide (p = q) then 1 else 0.
Proof. unfold refs_of; repeat case_decide; congruence. Qed.

Lemma update_ok e0 init k base e ring st r : given e0 init k base e ring st r ->
  exists e' t msgs, tls_update e ring r = Some (e', r, t, msgs) /\ tls_inv e0 init k base (mkThread e' r (t :: st)) /\ kept e e'.
Proof.
  intros [R C L Lr Ss Rf Bs Gr Ol Nw]; pose proof (uses_range ring st) as U; destruct (Bs ring L) as [B1 B2]; pose proof (refs_of_range ring (Some r)) as Rr.
  destruct (hold_registered e ring _ R L (Rf ring L)) as (e1 & E1 & R1 & Rg1 & C1 & O1 & K1); [lia|].
  assert (Reg : forall p, registered e1 p <-> registered e p) by (intros p; unfold registered; now rewrite Rg1).
  destruct (registered_ring e1 r R1 (proj2 (Reg r) Lr)) as (rr & Hr & _); unfold tls_update; rewrite E1; cbn [mbind option_bind]; rewrite Hr.
  cbn [mbind option_bind]; eexists e1, _, _; split; [reflexivity|]; split; [|exact K1]; split; cbn [th_engine th_ring th_stack]; try done.
  - now apply Reg.
  - intros p; cbn [uses tl_previous tl_current]; rewrite Reg, !refs_of_some; intros H; repeat case_decide; subst; auto; apply Ss; lia.
  - intros p Hp; cbn [uses tl_previous tl_current]; destruct (decide (p = ring)) as [->|N].
    + rewrite C1; f_equal; rewrite (refs_of_some ring ring), decide_True by done; lia.
    + rewrite (count_other e e1 ring p O1 N), Rf by (now apply Reg); f_equal; rewrite (refs_of_some p ring), decide_False by done; lia.
  - intros p Hp; cbn [length]; destruct (Bs p (proj1 (Reg p) Hp)); lia.
  - intros n p Hp; rewrite Rg1; eauto.
  - intros p Hp; apply Nw; now apply Reg.
Qed.

Hypothesis fresh_ok : forall h, h !! fresh h = None.

Definition op_ok (op : tls_op) : Prop :=
  match op with New alloc zero _ opts => exists c rs, request_ok alloc zero opts c rs | Delete => True end.

Lemma refused_ok e0 init k base s e' : tls_inv e0 init (S k) base s -> registry_ok e' -> e_rings e' = e_rings (th_engine s) ->
  (forall p, registered (th_engine s) p -> e_heap e' !! p = e_heap (th_engine s) !! p) ->
  tls_inv e0 init k base (mkThread e' (th_ring s) (mkTls None None :: th_stack s)).
Proof.
  intros [R C L Ss Rf Bs Gr Ol Nw] R' Rg Hp; assert (Reg : forall p, registered e' p <-> registered (th_engine s) p) by (intros p; unfold registered; now rewrite Rg).
  split; cbn [th_engine th_ring th_stack chain tl_current tl_previous uses]; try done.
  - now apply Reg.
  - intros p; rewrite Reg; unfold refs_of; cbn; apply Ss.
  - intros p H; apply Reg in H; unfold count_of in *; rewrite (Hp p H); pose proof (Rf p H) as E; unfold count_of in E; rewrite E; f_equal; unfold refs_of; cbn; lia.
  - intros p H; cbn [length]; destruct (Bs p (proj1 (Reg p) H)); lia.
  - intros n p H; rewrite Rg; eauto.
  - intros p H; apply Nw; now apply Reg.
Qed.

Lemma new_ok_step e0 init k base s alloc zero name opts c rs : tls_inv e0 init (S k) base s -> request_ok alloc zero opts c rs ->
  exists s' base', tls_step s (New alloc zero name opts) = Some s' /\ tls_inv e0 init k base' s' /\
    length (th_stack s') = S (length (th_stack s)) /\ kept (th_engine s) (th_engine s').
Proof.
  intros Inv Rq; pose proof Inv as [R C L Ss Rf Bs Gr Ol Nw]; destruct s as [e ring st]; cbn [th_engine th_ring th_stack] in *.
  set (p := fresh (e_heap e)); assert (Fp : e_heap e !! p = None) by apply fresh_ok.
  assert (Np : ~ registered e p) by (intros Hp; destruct (registered_ring e p R Hp) as (r & Hr & _); congruence).
  unfold tls_step, tls_new; cbn [th_engine th_ring th_stack]; fold p; destruct (smap_find name (e_rings e)) as [q|] eqn:Fd.
  - pose proof Fd as Hin; apply (smap_find_elem _ _ _ (ro_keys _ R)) in Hin; assert (Lq : registered e q) by (now exists name).
    destruct (registered_ring e q R Lq) as (r & Hr & Ok); assert (Nq : p <> q) by congruence.
    pose proof (Rf q Lq) as Cq; unfold count_of in Cq; rewrite Hr in Cq; injection Cq as Cq; destruct (Bs q Lq) as [Q1 Q2]; pose proof (uses_range q st).
    destruct (add_ring_taken e p q r alloc zero name opts c rs R Fp Rq Fd Hr ltac:(lia)) as (e1 & res & msgs & E & R1 & Rg & _ & _ & Br & _ & Ho).
    assert (Kq : forall r', same_ring r r' -> e_heap e1 !! q = Some r' -> kept e e1).
    { intros r' S Hq'; apply (kept_one e e1 q r r'); [done..|now rewrite Rg|intros x Hx N; apply Ho; [congruence|done]]. }
    rewrite E; cbn [mbind option_bind]; assert (Reg : forall x, registered e1 x <-> registered e x) by (intros x; unfold registered; now rewrite Rg).
    destruct (reuse r).
    + destruct Br as (-> & -> & Hq); cbn [map app].
      destruct (update_ok e0 init k base e1 ring st q) as (e2 & t & m & Eu & Iu & Ku).
      { split; try done; [now apply Reg|now apply Reg|intros x Hx; apply Reg; auto| |intros x Hx; apply Bs; now apply Reg|
          intros n x Hx; rewrite Rg; auto|intros x Hx; apply Nw; now apply Reg].
        intros x Hx; apply Reg in Hx; rewrite refs_of_some; case_decide as D; [subst x|].
        - unfold count_of; rewrite Hq; cbn [option_map]; rewrite (hold_count r) by lia; f_equal; lia.
        - rewrite Z.add_0_r, <- (Rf x Hx); unfold count_of; rewrite Ho; [done|congruence|done]. }
      rewrite Eu; cbn [mbind option_bind]; eexists _, base; split; [reflexivity|]; split; [exact Iu|]; split; [done|].
      apply (kept_trans e e1); [apply (Kq (hold r)); [apply same_ring_hold|exact Hq]|exact Ku].
    + destruct Br as (-> & _ & Hq); eexists _, base; split; [reflexivity|]; split; [|split; [done|apply (Kq r); [apply same_ring_refl|exact Hq]]].
      apply (refused_ok e0 init k base (mkThread e ring st) e1 Inv R1 Rg); cbn [th_engine]; intros x Hx.
      destruct (decide (x = q)) as [->|N]; [congruence|apply Ho; [congruence|done]].
  - destruct (add_ring_new e p alloc zero name opts c rs R Fp Rq Fd) as (e1 & r & msg & E & R1 & Hr & _ & _ & _ & Cr & _ & _ & Em & Ho & _).
    rewrite E; cbn [mbind option_bind]; assert (Reg : forall x, registered e1 x <-> x = p \/ registered e x).
    { intros x; split; [intros [n Hn]; apply Em in Hn as [[= _ ->]|Hn]; [now left|right; now exists n]|].
      intros [->|[n Hn]]; [exists name|exists n]; apply Em; [now left|now right]. }
    assert (Up : uses p st = 0) by (pose proof (uses_range p st); destruct (decide (1 <= uses p st)) as [Hu|Hu]; [destruct (Np (Ss p Hu))|lia]).
    set (base' := fun x => if decide (x = p) then 1 else base x); destruct (Bs ring L) as [L1 L2].
    assert (Bo : forall x, registered e x -> base' x = base x) by (intros x Hx; unfold base'; rewrite decide_False; [done|congruence]).
    destruct (update_ok e0 init k base' e1 ring st p) as (e2 & t & m & Eu & Iu & Ku).
    { split; try done.
      - apply Reg; now right.
      - apply Reg; now left.
      - intros x Hx; apply Reg; right; auto.
      - intros x Hx; rewrite refs_of_some; unfold base'; case_decide as D.
        + subst x; unfold count_of; rewrite Hr; cbn [option_map]; rewrite Cr, Up; done.
        + apply Reg in Hx as [Hx|Hx]; [done|]; rewrite Z.add_0_r, <- (Rf x Hx); unfold count_of; now rewrite Ho.
      - intros x Hx; apply Reg in Hx as [->|Hx]; [unfold base'; rewrite decide_True by done; lia|rewrite (Bo x Hx); now apply Bs].
      - intros n x Hx; apply Em; right; auto.
      - intros x Hx; rewrite Bo; [auto|]; destruct Hx as [n Hn]; exists n; auto.
      - intros x Hx N0; apply Reg in Hx as [->|Hx]; [unfold base'; now rewrite decide_True|rewrite Bo; auto]. }
    rewrite Eu; cbn [mbind option_bind]; eexists _, base'; split; [reflexivity|]; split; [exact Iu|]; split; [done|]; apply (kept_trans e e1); [|exact Ku].
    intros n x rx Hn Hx; split; [apply Em; now right|]; exists rx; rewrite Ho by congruence; split; [done|apply same_ring_refl].
Qed.

Lemma chain_live init e st : (forall p, 1 <= uses p st -> registered e p) -> registered e init -> forall ring, chain init ring st -> registered e ring.
Proof.
  intros Ss Li; induction st as [|t st IH]; intros ring; cbn [chain]; [now intros ->|]; cbn [uses] in Ss.
  assert (St : forall p, 1 <= uses p st -> registered e p).
  { intros p Hp; apply Ss; pose proof (refs_of_range p (tl_previous t)); pose proof (refs_of_range p (tl_current t)); lia. }
  destruct t as [[prev|] [r|]]; cbn [tl_previous tl_current] in *; try done; [|now apply IH].
  intros [-> _]; apply Ss; rewrite (refs_of_some r r), decide_True by done; pose proof (uses_range r st); pose proof (refs_of_range r (Some prev)); lia.
Qed.

Lemma delete_ok_step e0 init k base s t st : tls_inv e0 init k base s -> registered e0 init -> th_stack s = t :: st ->
  exists s', tls_step s Delete = Some s' /\ tls_inv e0 init k base s' /\ th_stack s' = st /\ kept (th_engine s) (th_engine s').
Proof.
  intros [R C L Ss Rf Bs Gr Ol Nw] Li St; destruct s as [e ring st0]; cbn [th_engine th_ring th_stack] in *; subst st0.
  assert (Le : registered e init) by (destruct Li as [n Hn]; exists n; auto).
  assert (St : forall p, 1 <= uses p st -> registered e p).
  { intros p Hp; apply Ss; cbn [uses]; pose proof (refs_of_range p (tl_previous t)); pose proof (refs_of_range p (tl_current t)); lia. }
  unfold tls_step, tls_delete; cbn [th_stack]; destruct t as [[prev|] [r|]]; cbn [tl_current tl_previous chain] in *; try done.
  - destruct C as [-> C]; pose proof (chain_live init e st St Le prev C) as Lp; cbn [uses tl_previous tl_current] in *.
    pose proof (Rf prev Lp) as Cp; pose proof (Rf r L) as Cr; destruct (Bs prev Lp) as [P1 P2], (Bs r L) as [R1 R2]; cbn [length] in P2, R2.
    pose proof (uses_range prev st); pose proof (uses_range r st).
    rewrite (refs_of_some prev prev), decide_True, refs_of_some in Cp by done; rewrite (refs_of_some r r), (decide_True (P := r = r)), refs_of_some in Cr by done.
    destruct (release_registered e prev _ R Lp Cp) as (e1 & E1 & R1' & Rg1 & C1 & O1 & K1); [repeat case_decide; lia|]; cbn [mbind option_bind th_engine th_ring]; rewrite E1; cbn [mbind option_bind].
    assert (Reg1 : forall p, registered e1 p <-> registered e p) by (intros p; unfold registered; now rewrite Rg1).
    destruct (registered_ring e1 r R1' (proj2 (Reg1 r) L)) as (rr & Hr & _); rewrite Hr; cbn [mbind option_bind].
    assert (Cr1 : count_of e1 r = Some (base r + uses r st + 1)).
    { destruct (decide (r = prev)) as [->|N]; [rewrite C1; f_equal; clear Cr; case_decide; [lia|done]|].
      rewrite (count_other e e1 prev r O1 N), Cr; f_equal; case_decide; [done|lia]. }
    destruct (release_registered e1 r _ R1' (proj2 (Reg1 r) L) Cr1) as (e2 & E2 & R2' & Rg2 & C2 & O2 & K2); [lia|]; rewrite E2; cbn [mbind option_bind].
    assert (Reg2 : forall p, registered e2 p <-> registered e p) by (intros p; unfold registered; now rewrite Rg2, Rg1).
    eexists; split; [reflexivity|]; split; [|split; [done|exact (kept_trans e e1 e2 K1 K2)]]; split; cbn [th_engine th_ring th_stack]; try done.
    + now apply Reg2.
    + intros p Hp; apply Reg2; auto.
    + intros p Hp; apply Reg2 in Hp; destruct (decide (p = r)) as [->|Nr]; [rewrite C2; f_equal; lia|].
      rewrite (count_other e1 e2 r p O2 Nr); destruct (decide (p = prev)) as [->|Np].
      * rewrite C1; f_equal; clear Cr Cr1; case_decide; [congruence|lia].
      * rewrite (count_other e e1 prev p O1 Np), (Rf p Hp), !refs_of_some, !decide_False by done; f_equal; lia.
    + intros p Hp; destruct (Bs p (proj1 (Reg2 p) Hp)) as [B1 B2]; cbn [length] in B2; lia.
    + intros n p Hp; rewrite Rg2, Rg1; auto.
    + intros p Hp; apply Nw; now apply Reg2.
  - eexists; split; [reflexivity|]; split; [|split; [done|apply kept_refl]]; split; cbn [th_engine th_ring th_stack uses tl_previous tl_current] in *; try done.
    intros p Hp; destruct (Bs p Hp) as [B1 B2]; cbn [length] in B2; lia.
Qed.

Lemma inv_less e0 init k base s : tls_inv e0 init (S k) base s -> tls_inv e0 init k base s.
Proof. intros [R C L Ss Rf Bs Gr Ol Nw]; split; try done; intros p Hp; destruct (Bs p Hp); lia. Qed.

(** The depth after some operations; [None] when an object is destroyed that is
    not there. *)
Fixpoint depth (n : nat) (ops : list tls_op) : option nat :=
  match ops with
  | [] => Some n
  | New _ _ _ _ :: ops => depth (S n) ops
  | Delete :: ops => match n with O => None | S n => depth n ops end
  end.

(** At every moment of the run, and to its end, what is registered stays. *)
Definition run_keeps (s s' : thread) (ops : list tls_op) : Prop :=
  forall ops1 ops2, ops = ops1 ++ ops2 -> exists s1, tls_run s ops1 = Some s1 /\
    registered (th_engine s1) (th_ring s1) /\ kept (th_engine s1) (th_engine s').

Lemma run_keeps_step s s1 s' op ops : tls_step s op = Some s1 -> registered (th_engine s) (th_ring s) -> kept (th_engine s) (th_engine s1) -> run_keeps s1 s' ops ->
  run_keeps s s' (op :: ops).
Proof.
  intros E L K R [|op1 ops1] ops2; cbn [app]; [intros _|intros [= <- ->]].
  - exists s; do 2 (split; [done|]); destruct (R [] ops eq_refl) as (s2 & [= <-] & _ & K2); now apply (kept_trans _ (th_engine s1)).
  - destruct (R ops1 ops2 eq_refl) as (s2 & E2 & K2); exists s2; split; [|done]; cbn [tls_run]; now rewrite E.
Qed.

Lemma tls_run_ok e0 init ops : forall s base, tls_inv e0 init (length ops) base s -> registered e0 init -> Forall op_ok ops ->
  forall d, depth (length (th_stack s)) ops = Some d ->
  exists s' base', tls_run s ops = Some s' /\ tls_inv e0 init 0 base' s' /\ length (th_stack s') = d /\ run_keeps s s' ops.
Proof.
  induction ops as [|op ops IH]; intros s base Inv Li F d D; cbn [tls_run depth length] in *.
  { injection D as <-; exists s, base; do 3 (split; [done|]); intros [|op ops1] ops2; [intros _; exists s; split; [done|split; [apply (ti_live _ _ _ _ _ Inv)|apply kept_refl]]|done]. }
  apply Forall_cons in F as [Fo F]; destruct op as [alloc zero name opts|].
  - destruct Fo as (c & rs & Rq); destruct (new_ok_step e0 init (length ops) base s alloc zero name opts c rs Inv Rq) as (s1 & b1 & E & I1 & L1 & K1).
    rewrite E; cbn [mbind option_bind]; destruct (IH s1 b1 I1 Li F d) as (s2 & b2 & E2 & I2 & L2 & K2); [now rewrite L1|].
    exists s2, b2; do 3 (split; [done|]); apply (run_keeps_step s s1); try done; apply (ti_live _ _ _ _ _ Inv).
  - destruct (th_stack s) as [|t st] eqn:St; cbn [length] in D; [done|].
    destruct (delete_ok_step e0 init _ base s t st (inv_less _ _ _ _ _ Inv) Li St) as (s1 & E & I1 & L1 & K1); rewrite E; cbn [mbind option_bind].
    destruct (IH s1 base I1 Li F d) as (s2 & b2 & E2 & I2 & L2 & K2); [now rewrite L1|].
    exists s2, b2; do 3 (split; [done|]); apply (run_keeps_step s s1); try done; apply (ti_live _ _ _ _ _ Inv).
Qed.

(** C24: Objects of a thread may be nested in any depth: any sequence of
    constructions, whether they get a new ring, share one that is there or are
    refused, and destructions of the innermost object, with memory for the rings
    and reference counts that stay below 2^31, runs without touching a ring that
    is gone; the thread's pointer is at all times the ring of the
    innermost object that got one.  Every ring that is registered at any moment
    of the run, those that were there and those the objects have added, is still
    registered under its name at the end, with all its records.  When all
    objects are destroyed the pointer is what it was, every ring that was there
    has the references it had, and every ring that was added is an orphan, for
    the engine to collect when it has been read. *)
Theorem tls_nesting e init ops d : registry_ok e -> registered e init -> Forall op_ok ops -> depth 0 ops = Some d ->
  (forall p r, registered e p -> e_heap e !! p = Some r -> _refcnt r + 2 * Z.of_nat (length ops) < 2147483647) ->
  exists s, tls_run (mkThread e init []) ops = Some s /\ length (th_stack s) = d /\ registry_ok (th_engine s) /\
    chain init (th_ring s) (th_stack s) /\ registered (th_engine s) (th_ring s) /\
    (forall ops1 ops2, ops = ops1 ++ ops2 -> exists s1, tls_run (mkThread e init []) ops1 = Some s1 /\
       registered (th_engine s1) (th_ring s1) /\
       forall n p r, (n, p) ∈ e_rings (th_engine s1) -> e_heap (th_engine s1) !! p = Some r ->
       exists r', (n, p) ∈ e_rings (th_engine s) /\ e_heap (th_engine s) !! p = Some r' /\ same_ring r r' /\
         (d = 0%nat -> ~ registered e p -> orphan r' = true)) /\
    (d = 0%nat -> th_ring s = init /\ forall p, registered e p -> count_of (th_engine s) p = count_of e p).
Proof.
  intros R Li F D Sm; set (base := fun p => match e_heap e !! p with Some r => _refcnt r | None => 1 end).
  assert (Inv : tls_inv e init (length ops) base (mkThread e init [])).
  { split; cbn [th_engine th_ring th_stack uses]; try done.
    - intros p Hp; destruct (registered_ring e p R Hp) as (r & Hr & _); unfold count_of, base; rewrite Hr; cbn; f_equal; lia.
    - intros p Hp; destruct (registered_ring e p R Hp) as (r & Hr & Ok); unfold base; rewrite Hr.
      pose proof (rk_ref _ Ok); pose proof (Sm p r Hp Hr); cbn [length]; lia.
    - intros p Hp; destruct (registered_ring e p R Hp) as (r & Hr & _); unfold count_of, base; now rewrite Hr. }
  destruct (tls_run_ok e init ops _ base Inv Li F d D) as (s & base' & E & [R' C L Ss Rf Bs Gr Ol Nw] & Ld & Ks).
  exists s; split; [exact E|]; split; [exact Ld|]; do 3 (split; [done|]); split.
  - intros ops1 ops2 Eq; destruct (Ks ops1 ops2 Eq) as (s1 & E1 & L1 & K1); exists s1; do 2 (split; [done|]).
    intros n p r Hn Hr; destruct (K1 n p r Hn Hr) as (Hn' & r' & Hr' & S); exists r'; do 3 (split; [done|]); intros -> Nr.
    apply nil_length_inv in Ld; rewrite Ld in *; assert (Hp : registered (th_engine s) p) by now exists n.
    pose proof (Rf p Hp) as Cp; unfold count_of in Cp; rewrite Hr', (Nw p Hp Nr) in Cp; injection Cp as Cp.
    unfold orphan; rewrite Cp; reflexivity.
  - intros ->; apply nil_length_inv in Ld; rewrite Ld in *; split; [exact C|]; intros p Hp.
    rewrite (Ol p Hp), Rf by (destruct Hp as [n Hn]; exists n; auto); cbn [uses]; f_equal; lia.
Qed.
End Tls.

(** ** The default engine *)

Section Default.
Context `{Rx : Regex}.
Context `{SortT : StdSort (entry Z) te_timestamp}.
Context `{SortI : forall key, StdSort index_entry key}.

Inductive activation := Threw (what : string) | Active (e : engine) | Undefined.

(** [d] is the address of the default ring and [dr] the ring; [created] is the
    engine the constructor makes. *)
(* src: src/default-engine.cc 60-83 activate *)
Definition activate (default_engine : option engine) (d : Z) (dr : ring) (created : option engine) : activation :=
  match default_engine with
  | Some _ => Threw "hogl::activate default engine already initialized"
  | None =>
      if negb (immortal dr) && negb (shared dr) then Threw "hogl::activate default ring properties not valid"
      else
        match (e ← created; add_ring_ptr (put_ring e d (hold dr)) d) with
        | Some (e, _, _) => Active e
        | None => Undefined
        end
  end.

(** The destructor ends the engine thread, which drains the rings. *)
(* src: src/default-engine.cc 87-99 deactivate *)
Definition deactivate (fuel : nat) (default_engine : option engine) (d : Z) (locks : nat -> list bool) : option (option heap) :=
  match default_engine with
  | None => Some None
  | Some e =>
      e ← release_at e d;
      e ← drain_rings fuel e locks;
      e ← engine_destroy e;
      Some (Some (e_heap e))
  end.
End Default.

(** ** A thread with two objects *)

Definition tls_fresh (h : heap) : Z := fresh (dom h : gset Z).

Lemma tls_fresh_ok h : h !! tls_fresh h = None.
Proof. apply (not_elem_of_dom (D := gset Z)), (is_fresh (dom h : gset Z)). Qed.

Definition tls_ops : list tls_op :=
  [New (fun _ => true) sample_zero "c" (sample_options 0); New (fun _ => true) sample_zero "a" (sample_options 0); Delete; Delete].

Lemma tls_ops_ok : Forall op_ok tls_ops.
Proof. repeat constructor; exists 4, 256; apply sample_request; words; lia. Qed.

Lemma tls_nesting_witness :
  exists s, tls_run tls_fresh (mkThread sample8 2 []) tls_ops = Some s /\ th_ring s = 2 /\ th_stack s = [] /\
    count_of (th_engine s) 2 = Some 2.
Proof.
  destruct (tls_nesting tls_fresh tls_fresh_ok sample8 2 tls_ops 0 sample8_registry) as (s & E & L & _ & _ & _ & _ & H).
  - exists "b"%string; right; left.
  - apply tls_ops_ok.
  - reflexivity.
  - intros p r [n Hn] Hr; apply list_elem_of_In in Hn as [[= <- <-]|[[= <- <-]|[]]]; vm_compute in Hr; injection Hr as <-; reflexivity.
  - destruct (H eq_refl) as (Er & C); exists s; split; [exact E|]; split; [exact Er|]; split; [now apply nil_length_inv|].
    rewrite C by (exists "b"%string; right; left); reflexivity.
Defined.

(** Destroying the outer object first leaves the thread with a ring it holds no
    reference to: the engine may collect it. *)
Lemma tls_out_of_order :
  match tls_run tls_fresh (mkThread sample8 2 []) (take 1 tls_ops ++ [New (fun _ => true) sample_zero "d" (sample_options 0)]) with
  | Some s =>
      match th_stack s with
      | [inner; outer] =>
          match tls_delete (th_engine s) (th_ring s) outer with
          | Some (e, ring, _) =>
              match tls_delete e ring inner with
              | Some (e, ring, _) => option_map orphan (e_heap e !! ring)
              | None => None
              end
          | None => None
          end
      | _ => None
      end
  | None => None
  end = Some true.
Proof. vm_compute; reflexivity. Qed.
