(* ===== verification/CApi.v ===== *)
(** * The C interface (hogl/c-api/, src/c-api.cc)

    C programs post through a macro that looks at the type of each expression;
    everything else are calls of the C++ functions with options copied field by
    field.  Types and sizes are those of 64-bit Linux. *)

From S2P Require Import Prelude Args Record Ring Area Timestamp Tso Post Registry Engine Format OutName Tls.

(** ** Types of C expressions *)

Inductive c_type :=
  | TBool | TChar | TSChar | TUChar | TShort | TUShort | TInt | TUInt | TLong | TULong | TLongLong | TULongLong
  | TFloat | TDouble | TLongDouble
  | TCharArray | TConstCharPtr | TCharPtr | TVoidPtr | TConstVoidPtr | TOtherPtr.

#[export] Instance c_type_dec : EqDecision c_type.
Proof. solve_decision. Defined.

(** [__builtin_types_compatible_p] on these types; arrays of any length count
    as one. *)
Definition compatible (t u : c_type) : bool := bool_decide (t = u).

(** The names of <stdint.h>. *)
Definition uint64_t : c_type := TULong.
Definition int64_t : c_type := TLong.
Definition uint32_t : c_type := TUInt.
Definition int32_t : c_type := TInt.
Definition uint16_t : c_type := TUShort.
Definition int16_t : c_type := TShort.
Definition uint8_t : c_type := TUChar.
Definition int8_t : c_type := TSChar.

(** The values of a type: integers in their range, addresses, and the images
    of floating point numbers. *)
Definition in_type (t : c_type) (x : Z) : Prop :=
  match t with
  | TBool => 0 <= x <= 1
  | TChar | TSChar => - 128 <= x < 128
  | TUChar => 0 <= x < 256
  | TShort => - 32768 <= x < 32768
  | TUShort => 0 <= x < 65536
  | TInt => - 2147483648 <= x < 2147483648
  | TUInt | TFloat => is_u32 x
  | TLong | TLongLong => - 9223372036854775808 <= x < 9223372036854775808
  | _ => is_u64 x
  end.

(* src: include/hogl/c-api/args.h 52-64 hogl_arg_type *)
Definition hogl_arg_type (k : arg_kind) : Z :=
  match k with
  | NONE => 0 | UINT32 => 1 | INT32 => 2 | UINT64 => 3 | INT64 => 4 | POINTER => 5 | DOUBLE => 6
  | CSTR => 7 | GSTR => 8 | XDUMP => 9 | RAW => 10
  end.

(** ** The macro *)

Section Post.
Variable widen : Z -> Z.                (* the image of a float as a double *)
Variable fuel : nat.                    (* for the length of strings *)
Variable m : memory.

(** A null pointer is read. *)
(* src: include/hogl/c-api/post.h 59-64 __hogl_strarg *)
Definition hogl_strarg (str : Z) : option arg :=
  if str =? 0 then None else n ← strlen fuel m str; Some (mkArg (hogl_arg_type CSTR) (u64 str) (u32 n)).

(** [x] is the value of the expression; what is read through a pointer to the
    compatible type is the value again.  The length keeps what was there. *)
(* src: include/hogl/c-api/post.h 67-136 hogl_setarg *)
Definition hogl_setarg (old : arg) (t : c_type) (x : Z) : option arg :=
  if compatible t TCharArray || compatible t TConstCharPtr || compatible t TCharPtr then hogl_strarg x
  else
    let '(type, val) :=
      if compatible t TFloat then (DOUBLE, widen x)
      else if compatible t TDouble then (DOUBLE, x)
      else if compatible t uint64_t then (UINT64, x)
      else if compatible t int64_t then (INT64, u64 x)
      else if compatible t uint32_t then (UINT32, x)
      else if compatible t int32_t then (INT32, u64 x)
      else if compatible t uint16_t then (UINT32, x)
      else if compatible t int16_t then (INT32, u64 x)
      else if compatible t uint8_t then (UINT32, x)
      else if compatible t int8_t then (INT32, u64 x)
      else if compatible t TVoidPtr then (POINTER, x)
      else (NONE, 0) in
    Some (mkArg (hogl_arg_type type) val (a_len old)).

Fixpoint setargs (old : list arg) (l : list (c_type * Z)) : option (list arg) :=
  match l with
  | [] => Some []
  | (t, x) :: l => a ← hogl_setarg (hd (mkArg 0 0 0) old) t x; rest ← setargs (tl old) l; Some (a :: rest)
  end.

(** The functions behind the macro, one for each number of arguments up to
    sixteen: the first [n] elements are posted.  [r] is the thread's ring. *)
(* src: src/c-api.cc 244-347 __hogl_post_1 .. __hogl_post_16 *)
Definition hogl_post_n (n : nat) (ap0 : argpack) (r : ring) (ar : area) (now a s : Z) (arg : list arg) : option post_result :=
  if (1 <=? n)%nat && (n <=? 16)%nat && (n <=? length arg)%nat then post m ap0 r ar now a s (take n arg) else None.

(** The section is tested before the arguments are looked at, and again by the
    function. *)
(* src: include/hogl/c-api/post.h 139-156 hogl_post *)
Definition hogl_post (ap0 : argpack) (r : ring) (ar : area) (now a s : Z) (old : list arg) (l : list (c_type * Z)) : option post_result :=
  t ← area_test ar s;
  if (t : bool) then args ← setargs old l; hogl_post_n (length l) ap0 r ar now a s args else Some Skipped.

(** The C++ constructor for an expression of such a type. *)
Definition cxx_of (t : c_type) (x : Z) : option cxx_value :=
  match t with
  | TBool => Some (Vbool (negb (x =? 0)))
  | TUChar => Some (Vuint8 x) | TUShort => Some (Vuint16 x)
  | TChar | TSChar | TShort | TInt => Some (Vint x)
  | TUInt => Some (Vuint x)
  | TLong => Some (Vlong x) | TULong => Some (Vulong x)
  | TLongLong => Some (Vlonglong x) | TULongLong => Some (Vulonglong x)
  | TFloat => Some (Vdouble (widen x)) | TDouble => Some (Vdouble x)
  | TCharArray | TConstCharPtr | TCharPtr => Some (Vchars x)
  | TVoidPtr | TOtherPtr => Some (Vptr x)
  | TLongDouble | TConstVoidPtr => None           (* ambiguous, or no constructor *)
  end.

(** The types the macro knows. *)
Definition supported (t : c_type) : bool :=
  match t with TBool | TChar | TLongLong | TULongLong | TLongDouble | TConstVoidPtr | TOtherPtr => false | _ => true end.

Definition is_string (t : c_type) : bool := match t with TCharArray | TConstCharPtr | TCharPtr => true | _ => false end.

(** What both interfaces take: a value of a supported type, a string that is
    not null. *)
Definition postable (t : c_type) (x : Z) : Prop :=
  supported t = true /\ in_type t x /\ (t = TFloat -> is_u64 (widen x)) /\ (is_string t = true -> x <> 0).

(** The arguments a C++ caller would make. *)
Fixpoint cxx_args (old : list arg) (l : list (c_type * Z)) : option (list arg) :=
  match l with
  | [] => Some []
  | (t, x) :: l =>
      v ← cxx_of t x; a ← arg_of fuel m (hd (mkArg 0 0 0) old) v; rest ← cxx_args (tl old) l; Some (a :: rest)
  end.

(** ** The macro against the constructors *)

Lemma arg_type_code k : hogl_arg_type k = arg_code k.
Proof. now destruct k. Qed.

Lemma setarg_same old t x : postable t x -> hogl_setarg old t x = (v ← cxx_of t x; arg_of fuel m old v).
Proof.
  intros (S & T & W & N); unfold hogl_setarg, hogl_strarg.
  destruct t; cbn in S, T, N; try discriminate; cbn [compatible bool_decide orb cxx_of mbind option_bind arg_of];
    cbn -[arg_code u64 strlen]; rewrite ?arg_type_code;
    try (specialize (N eq_refl); apply Z.eqb_neq in N; rewrite N);
    try (specialize (W eq_refl)); rewrite ?u64_small by (words; lia); reflexivity.
Qed.

Lemma setargs_same old l : Forall (fun '(t, x) => postable t x) l -> setargs old l = cxx_args old l.
Proof.
  intros F; revert old; induction F as [|[t x] l P F IH]; intros old; [reflexivity|]; cbn [setargs cxx_args].
  rewrite setarg_same by exact P; destruct (cxx_of t x) as [v|]; [|reflexivity]; cbn [mbind option_bind].
  destruct (arg_of fuel m _ v); [|reflexivity]; cbn [mbind option_bind]; now rewrite IH.
Qed.

Lemma setargs_length old l args : setargs old l = Some args -> length args = length l.
Proof.
  revert old args; induction l as [|[t x] l IH]; intros old args E; cbn [setargs] in E; [now injection E as <-|].
  destruct (hogl_setarg _ t x); [|discriminate]; cbn in E.
  destruct (setargs (tl old) l) eqn:R; [|discriminate]; cbn in E; injection E as <-; cbn; now rewrite (IH _ _ R).
Qed.

(** C27: What the macro does with the types of C.  A value of a type it knows
    gets the record type, the value and the length the C++ constructor for it
    gives (a string that is not null); of any other type nothing is taken: the
    argument is NONE with value zero, although for most of these the C++
    interface has a constructor with a type of its own.  Up to sixteen
    arguments of types it knows are posted as the same arguments a C++ caller
    would pass, in the same order, into the same record; nothing is evaluated
    or posted when the section is disabled. *)
Theorem c_post_types :
  (forall old t x, in_type t x -> (t = TFloat -> is_u64 (widen x)) -> (is_string t = true -> x <> 0) ->
     if supported t then hogl_setarg old t x = (v ← cxx_of t x; arg_of fuel m old v)
     else hogl_setarg old t x = Some (mkArg NONE 0 (a_len old)) /\
       (forall v, cxx_of t x = Some v -> exists k y, k <> NONE /\ arg_of fuel m old v = Some (mkArg (arg_code k) y (a_len old)))) /\
  forall ap0 r ar now a s old l, (1 <= length l <= 16)%nat -> Forall (fun '(t, x) => postable t x) l ->
    hogl_post ap0 r ar now a s old l =
      (t ← area_test ar s; if (t : bool) then args ← cxx_args old l; post m ap0 r ar now a s args else Some Skipped).
Proof.
  split.
  - intros old t x T W N; destruct (supported t) eqn:S; [now apply setarg_same|].
    split; [now destruct t|]; intros v V.
    destruct t; try discriminate; injection V as <-; cbn [arg_of]; eauto; eexists _, _; (split; [|reflexivity]); discriminate.
  - intros ap0 r ar now a s old l L F; unfold hogl_post; rewrite <- (setargs_same old) by exact F.
    destruct (area_test ar s) as [[]|]; [|reflexivity..]; cbn [mbind option_bind].
    destruct (setargs old l) as [args|] eqn:E; [|reflexivity]; cbn [mbind option_bind].
    apply setargs_length in E; unfold hogl_post_n.
    rewrite (proj2 (Nat.leb_le _ _)), (proj2 (Nat.leb_le (length l) 16)), (proj2 (Nat.leb_le (length l) (length args))) by lia.
    cbn [andb]; now rewrite <- E, firstn_all.
Qed.
End Post.

(** Three letters behind the address 100. *)
Definition abc_mem : memory := fun a => if a =? 103 then 0 else 65.

Lemma c_post_types_witness :
  hogl_setarg (fun x => x) 8 abc_mem (mkArg 9 9 9) TInt (-1) = Some (mkArg INT32 18446744073709551615 9) /\
  hogl_setarg (fun x => x) 8 abc_mem (mkArg 9 9 9) TBool 1 = Some (mkArg NONE 0 9) /\
  exists r',
    hogl_post (fun x => x) 8 abc_mem demo_pack (demo_ring 0 0) demo_enabled 42 7 1 (replicate 3 (mkArg 9 9 9))
      [(TCharPtr, 100); (TInt, -1); (TVoidPtr, 4096)] = Some (Posted (Pushed r')) /\ _seqnum r' = 6.
Proof.
  destruct (c_post_types (fun x => x) 8 abc_mem) as [T P].
  split; [|split].
  - etransitivity; [apply (T (mkArg 9 9 9) TInt (-1))|reflexivity]; cbn; [lia|discriminate..].
  - apply (T (mkArg 9 9 9) TBool 1); cbn; [lia|discriminate..].
  - eexists; split; [etransitivity; [apply P|vm_compute; reflexivity]|reflexivity].
    + cbn; lia.
    + repeat (apply Forall_cons; split; [repeat split; cbn; try discriminate; words; lia|]); constructor.
Defined.

(** ** Options and masks *)

(* src: include/hogl/c-api/tls.h 49-56 hogl_tls_options *)
Record hogl_tls_options := mkTlsOptions { ring_capacity : Z; ring_priority : Z; c_record_tailroom : Z }.

Section Handles.
Context `{Rx : Regex}.

(** [opts] is the structure behind the pointer, [None] for a null pointer,
    which is read. *)
(* src: src/c-api.cc 223-235 hogl_new_tls *)
Definition hogl_new_tls (e : engine) (ring p : Z) (alloc : Z -> bool) (zero : record) (name : string)
    (opts : option hogl_tls_options) : option (engine * Z * tls * list (Z * message)) :=
  o ← opts;
  let tailroom := if c_record_tailroom o =? 0 then 80 else c_record_tailroom o in
  tls_new e ring p alloc zero name (mkRingOptions (ring_capacity o) (ring_priority o) 0 tailroom).

(** The variable arguments, up to the null pointer that ends them; reading
    past the last one is undefined. *)
Fixpoint va_masks (m : list mask_data) (args : list (option string)) : option (list mask_data) :=
  match args with
  | [] => None
  | None :: _ => Some m
  | Some s :: args => m ← mask_add m s; va_masks m args
  end.

(* src: src/c-api.cc 141-156 hogl_new_mask *)
Definition hogl_new_mask (str : option string) (args : list (option string)) : option (list mask_data) :=
  match str with None => Some [] | Some s => m ← mask_add [] s; va_masks m args end.

(** A list of masks ended by a null pointer is added in order. *)
Lemma hogl_new_mask_adds s l rest :
  hogl_new_mask (Some s) (map Some l ++ None :: rest) = foldl (fun m x => m ← m; mask_add m x) (mask_add [] s) l.
Proof.
  unfold hogl_new_mask; destruct (mask_add [] s) as [m|]; cbn [mbind option_bind].
  - revert m; induction l as [|x l IH]; intros m; cbn; [reflexivity|].
    destruct (mask_add m x); cbn [mbind option_bind]; [apply IH|].
    clear; induction l; [reflexivity|cbn; assumption].
  - induction l; [reflexivity|cbn; assumption].
Qed.
End Handles.
