(* ===== verification/Options.v ===== *)
(** * Options (c-api.cc, c-api/*.h and the defaults of engine.cc, output-file.cc)

    What the C interface makes of the structures it is given: the engine and the
    rotating file that are created, and the wrappers that convert a handle. *)

From S2P Require Import Prelude Args Record Ring Area Timestamp Tso Post Registry Engine EngineFacts RegistryFacts EngineLoop Sample.
From S2P Require Import Tls Ntos Ostrbuf Format FormatSpec Output OutName OutFile Sched.

(** ** Scheduling parameters *)

(* src: include/hogl/c-api/schedparam.h 40-44 hogl_sched_param *)
Record hogl_sched_param := mkSchedParam { c_policy : Z; c_priority : Z; c_cpu_affinity : option bytes }.

(* src: include/hogl/detail/schedparam.hpp 48-50 schedparam::DELETE_ON_EXIT *)
Definition DELETE_ON_EXIT : Z := Z.shiftl 1 0.

(* src: src/schedparam.cc 220-222 schedparam::schedparam *)
Definition schedparam_new (policy priority flags : Z) (cpu_affinity : bytes) : schedparam := mkSched policy priority flags cpu_affinity.

(** The object that is left. *)
(* src: src/schedparam.cc 250-254 schedparam::thread_exit *)
Definition thread_exit (p : schedparam) : option schedparam :=
  if negb (Z.land (sp_flags p) DELETE_ON_EXIT =? 0) then None else Some p.

(** The object the wrappers allocate. *)
Definition c_schedparam (s : hogl_sched_param) : schedparam :=
  schedparam_new (c_policy s) (c_priority s) DELETE_ON_EXIT (default [] (c_cpu_affinity s)).

(** ** The engine *)

(* src: include/hogl/c-api/engine.h 54-60 hogl_engine_options *)
Record hogl_engine_options (M : Type) := mkEngineOptions {
  ce_features : Z; ce_default_mask : option M; ce_polling_interval_usec : Z; ce_tso_buffer_capacity : Z;
  ce_schedparam : hogl_sched_param }.
Arguments ce_features {M}. Arguments ce_default_mask {M}. Arguments ce_polling_interval_usec {M}.
Arguments ce_tso_buffer_capacity {M}. Arguments ce_schedparam {M}.

Section Handles.
Context `{Rx : Regex}.

(** The options of an engine with its mask and its scheduling parameters. *)
Record engine_setup := mkSetup { es_opts : options; es_mask : list mask_data; es_schedparam : option schedparam }.

(** [None] when the library rejects the expression of the mask. *)
(* src: src/engine.cc 56-64 engine::default_options *)
Definition default_options : option engine_setup :=
  m ← mask_new [] [".*:(INFO|WARN|ERROR|FATAL).*"%string];
  Some (mkSetup (mkOptions 10000 4096 0 None) m None).

Definition c_setup (d : engine_setup) (o : option (hogl_engine_options (list mask_data))) : engine_setup :=
  match o with
  | None => d
  | Some o =>
      mkSetup (mkOptions (ce_polling_interval_usec o) (ce_tso_buffer_capacity o) (ce_features o) (opt_timesource (es_opts d)))
        (default (es_mask d) (ce_default_mask o)) (Some (c_schedparam (ce_schedparam o)))
  end.

(** [d] are the default options of the moment, which a program may change; [p]
    is the default ring.  The scheduling parameters go to the engine thread. *)
(* src: src/c-api.cc 88-108 hogl_activate *)
Definition hogl_activate (junk : Z -> Z) (junk_tso : nat -> entry Z) (default_ts : Z) (default_engine : option engine)
    (p : Z) (dr : ring) (d : engine_setup) (o : option (hogl_engine_options (list mask_data))) : activation * option schedparam :=
  let s := c_setup d o in
  (activate default_engine p dr (engine_new junk junk_tso default_ts (es_opts s) (es_mask s)), es_schedparam s).

(** ** Areas and formats *)

(* src: src/c-api.cc 54-58 hogl_area_test *)
Definition hogl_area_test (a : area) (sect : Z) : option bool := area_test a sect.
(* src: src/c-api.cc 60-64 hogl_area_set *)
Definition hogl_area_set (a : area) (sect : Z) : option area := area_set a sect true.
(* src: src/c-api.cc 66-70 hogl_area_set_all *)
Definition hogl_area_set_all (a : area) : area := area_set_all a true.
(* src: src/c-api.cc 72-76 hogl_area_reset *)
Definition hogl_area_reset (a : area) (sect : Z) : option area := area_disable a sect.
(* src: src/c-api.cc 77-81 hogl_area_reset_all *)
Definition hogl_area_reset_all (a : area) : area := area_set_all a false.

(** The default engine is there. *)
(* src: src/c-api.cc 82-85 hogl_add_area *)
Definition hogl_add_area (e : engine) (junk : Z -> Z) (name : string) (sections : option (list string)) :
  option (engine * option string * list message) := add_area e junk name sections.

(* src: src/c-api.cc 131-135 hogl_mask_add *)
Definition hogl_mask_add (m : list mask_data) (s : string) : option (list mask_data) := mask_add m s.
(* src: src/c-api.cc 136-140 hogl_mask_clear *)
Definition hogl_mask_clear (m : list mask_data) : list mask_data := mask_clear m.
(* src: src/c-api.cc 162-166 hogl_apply_mask *)
Definition hogl_apply_mask (e : engine) (m : list mask_data) : option engine := apply_mask e m.

(* src: src/c-api.cc 237-241 hogl_delete_tls *)
Definition hogl_delete_tls (e : engine) (ring : Z) (t : tls) : option (engine * Z * list (Z * message)) := tls_delete e ring t.

(** [run] is what the engine does with the ring while the thread waits. *)
(* src: src/c-api.cc 349-352 hogl_flush *)
Definition hogl_flush (run : nat -> ring -> ring) (fuel : nat) (r : ring) (now : Z) : option (bool * ring * nat) :=
  flush run fuel r now 10000000.

(* src: src/c-api.cc 115-123 hogl_new_format_basic *)
Definition hogl_new_format_basic (fields : option string) : format_state :=
  match fields with Some f => format_basic (parse_fields (Some f)) | None => format_basic DEFAULT end.

Section Deactivation.
Context `{SortT : StdSort (entry Z) te_timestamp}.
Context `{SortI : forall key, StdSort index_entry key}.

(* src: src/c-api.cc 109-112 hogl_deactivate *)
Definition hogl_deactivate (fuel : nat) (default_engine : option engine) (p : Z) (locks : nat -> list bool) : option (option heap) :=
  deactivate fuel default_engine p locks.
End Deactivation.

(** ** Rotating files *)

(* src: include/hogl/c-api/output.h 69-75 hogl_output_options *)
Record hogl_output_options := mkOutputOptions {
  co_perms : Z; co_max_size : Z; co_max_count : Z; co_buffer_capacity : Z; co_schedparam : hogl_sched_param }.

(* src: include/hogl/output-file.hpp 82-88 output_file::options *)
Record file_options := mkFileOptions {
  fo_perms : Z; fo_max_size : Z; fo_max_count : Z; fo_buffer_capacity : Z; fo_schedparam : option schedparam }.

(* src: src/output-file.cc 92-98 output_file::default_options *)
Definition default_file_options : file_options := mkFileOptions 438 (1 * 1024 * 1024 * 1024) 128 8192 None.

Definition c_file_options (d : file_options) (o : option hogl_output_options) : file_options :=
  match o with
  | None => d
  | Some o => mkFileOptions (co_perms o) (co_max_size o) (co_max_count o) (co_buffer_capacity o) (Some (c_schedparam (co_schedparam o)))
  end.

(** The file that is opened, and the capacity of its buffer. *)
(* src: src/c-api.cc 182-199 hogl_new_output_file *)
Definition hogl_new_output_file (d : file_options) (s : fs) (link : bool) (name : bytes) (o : option hogl_output_options) : option (ofile * Z) :=
  let fo := c_file_options d o in
  f ← output_file_new s (fo_max_size fo) (fo_max_count fo) name link; Some (f, u32 (fo_buffer_capacity fo)).

(** The other outputs, with the capacities their constructors take by default. *)
Section Outputs.
Context `{Fm : Formatter F}.
Variable malloc : Z -> bool.

(* src: src/c-api.cc 169-174 hogl_new_output_stdout *)
Definition hogl_new_output_stdout (file : stdio_state) (f : F) : out_state F stdio_state := output_stdout malloc file f 8192.
(* src: src/c-api.cc 175-180 hogl_new_output_stderr *)
Definition hogl_new_output_stderr (file : stdio_state) (f : F) : out_state F stdio_state := output_stderr malloc file f 8192.
(* src: src/c-api.cc 202-207 hogl_new_output_plainfile *)
Definition hogl_new_output_plainfile (opened : bool) (next : list outcome) (name : bytes) (f : F) : option (out_state F fd_state) :=
  output_plainfile malloc opened next name f 8129.
(* src: src/c-api.cc 209-214 hogl_new_output_pipe *)
Definition hogl_new_output_pipe (opened : bool) (next : list outcome) (f : F) : option (out_state F stdio_state) :=
  output_pipe malloc opened next f 8192.
(* src: src/c-api.cc 216-220 hogl_delete_output *)
Definition hogl_delete_output `{Stream U} (o : out_state F U) : out_state F U := output_delete o.
End Outputs.

(** What the thread frees: the parameters the wrappers made. *)
Lemma c_schedparam_freed x : thread_exit (c_schedparam x) = None.
Proof. reflexivity. Qed.

(** Activation from C: while no engine is active and the default ring may be
    used, the engine comes into being with the features, the interval and the
    capacity of the structure, with its mask or else the default one and with
    the default time source; it serves the default ring, which gets one
    reference for being in use and one for the registry, and nothing else.  The
    parameters of its thread are freed by the thread; without a structure the
    defaults hold, and nothing is allocated. *)
Theorem c_activation junk junk_tso ts p dr d o : let s := c_setup d o in
  immortal dr || shared dr = true -> ring_ok dr -> _refcnt dr <= 2147483645 ->
  exists e r, hogl_activate junk junk_tso ts None p dr d o = (Active e, es_schedparam s) /\
    e_opts e = es_opts s /\ e_mask e = es_mask s /\
    e_rings e = [(_name dr, p)] /\ e_heap e = <[p := r]> ∅ /\ same_ring dr r /\ _refcnt r = _refcnt dr + 2 /\
    _timesource r = default ts (opt_timesource (es_opts d)) /\ e_index e = [] /\ e_dirty e = true /\
    match o with
    | None => s = d
    | Some o => e_mask e = default (es_mask d) (ce_default_mask o) /\
    opt_features (e_opts e) = ce_features o /\ opt_polling_interval_usec (e_opts e) = ce_polling_interval_usec o /\
    opt_tso_buffer_capacity (e_opts e) = ce_tso_buffer_capacity o /\
    exists sp, es_schedparam s = Some sp /\ sp_policy sp = c_policy (ce_schedparam o) /\ thread_exit sp = None
    end.
Proof.
  intros s Im [_ _ Rf] Sm.
  assert (Ts : opt_timesource (es_opts s) = opt_timesource (es_opts d)) by (unfold s; now destruct o).
  assert (Rh : _refcnt (hold (hold dr)) = _refcnt dr + 2) by (rewrite !hold_count; rewrite ?hold_count; lia).
  unfold hogl_activate; fold s; unfold activate, engine_new.
  destruct (internal_area_made junk (es_mask s)) as (a & -> & _ & _); cbn [mbind option_bind].
  replace (negb (immortal dr) && negb (shared dr)) with false by (now destruct (immortal dr), (shared dr)).
  unfold add_ring_ptr; cbn [e_heap put_ring with_heap e_rings]; rewrite lookup_insert_eq; cbn [mbind option_bind smap_insert].
  eexists _, _; split; [reflexivity|]; cbn; rewrite insert_insert_eq.
  do 3 (split; [done|]); split; [reflexivity|].
  split; [repeat split|]; split; [exact Rh|].
  split; [rewrite Ts; now destruct (opt_timesource (es_opts d))|]; do 2 (split; [done|]).
  unfold s, c_setup; destruct o as [o|]; [|done]; cbn; repeat (split; [done|]); eexists; split; [reflexivity|done].
Qed.
End Handles.

(** ** An activation, concretely *)

Definition default_sample : ring :=
  mkRing "DEFAULT" (Z.lor SHARED IMMORTAL) 0 8 128 3 1 false 9 0 0 0 3 (replicate 4 (sample_record 0 0)).

Definition sample_engine_options : hogl_engine_options (list mask_data) :=
  mkEngineOptions _ 0 None 500 64 (mkSchedParam 1 20 (Some (str "list:0-3"))).

Lemma c_activation_example : exists d e sp,
  default_options = Some d /\
  hogl_activate (fun i => i) (fun _ => mkEntry 0 0 0%nat) 9 None 7 default_sample d (Some sample_engine_options) = (Active e, Some sp) /\
  opt_polling_interval_usec (e_opts e) = 500 /\ map md_on (e_mask e) = [true] /\ e_rings e = [("DEFAULT"%string, 7)] /\
  sp_cpu_affinity sp = str "list:0-3" /\ thread_exit sp = None.
Proof.
  destruct default_options as [d|] eqn:D; [|vm_compute in D; done].
  assert (Ok : ring_ok default_sample) by (apply ring_check_ok; vm_compute; reflexivity).
  destruct (c_activation (fun i => i) (fun _ => mkEntry 0 0 0%nat) 9 7 default_sample d (Some sample_engine_options) eq_refl Ok)
    as (e & r & A & _ & M & Rg & _ & _ & _ & _ & _ & _ & _ & _ & P & _ & sp & S & _ & T).
  { vm_compute; congruence. }
  exists d, e, sp; split; [done|]; split; [rewrite A; now rewrite S|]; split; [exact P|]; split; [|split; [exact Rg|split; [|exact T]]].
  - rewrite M; vm_compute in D; injection D as <-; reflexivity.
  - cbn in S; injection S as <-; reflexivity.
Qed.
